(* ===== verification/_CoqProject ===== *)
-Q . S2P
Prelude.v
Bytes.v
Common.v
Buffer.v
Codec.v
Controller.v
Service.v
RpcServer.v
Inet.v
RpcChannel.v
System.v
LoadBalancer.v
Registry.v
Eviction.v
LoadBalanceChannel.v
ServiceNode.v
Heartbeat.v
Poller.v
TcpConnection.v
EventLoop.v
ThreadPool.v
Futures.v
Lifetime.v
TcpServer.v
Socket.v
Pipeline.v
Serial.v
Progress.v
Reclaim.v
Reactor.v
Feed.v
Loopback.v
RegistryServer.v
NodeRpc.v
Programs.v
Tools.v
Clients.v
Cluster.v
