(* ===== verification/Prelude.v ===== *)
(** * MiniRPC: a verification library

    MiniRPC is a C++17 RPC framework. A client stub calls [RpcChannel] (one server) or
    [LoadBalanceChannel] (the nodes of a service, found through a registry); the channel wraps the
    call in a protobuf envelope and a 24-byte frame and waits for the response frame with the
    call's sequence number. On the other side [TcpServer] accepts connections and spreads them
    over event loops; a [TcpConnection] buffers bytes in a [Buffer]; [RpcServer] decodes frames on
    the loop thread, hands requests to a [ThreadPool], finds service and method by name in its
    [ServiceRegistry], and sends the reply. [RegistryServiceImpl] is the registry, an RPC service
    itself, and [RpcServiceNode] a server that registers there and sends heartbeats. The programs
    are the registry server, a calculator and an echo server with their clients, and a benchmark.

    The definitions are executable translations of the C++ functions and keep their names. Byte
    strings are lists of characters, machine integers are [Z] with the wrap-around written out,
    sizes and positions are [nat]. System calls, the clock, protobuf, [std::hash] and the iteration
    order of hash maps are not part of the repository: they are parameters, type classes or
    arguments (outcomes), with what the code relies on as laws, and each class of laws has an
    instance. Code that runs in one thread or under one mutex is a function on states; code whose
    threads interleave is a step function [state -> label -> option state] whose sequences of
    steps ([steps], notation [s =[ step | ls ]=> s']) are all the interleavings.

    ** Files

    - [Prelude]: bytes, integers, results of code that throws, tactics, the rewriting database
      [len], step systems and their induction principles.
    - [Bytes]: byte order, decimal text, [atoi], [rfind] and the order of [std::string].
    - [Common]: ErrorCode.h/.cpp and Logger.h/.cpp.
    - [Buffer]: net/Buffer. The class [ByteQueue] with [ByteQueueLaws] is what a buffer promises
      to its clients; [Buffer] and plain byte lists implement it.
    - [Codec]: codec/Protocol.h and codec/Codec.cpp over any [ByteQueue] and either byte order;
      [decode_spec] and [parse_frames] are the specification on plain bytes; [while_decode] is the
      decoding loop that server and client share.
    - [Controller]: rpc/RpcController and the controller pointers of the channels.
    - [Service]: the protobuf envelope as class [Envelope] with [EnvelopeLaws], services as
      records of functions, and rpc/ServiceRegistry.
    - [RpcServer]: rpc/RpcServer over any pool (class [TaskPool]); [reply_for] specifies the reply
      to a request.
    - [Inet]: net/InetAddress.
    - [RpcChannel]: rpc/RpcChannel over any [Kernel]; [KernelTrace] says that the kernel's ghost
      traces record what was sent and received, [KernelProgress] that time passes; module [Script]
      is a kernel that plays a script.
    - [System]: what a call can conclude from the replies of a server, over one connection.
    - [LoadBalancer]: rpc/LoadBalancer, both policies.
    - [Registry]: registry/RegistryServiceImpl; [run] is any history of calls and evictions.
    - [Eviction]: its eviction thread and destructor, with the calls of other threads, over a
      clock.
    - [LoadBalanceChannel]: rpc/LoadBalanceChannel (module [LB]) over any [NodeChannel]; the
      channel of [RpcChannel] is an instance and satisfies [NodeChannelLaws].
    - [ServiceNode]: the calls of rpc/RpcServiceNode over any [RegistryStub], with [Registry]
      behind it.
    - [Heartbeat]: the heartbeat thread of rpc/RpcServiceNode and the node's owner, at each access
      of what they share, over a clock.
    - [Poller]: net/Channel and net/EpollPoller over epoll's interest list and the open descriptors,
      and what the destructors of net/EventLoop, net/TcpConnection and net/TcpServer do to them.
    - [TcpConnection]: net/TcpConnection, the calls made on its loop thread.
    - [EventLoop]: net/EventLoop, the loop thread and the threads that post to it, and the
      destructor of net/EventLoopPool.
    - [ThreadPool]: thread/ThreadPool, submitters, workers and destructor.
    - [Futures]: the submission interface of thread/ThreadPool (futures, callbacks, log lines, the
      end of the pool) over the step system of [ThreadPool].
    - [Lifetime]: the references that keep a connection alive while net/Channel dispatches its
      events to net/TcpConnection and net/TcpServer.
    - [TcpServer]: net/EventLoopPool and net/TcpServer.
    - [Socket]: net/Socket over the class [Sockets] of system calls, and the construction, start
      and accept loop of net/TcpServer over its listening socket.
    - [Pipeline]: construction and start of rpc/RpcServer, and the server at work: loop threads,
      connections, pool and services as one step system ([server_exec]), against which a client's
      calls are judged.
    - [Serial]: the server that handles one request at a time, which [Pipeline] refines.
    - [Progress]: a measure of the work left in [Pipeline], and that its threads use it up.
    - [Reclaim]: the shared and weak pointers to connections along the steps of [Pipeline], and the
      use of them by the destructor of net/TcpConnection.
    - [Reactor]: the server with its loops, each an [EventLoop] with its queue of functors, which
      refines [Pipeline].
    - [Feed]: what [Pipeline] does from rest to rest, when a connection is made, a request
      arrives or a connection ends.
    - [Loopback]: a machine whose [Kernel] connects the sockets of [RpcChannel] with a server of
      [Pipeline]; the class [Schedule] says when the server's threads run.
    - [RegistryServer]: registry/registry_server.cpp, the registry as a service of [RpcServer].
    - [NodeRpc]: the [RegistryStub] of [RpcServiceNode] as calls of [RpcChannel], on the machine of
      [Loopback] with a registry server.
    - [Programs]: the servers under examples/; [Tools]: the echo clients and the benchmark's
      statistics; [Clients]: the RPC clients and the benchmark over any [NodeChannel], with the
      class [Healthy] for what they ask of a cluster.
    - [Cluster]: a registry server and the servers of the nodes, each on a machine of [Loopback],
      behind the balanced channel; an instance of [Healthy].

    ** What is proved

    - Bytes on the wire: a buffer is a FIFO queue and no access leaves its block; encoding and
      decoding are inverse across hosts and across any segmentation of the stream; decoding
      accepts exactly encodings and waits for partial frames.
    - The server: over any segmentation, every request frame is submitted or refused, and each
      served request gets exactly one reply with its sequence number, the one [reply_for] gives on
      every branch, errors included.
    - The client: a call that succeeds was answered by a frame with its own number; attempts are
      bounded and follow only timeouts; the call returns.
    - Both together, over any interleaving of the server's threads and connections:
      [one_reply_per_request] accounts for every request a connection has read; [end_to_end] shows
      that what a successful call returns is the reply of the service to that request, and
      [error_end_to_end] the same of the errors a service reports. [server_linearizes]: every
      interleaving is explained by one order of the requests. [server_answers]: the threads never
      stop before every request read is answered, and do so within a number of steps computed
      from the state. [loopback_call]: client, kernel and server as one system; the call returns
      and the service has run exactly once. [loops_refine_pipeline]: loops that dispatch events and
      run functors in order, as [EventLoop] does, make only runs of the server judged here;
      [queued_replies_delivered]: no reply waits for a sleeping loop.
    - The registry: discovery lists exactly the live nodes; heartbeats keep a node listed; silence
      evicts it for good, and from the table within a bound on the thread's delays
      ([stale_entries_bounded]); eviction and hash-map order are invisible to clients. The registry
      program refines the registry over RPC, and no message makes its table ill-formed.
    - A service node: in any interleaving of its threads the registry sees the registration, then
      heartbeats an interval apart, and none after the unregistration ([registry_sees]); stopping
      ends ([stop_returns]); over the wire, through [RpcChannel] and a running registry server, the
      node is listed from its registration to its unregistration as long as its heartbeats come
      in time ([node_over_rpc]).
    - Load balancing: round robin is fair; consistent hashing selects clockwise, and removing a
      node moves only its keys; a balanced call goes to the node of the policy and is retried at most
      once, on another node of the refreshed list, and only after a connection-level failure, when
      the registry lists no address twice; the balanced client spreads its calls evenly over a
      healthy cluster. [cluster_call]: channel, registry server and node servers as one system; one
      listed node runs the request, once, and its reply is the caller's, unless the reply carries a
      code of a broken connection, which makes a second node run it ([service_error_runs_twice]).
      [lb_client_on_cluster]:
      the client program over the registry program and the node programs.
    - The network layer: epoll mirrors the channels made, changed, removed and destroyed on a loop, as
      long as a channel is unregistered before it or its descriptor goes; output is neither lost nor reordered and
      drains; what epoll reports reaches live channels that asked for it; functors posted to a
      loop run once, in order, and are not slept on; the accept loop drains the queue; the pool
      runs every accepted task at most once and loses none, by priority, its futures are completed
      once and its callbacks kept in order; the connection table holds exactly the open
      connections; a connection is destroyed once, not while a callback or a task uses it, with
      nothing registered, and none leaks ([connections_destroyed_once],
      [closed_connections_freed]).
    - The programs: the calculator answers what its operator says, its client prints it, the echo
      server loses nothing, the echo client prints its input and the stress test passes on a
      faithful echo, a node's program registers and serves, the benchmark measures every call and
      its numbers are consistent.
    - Behaviours that contradict the code's intent: oversize frames, input kept across
      reconnection, dead descriptors reused, a surviving node not tried, a request run again on
      another node because a service reported a failure of its own, evicted nodes that never
      return, shutdowns that never happen, lost quits, functors that wait out the poll, a
      destructor that can hang, cached pools that lose their initial threads, a channel read
      after its connection was destroyed, an echo that comes back reordered, a stop whose
      notification is missed, an accept channel destroyed while registered, after which a channel
      with the same descriptor number is not watched ([stale_registration]).

    ** Bounds and fuel

    The decoding loops consume at least a header per turn, so the number of unread bytes plus one
    is fuel enough: [while_decode] is called with it, and [while_decode_total] shows it ends. The
    loops of [RpcChannel] depend on the kernel and take fuel; every statement about their result
    is for the calls that return, and [call_returns] shows that all do within an explicit bound
    when time passes. [accept_loop] takes fuel, and one turn more than connections wait is enough
    ([accept_loop_drains]). [loopback_call], [node_over_rpc] and [cluster_call] ask for fuel for
    the bytes of the request and of the reply, and for a timeout longer than that many looks at
    the clock;
    [eager] runs the server's threads for [server_work] steps, which [eager_rests] shows to be
    enough. Everything else is structural recursion or total. [round_robin_fair] assumes
    that the 64-bit counter does not wrap, [connection_table] fewer than 2^31 accepts.

    ** What is not modelled

    Log output, except the logger itself and what the pool logs about its tasks; [Noncopyable],
    which has no behaviour; the protobuf runtime and the generated code, which are parameters;
    stream formatting and signals; the rate the benchmark prints, computed in floating point, and
    its output file; memory orders weaker than sequential consistency. A service method, and a
    function given to the pool, is one atomic step. The submitter's wait on a full queue of the pool,
    up to 60 s, is a step that may come late or an immediate refusal: more runs than the code has.
    The laws of [Envelope] and [RegistryMessages] are those of protobuf for any strings and codes:
    its check that a proto3 [string] is UTF-8 and the 32-bit range of [error_code] are left out. In
    [Reclaim] the steps of a loop are
    whole callbacks; what [handleEvent] reads after one is in [Lifetime]. The channel of the
    heartbeat thread is not closed at the thread's end.

    The destruction of [RpcServer] and [LoadBalanceChannel] as a whole is not modelled: in the
    programs they live as long as [main], and while the loops of an I/O pool run the order of the
    members leaves their callbacks dangling, which no theorem could exclude. *)
From stdpp Require Import base list gmap strings sorting numbers.
From Stdlib Require Import Ascii ZArith Lia.

(** ** Bytes and machine integers *)

(** A [std::string] and the content of a [char] array: a list of 8-bit characters. *)
Abbreviation bytes := (list ascii).

(** A string literal of the source. *)
Definition lit (s : string) : bytes := String.list_ascii_of_string s.

(** The value of an unsigned [w]-bit expression: arithmetic wraps modulo [2^w]. *)
Definition wrap (w z : Z) : Z := (z mod 2 ^ w)%Z.
Definition u16 : Z -> Z := wrap 16.
Definition u32 : Z -> Z := wrap 32.
Definition u64 : Z -> Z := wrap 64.
(** [static_cast<int32_t>] (two's complement). *)
Definition i32 (z : Z) : Z := ((z + 2 ^ 31) mod 2 ^ 32 - 2 ^ 31)%Z.

(** [z] is representable in [w] unsigned bits. *)
Definition fits (w z : Z) : Prop := (0 <= z < 2 ^ w)%Z.

Definition Z_of_byte (a : ascii) : Z := Z.of_N (N_of_ascii a).
Definition byte_of_Z (z : Z) : ascii := ascii_of_N (Z.to_N (z mod 256)).

(** ** Results of fallible code *)

(** A thrown [std::exception], identified by its [what()]. *)
Inductive exn :=
| std_exception (what : bytes).

Definition what (e : exn) : bytes := let 'std_exception w := e in w.

Inductive result (A : Type) :=
| Ok (a : A)
| Throw (e : exn).
Arguments Ok {A} a.
Arguments Throw {A} e.

#[export] Instance exn_eq_dec : EqDecision exn.
Proof. solve_decision. Defined.

(** ** Tactics and hints *)

(** Boolean comparisons in the context, as propositions [lia] understands. *)
Ltac reflect_tests :=
  rewrite ?negb_true_iff, ?negb_false_iff, ?andb_true_iff, ?orb_false_iff, ?Nat.ltb_lt,
    ?Nat.ltb_ge, ?Nat.leb_le, ?Nat.leb_gt, ?Nat.eqb_eq, ?Nat.eqb_neq, ?Z.ltb_lt, ?Z.ltb_ge,
    ?Z.leb_le, ?Z.leb_gt, ?Z.eqb_eq, ?Z.eqb_neq in *.

(** Length equations of the list operations the models use. *)
Create Rewrite HintDb len.
#[export] Hint Rewrite @length_app @length_take @length_drop @length_replicate
  @length_map @length_rev @length_fmap : len.
Ltac len := autorewrite with len in *; cbn [length] in *; try lia.

Create HintDb rpc.

(** ** Bytes *)

Section ByteFacts.
Local Open Scope Z_scope.

Lemma Z_of_byte_range a : 0 <= Z_of_byte a < 256.
Proof. unfold Z_of_byte. pose proof (N_ascii_bounded a). lia. Qed.

Lemma byte_of_Z_of_byte a : byte_of_Z (Z_of_byte a) = a.
Proof.
  unfold byte_of_Z. rewrite Z.mod_small by apply Z_of_byte_range.
  unfold Z_of_byte. by rewrite N2Z.id, ascii_N_embedding.
Qed.

Lemma Z_of_byte_of_Z z : Z_of_byte (byte_of_Z z) = z mod 256.
Proof.
  unfold Z_of_byte, byte_of_Z. pose proof (Z.mod_pos_bound z 256 ltac:(lia)).
  rewrite N_ascii_embedding by lia. lia.
Qed.

Lemma wrap_fits w z : 0 <= w -> fits w (wrap w z).
Proof. intros. apply Z.mod_pos_bound. lia. Qed.

Lemma wrap_small w z : fits w z -> wrap w z = z.
Proof. apply Z.mod_small. Qed.

Lemma i32_small z : -2 ^ 31 <= z < 2 ^ 31 -> i32 z = z.
Proof. intros. unfold i32. rewrite Z.mod_small; lia. Qed.

End ByteFacts.

(** ** Lists *)

Section ListFacts.
Context {A : Type}.
Implicit Types l k s : list A.

(** Two updates that agree on the element updated. *)
Lemma alter_agree (f g : A -> A) i l :
  (forall x, l !! i = Some x -> f x = g x) -> alter f i l = alter g i l.
Proof.
  revert i. induction l as [|y l IH]; intros [|i] H; cbn; try done.
  - by rewrite (H y).
  - f_equal. by apply IH.
Qed.
End ListFacts.

(** ** Step systems *)

Section Steps.
Context {St Label : Type} (step : St -> Label -> option St).

(** A sequence of steps, each possible where it is made. *)
Fixpoint steps (s : St) (ls : list Label) : option St :=
  match ls with
  | [] => Some s
  | l :: ls => match step s l with Some s' => steps s' ls | None => None end
  end.

Lemma steps_app s ls ls' s' :
  steps s (ls ++ ls') = Some s' <-> exists m, steps s ls = Some m /\ steps m ls' = Some s'.
Proof.
  revert s. induction ls as [|l ls IH]; intros s; cbn [app steps].
  - split; [by exists s|]. by intros (m & [= <-] & ?).
  - destruct (step s l); [apply IH|]. split; [done|]. by intros (m & ? & _).
Qed.

(** The state a sequence of steps ends in, when it gets through. *)
Lemma steps_default s ls d :
  (if steps s ls then true else false) = true -> steps s ls = Some (default d (steps s ls)).
Proof. by destruct (steps s ls). Qed.

(** What every step preserves holds after any sequence of them; the second form looks only at
    the steps of the sequence. *)
Lemma steps_inv (P : St -> Prop) s ls s' :
  (forall s l s', P s -> step s l = Some s' -> P s') -> P s -> steps s ls = Some s' -> P s'.
Proof.
  intros Hstep. revert s. induction ls as [|l ls IH]; intros s Hs; cbn [steps].
  { by intros [= <-]. }
  destruct (step s l) as [s1|] eqn:H1; [|done]. apply IH. by eapply Hstep.
Qed.

Lemma steps_inv_labels (Q : Label -> Prop) (P : St -> Prop) s ls s' :
  (forall s l s', Q l -> P s -> step s l = Some s' -> P s') ->
  Forall Q ls -> P s -> steps s ls = Some s' -> P s'.
Proof.
  intros Hstep Hls. revert s. induction Hls as [|l ls Hl _ IH]; intros s Hs; cbn [steps].
  { by intros [= <-]. }
  destruct (step s l) as [s1|] eqn:H1; [|done]. apply IH. by eapply Hstep.
Qed.

(** Induction on the history of a state. *)
Lemma steps_history (R : list Label -> St -> Prop) s ls s' :
  (forall ls s l s', R ls s -> step s l = Some s' -> R (ls ++ [l]) s') ->
  R [] s -> steps s ls = Some s' -> R ls s'.
Proof.
  intros Hstep Hs. revert s'. induction ls as [|l ls IH] using rev_ind; intros s'.
  { by intros [= <-]. }
  rewrite steps_app. intros (m & Hm & Hl). cbn [steps] in Hl.
  destruct (step m l) eqn:H1; [|done]. injection Hl as <-. eapply Hstep; [by apply IH|done].
Qed.
End Steps.

Declare Scope rpc_scope.
Delimit Scope rpc_scope with rpc.

Notation "s =[ step | ls ]=> s'" := (steps step s ls = Some s')
  (at level 70, step at level 69, ls at level 69, format "s  =[ step | ls ]=>  s'") : rpc_scope.
Open Scope rpc_scope.
