(* ===== verification/Bytes.v ===== *)
(** Representation of integers in memory and as text: the parts of libc and of the C++
    standard library on which the wire format and the node keys rest. *)
From stdpp Require Import base list strings numbers.
From Stdlib Require Import Ascii ZArith Lia.
From S2P Require Import Prelude.

(** ** Memory representation and network byte order *)

Inductive endian := LittleEndian | BigEndian.

(** The [n] low-order bytes of [v], least significant first. *)
Fixpoint le_bytes (n : nat) (v : Z) : bytes :=
  match n with
  | O => []
  | S n => byte_of_Z v :: le_bytes n (v / 256)
  end.

Fixpoint le_value (bs : bytes) : Z :=
  match bs with
  | [] => 0
  | b :: bs => Z_of_byte b + 256 * le_value bs
  end.

Definition be_bytes (n : nat) (v : Z) : bytes := rev (le_bytes n v).
Definition be_value (bs : bytes) : Z := le_value (rev bs).

(** The bytes of an [n]-byte unsigned object of value [v] on a host, and their [memcpy] back. *)
Definition mem_repr (host : endian) (n : nat) (v : Z) : bytes :=
  match host with LittleEndian => le_bytes n v | BigEndian => be_bytes n v end.
Definition mem_load (host : endian) (bs : bytes) : Z :=
  match host with LittleEndian => le_value bs | BigEndian => be_value bs end.

(** Byte swap of an [n]-byte integer. *)
Definition bswap (n : nat) (v : Z) : Z := le_value (rev (le_bytes n v)).

(** [htons]/[htonl]/[htobe64] and [ntohs]/[ntohl]/[be64toh]: a swap on a little-endian host. *)
Definition hton (host : endian) (n : nat) (v : Z) : Z :=
  match host with LittleEndian => bswap n v | BigEndian => v end.
Definition ntoh : endian -> nat -> Z -> Z := hton.

(** ** Decimal text *)

Definition digit (d : Z) : ascii := byte_of_Z (48 + d).
Definition is_digit (c : ascii) : bool := (48 <=? Z_of_byte c)%Z && (Z_of_byte c <=? 57)%Z.
Definition is_space (c : ascii) : bool :=
  (Z_of_byte c =? 32)%Z || ((9 <=? Z_of_byte c)%Z && (Z_of_byte c <=? 13)%Z).

Fixpoint digits (fuel : nat) (n : Z) : bytes :=
  match fuel with
  | O => []
  | S f => if (n <? 10)%Z then [digit n] else digits f (n / 10) ++ [digit (n mod 10)]
  end.

(** [std::to_string] of an integer. *)
Definition to_string (z : Z) : bytes :=
  if (z <? 0)%Z then lit "-" ++ digits (S (Z.to_nat (Z.log2 (- z)))) (- z)
  else digits (S (Z.to_nat (Z.log2 z))) z.

Fixpoint strtol_digits (acc : Z) (s : bytes) : Z :=
  match s with
  | c :: s' => if is_digit c then strtol_digits (acc * 10 + (Z_of_byte c - 48)) s' else acc
  | [] => acc
  end.

Fixpoint skip_spaces (s : bytes) : bytes :=
  match s with
  | c :: s' => if is_space c then skip_spaces s' else s
  | [] => []
  end.

(** [strtol] in base 10, which saturates to [long]. *)
Definition strtol (s : bytes) : Z :=
  let v := match skip_spaces s with
           | c :: s' => if bool_decide (c = "-"%char) then - strtol_digits 0 s'
                        else if bool_decide (c = "+"%char) then strtol_digits 0 s'
                        else strtol_digits 0 (c :: s')
           | [] => 0%Z
           end%Z in
  Z.max (- 2 ^ 63) (Z.min (2 ^ 63 - 1) v).

(** [std::atoi] on a NUL-terminated string: [strtol] cast to [int]. *)
Definition atoi (s : bytes) : Z := i32 (strtol s).

(** ** Searching and comparing strings *)

(** [s.rfind(c)] and [s.find_last_of(c)]; [None] is [npos]. *)
Fixpoint rfind (c : ascii) (s : bytes) : option nat :=
  match s with
  | [] => None
  | x :: s' => match rfind c s' with
               | Some i => Some (S i)
               | None => if bool_decide (x = c) then Some 0 else None
               end
  end.

(** [operator<] on [std::string]: lexicographic on unsigned characters. *)
Fixpoint str_ltb (a b : bytes) : bool :=
  match a, b with
  | [], [] => false
  | [], _ :: _ => true
  | _ :: _, [] => false
  | x :: a', y :: b' =>
      if (Z_of_byte x <? Z_of_byte y)%Z then true
      else if (Z_of_byte y <? Z_of_byte x)%Z then false
      else str_ltb a' b'
  end.

(** ** Facts on byte order *)

Section ByteOrder.
Local Open Scope Z_scope.

Lemma length_le_bytes n v : length (le_bytes n v) = n.
Proof. revert v. induction n; intros; simpl; auto. Qed.

Lemma length_be_bytes n v : length (be_bytes n v) = n.
Proof. unfold be_bytes. by rewrite length_rev, length_le_bytes. Qed.

Lemma le_value_bound bs : fits (8 * Z.of_nat (length bs)) (le_value bs).
Proof.
  unfold fits. induction bs as [|b bs IH]; cbn [length le_value]; [lia|].
  rewrite Nat2Z.inj_succ, Z.mul_succ_r, Z.pow_add_r by lia.
  pose proof (Z_of_byte_range b). lia.
Qed.

Lemma le_value_le_bytes n v : le_value (le_bytes n v) = wrap (8 * Z.of_nat n) v.
Proof.
  unfold wrap. revert v. induction n as [|n IH]; intros v; cbn [le_bytes le_value].
  - by rewrite Z.mod_1_r.
  - rewrite IH, Z_of_byte_of_Z, Nat2Z.inj_succ, Z.mul_succ_r, Z.pow_add_r by lia.
    change (2 ^ 8) with 256. rewrite (Z.mul_comm (2 ^ _) 256), Z.rem_mul_r; lia.
Qed.

Lemma le_bytes_le_value bs : le_bytes (length bs) (le_value bs) = bs.
Proof.
  induction bs as [|b bs IH]; cbn [length le_value le_bytes]; [done|].
  pose proof (Z_of_byte_range b). f_equal.
  - rewrite <- (byte_of_Z_of_byte b) at 2. unfold byte_of_Z.
    do 2 f_equal. rewrite Z.mul_comm, Z_mod_plus_full. done.
  - rewrite <- (Z.div_unique _ 256 (le_value bs) (Z_of_byte b)) by lia. done.
Qed.

Lemma le_bytes_wrap n v : le_bytes n (wrap (8 * Z.of_nat n) v) = le_bytes n v.
Proof.
  rewrite <- le_value_le_bytes. rewrite <- (length_le_bytes n v) at 1. apply le_bytes_le_value.
Qed.

Lemma be_bytes_u32 v : be_bytes 4 (u32 v) = be_bytes 4 v.
Proof. unfold be_bytes. f_equal. apply (le_bytes_wrap 4). Qed.

Lemma be_value_be_bytes n v : be_value (be_bytes n v) = wrap (8 * Z.of_nat n) v.
Proof. unfold be_value, be_bytes. by rewrite rev_involutive, le_value_le_bytes. Qed.

Lemma be_bytes_be_value bs : be_bytes (length bs) (be_value bs) = bs.
Proof.
  unfold be_value, be_bytes. rewrite <- (length_rev bs), le_bytes_le_value.
  apply rev_involutive.
Qed.

Lemma be_value_bound bs : fits (8 * Z.of_nat (length bs)) (be_value bs).
Proof. unfold be_value. rewrite <- length_rev. apply le_value_bound. Qed.

(** Storing a value in network order writes its big-endian bytes, whatever the host. *)
Lemma mem_repr_hton host n v : mem_repr host n (hton host n v) = be_bytes n v.
Proof.
  destruct host; simpl; [|done]. unfold bswap, be_bytes.
  rewrite <- (length_le_bytes n v) at 1. rewrite <- length_rev. apply le_bytes_le_value.
Qed.

(** Loading and converting from network order reads big-endian, whatever the host. *)
Lemma ntoh_mem_load host n bs : length bs = n -> ntoh host n (mem_load host bs) = be_value bs.
Proof.
  intros <-. destruct host; simpl; [|done]. unfold bswap. by rewrite le_bytes_le_value.
Qed.

End ByteOrder.

#[export] Hint Rewrite length_le_bytes length_be_bytes : len.

(** ** Facts on decimal text *)

Section Decimal.
Local Open Scope Z_scope.

Lemma digit_value d : 0 <= d < 10 -> Z_of_byte (digit d) = 48 + d.
Proof. intros. unfold digit. rewrite Z_of_byte_of_Z, Z.mod_small; lia. Qed.

Lemma digit_is_digit d : 0 <= d < 10 -> is_digit (digit d) = true.
Proof.
  intros. unfold is_digit. rewrite digit_value by done.
  apply andb_true_intro; split; apply Z.leb_le; lia.
Qed.

Lemma div10_fuel f n : 0 <= n < 2 ^ Z.of_nat (S f) -> 10 <= n -> 0 <= n / 10 < 2 ^ Z.of_nat f.
Proof.
  intros [? Hn] ?. rewrite Nat2Z.inj_succ, Z.pow_succ_r in Hn by lia.
  split; [apply Z.div_pos; lia | apply Z.div_lt_upper_bound; lia].
Qed.

Lemma digits_all f n : 0 <= n -> Forall (fun c => is_digit c = true) (digits f n).
Proof.
  revert n. induction f as [|f IH]; intros n Hn; simpl; [constructor|].
  destruct (Z.ltb_spec n 10).
  - repeat constructor. apply digit_is_digit. lia.
  - apply Forall_app; split; [apply IH, Z.div_pos; lia|].
    repeat constructor. apply digit_is_digit, Z.mod_pos_bound. lia.
Qed.

(** Reading the digits of [n] after an accumulator shifts the accumulator by [n]'s length. *)
Lemma strtol_digits_app acc s t :
  Forall (fun c => is_digit c = true) s ->
  strtol_digits acc (s ++ t) = strtol_digits (strtol_digits acc s) t.
Proof.
  revert acc. induction s as [|c s IH]; intros acc Hs; simpl; [done|].
  inversion Hs as [|?? Hc Hs']; subst. rewrite Hc. by apply IH.
Qed.

Lemma strtol_digits_one acc d : 0 <= d < 10 -> strtol_digits acc [digit d] = acc * 10 + d.
Proof. intros. simpl. rewrite digit_is_digit, digit_value by done. lia. Qed.

Lemma strtol_digits_digits f n :
  0 <= n < 2 ^ Z.of_nat f -> (f <> 0)%nat -> strtol_digits 0 (digits f n) = n.
Proof.
  revert n. induction f as [|f IH]; intros n Hn Hf; [done|]. cbn [digits].
  destruct (Z.ltb_spec n 10); [rewrite strtol_digits_one; lia|].
  pose proof (div10_fuel f n Hn ltac:(lia)) as Hd.
  assert (f <> 0)%nat by (intros ->; change (2 ^ Z.of_nat 1) with 2 in Hn; lia).
  rewrite strtol_digits_app by (apply digits_all, Z.div_pos; lia).
  rewrite IH by done. rewrite strtol_digits_one by (apply Z.mod_pos_bound; lia).
  pose proof (Z.div_mod n 10). lia.
Qed.

Lemma log2_fuel n : 0 <= n -> 0 <= n < 2 ^ Z.of_nat (S (Z.to_nat (Z.log2 n))).
Proof.
  intros Hn. split; [done|]. rewrite Nat2Z.inj_succ, Z2Nat.id by apply Z.log2_nonneg.
  destruct (Z.eq_dec n 0) as [->|]; [done|]. apply Z.log2_spec. lia.
Qed.

Lemma to_string_nonneg n : 0 <= n -> to_string n = digits (S (Z.to_nat (Z.log2 n))) n.
Proof. intros. unfold to_string. by destruct (Z.ltb_spec n 0); [lia|]. Qed.

Lemma to_string_digits n : 0 <= n -> Forall (fun c => is_digit c = true) (to_string n).
Proof. intros. rewrite to_string_nonneg by done. by apply digits_all. Qed.

Lemma strtol_digits_to_string n : 0 <= n -> strtol_digits 0 (to_string n) = n.
Proof.
  intros. rewrite to_string_nonneg by done.
  apply strtol_digits_digits; [by apply log2_fuel|done].
Qed.

Lemma to_string_no_char n c : 0 <= n -> is_digit c = false -> c ∉ to_string n.
Proof.
  intros Hn Hc Hin. pose proof (to_string_digits n Hn) as Hd.
  rewrite list.Forall_forall in Hd. by rewrite (Hd c Hin) in Hc.
Qed.

Lemma to_string_inj n m : 0 <= n -> 0 <= m -> to_string n = to_string m -> n = m.
Proof.
  intros Hn Hm Heq. by rewrite <- (strtol_digits_to_string n Hn), Heq, strtol_digits_to_string.
Qed.

Lemma is_digit_not_space c : is_digit c = true -> is_space c = false.
Proof.
  unfold is_digit, is_space. intros [H1 H2]%andb_prop. reflect_tests.
  split; [lia|]. apply andb_false_intro2. lia.
Qed.

(** Reading back the text of a non-negative [int]. *)
Lemma atoi_to_string n : 0 <= n < 2 ^ 31 -> atoi (to_string n) = n.
Proof.
  intros Hn. unfold atoi, strtol. pose proof (to_string_digits n ltac:(lia)) as Hd.
  pose proof (strtol_digits_to_string n ltac:(lia)) as Hv.
  destruct (to_string n) as [|c s]; [simpl in *; subst; done|].
  pose proof (Forall_inv Hd) as Hc. cbn [skip_spaces].
  rewrite (is_digit_not_space c Hc).
  rewrite !bool_decide_eq_false_2 by (intros ->; vm_compute in Hc; discriminate).
  rewrite Hv. rewrite Z.min_r, Z.max_r, i32_small; lia.
Qed.

End Decimal.

(** ** Facts on searching and comparing *)

Lemma rfind_None c s : c ∉ s -> rfind c s = None.
Proof.
  induction s as [|x s IH]; intros Hc; simpl; [done|].
  apply not_elem_of_cons in Hc as [? ?]. rewrite IH by done.
  by rewrite bool_decide_eq_false_2.
Qed.

Lemma rfind_app c a b : c ∉ b -> rfind c (a ++ c :: b) = Some (length a).
Proof.
  intros Hb. induction a as [|x a IH]; simpl.
  - by rewrite rfind_None, bool_decide_eq_true_2.
  - by rewrite IH.
Qed.

(** Splitting at the last occurrence recovers the string. *)
Lemma rfind_Some c s i :
  rfind c s = Some i -> s = take i s ++ c :: drop (S i) s /\ c ∉ drop (S i) s.
Proof.
  revert i. induction s as [|x s IH]; intros i; simpl; [done|].
  destruct (rfind c s) as [j|] eqn:Hj.
  - intros [= <-]. destruct (IH j eq_refl) as [Heq Hn]. split; [|done].
    simpl. by rewrite Heq at 1.
  - case_bool_decide as Hx; [|done]. intros [= <-]. subst x. split; [done|].
    clear IH. simpl. rewrite drop_0. induction s as [|y s IH]; [apply not_elem_of_nil|].
    simpl in Hj. destruct (rfind c s); [done|]. case_bool_decide; [done|].
    apply not_elem_of_cons; split; auto.
Qed.

(** A string splits at the last occurrence of a character in one way. *)
Lemma last_split_unique (a b c d : bytes) (x : ascii) :
  a ++ x :: b = c ++ x :: d -> x ∉ b -> x ∉ d -> a = c /\ b = d.
Proof.
  intros Heq Hb Hd. pose proof (rfind_app x a b Hb) as H1.
  rewrite Heq, (rfind_app x c d Hd) in H1. injection H1 as Hl.
  by apply app_inj_1 in Heq as [-> [= ->]].
Qed.

Lemma str_ltb_irrefl a : str_ltb a a = false.
Proof. induction a as [|x a IH]; simpl; [done|]. by rewrite Z.ltb_irrefl. Qed.

Lemma Z_of_byte_inj a b : Z_of_byte a = Z_of_byte b -> a = b.
Proof. intros H. by rewrite <- (byte_of_Z_of_byte a), H, byte_of_Z_of_byte. Qed.

Lemma str_ltb_trans a b c : str_ltb a b = true -> str_ltb b c = true -> str_ltb a c = true.
Proof.
  revert b c. induction a as [|x a IH]; intros [|y b] [|z c]; simpl; try done.
  destruct (Z.ltb_spec (Z_of_byte x) (Z_of_byte y)), (Z.ltb_spec (Z_of_byte y) (Z_of_byte z)),
    (Z.ltb_spec (Z_of_byte x) (Z_of_byte z)), (Z.ltb_spec (Z_of_byte y) (Z_of_byte x)),
    (Z.ltb_spec (Z_of_byte z) (Z_of_byte y)), (Z.ltb_spec (Z_of_byte z) (Z_of_byte x));
    try done; try lia. apply IH.
Qed.

(** The order is total: two strings neither of which is smaller are equal. *)
Lemma str_ltb_total a b : str_ltb a b = false -> str_ltb b a = false -> a = b.
Proof.
  revert b. induction a as [|x a IH]; intros [|y b]; simpl; try done.
  destruct (Z.ltb_spec (Z_of_byte x) (Z_of_byte y)), (Z.ltb_spec (Z_of_byte y) (Z_of_byte x));
    try done. intros H1 H2. f_equal; [apply Z_of_byte_inj; lia|by apply IH].
Qed.
