(* ===== verification/Common.v ===== *)
(** The base layer: error codes (include/minirpc/common/ErrorCode.h, src/common/ErrorCode.cpp)
    and the logger (include/minirpc/common/Logger.h, src/common/Logger.cpp). *)
From stdpp Require Import base list strings numbers.
From Stdlib Require Import Ascii ZArith Lia.
From S2P Require Import Prelude Bytes.

(** ** ErrorCode *)

(** [enum class ErrorCode] has the underlying type [int], and the client casts the code of a
    response to it: every [int] is a value of the type. *)
Definition ErrorCode : Type := Z.
Definition kOk : ErrorCode := 0%Z.
Definition kSystem : ErrorCode := 1%Z.
Definition kInvalidArgument : ErrorCode := 2%Z.
Definition kTimeout : ErrorCode := 3%Z.
Definition kClosed : ErrorCode := 4%Z.
Definition kNoService : ErrorCode := 5%Z.
Definition kNoMethod : ErrorCode := 6%Z.
Definition kUnknown : ErrorCode := 99%Z.

Definition errorCodeToString (code : ErrorCode) : bytes :=
  if (code =? kOk)%Z then lit "OK"
  else if (code =? kSystem)%Z then lit "SYSTEM_ERROR"
  else if (code =? kInvalidArgument)%Z then lit "INVALID_ARGUMENT"
  else if (code =? kTimeout)%Z then lit "TIMEOUT"
  else if (code =? kClosed)%Z then lit "CONNECTION_CLOSED"
  else if (code =? kNoService)%Z then lit "NO_SERVICE"
  else if (code =? kNoMethod)%Z then lit "NO_METHOD"
  else if (code =? kUnknown)%Z then lit "UNKNOWN"
  else lit "UNKNOWN".

(** ** Logger *)

Module Logger.

Inductive LogLevel := kTrace | kDebug | kInfo | kWarn | kError | kFatal.

(** The enumerators' values, which [level < level_] compares. *)
Definition level_value (l : LogLevel) : nat :=
  match l with
  | kTrace => 0 | kDebug => 1 | kInfo => 2 | kWarn => 3 | kError => 4 | kFatal => 5
  end.

Definition levelToString (l : LogLevel) : bytes :=
  match l with
  | kTrace => lit "TRACE" | kDebug => lit "DEBUG" | kInfo => lit "INFO"
  | kWarn => lit "WARN" | kError => lit "ERROR" | kFatal => lit "FATAL"
  end.

Record Logger := mkLogger { level_ : LogLevel }.

(** The instance's initial state. *)
Definition instance : Logger := mkLogger kInfo.
Definition setLogLevel (_ : Logger) (l : LogLevel) : Logger := mkLogger l.
Definition logLevel (lg : Logger) : LogLevel := level_ lg.

(** What [localtime_r] stores. *)
Record tm := mkTm {
  tm_year : Z; tm_mon : Z; tm_mday : Z; tm_hour : Z; tm_min : Z; tm_sec : Z;
}.

(** [%0wd] of a non-negative [int]. *)
Definition pad0 (w : nat) (n : Z) : bytes :=
  let s := to_string n in replicate (w - length s) "0"%char ++ s.

(** [snprintf] into 64 bytes keeps 63 characters. *)
Definition currentTimestamp (t : tm) (ms : Z) : bytes :=
  take 63 (pad0 4 (tm_year t + 1900) ++ lit "-" ++ pad0 2 (tm_mon t + 1) ++ lit "-" ++
           pad0 2 (tm_mday t) ++ lit " " ++ pad0 2 (tm_hour t) ++ lit ":" ++
           pad0 2 (tm_min t) ++ lit ":" ++ pad0 2 (tm_sec t) ++ lit "." ++ pad0 3 (ms mod 1000)).

(** A string as [%s] prints it from [c_str()]: up to the first NUL. *)
Fixpoint c_str (s : bytes) : bytes :=
  match s with
  | [] => []
  | c :: s' => if bool_decide (c = Ascii.zero) then [] else c :: c_str s'
  end.

(** The text [log] writes to [stderr]; the clock, the broken-down time and the printed thread id
    are those of the call. *)
Definition log (lg : Logger) (level : LogLevel) (message : bytes) (t : tm) (ms : Z)
    (tid : bytes) : bytes :=
  if level_value level <? level_value (level_ lg) then []
  else lit "[" ++ currentTimestamp t ms ++ lit "] [" ++ levelToString level ++ lit "] [tid=" ++
       c_str tid ++ lit "] " ++ c_str message ++ lit "
".

(** A [LogStream] expression [LOG_X << a << b ...]: the constructor's prefix, the inserted texts,
    and the destructor's [log]. *)
Definition log_stream (lg : Logger) (level : LogLevel) (file : bytes) (line : Z)
    (parts : list bytes) (t : tm) (ms : Z) (tid : bytes) : bytes :=
  log lg level (file ++ lit ":" ++ to_string line ++ lit " " ++ concat parts) t ms tid.

Example log_line :
  log_stream instance kWarn (lit "a.cpp") 12 [lit "x="; lit "1"]
    (mkTm 126 7 2 9 5 0) 1754099100042 (lit "77")
  = lit "[2026-08-02 09:05:00.042] [WARN] [tid=77] a.cpp:12 x=1
".
Proof. reflexivity. Qed.

End Logger.
