(* ===== verification/Buffer.v ===== *)
(** [minirpc::Buffer] (include/minirpc/net/Buffer.h, src/net/Buffer.cpp): the growable byte
    buffer with a read and a write cursor, and the byte-queue interface it offers to the codec,
    the connections and the client channel. *)
From stdpp Require Import base list strings numbers.
From Stdlib Require Import Ascii ZArith Lia.
From S2P Require Import Prelude.

(** ** The interface: a FIFO queue of bytes *)

(** The operations the clients of a buffer use. [peek] is a pointer to the unread data, hence
    a list that may continue past it. *)
Class ByteQueue (B : Type) := {
  bq_readable : B -> nat;
  bq_peek : B -> bytes;
  bq_append : B -> bytes -> B;
  bq_retrieve : B -> nat -> B;
  bq_retrieveAsString : B -> nat -> bytes * B;
  bq_contents : B -> bytes;
  bq_wf : B -> Prop;
}.

(** What the operations promise, in terms of the unread bytes. *)
Class ByteQueueLaws (B : Type) `{ByteQueue B} : Prop := {
  bq_readable_spec b : bq_wf b -> bq_readable b = length (bq_contents b);
  bq_peek_spec b : bq_wf b -> take (bq_readable b) (bq_peek b) = bq_contents b;
  bq_append_spec b d : bq_wf b ->
    bq_wf (bq_append b d) /\ bq_contents (bq_append b d) = bq_contents b ++ d;
  bq_retrieve_spec b n : bq_wf b ->
    bq_wf (bq_retrieve b n) /\ bq_contents (bq_retrieve b n) = drop n (bq_contents b);
  bq_retrieveAsString_spec b n : bq_wf b ->
    (bq_retrieveAsString b n).1 = take n (bq_contents b) /\
    bq_wf (bq_retrieveAsString b n).2 /\
    bq_contents (bq_retrieveAsString b n).2 = drop n (bq_contents b);
}.

(** The abstract queue: the unread bytes themselves. *)
#[export] Instance bytes_queue : ByteQueue bytes := {
  bq_readable b := length b;
  bq_peek b := b;
  bq_append b d := b ++ d;
  bq_retrieve b n := drop n b;
  bq_retrieveAsString b n := (take n b, drop n b);
  bq_contents b := b;
  bq_wf b := True;
}.

#[export] Instance bytes_queue_laws : ByteQueueLaws bytes.
Proof. split; intros; simpl; auto. by rewrite take_ge. Qed.

(** ** The class *)

Definition kInitialSize : nat := 1024.
Definition kCheapPrepend : nat := 8.

Record Buffer := mkBuffer {
  buffer_ : bytes;
  readerIndex_ : nat;
  writerIndex_ : nat;
}.

(** [std::vector<char>(n)] value-initialises its elements. *)
Definition Buffer_new (initialSize : nat) : Buffer :=
  mkBuffer (replicate (kCheapPrepend + initialSize) Ascii.zero) kCheapPrepend kCheapPrepend.

Definition readableBytes (b : Buffer) : nat := writerIndex_ b - readerIndex_ b.
Definition writableBytes (b : Buffer) : nat := length (buffer_ b) - writerIndex_ b.
Definition prependableBytes (b : Buffer) : nat := readerIndex_ b.

(** [begin() + readerIndex_], as the part of the vector from that position on. *)
Definition peek (b : Buffer) : bytes := drop (readerIndex_ b) (buffer_ b).

Definition retrieveAll (b : Buffer) : Buffer :=
  mkBuffer (buffer_ b) kCheapPrepend kCheapPrepend.

Definition retrieve (b : Buffer) (len : nat) : Buffer :=
  if len <? readableBytes b
  then mkBuffer (buffer_ b) (readerIndex_ b + len) (writerIndex_ b)
  else retrieveAll b.

Definition retrieveAsString (b : Buffer) (len : nat) : bytes * Buffer :=
  let len := Nat.min len (readableBytes b) in
  (take len (peek b), retrieve b len).

Definition retrieveAllAsString (b : Buffer) : bytes * Buffer :=
  retrieveAsString b (readableBytes b).

(** [std::copy] of [src] over the elements of [dst] from position [at_] on. *)
Definition copy_at (dst : bytes) (at_ : nat) (src : bytes) : bytes :=
  take at_ dst ++ src ++ drop (at_ + length src) dst.

(** [std::vector::resize]: truncates, or extends with value-initialised elements. *)
Definition vec_resize (v : bytes) (n : nat) : bytes :=
  take n v ++ replicate (n - length v) Ascii.zero.

Definition ensureWritableBytes (b : Buffer) (len : nat) : Buffer :=
  if len <=? writableBytes b then b
  else
    let readable := readableBytes b in
    let moved := copy_at (buffer_ b) kCheapPrepend (take readable (peek b)) in
    let b' := mkBuffer moved kCheapPrepend (kCheapPrepend + readable) in
    if writableBytes b' <? len
    then mkBuffer (vec_resize (buffer_ b') (writerIndex_ b' + len))
                  (readerIndex_ b') (writerIndex_ b')
    else b'.

Definition append (b : Buffer) (data : bytes) : Buffer :=
  let b := ensureWritableBytes b (length data) in
  mkBuffer (copy_at (buffer_ b) (writerIndex_ b) data) (readerIndex_ b)
           (writerIndex_ b + length data).

(** [sizeof(extrabuf)] in [readFd]. *)
Definition extrabuf_size : nat := Z.to_nat 65536.

(** What [readv] did: failed with an [errno], or stored the bytes [data] (none at end of file)
    in the two blocks in order. *)
Inductive read_outcome :=
| ReadErr (errno : Z)
| ReadOk (data : bytes).

(** The room [readFd] offers to [readv]: the writable part, and [extrabuf] when that is short. *)
Definition readFd_capacity (b : Buffer) : nat :=
  let writable := writableBytes b in
  if writable <? extrabuf_size then writable + extrabuf_size else writable.

(** The returned pair is [n] and [*savedErrno]. *)
Definition readFd (b : Buffer) (o : read_outcome) : (Z * Z) * Buffer :=
  let writable := writableBytes b in
  match o with
  | ReadErr errno => ((-1, errno)%Z, b)
  | ReadOk data =>
      let n := length data in
      let stored := copy_at (buffer_ b) (writerIndex_ b) (take writable data) in
      let b' :=
        if n <=? writable
        then mkBuffer stored (readerIndex_ b) (writerIndex_ b + n)
        else append (mkBuffer stored (readerIndex_ b) (length stored)) (drop writable data) in
      ((Z.of_nat n, 0%Z), b')
  end.

(** ** Invariant and abstraction *)

Definition wf (b : Buffer) : Prop :=
  kCheapPrepend <= readerIndex_ b /\ readerIndex_ b <= writerIndex_ b /\
  writerIndex_ b <= length (buffer_ b).

(** The unread bytes. *)
Definition contents (b : Buffer) : bytes := take (readableBytes b) (peek b).

#[export] Instance Buffer_queue : ByteQueue Buffer := {
  bq_readable := readableBytes;
  bq_peek := peek;
  bq_append := append;
  bq_retrieve := retrieve;
  bq_retrieveAsString := retrieveAsString;
  bq_contents := contents;
  bq_wf := wf;
}.

(** ** Lemmas *)

Ltac cursors := cbn [buffer_ readerIndex_ writerIndex_] in *.

Lemma length_copy_at dst i src :
  i + length src <= length dst -> length (copy_at dst i src) = length dst.
Proof. intros. unfold copy_at. len. Qed.

Lemma length_vec_resize v n : length (vec_resize v n) = n.
Proof. unfold vec_resize. len. Qed.

Lemma length_contents b : wf b -> length (contents b) = readableBytes b.
Proof. unfold wf, contents, peek, readableBytes. intros. len. Qed.

(** Bytes copied right after the unread ones extend them. *)
Lemma contents_copy_after buf r w d :
  r <= w -> w + length d <= length buf ->
  contents (mkBuffer (copy_at buf w d) r (w + length d)) = contents (mkBuffer buf r w) ++ d.
Proof.
  intros Hr Hw. unfold contents, peek, readableBytes, copy_at; cursors.
  rewrite drop_app_le by len. rewrite app_assoc, take_app_length' by len.
  rewrite take_drop_commute. by replace (r + (w - r)) with w by lia.
Qed.

(** Moving the unread bytes to the front keeps them. *)
Lemma contents_move buf r w :
  kCheapPrepend <= r <= w -> w <= length buf ->
  contents (mkBuffer (copy_at buf kCheapPrepend (take (w - r) (drop r buf)))
                     kCheapPrepend (kCheapPrepend + (w - r)))
  = contents (mkBuffer buf r w).
Proof.
  intros Hr Hw. unfold contents, peek, readableBytes, copy_at; cursors.
  rewrite drop_app_length' by len. rewrite take_app_length' by len. done.
Qed.

(** Growing the vector keeps the unread bytes. *)
Lemma contents_resize buf r w n :
  w <= length buf -> length buf <= n ->
  contents (mkBuffer (vec_resize buf n) r w) = contents (mkBuffer buf r w).
Proof.
  intros Hw Hn. unfold contents, peek, readableBytes, vec_resize; cursors.
  rewrite (take_ge buf) by lia. destruct (decide (r <= length buf)) as [Hr|Hr].
  - rewrite drop_app_le by done. apply take_app_le. len.
  - by replace (w - r) with 0 by lia.
Qed.

(** [ensureWritableBytes] keeps the invariant and the unread bytes and provides the room; the
    vector only grows when the unread bytes and the request do not fit in it. *)
Lemma ensureWritableBytes_spec b len :
  wf b ->
  wf (ensureWritableBytes b len) /\ contents (ensureWritableBytes b len) = contents b /\
  len <= writableBytes (ensureWritableBytes b len) /\
  length (buffer_ (ensureWritableBytes b len))
    <= Nat.max (length (buffer_ b)) (kCheapPrepend + readableBytes b + len).
Proof.
  destruct b as [buf r w]. unfold wf; cursors. intros (Hr & Hw & Hl).
  unfold ensureWritableBytes.
  destruct (Nat.leb_spec len (writableBytes (mkBuffer buf r w))) as [|Hlen];
    [cursors; repeat split; auto; lia|].
  unfold writableBytes, readableBytes, peek in *; cursors.
  assert (Hm : length (copy_at buf kCheapPrepend (take (w - r) (drop r buf))) = length buf)
    by (apply length_copy_at; len).
  rewrite Hm. destruct (Nat.ltb_spec (length buf - (kCheapPrepend + (w - r))) len); cursors.
  - rewrite length_vec_resize, contents_resize by (rewrite ?Hm; lia).
    rewrite contents_move by lia. repeat split; lia.
  - rewrite Hm, contents_move by lia. repeat split; lia.
Qed.

Lemma append_spec b d :
  wf b -> wf (append b d) /\ contents (append b d) = contents b ++ d.
Proof.
  intros Hb. destruct (ensureWritableBytes_spec b (length d) Hb) as ((H1 & H2 & H3) & Hc & Hw & _).
  unfold append. destruct (ensureWritableBytes b (length d)) as [buf r w].
  unfold writableBytes in *; cursors. split.
  - unfold wf; cursors. rewrite length_copy_at; lia.
  - rewrite contents_copy_after by lia. by rewrite Hc.
Qed.

Lemma retrieve_spec b n :
  wf b -> wf (retrieve b n) /\ contents (retrieve b n) = drop n (contents b).
Proof.
  intros (H1 & H2 & H3). unfold retrieve, retrieveAll, wf, contents, peek, readableBytes.
  destruct (Nat.ltb_spec n (writerIndex_ b - readerIndex_ b)); cursors.
  - split; [lia|]. rewrite <- drop_drop, skipn_firstn_comm. f_equal. lia.
  - split; [unfold kCheapPrepend in *; lia|]. symmetry. apply drop_ge. len.
Qed.

Lemma retrieveAsString_spec b n :
  wf b ->
  (retrieveAsString b n).1 = take n (contents b) /\
  wf (retrieveAsString b n).2 /\
  contents (retrieveAsString b n).2 = drop n (contents b).
Proof.
  intros Hb. unfold retrieveAsString; cbn [fst snd].
  destruct (retrieve_spec b (n `min` readableBytes b) Hb) as [Hw Hc].
  pose proof (length_contents b Hb) as Hl. split; [|split; [done|]].
  - unfold contents at 1. by rewrite take_take.
  - rewrite Hc. destruct (Nat.le_ge_cases n (readableBytes b)).
    + by rewrite Nat.min_l.
    + by rewrite Nat.min_r, !drop_ge by lia.
Qed.

Lemma retrieveAllAsString_spec b : wf b -> (retrieveAllAsString b).1 = contents b.
Proof.
  intros Hb. unfold retrieveAllAsString.
  destruct (retrieveAsString_spec b (readableBytes b) Hb) as (-> & _).
  apply take_ge. by rewrite length_contents.
Qed.

#[export] Instance Buffer_queue_laws : ByteQueueLaws Buffer.
Proof.
  split; simpl.
  - intros b Hb. by rewrite length_contents.
  - done.
  - apply append_spec.
  - apply retrieve_spec.
  - apply retrieveAsString_spec.
Qed.

(** ** Theorems *)

(** One call of a mutating operation; [readFd] carries what [readv] did. *)
Inductive op :=
| OpAppend (data : bytes)
| OpRetrieve (len : nat)
| OpRetrieveAsString (len : nat)
| OpRetrieveAll
| OpRetrieveAllAsString
| OpReadFd (o : read_outcome).

(** The string a call returns (empty for a [void] one and for [readFd]) and the new buffer. *)
Definition exec (b : Buffer) (c : op) : bytes * Buffer :=
  match c with
  | OpAppend d => ([], append b d)
  | OpRetrieve n => ([], retrieve b n)
  | OpRetrieveAsString n => retrieveAsString b n
  | OpRetrieveAll => ([], retrieveAll b)
  | OpRetrieveAllAsString => retrieveAllAsString b
  | OpReadFd o => ([], (readFd b o).2)
  end.

(** The same call on the abstract queue. *)
Definition spec_exec (q : bytes) (c : op) : bytes * bytes :=
  match c with
  | OpAppend d => ([], q ++ d)
  | OpRetrieve n => ([], drop n q)
  | OpRetrieveAsString n => (take n q, drop n q)
  | OpRetrieveAll => ([], [])
  | OpRetrieveAllAsString => (q, [])
  | OpReadFd (ReadErr _) => ([], q)
  | OpReadFd (ReadOk d) => ([], q ++ d)
  end.

(** The strings returned by a sequence of calls, and the final state. *)
Fixpoint run {B : Type} (step : B -> op -> bytes * B) (b : B) (cs : list op) : list bytes * B :=
  match cs with
  | [] => ([], b)
  | c :: cs => let '(r, b') := step b c in
               let '(rs, b'') := run step b' cs in (r :: rs, b'')
  end.

Lemma wf_new n : wf (Buffer_new n).
Proof. unfold wf, Buffer_new; cursors. rewrite length_replicate. lia. Qed.

Lemma contents_new n : contents (Buffer_new n) = [].
Proof. unfold contents, readableBytes, Buffer_new; cursors. by rewrite Nat.sub_diag. Qed.

Lemma retrieveAll_spec b : wf b -> wf (retrieveAll b) /\ contents (retrieveAll b) = [].
Proof.
  intros (H1 & H2 & H3). unfold retrieveAll, wf, contents, readableBytes; cursors.
  rewrite Nat.sub_diag. split; [lia|done].
Qed.

Lemma readFd_Ok_spec b d :
  wf b -> wf (readFd b (ReadOk d)).2 /\ contents (readFd b (ReadOk d)).2 = contents b ++ d.
Proof.
  intros (H1 & H2 & H3). destruct b as [buf r w]. unfold readFd, writableBytes; cursors.
  cbn [snd]. destruct (Nat.leb_spec (length d) (length buf - w)).
  - rewrite take_ge by lia. split; [|apply contents_copy_after; lia].
    unfold wf; cursors. rewrite length_copy_at; lia.
  - assert (Ht : length (take (length buf - w) d) = length buf - w) by len.
    rewrite length_copy_at by lia.
    replace (length buf) with (w + length (take (length buf - w) d)) at 2 3 by lia.
    destruct (append_spec (mkBuffer (copy_at buf w (take (length buf - w) d)) r
      (w + length (take (length buf - w) d))) (drop (length buf - w) d)) as [Hw Hc].
    { unfold wf; cursors. rewrite length_copy_at; lia. }
    rewrite contents_copy_after in Hc by lia. rewrite <- app_assoc, take_drop in Hc.
    by replace (w + length (take (length buf - w) d)) with (length buf) in * by lia.
Qed.

Lemma exec_spec b c :
  wf b ->
  wf (exec b c).2 /\ spec_exec (contents b) c = ((exec b c).1, contents (exec b c).2).
Proof.
  intros Hb. destruct c as [d|n|n| | |[e|d]]; cbn [exec spec_exec fst snd].
  - destruct (append_spec b d Hb) as [? ->]. done.
  - destruct (retrieve_spec b n Hb) as [? ->]. done.
  - destruct (retrieveAsString_spec b n Hb) as (-> & ? & ->). done.
  - destruct (retrieveAll_spec b Hb) as [? ->]. done.
  - destruct (retrieveAsString_spec b (readableBytes b) Hb) as (Hr & Hw & Hc).
    unfold retrieveAllAsString. rewrite Hr, Hc, drop_ge, take_ge by (by rewrite length_contents).
    done.
  - done.
  - destruct (readFd_Ok_spec b d Hb) as [? ->]. done.
Qed.

Lemma run_spec b cs :
  wf b ->
  wf (run exec b cs).2 /\
  run spec_exec (contents b) cs = ((run exec b cs).1, contents (run exec b cs).2).
Proof.
  revert b. induction cs as [|c cs IH]; intros b Hb; cbn [run]; [done|].
  destruct (exec_spec b c Hb) as [Hw ->].
  destruct (exec b c) as [r b']. cbn [fst snd] in *.
  destruct (IH b' Hw) as [Hw' Hq]. rewrite Hq.
  by destruct (run exec b' cs) as [rs b''].
Qed.

(** C36. A buffer is a FIFO byte queue: from a new buffer, any sequence of calls leaves the
    cursors in order inside the vector, returns the strings the abstract queue returns, and
    leaves as unread bytes those of the abstract queue. *)
Theorem buffer_refines_queue (n : nat) (cs : list op) :
  wf (run exec (Buffer_new n) cs).2 /\
  run spec_exec [] cs = ((run exec (Buffer_new n) cs).1, contents (run exec (Buffer_new n) cs).2).
Proof. rewrite <- (contents_new n). apply run_spec, wf_new. Qed.

(** No write leaves its block: in a reachable buffer an append writes inside the vector, no
    cursor subtraction underflows, the vector is no longer than needed for its old size or for
    the prefix, the unread and the new bytes; and when [readv] stores at most what [readFd]
    offered, the excess over the writable part fits in [extrabuf]. *)
Theorem buffer_bounds (b : Buffer) (d : bytes)
  (Hwf : wf b) (Hread : length d <= readFd_capacity b) :
  let b' := ensureWritableBytes b (length d) in
  writerIndex_ b' + length d <= length (buffer_ b') /\
  length (buffer_ (append b d))
    <= Nat.max (length (buffer_ b)) (kCheapPrepend + readableBytes b + length d) /\
  readerIndex_ b <= writerIndex_ b <= length (buffer_ b) /\
  length (drop (writableBytes b) d) <= extrabuf_size.
Proof.
  destruct (ensureWritableBytes_spec b (length d) Hwf) as ((H1 & H2 & H3) & _ & Hw & Hm).
  destruct Hwf as (G1 & G2 & G3). cbn zeta. unfold append; cursors.
  unfold writableBytes in Hw. rewrite length_copy_at by lia.
  repeat split; auto; try lia. rewrite length_drop.
  unfold readFd_capacity in Hread.
  destruct (Nat.ltb_spec (writableBytes b) extrabuf_size); lia.
Qed.

Lemma buffer_bounds_witness :
  let b := append (Buffer_new 4) (lit "abc") in
  length (buffer_ (append b (lit "defghij"))) <= 18.
Proof.
  intros b.
  assert (Hw : wf b) by (apply append_spec, wf_new).
  assert (Hr : length (lit "defghij") <= readFd_capacity b).
  { change (length (lit "defghij")) with 7. unfold readFd_capacity, extrabuf_size.
    change (writableBytes b) with 1. destruct (Nat.ltb_spec 1 (Z.to_nat 65536)); lia. }
  pose proof (buffer_bounds b (lit "defghij") Hw Hr) as H.
  destruct H as (_ & H & _). exact H.
Defined.

(** The two-block read of a chunk larger than the writable part, evaluated. *)
Example readFd_splits :
  let b := (readFd (Buffer_new 4) (ReadOk (lit "hello, world"))).2 in
  contents b = lit "hello, world" /\ length (buffer_ b) = 20.
Proof. split; reflexivity. Qed.
