(* ===== verification/Codec.v ===== *)
(** The wire protocol (include/minirpc/codec/Protocol.h) and its codec
    (include/minirpc/codec/Codec.h, src/codec/Codec.cpp), over any byte queue and on a host of
    either byte order. *)
From stdpp Require Import base list strings numbers.
From Stdlib Require Import Ascii ZArith Lia.
From S2P Require Import Prelude Bytes Buffer.

(** ** Protocol.h *)

Record ProtocolHeader := mkHeader {
  magic : Z;
  version : Z;
  type_ : Z;
  flags : Z;
  seq : Z;
  bodyLen : Z;
  reserved : Z;
}.

(** The default member initialisers. *)
Definition ProtocolHeader_default : ProtocolHeader := mkHeader 0 0 0 0 0 0 0.

(** [enum class MessageType : uint8_t] *)
Definition kRequest : Z := 1.
Definition kResponse : Z := 2.

Definition kMagic : Z := 0x4D494E52.
Definition kProtocolVersion : Z := 1.
Definition kHeaderSize : nat := 24.
Definition kMaxBodySize : Z := 64 * 1024 * 1024.

Record ProtocolMessage := mkMessage {
  header : ProtocolHeader;
  body : bytes;
}.

(** The members hold values of their types. *)
Definition header_typed (h : ProtocolHeader) : Prop :=
  fits 32 (magic h) /\ fits 8 (version h) /\ fits 8 (type_ h) /\ fits 16 (flags h) /\
  fits 64 (seq h) /\ fits 32 (bodyLen h) /\ fits 32 (reserved h).

#[export] Instance ProtocolHeader_eq_dec : EqDecision ProtocolHeader.
Proof. solve_decision. Defined.
#[export] Instance ProtocolMessage_eq_dec : EqDecision ProtocolMessage.
Proof. solve_decision. Defined.

(** ** Codec.cpp *)

Section Codec.
Context (host : endian) {B : Type} `{ByteQueue B}.

Definition appendU16 (out : B) (v : Z) : B := bq_append out (mem_repr host 2 (hton host 2 v)).
Definition appendU32 (out : B) (v : Z) : B := bq_append out (mem_repr host 4 (hton host 4 v)).
Definition appendU64 (out : B) (v : Z) : B := bq_append out (mem_repr host 8 (hton host 8 v)).

Definition readU16 (p : bytes) : Z := ntoh host 2 (mem_load host (take 2 p)).
Definition readU32 (p : bytes) : Z := ntoh host 4 (mem_load host (take 4 p)).
Definition readU64 (p : bytes) : Z := ntoh host 8 (mem_load host (take 8 p)).

Definition encode (msg : ProtocolMessage) (out : B) : B :=
  let h := header msg in
  let out := appendU32 out (magic h) in
  let out := bq_append out (mem_repr host 1 (version h)) in
  let out := bq_append out (mem_repr host 1 (type_ h)) in
  let out := appendU16 out (flags h) in
  let out := appendU64 out (seq h) in
  let out := appendU32 out (u32 (Z.of_nat (length (body msg)))) in
  let out := appendU32 out (reserved h) in
  bq_append out (body msg).

(** [static_cast<uint8_t>(p[i])] *)
Definition byte_at (p : bytes) (i : nat) : Z := Z_of_byte (nth i p Ascii.zero).

Definition tryDecode (in_ : B) : result (option ProtocolMessage * B) :=
  if bq_readable in_ <? kHeaderSize then Ok (None, in_)
  else
    let p := bq_peek in_ in
    if negb (readU32 p =? kMagic)%Z
    then Throw (std_exception (lit "Codec: invalid magic number"))
    else
      let h := {| magic := kMagic;
                  version := byte_at p 4;
                  type_ := byte_at p 5;
                  flags := readU16 (drop 6 p);
                  seq := readU64 (drop 8 p);
                  bodyLen := readU32 (drop 16 p);
                  reserved := readU32 (drop 20 p) |} in
      if negb (version h =? kProtocolVersion)%Z
      then Throw (std_exception (lit "Codec: unsupported protocol version"))
      else if (kMaxBodySize <? bodyLen h)%Z
      then Throw (std_exception (lit "Codec: body length exceeds limit"))
      else if (Z.of_nat (bq_readable in_) <? Z.of_nat kHeaderSize + bodyLen h)%Z
      then Ok (None, in_)
      else
        let in_ := bq_retrieve in_ kHeaderSize in
        let '(b, in_) := bq_retrieveAsString in_ (Z.to_nat (bodyLen h)) in
        Ok (Some (mkMessage h b), in_).

(** How [while (auto msgOpt = Codec::tryDecode(buffer)) { ... }] ends: the condition became
    false, the body returned, or [tryDecode] threw. *)
Inductive loop_end (R : Type) :=
| LoopDone
| LoopReturn (r : R)
| LoopThrow (e : exn).
Arguments LoopDone {R}.
Arguments LoopReturn {R} r.
Arguments LoopThrow {R} e.

(** The loop, with a body that updates a state and may return. [None] is an exhausted fuel. *)
Fixpoint while_decode {S R : Type} (fuel : nat) (loop_body : S -> ProtocolMessage -> S * option R)
    (s : S) (in_ : B) : option (loop_end R * S * B) :=
  match fuel with
  | O => None
  | Datatypes.S fuel =>
      match tryDecode in_ with
      | Throw e => Some (LoopThrow e, s, in_)
      | Ok (None, in_) => Some (LoopDone, s, in_)
      | Ok (Some msg, in_) =>
          match loop_body s msg with
          | (s, Some r) => Some (LoopReturn r, s, in_)
          | (s, None) => while_decode fuel loop_body s in_
          end
      end
  end.

End Codec.
Arguments LoopDone {R}.
Arguments LoopReturn {R} r.
Arguments LoopThrow {R} e.

(** ** Reference definitions on plain bytes *)

(** The frame of a message: the 24-byte big-endian header, then the body. *)
Definition wire (m : ProtocolMessage) : bytes :=
  be_bytes 4 (magic (header m)) ++ le_bytes 1 (version (header m)) ++
  le_bytes 1 (type_ (header m)) ++ be_bytes 2 (flags (header m)) ++
  be_bytes 8 (seq (header m)) ++ be_bytes 4 (Z.of_nat (length (body m))) ++
  be_bytes 4 (reserved (header m)) ++ body m.

Definition wire_header (p : bytes) : ProtocolHeader :=
  {| magic := kMagic;
     version := byte_at p 4;
     type_ := byte_at p 5;
     flags := be_value (take 2 (drop 6 p));
     seq := be_value (take 8 (drop 8 p));
     bodyLen := be_value (take 4 (drop 16 p));
     reserved := be_value (take 4 (drop 20 p)) |}.

(** Decoding one frame at the front of [q]. *)
Definition decode_spec (q : bytes) : result (option ProtocolMessage * bytes) :=
  if length q <? kHeaderSize then Ok (None, q)
  else
    let p := take kHeaderSize q in
    let h := wire_header p in
    if negb (be_value (take 4 p) =? kMagic)%Z
    then Throw (std_exception (lit "Codec: invalid magic number"))
    else if negb (version h =? kProtocolVersion)%Z
    then Throw (std_exception (lit "Codec: unsupported protocol version"))
    else if (kMaxBodySize <? bodyLen h)%Z
    then Throw (std_exception (lit "Codec: body length exceeds limit"))
    else if (Z.of_nat (length q) <? Z.of_nat kHeaderSize + bodyLen h)%Z
    then Ok (None, q)
    else
      let n := Z.to_nat (bodyLen h) in
      Ok (Some (mkMessage h (take n (drop kHeaderSize q))), drop n (drop kHeaderSize q)).

(** All the frames at the front of [q], what stopped the decoding, and the bytes left. *)
Fixpoint frames (fuel : nat) (q : bytes) : list ProtocolMessage * option exn * bytes :=
  match fuel with
  | O => ([], None, q)
  | S fuel =>
      match decode_spec q with
      | Throw e => ([], Some e, q)
      | Ok (None, q) => ([], None, q)
      | Ok (Some m, q) => let '(ms, e, r) := frames fuel q in (m :: ms, e, r)
      end
  end.

Definition parse_frames (q : bytes) : list ProtocolMessage * option exn * bytes :=
  frames (S (length q)) q.

(** A message the peer accepts, and the message it then holds. *)
Definition sendable (m : ProtocolMessage) : Prop :=
  header_typed (header m) /\ magic (header m) = kMagic /\
  version (header m) = kProtocolVersion /\ (Z.of_nat (length (body m)) <= kMaxBodySize)%Z.

Definition received (m : ProtocolMessage) : ProtocolMessage :=
  let h := header m in
  mkMessage (mkHeader kMagic (version h) (type_ h) (flags h) (seq h)
                      (Z.of_nat (length (body m))) (reserved h)) (body m).

(** ** Lemmas *)

#[local] Arguments Z.of_nat : simpl never.

Lemma length_wire m : length (wire m) = kHeaderSize + length (body m).
Proof. unfold wire. len. done. Qed.

Lemma drop_wire m r : drop kHeaderSize (wire m ++ r) = body m ++ r.
Proof. reflexivity. Qed.

(** A field of the header does not depend on what follows the header. *)
Lemma field_prefix (p q : bytes) (k n : nat) :
  take kHeaderSize p = take kHeaderSize q -> k + n <= kHeaderSize ->
  take n (drop k p) = take n (drop k q).
Proof.
  intros Hpq Hkn. rewrite !take_drop_commute.
  replace (take (k + n) p) with (take (k + n) (take kHeaderSize p))
    by (by rewrite take_take, Nat.min_l).
  by rewrite Hpq, take_take, Nat.min_l.
Qed.

Lemma byte_at_prefix (p q : bytes) (i : nat) :
  take kHeaderSize p = take kHeaderSize q -> i < kHeaderSize -> byte_at p i = byte_at q i.
Proof.
  intros Hpq Hi. unfold byte_at. rewrite !nth_lookup.
  by rewrite <- (lookup_take_lt p _ _ Hi), Hpq, lookup_take_lt.
Qed.

Lemma readU_spec host n p :
  n <= length p -> ntoh host n (mem_load host (take n p)) = be_value (take n p).
Proof. intros. apply ntoh_mem_load. len. Qed.

(** On a pointer to at least a header, the host reads the big-endian fields. *)
Lemma header_read host p q :
  take kHeaderSize p = take kHeaderSize q -> kHeaderSize <= length p ->
  readU32 host p = be_value (take 4 (take kHeaderSize q)) /\
  {| magic := kMagic; version := byte_at p 4; type_ := byte_at p 5;
     flags := readU16 host (drop 6 p); seq := readU64 host (drop 8 p);
     bodyLen := readU32 host (drop 16 p); reserved := readU32 host (drop 20 p) |}
  = wire_header (take kHeaderSize q).
Proof.
  intros Hpq Hp.
  assert (Hq : take kHeaderSize p = take kHeaderSize (take kHeaderSize q))
    by (by rewrite take_take, Nat.min_id).
  unfold kHeaderSize in Hp, Hq. unfold readU16, readU32, readU64, wire_header. split.
  - rewrite readU_spec by lia. f_equal. apply (field_prefix p _ 0 4 Hq). unfold kHeaderSize. lia.
  - rewrite !readU_spec by (rewrite length_drop; lia).
    by rewrite !(byte_at_prefix _ _ _ Hq), !(field_prefix _ _ _ _ Hq) by (unfold kHeaderSize; lia).
Qed.

(** A one-byte object has the same representation on every host. *)
Lemma mem_repr_byte host v : mem_repr host 1 v = le_bytes 1 v.
Proof. by destruct host. Qed.

Section Refinement.
Context (host : endian) {B : Type} `{ByteQueueLaws B}.

Lemma encode_contents m out :
  bq_wf out ->
  bq_wf (encode host m out) /\ bq_contents (encode host m out) = bq_contents out ++ wire m.
Proof.
  intros Hw. unfold encode, appendU16, appendU32, appendU64.
  rewrite !mem_repr_hton.
  repeat match goal with
  | Hb : bq_wf ?b |- context [bq_append ?b ?d] =>
      let Hw' := fresh in let Hc := fresh in
      destruct (bq_append_spec b d Hb) as [Hw' Hc];
      generalize dependent (bq_append b d); intros
  end.
  split; [done|]. unfold wire.
  repeat match goal with Hc : bq_contents ?b = _ |- context [bq_contents ?b] => rewrite Hc; clear Hc end.
  by rewrite !mem_repr_byte, be_bytes_u32, <- !app_assoc.
Qed.

(** [tryDecode] on any byte queue and host is the reference decoder on the unread bytes; a
    partial frame and a thrown exception consume nothing. *)
Lemma tryDecode_refines b :
  bq_wf b ->
  match tryDecode host b with
  | Throw e => decode_spec (bq_contents b) = Throw e
  | Ok (m, b') => decode_spec (bq_contents b) = Ok (m, bq_contents b') /\ bq_wf b' /\
                  (m = None -> b' = b)
  end.
Proof.
  intros Hw. unfold tryDecode, decode_spec. rewrite (bq_readable_spec b Hw).
  destruct (Nat.ltb_spec (length (bq_contents b)) kHeaderSize) as [|Hl]; [done|].
  pose proof (bq_peek_spec b Hw) as Hp. rewrite (bq_readable_spec b Hw) in Hp.
  assert (Ht : take kHeaderSize (bq_peek b) = take kHeaderSize (bq_contents b))
    by (rewrite <- Hp, take_take; f_equal; lia).
  assert (kHeaderSize <= length (bq_peek b)).
  { rewrite <- Hp in Hl. rewrite length_take in Hl. lia. }
  destruct (header_read host _ _ Ht) as [-> ->]; [done|].
  set (h := wire_header _).
  destruct (negb _); [done|]. destruct (negb _); [done|].
  destruct (kMaxBodySize <? bodyLen h)%Z; [done|].
  destruct (Z.of_nat _ <? _)%Z; [done|].
  destruct (bq_retrieve_spec b kHeaderSize Hw) as [Hw1 Hc1].
  destruct (bq_retrieveAsString_spec (bq_retrieve b kHeaderSize) (Z.to_nat (bodyLen h)) Hw1)
    as (Hs & Hw2 & Hc2).
  destruct (bq_retrieveAsString _ _) as [s b2]. cbn [fst snd] in *.
  by rewrite Hc2, Hs, Hc1.
Qed.

End Refinement.

Lemma tryDecode_bytes host (q : bytes) : tryDecode host q = decode_spec q.
Proof.
  pose proof (tryDecode_refines host q I) as Hr.
  destruct (tryDecode host q) as [[m b']|e]; [destruct Hr as [Hr _]|]; exact (eq_sym Hr).
Qed.

Lemma while_decode_ext host {B} `{ByteQueue B} {S R} fuel
    (f g : S -> ProtocolMessage -> S * option R) s (b : B) :
  (forall s m, f s m = g s m) -> while_decode host fuel f s b = while_decode host fuel g s b.
Proof.
  intros Hfg. revert s b. induction fuel as [|fuel IH]; intros s b; cbn [while_decode]; [done|].
  destruct (tryDecode host b) as [[[m|] b']|e]; try done.
  rewrite Hfg. by destruct (g s m) as [s' [r|]].
Qed.

(** *** One frame *)

(** What is decoded from a buffer is decoded from any extension of it. *)
Lemma decode_spec_app q k :
  match decode_spec q with
  | Throw e => decode_spec (q ++ k) = Throw e
  | Ok (Some m, r) => decode_spec (q ++ k) = Ok (Some m, r ++ k)
  | Ok (None, r) => r = q
  end.
Proof.
  unfold decode_spec. destruct (Nat.ltb_spec (length q) kHeaderSize) as [|Hl]; [done|].
  destruct (Nat.ltb_spec (length (q ++ k)) kHeaderSize) as [Hl2|_]; [len|].
  rewrite (take_app_le q k) by done. set (h := wire_header _).
  destruct (negb _); [done|]. destruct (negb _); [done|].
  destruct (kMaxBodySize <? bodyLen h)%Z; [done|].
  destruct (Z.ltb_spec (Z.of_nat (length q)) (Z.of_nat kHeaderSize + bodyLen h)) as [|Hb]; [done|].
  destruct (Z.ltb_spec (Z.of_nat (length (q ++ k))) (Z.of_nat kHeaderSize + bodyLen h)) as [Hb2|_];
    [len|].
  rewrite (drop_app_le q k) by done.
  assert (Z.to_nat (bodyLen h) <= length (drop kHeaderSize q)) by (rewrite length_drop; lia).
  by rewrite take_app_le, drop_app_le.
Qed.

Lemma decode_spec_progress q m r :
  decode_spec q = Ok (Some m, r) ->
  length q = kHeaderSize + length (body m) + length r /\
  Z.of_nat (length (body m)) = bodyLen (header m) /\ (bodyLen (header m) <= kMaxBodySize)%Z.
Proof.
  unfold decode_spec. destruct (Nat.ltb_spec (length q) kHeaderSize) as [|Hl]; [done|].
  set (h := wire_header _). destruct (negb _); [done|]. destruct (negb _); [done|].
  destruct (Z.ltb_spec kMaxBodySize (bodyLen h)) as [|Hm]; [done|].
  destruct (Z.ltb_spec (Z.of_nat (length q)) (Z.of_nat kHeaderSize + bodyLen h)) as [|Hb]; [done|].
  intros [= <- <-]. cbn [body header].
  pose proof (be_value_bound (take 4 (drop 16 (take kHeaderSize q)))) as [Hpos _].
  change (be_value (take 4 (drop 16 (take kHeaderSize q)))) with (bodyLen h) in Hpos.
  rewrite length_take, !length_drop.
  change (be_value (take 4 (drop 16 (take kHeaderSize q)))) with (bodyLen h).
  unfold kHeaderSize in *. lia.
Qed.

Lemma be_value_fits k n v :
  k = (8 * Z.of_nat n)%Z -> fits k v -> be_value (be_bytes n v) = v.
Proof. intros -> Hv. rewrite be_value_be_bytes. by apply wrap_small. Qed.

Lemma byte_fits v : fits 8 v -> Z_of_byte (byte_of_Z v) = v.
Proof. intros Hv. rewrite Z_of_byte_of_Z. by apply Z.mod_small. Qed.

(** The header read from a frame is the sender's, with the real body length. *)
Lemma wire_header_wire m r :
  header_typed (header m) -> fits 32 (Z.of_nat (length (body m))) ->
  wire_header (take kHeaderSize (wire m ++ r)) = header (received m).
Proof.
  intros (Hm & Hv & Ht & Hf & Hs & Hb & Hr) Hl.
  change (wire_header (take kHeaderSize (wire m ++ r))) with
    (mkHeader kMagic (Z_of_byte (byte_of_Z (version (header m))))
       (Z_of_byte (byte_of_Z (type_ (header m))))
       (be_value (be_bytes 2 (flags (header m)))) (be_value (be_bytes 8 (seq (header m))))
       (be_value (be_bytes 4 (Z.of_nat (length (body m)))))
       (be_value (be_bytes 4 (reserved (header m))))).
  rewrite !byte_fits by done.
  by rewrite (be_value_fits 16), (be_value_fits 64), !(be_value_fits 32).
Qed.

Lemma decode_spec_wire m r :
  sendable m -> decode_spec (wire m ++ r) = Ok (Some (received m), r).
Proof.
  intros (Ht & Hm & Hv & Hb). unfold decode_spec.
  destruct (Nat.ltb_spec (length (wire m ++ r)) kHeaderSize) as [Hl|_];
    [rewrite length_app, length_wire in Hl; lia|].
  rewrite wire_header_wire by (done || unfold fits, kMaxBodySize in *; lia).
  change (take 4 (take kHeaderSize (wire m ++ r))) with (be_bytes 4 (magic (header m))).
  rewrite (be_value_fits 32) by (done || apply Ht). rewrite Hm, Z.eqb_refl. cbn [negb].
  cbn [received header version bodyLen body]. rewrite Hv, Z.eqb_refl. cbn [negb].
  destruct (Z.ltb_spec kMaxBodySize (Z.of_nat (length (body m)))); [lia|].
  destruct (Z.ltb_spec (Z.of_nat (length (wire m ++ r)))
              (Z.of_nat kHeaderSize + Z.of_nat (length (body m)))) as [Hl|_];
    [rewrite length_app, length_wire in Hl; lia|].
  rewrite drop_wire, Nat2Z.id, take_app_length, drop_app_length.
  unfold received. by rewrite Hv.
Qed.

(** Writing the fields read from 24 bytes gives the 24 bytes back. *)
Lemma header_bytes_inv (p : bytes) :
  length p = kHeaderSize ->
  be_bytes 4 (be_value (take 4 p)) ++ le_bytes 1 (byte_at p 4) ++ le_bytes 1 (byte_at p 5) ++
  be_bytes 2 (be_value (take 2 (drop 6 p))) ++ be_bytes 8 (be_value (take 8 (drop 8 p))) ++
  be_bytes 4 (be_value (take 4 (drop 16 p))) ++ be_bytes 4 (be_value (take 4 (drop 20 p))) = p.
Proof.
  unfold kHeaderSize. intros Hl.
  assert (Hb : forall n bs, length bs = n -> be_bytes n (be_value bs) = bs)
    by (intros n bs <-; apply be_bytes_be_value).
  rewrite !Hb by len.
  do 24 (destruct p as [|? p]; [discriminate|]). destruct p; [|discriminate].
  cbn [le_bytes app take drop byte_at nth]. unfold byte_at; cbn [nth].
  by rewrite !byte_of_Z_of_byte.
Qed.

Lemma be_value_take_fits k n p :
  k = (8 * Z.of_nat n)%Z -> fits k (be_value (take n p)).
Proof.
  intros ->. destruct (be_value_bound (take n p)) as [H1 H2]. split; [done|].
  eapply Z.lt_le_trans; [exact H2|]. apply Z.pow_le_mono_r; len.
Qed.

Lemma wire_header_typed p : header_typed (wire_header p).
Proof.
  unfold header_typed, wire_header. cbn [magic version type_ flags seq bodyLen reserved].
  split; [done|]. do 2 (split; [apply Z_of_byte_range|]).
  do 3 (split; [by apply be_value_take_fits|]). by apply be_value_take_fits.
Qed.

(** Decoding is injective: the bytes consumed are exactly the frame of the decoded message. *)
Lemma decode_spec_sound q m r :
  decode_spec q = Ok (Some m, r) -> q = wire m ++ r /\ sendable m /\ received m = m.
Proof.
  intros Hd. destruct (decode_spec_progress q m r Hd) as (Hl & Hn & Hmax). revert Hd.
  unfold decode_spec. destruct (Nat.ltb_spec (length q) kHeaderSize) as [|Hq]; [done|].
  remember (take kHeaderSize q) as p eqn:Hp. remember (wire_header p) as h eqn:Hh.
  destruct (Z.eqb_spec (be_value (take 4 p)) kMagic) as [Hm|]; [|done]. cbn [negb].
  destruct (Z.eqb_spec (version h) kProtocolVersion) as [Hv|]; [|done]. cbn [negb].
  destruct (kMaxBodySize <? _)%Z; [done|]. destruct (_ <? _)%Z; [done|].
  intros [= <- <-]. cbn [header body] in *. rewrite <- Hn in Hmax.
  assert (Hr : received (mkMessage h (take (Z.to_nat (bodyLen h)) (drop kHeaderSize q)))
               = mkMessage h (take (Z.to_nat (bodyLen h)) (drop kHeaderSize q))).
  { unfold received. cbn [header body]. rewrite Hn. by subst h. }
  split; [|split; [|done]].
  - unfold wire. cbn [header body]. rewrite Hn.
    rewrite <- (take_drop kHeaderSize q) at 1. rewrite <- Hp.
    rewrite <- (header_bytes_inv p) at 1 by (subst p; len).
    subst h. cbn [magic version type_ flags seq bodyLen reserved wire_header].
    by rewrite Hm, <- !app_assoc, take_drop.
  - subst h. split; [apply wire_header_typed|]. done.
Qed.

(** *** Streams of frames *)

Lemma frames_fuel f1 f2 q : length q < f1 -> length q < f2 -> frames f1 q = frames f2 q.
Proof.
  revert f2 q. induction f1 as [|f1 IH]; intros [|f2] q H1 H2; try lia. cbn [frames].
  destruct (decode_spec q) as [[[m|] r]|e] eqn:Hd; try done.
  apply decode_spec_progress in Hd as (Hl & _). unfold kHeaderSize in Hl.
  by rewrite (IH f2 r) by lia.
Qed.

Lemma parse_frames_unfold q :
  parse_frames q =
  match decode_spec q with
  | Throw e => ([], Some e, q)
  | Ok (None, r) => ([], None, r)
  | Ok (Some m, r) => let '(ms, e, r') := parse_frames r in (m :: ms, e, r')
  end.
Proof.
  unfold parse_frames. cbn [frames]. destruct (decode_spec q) as [[[m|] r]|e] eqn:Hd; try done.
  apply decode_spec_progress in Hd as (Hl & _). unfold kHeaderSize in Hl.
  by rewrite (frames_fuel (length q) (S (length r))) by lia.
Qed.

(** Decoding a concatenation is decoding its first part, then the leftover and the second. *)
Lemma parse_frames_app q k :
  parse_frames (q ++ k) =
  let '(ms, e, r) := parse_frames q in
  match e with
  | Some e => (ms, Some e, r ++ k)
  | None => let '(ms', e', r') := parse_frames (r ++ k) in (ms ++ ms', e', r')
  end.
Proof.
  induction q as [q IH] using (induction_ltof1 _ length). unfold ltof in IH.
  rewrite (parse_frames_unfold q). pose proof (decode_spec_app q k) as Happ.
  destruct (decode_spec q) as [[[m|] r]|e] eqn:Hd.
  - rewrite parse_frames_unfold, Happ. rewrite IH.
    + destruct (parse_frames r) as [[ms e] r']. destruct e as [e|]; [done|].
      by destruct (parse_frames (r' ++ k)) as [[ms' e'] r''].
    + apply decode_spec_progress in Hd as (Hl & _). unfold kHeaderSize in Hl. lia.
  - subst r. by destruct (parse_frames (q ++ k)) as [[ms e] r'].
  - by rewrite parse_frames_unfold, Happ.
Qed.

(** What follows an undecodable frame is never decoded. *)
Lemma parse_frames_stuck q ms e r :
  parse_frames q = (ms, Some e, r) -> forall k, parse_frames (r ++ k) = ([], Some e, r ++ k).
Proof.
  revert ms. induction q as [q IH] using (induction_ltof1 _ length). unfold ltof in IH.
  intros ms. rewrite parse_frames_unfold. pose proof (decode_spec_app q) as Happ.
  destruct (decode_spec q) as [[[m|] r']|e'] eqn:Hd; [|done|].
  - destruct (parse_frames r') as [[ms' e'] r''] eqn:Hp. intros [= <- -> ->].
    apply (IH r') with ms'; [|done].
    apply decode_spec_progress in Hd as (Hl & _). unfold kHeaderSize in Hl. lia.
  - intros [= <- <- <-] k. by rewrite parse_frames_unfold, Happ.
Qed.

(** The leftover holds no further frame. *)
Lemma parse_frames_rest q ms e r : parse_frames q = (ms, e, r) -> parse_frames r = ([], e, r).
Proof.
  destruct e as [e|].
  { intros Hp. rewrite <- (app_nil_r r). by rewrite (parse_frames_stuck _ _ _ _ Hp). }
  revert ms. induction q as [q IH] using (induction_ltof1 _ length). unfold ltof in IH.
  intros ms. rewrite parse_frames_unfold. pose proof (decode_spec_app q []) as Happ.
  destruct (decode_spec q) as [[[m|] r']|e'] eqn:Hd; [| |done].
  - destruct (parse_frames r') as [[ms' e'] r''] eqn:Hp. intros [= <- -> ->].
    apply (IH r') with ms'; [|done].
    apply decode_spec_progress in Hd as (Hl & _). unfold kHeaderSize in Hl. lia.
  - intros [= <- <-]. subst r'. by rewrite parse_frames_unfold, Hd.
Qed.

Lemma parse_frames_wires ms :
  Forall sendable ms -> parse_frames (concat (map wire ms)) = (map received ms, None, []).
Proof.
  induction 1 as [|m ms Hm _ IH]; [done|]. cbn [map concat].
  by rewrite parse_frames_unfold, decode_spec_wire, IH.
Qed.

(** The loop whose body never returns runs it on every frame, and its fuel suffices. *)
Lemma while_decode_all host {B} `{ByteQueueLaws B} {S} (g : S -> ProtocolMessage -> S) s (b : B)
    fuel :
  bq_wf b -> length (bq_contents b) < fuel ->
  exists b', bq_wf b' /\ bq_contents b' = (parse_frames (bq_contents b)).2 /\
    while_decode host fuel (fun s m => (g s m, @None Empty_set)) s b =
    Some (match (parse_frames (bq_contents b)).1.2 with
          | Some e => LoopThrow e | None => LoopDone end,
          fold_left g (parse_frames (bq_contents b)).1.1 s, b').
Proof.
  revert s b. induction fuel as [|fuel IH]; intros s b Hw Hf; [lia|]. cbn [while_decode].
  pose proof (tryDecode_refines host b Hw) as Hr. rewrite parse_frames_unfold.
  destruct (tryDecode host b) as [[[m|] b1]|e].
  - destruct Hr as (Hd & Hw1 & _). rewrite Hd.
    apply decode_spec_progress in Hd as (Hl & _). unfold kHeaderSize in Hl.
    destruct (IH (g s m) b1 Hw1 ltac:(lia)) as (b' & Hw' & Hc & ->).
    exists b'. by destruct (parse_frames (bq_contents b1)) as [[ms e] r].
  - destruct Hr as (Hd & Hw1 & _). rewrite Hd. by exists b1.
  - rewrite Hr. by exists b.
Qed.

(** A message as decoding produces it: its frame decodes to it. *)
Definition decoded (m : ProtocolMessage) : Prop := sendable m /\ received m = m.

(** The states a body that does not return goes through on a sequence of messages. *)
Fixpoint passes {S R} (f : S -> ProtocolMessage -> S * option R) (s : S)
    (ms : list ProtocolMessage) (s' : S) : Prop :=
  match ms with
  | [] => s' = s
  | m :: ms => exists s1, f s m = (s1, None) /\ passes f s1 ms s'
  end.

(** Whatever way the loop ends, the bytes it consumed are the frames it passed to its body. *)
Lemma while_decode_inv host {B} `{ByteQueueLaws B} {S R} fuel
    (f : S -> ProtocolMessage -> S * option R) s (b : B) e s' b' :
  bq_wf b -> while_decode host fuel f s b = Some (e, s', b') ->
  bq_wf b' /\ exists ms s1, passes f s ms s1 /\ Forall decoded ms /\
    match e with
    | LoopReturn r => exists m, f s1 m = (s', Some r) /\ decoded m /\
        bq_contents b = concat (map wire ms) ++ wire m ++ bq_contents b'
    | _ => s' = s1 /\ bq_contents b = concat (map wire ms) ++ bq_contents b'
    end.
Proof.
  revert s b. induction fuel as [|fuel IH]; intros s b Hw; cbn [while_decode]; [done|].
  pose proof (tryDecode_refines host b Hw) as Hr.
  destruct (tryDecode host b) as [[[m|] b1]|ex].
  - destruct Hr as (Hd & Hw1 & _). apply decode_spec_sound in Hd as (Hq & Hdec).
    destruct (f s m) as [s1 [r|]] eqn:Hf.
    + intros [= <- <- <-]. split; [done|]. exists [], s. split; [done|]. split; [done|].
      by exists m.
    + intros Hloop. destruct (IH s1 b1 Hw1 Hloop) as (Hw' & ms & s2 & Hp & Hms & He).
      split; [done|]. exists (m :: ms), s2. split; [by exists s1|]. split; [by constructor|].
      rewrite Hq. cbn [map concat].
      destruct e; [destruct He as [-> ->]|destruct He as (m' & ? & ? & ->)|destruct He as [-> ->]];
        [|exists m'|]; by rewrite <- !app_assoc.
  - destruct Hr as (Hd & Hw1 & Hb). intros [= <- <- <-]. rewrite Hb by done.
    split; [done|]. by exists [], s.
  - intros [= <- <- <-]. split; [done|]. by exists [], s.
Qed.

(** The fuel of the loop suffices whatever its body does. *)
Lemma while_decode_total host {B} `{ByteQueueLaws B} {S R} fuel
    (f : S -> ProtocolMessage -> S * option R) s (b : B) :
  bq_wf b -> length (bq_contents b) < fuel -> while_decode host fuel f s b <> None.
Proof.
  revert s b. induction fuel as [|fuel IH]; intros s b Hw Hf; [lia|]. cbn [while_decode].
  pose proof (tryDecode_refines host b Hw) as Hr.
  destruct (tryDecode host b) as [[[m|] b1]|ex]; [|done|done].
  destruct Hr as (Hd & Hw1 & _). apply decode_spec_progress in Hd as (Hl & _).
  unfold kHeaderSize in Hl. destruct (f s m) as [s1 [r|]]; [done|]. apply IH; [done|lia].
Qed.

(** *** On [Buffer] *)

Lemma encode_buffer host m b :
  wf b -> wf (encode host m b) /\ contents (encode host m b) = contents b ++ wire m.
Proof. exact (@encode_contents host Buffer _ _ m b). Qed.

Lemma tryDecode_buffer host b :
  wf b ->
  match tryDecode host b with
  | Throw e => decode_spec (contents b) = Throw e
  | Ok (m, b') => decode_spec (contents b) = Ok (m, contents b') /\ wf b' /\ (m = None -> b' = b)
  end.
Proof. exact (@tryDecode_refines host Buffer _ _ b). Qed.

Lemma while_decode_buffer host {S} (g : S -> ProtocolMessage -> S) s b :
  wf b ->
  exists b', wf b' /\ contents b' = (parse_frames (contents b)).2 /\
    while_decode host (Datatypes.S (readableBytes b)) (fun s m => (g s m, @None Empty_set)) s b =
    Some (match (parse_frames (contents b)).1.2 with
          | Some e => LoopThrow e | None => LoopDone end,
          fold_left g (parse_frames (contents b)).1.1 s, b').
Proof.
  intros Hw. apply (@while_decode_all host Buffer _ Buffer_queue_laws); [done|].
  cbn [bq_contents Buffer_queue]. rewrite length_contents by done. lia.
Qed.

Lemma while_decode_buffer_inv host {S R} (f : S -> ProtocolMessage -> S * option R) s b e s' b' :
  wf b -> while_decode host (Datatypes.S (readableBytes b)) f s b = Some (e, s', b') ->
  wf b' /\ exists ms s1, passes f s ms s1 /\ Forall decoded ms /\
    match e with
    | LoopReturn r => exists m, f s1 m = (s', Some r) /\ decoded m /\
        contents b = concat (map wire ms) ++ wire m ++ contents b'
    | _ => s' = s1 /\ contents b = concat (map wire ms) ++ contents b'
    end.
Proof. exact (@while_decode_inv host Buffer _ _ S R _ f s b e s' b'). Qed.

Lemma while_decode_buffer_total host {S R} (f : S -> ProtocolMessage -> S * option R) s b :
  wf b -> while_decode host (Datatypes.S (readableBytes b)) f s b <> None.
Proof.
  intros Hw. apply (@while_decode_total host Buffer _ Buffer_queue_laws); [done|].
  cbn [bq_contents Buffer_queue]. rewrite length_contents by done. lia.
Qed.

(** ** Receiving a stream *)

Section Receive.
Context (host : endian).

(** One readable event of a connection whose message callback decodes every complete frame: the
    chunk read by [readFd], then the decoding loop, with the decoded messages collected. *)
Definition on_readable (b : Buffer) (chunk : bytes) :
    option (loop_end Empty_set * list ProtocolMessage * Buffer) :=
  let b := (readFd b (ReadOk chunk)).2 in
  while_decode host (S (readableBytes b)) (fun ms m => (ms ++ [m], None)) [] b.

(** The messages decoded over a sequence of readable events. *)
Fixpoint receive (b : Buffer) (chunks : list bytes) : option (list ProtocolMessage * Buffer) :=
  match chunks with
  | [] => Some ([], b)
  | c :: cs =>
      match on_readable b c with
      | None => None
      | Some (_, ms, b) =>
          match receive b cs with
          | None => None
          | Some (ms', b) => Some (ms ++ ms', b)
          end
      end
  end.

Lemma fold_left_snoc {A} (ms acc : list A) : fold_left (fun l m => l ++ [m]) ms acc = acc ++ ms.
Proof.
  revert acc. induction ms as [|m ms IH]; intros acc; cbn [fold_left]; [by rewrite app_nil_r|].
  by rewrite IH, <- app_assoc.
Qed.

Lemma on_readable_spec b c :
  wf b ->
  exists b' e, on_readable b c = Some (e, (parse_frames (contents b ++ c)).1.1, b') /\
    wf b' /\ contents b' = (parse_frames (contents b ++ c)).2.
Proof.
  intros Hw. destruct (readFd_Ok_spec b c Hw) as [Hw1 Hc1]. unfold on_readable.
  rewrite <- Hc1.
  destruct (while_decode_buffer host (fun l m => l ++ [m]) [] (readFd b (ReadOk c)).2 Hw1)
    as (b' & Hw' & Hc' & Heq).
  exists b'. eexists. rewrite Heq, fold_left_snoc. done.
Qed.

Lemma receive_spec b chunks :
  wf b -> parse_frames (contents b) = ([], (parse_frames (contents b)).1.2, contents b) ->
  exists b', receive b chunks = Some ((parse_frames (contents b ++ concat chunks)).1.1, b') /\
    wf b' /\ contents b' = (parse_frames (contents b ++ concat chunks)).2.
Proof.
  revert b. induction chunks as [|c cs IH]; intros b Hw Hb; cbn [receive concat].
  { exists b. rewrite app_nil_r, Hb. done. }
  destruct (on_readable_spec b c Hw) as (b1 & e & -> & Hw1 & Hc1).
  rewrite app_assoc, (parse_frames_app (contents b ++ c)).
  destruct (parse_frames (contents b ++ c)) as [[ms oe] r] eqn:Hp. cbn [fst snd] in *.
  pose proof (parse_frames_rest _ _ _ _ Hp) as Hr.
  destruct (IH b1 Hw1) as (b2 & -> & Hw2 & Hc2); [by rewrite Hc1, Hr|].
  exists b2. rewrite Hc1 in *. destruct oe as [e'|].
  - rewrite Hc2, (parse_frames_stuck _ _ _ _ Hp). by rewrite app_nil_r.
  - destruct (parse_frames (r ++ concat cs)) as [[ms' e'] r']. done.
Qed.
End Receive.

(** ** Theorems *)

(** How TCP segments the stream does not matter: whatever the bytes and their segmentation,
    the readable events decode the frames of the whole byte sequence, in order, up to the first
    malformed one, and leave exactly the undecoded bytes unread; the loop always ends. *)
Theorem receive_segmentation (host : endian) (n : nat) (chunks : list bytes) :
  exists b', receive host (Buffer_new n) chunks
             = Some ((parse_frames (concat chunks)).1.1, b') /\
             wf b' /\ contents b' = (parse_frames (concat chunks)).2.
Proof.
  destruct (receive_spec host (Buffer_new n) chunks (wf_new n)) as (b' & Hr & Hw & Hc);
    rewrite contents_new in *; [done|]. by exists b'.
Qed.

(** The buffer a sender fills with the frames of [ms]. *)
Definition encode_all (host : endian) (ms : list ProtocolMessage) : Buffer :=
  fold_left (fun out m => encode host m out) ms (Buffer_new kInitialSize).

Lemma encode_all_contents host ms : contents (encode_all host ms) = concat (map wire ms).
Proof.
  unfold encode_all. rewrite <- (app_nil_l (concat _)), <- (contents_new kInitialSize).
  generalize (wf_new kInitialSize). generalize (Buffer_new kInitialSize).
  induction ms as [|m ms IH]; intros b Hb; cbn [fold_left map concat];
    [by rewrite app_nil_r|].
  destruct (encode_buffer host m b Hb) as [Hw Hc]. rewrite IH by done.
  by rewrite Hc, app_assoc.
Qed.

(** C11. Encode then decode, over a stream: messages encoded by a sender of either byte order
    and received by a host of either byte order, in any segmentation, are decoded in order with
    the same fields and bodies and the true body length, and nothing is left over. *)
Theorem stream_roundtrip (sender receiver : endian) (ms : list ProtocolMessage)
  (chunks : list bytes)
  (Hms : Forall sendable ms)
  (Hseg : concat chunks = contents (encode_all sender ms)) :
  exists b', receive receiver (Buffer_new kInitialSize) chunks = Some (map received ms, b') /\
             contents b' = [].
Proof.
  destruct (receive_spec receiver (Buffer_new kInitialSize) chunks (wf_new _))
    as (b' & Hr & _ & Hc); rewrite contents_new in *; [done|].
  exists b'. cbn [app] in *. rewrite Hseg, encode_all_contents, parse_frames_wires in * by done.
  done.
Qed.

(** A partial frame is left alone: while only a strict prefix of a frame has arrived,
    [tryDecode] returns no message, throws nothing and leaves the buffer as it is. *)
Theorem partial_frame_waits (host : endian) (m : ProtocolMessage) (b : Buffer) (rest : bytes)
  (Hm : sendable m) (Hwf : wf b) (Hrest : rest <> [])
  (Hpart : wire m = contents b ++ rest) :
  tryDecode host b = Ok (None, b).
Proof.
  pose proof (tryDecode_buffer host b Hwf) as Hr.
  pose proof (decode_spec_wire m [] Hm) as Hd. rewrite app_nil_r, Hpart in Hd.
  pose proof (decode_spec_app (contents b) rest) as Happ.
  destruct (tryDecode host b) as [[[m'|] b']|e].
  - destruct Hr as (Hr & _). rewrite Hr, Hd in Happ. injection Happ as _ Hnil.
    destruct rest; [done|]. by destruct (contents b').
  - by destruct Hr as (_ & _ & ->).
  - by rewrite Hr, Hd in Happ.
Qed.

(** Decoding is sound and canonical: a decoded message passes every check, its header carries
    the length of its body, the bytes consumed are exactly its encoding, and the unread rest is
    untouched. *)
Theorem tryDecode_canonical (host : endian) (b b' : Buffer) (m : ProtocolMessage)
  (Hwf : wf b) (Hdec : tryDecode host b = Ok (Some m, b')) :
  sendable m /\ bodyLen (header m) = Z.of_nat (length (body m)) /\
  contents b = wire m ++ contents b' /\ wf b'.
Proof.
  pose proof (tryDecode_buffer host b Hwf) as Hr. rewrite Hdec in Hr.
  destruct Hr as (Hd & Hw & _).
  destruct (decode_spec_sound _ _ _ Hd) as (Hq & Hs & Hrec).
  repeat split; try apply Hs; try apply Hw; [|done].
  rewrite <- Hrec at 1. done.
Qed.

(** The encoder has no length check: a message whose body exceeds the limit but fits the
    32-bit length field is encoded, and every receiver then throws on its frame. *)
Theorem oversize_frame_rejected (sender receiver : endian) (m : ProtocolMessage)
  (Ht : header_typed (header m)) (Hm : magic (header m) = kMagic)
  (Hv : version (header m) = kProtocolVersion)
  (Hlen : (kMaxBodySize < Z.of_nat (length (body m)) < 2 ^ 32)%Z) :
  tryDecode receiver (encode sender m (Buffer_new kInitialSize)) =
  Throw (std_exception (lit "Codec: body length exceeds limit")).
Proof.
  destruct (encode_buffer sender m (Buffer_new kInitialSize) (wf_new _)) as [Hw Hc].
  pose proof (tryDecode_buffer receiver _ Hw) as Hr.
  rewrite Hc, contents_new in Hr.
  cbn [app] in Hr. unfold decode_spec in Hr. rewrite <- (app_nil_r (wire m)) in Hr.
  rewrite wire_header_wire in Hr by (done || unfold fits, kMaxBodySize in *; lia).
  change (take 4 (take kHeaderSize (wire m ++ []))) with (be_bytes 4 (magic (header m))) in Hr.
  rewrite (be_value_fits 32) in Hr by (done || apply Ht).
  rewrite Hm, app_nil_r, length_wire in Hr. cbn [received header version bodyLen] in Hr.
  rewrite Hv in Hr. rewrite (proj2 (Z.ltb_lt _ _)) in Hr by lia.
  destruct (Nat.ltb_spec (kHeaderSize + length (body m)) kHeaderSize); [lia|].
  rewrite !Z.eqb_refl in Hr.
  destruct (tryDecode receiver _) as [[? ?]|e]; [by destruct Hr|]. by injection Hr as <-.
Qed.

(** ** Witnesses *)

Definition sample_request : ProtocolMessage :=
  mkMessage (mkHeader kMagic kProtocolVersion kRequest 0 7 0 0) (lit "ping").
Definition sample_response : ProtocolMessage :=
  mkMessage (mkHeader kMagic kProtocolVersion kResponse 0 (2 ^ 64 - 1) 0 0) (lit "").

Lemma sample_sendable : Forall sendable [sample_request; sample_response].
Proof. repeat constructor; vm_compute; congruence. Qed.

Lemma stream_roundtrip_witness :
  let w := contents (encode_all LittleEndian [sample_request; sample_response]) in
  exists b', receive BigEndian (Buffer_new kInitialSize) [take 5 w; drop 5 w]
             = Some (map received [sample_request; sample_response], b') /\ contents b' = [].
Proof.
  intros w. apply (stream_roundtrip LittleEndian BigEndian); [exact sample_sendable|].
  cbn [concat]. rewrite app_nil_r. apply take_drop.
Defined.

Lemma partial_frame_waits_witness :
  tryDecode LittleEndian (append (Buffer_new kInitialSize) (take 26 (wire sample_request)))
  = Ok (None, append (Buffer_new kInitialSize) (take 26 (wire sample_request))).
Proof.
  apply (partial_frame_waits LittleEndian sample_request _ (drop 26 (wire sample_request))).
  - exact (Forall_inv sample_sendable).
  - apply append_spec, wf_new.
  - vm_compute. discriminate.
  - vm_compute. reflexivity.
Defined.

Lemma tryDecode_canonical_witness :
  let b := encode LittleEndian sample_request (Buffer_new kInitialSize) in
  exists b', tryDecode LittleEndian b = Ok (Some (received sample_request), b') /\
             contents b = wire (received sample_request) ++ contents b'.
Proof.
  intros b. eexists. split; [vm_compute; reflexivity|].
  eapply (tryDecode_canonical LittleEndian b).
  - apply encode_buffer, wf_new.
  - vm_compute. reflexivity.
Defined.

Lemma oversize_frame_rejected_witness :
  let m := mkMessage (header sample_response)
             (replicate (Z.to_nat (kMaxBodySize + 1)) Ascii.zero) in
  tryDecode LittleEndian (encode LittleEndian m (Buffer_new kInitialSize)) =
  Throw (std_exception (lit "Codec: body length exceeds limit")).
Proof.
  intros m. apply (oversize_frame_rejected LittleEndian LittleEndian m).
  - change (header_typed (header sample_response)). repeat split; vm_compute; congruence.
  - reflexivity.
  - reflexivity.
  - unfold m; cbn [body]. rewrite length_replicate, Z2Nat.id; unfold kMaxBodySize; lia.
Defined.
