(* ===== verification/Controller.v ===== *)
(** [minirpc::RpcController] (include/minirpc/rpc/RpcController.h, src/rpc/RpcController.cpp)
    and the controller pointers the channels receive. *)
From stdpp Require Import base list strings numbers.
From Stdlib Require Import Ascii ZArith Lia.
From S2P Require Import Prelude Common.

(** A [google::protobuf::Closure], by its identity. *)
Definition closure : Type := nat.
#[export] Instance closure_eq_dec : EqDecision closure := Nat.eq_dec.

Record RpcController := mkController {
  failed_ : bool;
  canceled_ : bool;
  errorCode_ : ErrorCode;
  errorText_ : bytes;
  cancelCallback_ : option closure;
}.

Definition RpcController_new : RpcController := mkController false false kOk [] None.

Definition Reset (_ : RpcController) : RpcController := mkController false false kOk [] None.
Definition Failed (c : RpcController) : bool := failed_ c.
Definition ErrorText (c : RpcController) : bytes := errorText_ c.
Definition IsCanceled (c : RpcController) : bool := canceled_ c.
Definition errorCode (c : RpcController) : ErrorCode := errorCode_ c.

(** The closures run by the call come with the new controller. *)
Definition StartCancel (c : RpcController) : list closure * RpcController :=
  let c := mkController (failed_ c) true (errorCode_ c) (errorText_ c) (cancelCallback_ c) in
  match cancelCallback_ c with
  | Some cb => ([cb], mkController (failed_ c) (canceled_ c) (errorCode_ c) (errorText_ c) None)
  | None => ([], c)
  end.

(** [SetFailed(reason)] *)
Definition SetFailed (c : RpcController) (reason : bytes) : RpcController :=
  mkController true (canceled_ c)
    (if (errorCode_ c =? kOk)%Z then kUnknown else errorCode_ c) reason (cancelCallback_ c).

(** [SetFailed(code, reason)] *)
Definition SetFailedCode (c : RpcController) (code : ErrorCode) (reason : bytes) : RpcController :=
  mkController true (canceled_ c) code reason (cancelCallback_ c).

Definition NotifyOnCancel (c : RpcController) (callback : option closure) :
    list closure * RpcController :=
  match callback with
  | None => ([], c)
  | Some cb =>
      if canceled_ c then ([cb], c)
      else ([], mkController (failed_ c) (canceled_ c) (errorCode_ c) (errorText_ c) (Some cb))
  end.

(** ** A [google::protobuf::RpcController*] argument *)

(** Null, this library's controller, or another implementation of the protobuf interface, which
    records only that and why the call failed. *)
Inductive Controller :=
| NullController
| Mini (c : RpcController)
| Foreign (failed : bool) (text : bytes).

Definition resetController (c : Controller) : Controller :=
  match c with
  | NullController => NullController
  | Mini c => Mini (Reset c)
  | Foreign _ _ => Foreign false []
  end.

(** [RpcChannel::failController] and [LoadBalanceChannel::failController]. *)
Definition failController (c : Controller) (code : ErrorCode) (message : bytes) : Controller :=
  match c with
  | NullController => NullController
  | Mini rc => Mini (SetFailedCode rc code message)
  | Foreign _ _ => Foreign true message
  end.

(** [controller->Failed()], on a non-null pointer. *)
Definition controllerFailed (c : Controller) : bool :=
  match c with
  | NullController => false
  | Mini rc => Failed rc
  | Foreign f _ => f
  end.

(** ** Cancellation *)

Inductive cancel_op :=
| OpStartCancel
| OpNotify (cb : option closure)
| OpSetFailed (reason : bytes)
| OpSetFailedCode (code : ErrorCode) (reason : bytes)
| OpReset.

#[export] Instance cancel_op_eq_dec : EqDecision cancel_op.
Proof. unfold closure, ErrorCode. solve_decision. Defined.

Definition cancel_exec (c : RpcController) (o : cancel_op) : list closure * RpcController :=
  match o with
  | OpStartCancel => StartCancel c
  | OpNotify cb => NotifyOnCancel c cb
  | OpSetFailed r => ([], SetFailed c r)
  | OpSetFailedCode e r => ([], SetFailedCode c e r)
  | OpReset => ([], Reset c)
  end.

(** The closures run over a sequence of calls, in order. *)
Fixpoint cancel_run (c : RpcController) (os : list cancel_op) : list closure * RpcController :=
  match os with
  | [] => ([], c)
  | o :: os => let '(ran, c) := cancel_exec c o in
               let '(ran', c) := cancel_run c os in (ran ++ ran', c)
  end.

(** How often a closure occurs in a list, and is registered in a sequence of calls. *)
Definition runs (cb : closure) (l : list closure) : nat := length (filter (eq cb) l).
Definition registrations (cb : closure) (os : list cancel_op) : nat :=
  length (filter (fun o => o = OpNotify (Some cb)) os).

Arguments runs : simpl never.
Arguments registrations : simpl never.

Definition pending (cb : closure) (c : RpcController) : nat :=
  if decide (cancelCallback_ c = Some cb) then 1 else 0.

(** Once canceled, no callback waits. *)
Definition cancel_inv (c : RpcController) : Prop :=
  canceled_ c = true -> cancelCallback_ c = None.

Lemma runs_app cb l k : runs cb (l ++ k) = runs cb l + runs cb k.
Proof. unfold runs. by rewrite list.filter_app, length_app. Qed.

Lemma runs_nil cb : runs cb [] = 0.
Proof. done. Qed.

Lemma runs_one cb x : runs cb [x] = if decide (Some x = Some cb) then 1 else 0.
Proof.
  unfold runs. rewrite list.filter_cons, list.filter_nil.
  destruct (decide (cb = x)), (decide (Some x = Some cb)); simplify_eq; done.
Qed.

Lemma registrations_cons cb o os :
  registrations cb (o :: os)
  = (if decide (o = OpNotify (Some cb)) then 1 else 0) + registrations cb os.
Proof. unfold registrations. rewrite list.filter_cons. by case_decide. Qed.

Ltac count_cases := repeat case_decide; simplify_eq; lia.

(** One call runs a closure only if it was waiting or is being registered. *)
Lemma cancel_exec_runs cb c o :
  runs cb (cancel_exec c o).1 + pending cb (cancel_exec c o).2
  <= pending cb c + (if decide (o = OpNotify (Some cb)) then 1 else 0).
Proof.
  unfold pending. destruct o as [|[x|]| | |]; cbn; rewrite ?runs_nil; try count_cases.
  - unfold StartCancel; cbn. destruct (cancelCallback_ c) as [x|]; cbn;
      rewrite ?runs_nil, ?runs_one; count_cases.
  - destruct (canceled_ c); cbn; rewrite ?runs_nil, ?runs_one; count_cases.
Qed.

Lemma cancel_run_runs cb c os :
  runs cb (cancel_run c os).1 + pending cb (cancel_run c os).2
  <= pending cb c + registrations cb os.
Proof.
  revert c. induction os as [|o os IH]; intros c; cbn [cancel_run];
    [cbn [fst snd]; rewrite runs_nil; lia|].
  pose proof (cancel_exec_runs cb c o) as Ho. destruct (cancel_exec c o) as [ran c1].
  specialize (IH c1). destruct (cancel_run c1 os) as [ran' c2]. cbn [fst snd] in *.
  rewrite runs_app, registrations_cons. lia.
Qed.

(** A sequence in which [cb] is the only closure registered, and no [Reset]. *)
Definition only (cb : closure) (o : cancel_op) : Prop :=
  match o with OpNotify (Some x) => x = cb | OpReset => False | _ => True end.

Lemma cancel_exec_exact cb c o :
  only cb o -> cancel_inv c ->
  pending cb c + (if decide (o = OpNotify (Some cb)) then 1 else 0) <= 1 ->
  cancel_inv (cancel_exec c o).2 /\
  (canceled_ c = true \/ o = OpStartCancel -> canceled_ (cancel_exec c o).2 = true) /\
  runs cb (cancel_exec c o).1 + pending cb (cancel_exec c o).2
  = pending cb c + (if decide (o = OpNotify (Some cb)) then 1 else 0).
Proof.
  unfold pending, cancel_inv. destruct o as [|[x|]| | |]; cbn; intros Honly Hinv Hle;
    rewrite ?runs_nil; try done;
    try (split; [done|split; [by intros [?|?]|count_cases]]).
  - unfold StartCancel; cbn. destruct (cancelCallback_ c) as [x|] eqn:Hc; cbn;
      rewrite ?runs_one, ?runs_nil, ?Hc; (split; [done|split; [done|count_cases]]).
  - subst x. destruct (canceled_ c) eqn:Hcan; cbn; rewrite ?runs_one, ?runs_nil.
    + rewrite Hinv in * by done. split; [done|split; [done|count_cases]].
    + split; [done|split; [by intros [?|?]|count_cases]].
Qed.

Lemma cancel_run_exact cb c os :
  Forall (only cb) os -> cancel_inv c -> pending cb c + registrations cb os <= 1 ->
  cancel_inv (cancel_run c os).2 /\
  (canceled_ c = true \/ OpStartCancel ∈ os -> canceled_ (cancel_run c os).2 = true) /\
  runs cb (cancel_run c os).1 + pending cb (cancel_run c os).2
  = pending cb c + registrations cb os.
Proof.
  intros Hall. revert c. induction Hall as [|o os Ho _ IH]; intros c Hinv Hle; cbn [cancel_run].
  { repeat split; try done. by intros [?|?%elem_of_nil]. }
  rewrite registrations_cons in Hle.
  destruct (cancel_exec_exact cb c o Ho Hinv ltac:(lia)) as (Hi1 & Hc1 & Hr1).
  destruct (cancel_exec c o) as [ran c1]. cbn [fst snd] in *.
  destruct (IH c1 Hi1 ltac:(lia)) as (Hi2 & Hc2 & Hr2).
  destruct (cancel_run c1 os) as [ran' c2]. cbn [fst snd] in *.
  rewrite runs_app, registrations_cons. repeat split; [done| |lia].
  rewrite elem_of_cons. intuition.
Qed.

(** A cancellation callback runs exactly once: over any calls without [Reset] in which one
    closure is registered once and the call is canceled, before or after the registration and
    any number of times, the closure is run exactly once. *)
Theorem cancel_callback_once (cb : closure) (os : list cancel_op)
  (Honly : Forall (only cb) os) (Hreg : registrations cb os = 1)
  (Hcancel : OpStartCancel ∈ os) :
  runs cb (cancel_run RpcController_new os).1 = 1.
Proof.
  destruct (cancel_run_exact cb RpcController_new os Honly) as (Hinv & Hc & Hr);
    [done|rewrite Hreg; done|].
  rewrite Hreg in Hr. unfold pending in Hr. rewrite Hinv in Hr by (apply Hc; by right).
  cbn in Hr. lia.
Qed.

Lemma cancel_callback_once_witness :
  runs 4 (cancel_run RpcController_new
            [OpSetFailed (lit "x"); OpStartCancel; OpNotify (Some 4); OpStartCancel]).1 = 1.
Proof.
  apply (cancel_callback_once 4).
  - repeat constructor.
  - reflexivity.
  - apply list_elem_of_In. cbn. auto.
Defined.

(** A failure recorded without a code never reads as [kOk]. *)
Lemma SetFailed_not_ok c r : errorCode (SetFailed c r) <> kOk.
Proof. cbn. destruct (Z.eqb_spec (errorCode_ c) kOk); done. Qed.
