(* ===== verification/Service.v ===== *)
(** What protobuf and its generated code provide (parameters of the model), and
    [minirpc::ServiceRegistry] (include/minirpc/rpc/ServiceRegistry.h,
    src/rpc/ServiceRegistry.cpp). *)
From stdpp Require Import base list gmap strings numbers.
From Stdlib Require Import Ascii ZArith Lia.
From S2P Require Import Prelude Bytes Common Controller.

(** ** The envelopes of proto/rpc.proto *)

Record RpcRequest := mkRpcRequest { method : bytes; request : bytes }.
Record RpcResponse := mkRpcResponse {
  error_code : Z;
  error_message : bytes;
  response : bytes;
}.
Definition RpcResponse_default : RpcResponse := mkRpcResponse 0 [] [].

#[export] Instance RpcRequest_eq_dec : EqDecision RpcRequest.
Proof. solve_decision. Defined.
#[export] Instance RpcResponse_eq_dec : EqDecision RpcResponse.
Proof. solve_decision. Defined.

(** The generated [SerializeToString] and [ParseFromString] of the envelopes. *)
Class Envelope := {
  serializeRequest : RpcRequest -> bytes;
  parseRequest : bytes -> option RpcRequest;
  serializeResponse : RpcResponse -> bytes;
  parseResponse : bytes -> option RpcResponse;
}.

(** Protobuf's contract: a serialized message parses to itself. *)
Class EnvelopeLaws `{Envelope} : Prop := {
  parse_serializeRequest r : parseRequest (serializeRequest r) = Some r;
  parse_serializeResponse r : parseResponse (serializeResponse r) = Some r;
}.

(** ** Services *)

(** A method of a [google::protobuf::Service] as the server uses it through reflection: parsing
    into the request prototype, the empty response, the call on the service's state [St] with
    [done == nullptr], which may throw, and the serialization of the response. *)
Record Method (Msg St : Type) := mkMethod {
  ParseRequest : bytes -> option Msg;
  NewResponse : Msg;
  CallMethod : St -> RpcController -> Msg -> Msg -> St * result (RpcController * Msg);
  SerializeResponse : Msg -> bytes;
}.
Arguments ParseRequest {Msg St}.
Arguments NewResponse {Msg St}.
Arguments CallMethod {Msg St}.
Arguments SerializeResponse {Msg St}.

Record Service (Msg St : Type) := mkService {
  full_name : bytes;
  FindMethodByName : bytes -> option (Method Msg St);
}.
Arguments full_name {Msg St}.
Arguments FindMethodByName {Msg St}.

(** ** ServiceRegistry *)

Section ServiceRegistry.
Context {Msg St : Type}.

Record ServiceRegistry := mkRegistry { services_ : gmap bytes (Service Msg St) }.

Definition ServiceRegistry_new : ServiceRegistry := mkRegistry ∅.

Definition addService (r : ServiceRegistry) (fullName : bytes) (service : Service Msg St) :
    bool * ServiceRegistry :=
  match services_ r !! fullName with
  | Some _ => (false, r)
  | None => (true, mkRegistry (<[fullName := service]> (services_ r)))
  end.

Definition findService (r : ServiceRegistry) (fullName : bytes) : option (Service Msg St) :=
  services_ r !! fullName.

Fixpoint add_all (r : ServiceRegistry) (l : list (bytes * Service Msg St)) : ServiceRegistry :=
  match l with
  | [] => r
  | (n, s) :: l => add_all (addService r n s).2 l
  end.

Lemma addService_find r n s k :
  findService (addService r n s).2 k =
  match findService r k with
  | Some x => Some x
  | None => if decide (k = n) then Some s else None
  end.
Proof.
  unfold findService, addService. destruct (services_ r !! n) eqn:Hn; cbn.
  - destruct (services_ r !! k) eqn:Hk; [done|]. by destruct (decide (k = n)); simplify_eq.
  - rewrite lookup_insert. destruct (decide (n = k)) as [->|].
    + rewrite Hn. by rewrite decide_True.
    + destruct (services_ r !! k); [done|]. by rewrite decide_False.
Qed.

(** The first registration of a name in a sequence. *)
Fixpoint first_binding (k : bytes) (l : list (bytes * Service Msg St)) : option (Service Msg St) :=
  match l with
  | [] => None
  | (n, s) :: l => if decide (k = n) then Some s else first_binding k l
  end.

Lemma add_all_find r l k :
  findService (add_all r l) k =
  match findService r k with Some s => Some s | None => first_binding k l end.
Proof.
  revert r. induction l as [|[n s] l IH]; intros r; cbn [add_all first_binding].
  - by destruct (findService r k).
  - rewrite IH, addService_find. destruct (findService r k); [done|]. by case_decide.
Qed.

(** Dispatch is stable: after any registrations a name resolves to the service first registered
    under it, and an unregistered name to none. *)
Lemma registry_first_wins l k : findService (add_all ServiceRegistry_new l) k = first_binding k l.
Proof. by rewrite add_all_find. Qed.

End ServiceRegistry.
Arguments ServiceRegistry : clear implicits.

(** ** A concrete envelope codec *)

(** A self-delimiting encoding that satisfies protobuf's contract, on which the definitions that
    take an [Envelope] are evaluated. *)
Module SampleEnvelope.

(** Each character after a one byte, closed by a zero byte. *)
Fixpoint put_field (s : bytes) : bytes :=
  match s with
  | [] => [Ascii.zero]
  | c :: s => Ascii.one :: c :: put_field s
  end.

Fixpoint get_field (l : bytes) : option (bytes * bytes) :=
  match l with
  | [] => None
  | x :: l =>
      if bool_decide (x = Ascii.zero) then Some ([], l)
      else match l with
           | [] => None
           | c :: l => match get_field l with
                       | Some (s, r) => Some (c :: s, r)
                       | None => None
                       end
           end
  end.

Fixpoint put_pos (p : positive) : bytes :=
  match p with
  | xH => []
  | xO p => Ascii.zero :: put_pos p
  | xI p => Ascii.one :: put_pos p
  end.
Fixpoint get_pos (l : bytes) : positive :=
  match l with
  | [] => xH
  | x :: l => if bool_decide (x = Ascii.zero) then xO (get_pos l) else xI (get_pos l)
  end.

#[export] Instance envelope : Envelope := {
  serializeRequest r := put_field (method r) ++ put_field (request r);
  parseRequest b :=
    match get_field b with
    | Some (m, b) => match get_field b with
                     | Some (r, []) => Some (mkRpcRequest m r)
                     | _ => None
                     end
    | None => None
    end;
  serializeResponse r :=
    put_field (put_pos (encode (error_code r))) ++ put_field (error_message r) ++
    put_field (response r);
  parseResponse b :=
    match get_field b with
    | Some (p, b) =>
        match get_field b, decode (get_pos p) with
        | Some (m, b), Some c => match get_field b with
                                 | Some (r, []) => Some (mkRpcResponse c m r)
                                 | _ => None
                                 end
        | _, _ => None
        end
    | None => None
    end;
}.

Lemma get_put_field s l : get_field (put_field s ++ l) = Some (s, l).
Proof. induction s as [|c s IH]; [done|]. cbn. by rewrite IH. Qed.

Lemma get_put_pos p : get_pos (put_pos p) = p.
Proof. induction p as [p IH|p IH|]; cbn; by rewrite ?IH. Qed.

#[export] Instance envelope_laws : EnvelopeLaws.
Proof.
  split; intros r;
    cbn [parseRequest serializeRequest parseResponse serializeResponse envelope];
    rewrite get_put_field.
  - rewrite <- (app_nil_r (put_field (request r))), get_put_field. by destruct r.
  - rewrite get_put_field, get_put_pos, decode_encode.
    rewrite <- (app_nil_r (put_field (response r))), get_put_field. by destruct r.
Qed.

End SampleEnvelope.
