(* ===== verification/RpcServer.v ===== *)
(** [minirpc::RpcServer] (include/minirpc/rpc/RpcServer.h, src/rpc/RpcServer.cpp): frames decoded
    on the loop thread, requests handed to the pool, one reply per request. *)
From stdpp Require Import base list gmap strings numbers.
From Stdlib Require Import Ascii ZArith Lia.
From S2P Require Import Prelude Bytes Common Buffer Codec Controller Service.

(** ** Interface: the pool that runs the requests *)

(** [pool_->submit]: the pool with the task queued, or an exception and the pool as it is. *)
Class TaskPool (P Task : Type) := submit : P -> Task -> P * result unit.

Section RpcServer.
Context (host : endian) `{Envelope} {Msg St : Type}.

(** The strings passed to [conn->send] so far. *)
Abbreviation conn_out := (list bytes).

(** ** Replies *)

Definition sendEnvelope (conn : conn_out) (seq : Z) (envelope : bytes) : conn_out :=
  let msg := {| header := {| magic := kMagic; version := kProtocolVersion; type_ := kResponse;
                             flags := flags ProtocolHeader_default; seq := seq;
                             bodyLen := bodyLen ProtocolHeader_default;
                             reserved := reserved ProtocolHeader_default |};
                body := envelope |} in
  let out := encode host msg (Buffer_new kInitialSize) in
  conn ++ [(retrieveAllAsString out).1].

Definition sendError (conn : conn_out) (seq : Z) (code : ErrorCode) (message : bytes) : conn_out :=
  let resp := {| error_code := code; error_message := message;
                 response := response RpcResponse_default |} in
  sendEnvelope conn seq (serializeResponse resp).

(** ** registerService *)

Definition registerService (r : ServiceRegistry Msg St) (service : option (Service Msg St)) :
    result unit * ServiceRegistry Msg St :=
  match service with
  | None => (Throw (std_exception (lit "RpcServer: null service")), r)
  | Some s =>
      let name := full_name s in
      match addService r name s with
      | (false, r) => (Throw (std_exception (lit "RpcServer: duplicate service: " ++ name)), r)
      | (true, r) => (Ok tt, r)
      end
  end.

(** ** handleRequest *)

(** The service's state, what was sent on the connection, and whether the call returned or an
    exception of the service method left it. *)
Definition handleRequest (reg : ServiceRegistry Msg St) (st : St) (conn : conn_out)
    (requestMsg : ProtocolMessage) : St * conn_out * result unit :=
  let sq := seq (header requestMsg) in
  match parseRequest (body requestMsg) with
  | None => (st, sendError conn sq kInvalidArgument (lit "bad RpcRequest envelope"), Ok tt)
  | Some envelope =>
      let methodFullName := method envelope in
      let invalid :=
        (st, sendError conn sq kInvalidArgument (lit "invalid method name: " ++ methodFullName),
         Ok tt) in
      match rfind "."%char methodFullName with
      | None => invalid
      | Some dot =>
          if (dot =? 0) || (length methodFullName <=? dot + 1) then invalid
          else
            let serviceName := take dot methodFullName in
            let methodName := drop (dot + 1) methodFullName in
            match findService reg serviceName with
            | None => (st, sendError conn sq kNoService (lit "no such service: " ++ serviceName),
                       Ok tt)
            | Some service =>
                match FindMethodByName service methodName with
                | None => (st, sendError conn sq kNoMethod (lit "no such method: " ++ methodName),
                           Ok tt)
                | Some meth =>
                    match ParseRequest meth (request envelope) with
                    | None => (st, sendError conn sq kInvalidArgument (lit "bad request payload"),
                               Ok tt)
                    | Some req =>
                        match CallMethod meth st RpcController_new req (NewResponse meth) with
                        | (st, Throw e) => (st, conn, Throw e)
                        | (st, Ok (controller, resp_msg)) =>
                            let resp :=
                              if Failed controller
                              then {| error_code := errorCode controller;
                                      error_message := ErrorText controller;
                                      response := response RpcResponse_default |}
                              else {| error_code := kOk;
                                      error_message := error_message RpcResponse_default;
                                      response := SerializeResponse meth resp_msg |} in
                            (st, sendEnvelope conn sq (serializeResponse resp), Ok tt)
                        end
                    end
                end
            end
      end
  end.

(** ** onMessage *)

Context {P : Type} `{!TaskPool P ProtocolMessage}.

(** The body of the decoding loop: the pool and the connection's output. *)
Definition onMessage_body (s : P * conn_out) (msg : ProtocolMessage) :
    (P * conn_out) * option Empty_set :=
  let '(pool, conn) := s in
  if negb (type_ (header msg) =? kRequest)%Z then ((pool, conn), None)
  else
    match submit pool msg with
    | (pool, Ok _) => ((pool, conn), None)
    | (pool, Throw e) => ((pool, sendError conn (seq (header msg)) kSystem (what e)), None)
    end.

(** The last component of the result says whether [conn->shutdown()] was called. *)
Definition onMessage (pool : P) (conn : conn_out) (buffer : Buffer) :
    option (P * conn_out * Buffer * bool) :=
  match while_decode host (S (readableBytes buffer)) onMessage_body (pool, conn) buffer with
  | None => None
  | Some (LoopThrow _, (pool, conn), buffer) => Some (pool, conn, buffer, true)
  | Some (_, (pool, conn), buffer) => Some (pool, conn, buffer, false)
  end.

(** ** Specification *)

(** The reply the protocol defines for a request body, with the service's next state: one rule
    per outcome of the dispatch. *)
Inductive reply_for (reg : ServiceRegistry Msg St) (st : St) (b : bytes) :
    St -> RpcResponse -> Prop :=
| reply_bad_envelope :
    parseRequest b = None ->
    reply_for reg st b st
      (mkRpcResponse kInvalidArgument (lit "bad RpcRequest envelope") [])
| reply_bad_name e :
    parseRequest b = Some e ->
    (forall svc m, method e = svc ++ "."%char :: m -> "."%char ∉ m -> svc = [] \/ m = []) ->
    reply_for reg st b st
      (mkRpcResponse kInvalidArgument (lit "invalid method name: " ++ method e) [])
| reply_no_service e svc m :
    parseRequest b = Some e ->
    method e = svc ++ "."%char :: m -> "."%char ∉ m -> svc <> [] -> m <> [] ->
    findService reg svc = None ->
    reply_for reg st b st (mkRpcResponse kNoService (lit "no such service: " ++ svc) [])
| reply_no_method e svc m service :
    parseRequest b = Some e ->
    method e = svc ++ "."%char :: m -> "."%char ∉ m -> svc <> [] -> m <> [] ->
    findService reg svc = Some service -> FindMethodByName service m = None ->
    reply_for reg st b st (mkRpcResponse kNoMethod (lit "no such method: " ++ m) [])
| reply_bad_payload e svc m service meth :
    parseRequest b = Some e ->
    method e = svc ++ "."%char :: m -> "."%char ∉ m -> svc <> [] -> m <> [] ->
    findService reg svc = Some service -> FindMethodByName service m = Some meth ->
    ParseRequest meth (request e) = None ->
    reply_for reg st b st (mkRpcResponse kInvalidArgument (lit "bad request payload") [])
| reply_service_failed e svc m service meth req st' c r :
    parseRequest b = Some e ->
    method e = svc ++ "."%char :: m -> "."%char ∉ m -> svc <> [] -> m <> [] ->
    findService reg svc = Some service -> FindMethodByName service m = Some meth ->
    ParseRequest meth (request e) = Some req ->
    CallMethod meth st RpcController_new req (NewResponse meth) = (st', Ok (c, r)) ->
    Failed c = true ->
    reply_for reg st b st' (mkRpcResponse (errorCode c) (ErrorText c) [])
| reply_ok e svc m service meth req st' c r :
    parseRequest b = Some e ->
    method e = svc ++ "."%char :: m -> "."%char ∉ m -> svc <> [] -> m <> [] ->
    findService reg svc = Some service -> FindMethodByName service m = Some meth ->
    ParseRequest meth (request e) = Some req ->
    CallMethod meth st RpcController_new req (NewResponse meth) = (st', Ok (c, r)) ->
    Failed c = false ->
    reply_for reg st b st' (mkRpcResponse kOk [] (SerializeResponse meth r)).

(** The response message sent for the request with sequence number [sq]. *)
Definition reply_message (sq : Z) (r : RpcResponse) : ProtocolMessage :=
  mkMessage (mkHeader kMagic kProtocolVersion kResponse 0 sq 0 0) (serializeResponse r).

(** ** Lemmas *)

Lemma sendEnvelope_wire conn sq e :
  sendEnvelope conn sq e
  = conn ++ [wire (mkMessage (mkHeader kMagic kProtocolVersion kResponse 0 sq 0 0) e)].
Proof.
  unfold sendEnvelope. cbn zeta. set (m := mkMessage _ _).
  destruct (encode_buffer host m (Buffer_new kInitialSize) (wf_new _)) as [Hw Hc].
  by rewrite retrieveAllAsString_spec, Hc, contents_new.
Qed.

Lemma sendError_wire conn sq code msg :
  sendError conn sq code msg = conn ++ [wire (reply_message sq (mkRpcResponse code msg []))].
Proof. apply sendEnvelope_wire. Qed.

(** Splitting a method name at its last dot. *)
Lemma split_method (n : bytes) dot :
  rfind "."%char n = Some dot ->
  n = take dot n ++ "."%char :: drop (dot + 1) n /\ "."%char ∉ drop (dot + 1) n.
Proof. intros Hr. rewrite Nat.add_1_r. by apply rfind_Some. Qed.

Lemma take_nil_dot (n : bytes) dot :
  rfind "."%char n = Some dot -> (dot =? 0) || (length n <=? dot + 1) = true ->
  take dot n = [] \/ drop (dot + 1) n = [].
Proof.
  intros Hr [H0|Hl]%orb_true_iff.
  - apply Nat.eqb_eq in H0 as ->. by left.
  - apply Nat.leb_le in Hl. right. by apply drop_ge.
Qed.

Lemma take_nonnil_dot (n : bytes) dot :
  rfind "."%char n = Some dot -> (dot =? 0) || (length n <=? dot + 1) = false ->
  take dot n <> [] /\ drop (dot + 1) n <> [].
Proof.
  intros Hr [H0 Hl]%orb_false_iff. apply Nat.eqb_neq in H0. apply Nat.leb_gt in Hl.
  split; intros Hn; apply (f_equal length) in Hn; len.
Qed.

(** *** handleRequest *)

(** Unless the service method throws, exactly one frame is sent, and it carries the reply the
    specification defines; when it throws, nothing is sent. *)
Lemma handleRequest_reply reg st conn m :
  match handleRequest reg st conn m with
  | (st', conn', Ok _) =>
      exists r, conn' = conn ++ [wire (reply_message (seq (header m)) r)] /\
                reply_for reg st (body m) st' r
  | (_, conn', Throw _) => conn' = conn
  end.
Proof.
  unfold handleRequest. destruct (parseRequest (body m)) as [e|] eqn:He.
  2: { eexists. split; [apply sendError_wire|]. by constructor. }
  destruct (rfind "."%char (method e)) as [dot|] eqn:Hdot.
  2: { eexists. split; [apply sendError_wire|]. apply reply_bad_name with (e := e); [done|].
       intros svc mt Heq Hn. by rewrite Heq, (rfind_app _ _ _ Hn) in Hdot. }
  destruct (split_method _ _ Hdot) as [Hsp Hnd].
  destruct ((dot =? 0) || (length (method e) <=? dot + 1)) eqn:Hguard.
  { eexists. split; [apply sendError_wire|]. apply reply_bad_name with (e := e); [done|].
    intros svc mt Heq Hn. rewrite Heq in Hsp at 1.
    destruct (last_split_unique _ _ _ _ _ Hsp Hn Hnd) as [-> ->].
    by apply take_nil_dot. }
  destruct (take_nonnil_dot _ _ Hdot Hguard) as [Hsvc Hmt].
  destruct (findService reg _) as [service|] eqn:Hfs.
  2: { eexists. split; [apply sendError_wire|]. by eapply reply_no_service. }
  destruct (FindMethodByName service _) as [meth|] eqn:Hfm.
  2: { eexists. split; [apply sendError_wire|]. by eapply reply_no_method. }
  destruct (ParseRequest meth _) as [req|] eqn:Hpr.
  2: { eexists. split; [apply sendError_wire|]. by eapply reply_bad_payload. }
  destruct (CallMethod meth _ _ _ _) as [st' [[c r]|ex]] eqn:Hcall; [|done].
  eexists. split; [apply sendEnvelope_wire|].
  destruct (Failed c) eqn:Hfail; [by eapply reply_service_failed|by eapply reply_ok].
Qed.

(** A well-formed method name, as the dispatch takes it apart. *)
Lemma dispatch_name svc name :
  "."%char ∉ name -> svc <> [] -> name <> [] ->
  let full := svc ++ "."%char :: name in
  rfind "."%char full = Some (length svc) /\
  (length svc =? 0) || (length full <=? length svc + 1) = false /\
  take (length svc) full = svc /\ drop (length svc + 1) full = name.
Proof.
  intros Hdot Hsvc Hname. cbn zeta. rewrite rfind_app by done. split; [done|]. split; [|split].
  - rewrite length_app. cbn [length]. destruct svc; [done|]. destruct name; [done|].
    apply orb_false_iff. split; [done|]. apply Nat.leb_gt. cbn [length]. lia.
  - apply take_app_length.
  - rewrite drop_app_ge by lia. by replace (length svc + 1 - length svc) with 1 by lia.
Qed.

(** A name without a service or a method. *)
Lemma dispatch_bad_name full :
  (forall svc m, full = svc ++ "."%char :: m -> "."%char ∉ m -> svc = [] \/ m = []) ->
  match rfind "."%char full with
  | Some dot => (dot =? 0) || (length full <=? dot + 1) = true
  | None => True
  end.
Proof.
  intros Hbad. destruct (rfind "."%char full) as [dot|] eqn:Hdot; [|done].
  destruct (split_method _ _ Hdot) as [Hsp Hnd].
  destruct ((dot =? 0) || (length full <=? dot + 1)) eqn:Hg; [done|].
  destruct (take_nonnil_dot _ _ Hdot Hg) as [Hsvc Hmt]. by destruct (Hbad _ _ Hsp Hnd).
Qed.

(** A call that gets through the dispatch. *)
Lemma handleRequest_call reg st conn m svc name p service meth req st' c r :
  parseRequest (body m) = Some (mkRpcRequest (svc ++ "."%char :: name) p) ->
  "."%char ∉ name -> svc <> [] -> name <> [] ->
  findService reg svc = Some service -> FindMethodByName service name = Some meth ->
  ParseRequest meth p = Some req ->
  CallMethod meth st RpcController_new req (NewResponse meth) = (st', Ok (c, r)) ->
  handleRequest reg st conn m =
  (st', conn ++ [wire (reply_message (seq (header m))
     (if Failed c then mkRpcResponse (errorCode c) (ErrorText c) []
      else mkRpcResponse kOk [] (SerializeResponse meth r)))], Ok tt).
Proof.
  intros He Hdot Hsvc Hname Hfs Hfm Hp Hc. unfold handleRequest. rewrite He. cbn [method request].
  destruct (dispatch_name svc name Hdot Hsvc Hname) as (-> & -> & -> & ->).
  rewrite Hfs, Hfm, Hp, Hc, sendEnvelope_wire. by destruct (Failed c).
Qed.

(** The specification determines the reply: [handleRequest] computes it. *)
Lemma reply_handled reg st b st' r conn m :
  reply_for reg st b st' r -> body m = b ->
  handleRequest reg st conn m =
  (st', conn ++ [wire (reply_message (seq (header m)) r)], Ok tt).
Proof.
  intros Hr Hb. destruct Hr as
    [He|e He Hbad|e svc n He Hn Hd H1 H2 Hs|e svc n service He Hn Hd H1 H2 Hs Hm
    |e svc n service meth He Hn Hd H1 H2 Hs Hm Hp|e svc n service meth req st' c r He Hn Hd H1 H2 Hs Hm Hp Hc Hf
    |e svc n service meth req st' c r He Hn Hd H1 H2 Hs Hm Hp Hc Hf]; rewrite <- Hb in He.
  1: { unfold handleRequest. by rewrite He, sendError_wire. }
  1: { apply dispatch_bad_name in Hbad. unfold handleRequest. rewrite He, sendError_wire.
       destruct (rfind _ _); [by rewrite Hbad|done]. }
  4-5: destruct e as [full p]; cbn [method request] in *; subst full;
    rewrite (handleRequest_call reg st conn m svc n p service meth req st' c r) by done; by rewrite Hf.
  all: destruct (dispatch_name svc n Hd H1 H2) as (E1 & E2 & E3 & E4); unfold handleRequest;
    rewrite He, Hn, E1, E2, E3, E4, Hs, ?Hm, ?Hp, sendError_wire; done.
Qed.

(** The reply that was sent is the one specified. *)
Lemma reply_sent `{!EnvelopeLaws} reg st m st1 r1 st2 r2 conn :
  reply_for reg st (body m) st1 r1 ->
  handleRequest reg st conn m = (st2, conn ++ [wire (reply_message (seq (header m)) r2)], Ok tt) ->
  st1 = st2 /\ r1 = r2.
Proof.
  intros Hr Hh. rewrite (reply_handled _ _ _ _ _ conn m Hr eq_refl) in Hh.
  split; [exact (f_equal (fun x => x.1.1) Hh)|].
  apply (f_equal (fun x => x.1.2)), app_inv_head in Hh.
  assert (Hbody : forall r, drop kHeaderSize (wire (reply_message (seq (header m)) r)) = serializeResponse r)
    by done.
  apply (f_equal (fun x => parseResponse (drop kHeaderSize (concat x)))) in Hh. cbn [concat] in Hh.
  rewrite !app_nil_r, !Hbody, !parse_serializeResponse in Hh. congruence.
Qed.

Lemma reply_unique `{!EnvelopeLaws} reg st b st1 r1 st2 r2 :
  reply_for reg st b st1 r1 -> reply_for reg st b st2 r2 -> st1 = st2 /\ r1 = r2.
Proof.
  intros H1 H2. apply (reply_sent reg st (mkMessage ProtocolHeader_default b) st1 r1 st2 r2 [] H1).
  by apply (reply_handled _ _ _ _ _ [] (mkMessage ProtocolHeader_default b)) in H2.
Qed.

(** *** onMessage *)

(** The requests of a sequence of messages, each offered to the pool in turn, with its outcome. *)
Fixpoint submit_all (pool : P) (ms : list ProtocolMessage) :
    P * list (ProtocolMessage * result unit) :=
  match ms with
  | [] => (pool, [])
  | m :: ms => let '(pool, r) := submit pool m in
               let '(pool, rs) := submit_all pool ms in (pool, (m, r) :: rs)
  end.

Definition is_request (m : ProtocolMessage) : bool := (type_ (header m) =? kRequest)%Z.

(** The error replies to the requests the pool refused. *)
Definition refusals (rs : list (ProtocolMessage * result unit)) : list bytes :=
  flat_map (fun '(m, r) =>
    match r with
    | Ok _ => []
    | Throw e => [wire (reply_message (seq (header m)) (mkRpcResponse kSystem (what e) []))]
    end) rs.

Lemma onMessage_body_fold pool conn ms :
  fold_left (fun s m => (onMessage_body s m).1) ms (pool, conn) =
  let '(pool', rs) := submit_all pool (List.filter is_request ms) in
  (pool', conn ++ refusals rs).
Proof.
  revert pool conn. induction ms as [|m ms IH]; intros pool conn; cbn [fold_left List.filter].
  { cbn. by rewrite app_nil_r. }
  unfold onMessage_body at 2. unfold is_request at 1.
  destruct (type_ (header m) =? kRequest)%Z; cbn [negb fst]; [|by rewrite IH].
  cbn [submit_all]. destruct (submit pool m) as [pool1 [[]|e]]; cbn [fst]; rewrite IH;
    destruct (submit_all pool1 _) as [pool2 rs]; cbn [refusals flat_map app]; [done|].
  by rewrite sendError_wire, <- app_assoc.
Qed.

Definition malformed (e : option exn) : bool := match e with Some _ => true | None => false end.

Lemma onMessage_spec pool conn b :
  wf b ->
  let '(ms, e, r) := parse_frames (contents b) in
  exists b', wf b' /\ contents b' = r /\
    onMessage pool conn b =
    let '(pool', rs) := submit_all pool (List.filter is_request ms) in
    Some (pool', conn ++ refusals rs, b', malformed e).
Proof.
  intros Hw. pose proof (while_decode_buffer host
    (fun s m => (onMessage_body s m).1) (pool, conn) b Hw) as (b' & Hw' & Hc' & Heq).
  destruct (parse_frames (contents b)) as [[ms e] r]. cbn [fst snd] in *.
  exists b'. split; [done|]. split; [done|]. unfold onMessage.
  rewrite (while_decode_ext host _ _ (fun s m => ((onMessage_body s m).1, None))).
  - rewrite Heq, onMessage_body_fold. by destruct (submit_all pool _), e.
  - intros [p c] m. by destruct (onMessage_body (p, c) m) as [? [[]|]].
Qed.

Lemma submit_all_app pool ms ms' :
  submit_all pool (ms ++ ms') =
  let '(pool1, rs) := submit_all pool ms in
  let '(pool2, rs') := submit_all pool1 ms' in (pool2, rs ++ rs').
Proof.
  revert pool. induction ms as [|m ms IH]; intros pool; cbn [submit_all app].
  { by destruct (submit_all pool ms'). }
  destruct (submit pool m) as [pool1 r]. rewrite IH.
  destruct (submit_all pool1 ms) as [pool2 rs]. by destruct (submit_all pool2 ms').
Qed.

Lemma refusals_app rs rs' : refusals (rs ++ rs') = refusals rs ++ refusals rs'.
Proof. apply flat_map_app. Qed.

(** *** A connection's stream *)

(** The readable events of one connection, each a chunk read into its input buffer and passed to
    [onMessage]; the last component says whether the last one shut the connection down. *)
Fixpoint serve (pool : P) (conn : conn_out) (b : Buffer) (shut : bool) (chunks : list bytes) :
    option (P * conn_out * Buffer * bool) :=
  match chunks with
  | [] => Some (pool, conn, b, shut)
  | c :: cs =>
      match onMessage pool conn (readFd b (ReadOk c)).2 with
      | None => None
      | Some (pool, conn, b, shut) => serve pool conn b shut cs
      end
  end.

Lemma serve_spec pool conn b chunks :
  wf b -> parse_frames (contents b) = ([], (parse_frames (contents b)).1.2, contents b) ->
  let '(ms, e, r) := parse_frames (contents b ++ concat chunks) in
  exists b', wf b' /\ contents b' = r /\
    serve pool conn b (malformed (parse_frames (contents b)).1.2) chunks =
    let '(pool', rs) := submit_all pool (List.filter is_request ms) in
    Some (pool', conn ++ refusals rs, b', malformed e).
Proof.
  revert pool conn b. induction chunks as [|c cs IH]; intros pool conn b Hw Hb;
    cbn [serve concat].
  { rewrite app_nil_r, Hb. exists b. cbn. by rewrite app_nil_r. }
  destruct (readFd_Ok_spec b c Hw) as [Hw1 Hc1].
  pose proof (onMessage_spec pool conn _ Hw1) as Hon. rewrite Hc1 in Hon.
  rewrite app_assoc, (parse_frames_app (contents b ++ c)).
  destruct (parse_frames (contents b ++ c)) as [[ms e] r] eqn:Hp.
  destruct Hon as (b1 & Hw2 & Hc2 & ->). destruct (submit_all pool _) as [pool1 rs] eqn:Hs.
  pose proof (parse_frames_rest _ _ _ _ Hp) as Hr.
  specialize (IH pool1 (conn ++ refusals rs) b1 Hw2). rewrite Hc2, Hr in IH.
  specialize (IH eq_refl). cbn [fst snd] in IH. destruct e as [e|].
  - rewrite (parse_frames_stuck _ _ _ _ Hp) in IH. destruct IH as (b2 & ? & ? & ->).
    exists b2. rewrite Hs. cbn. by rewrite app_nil_r.
  - destruct (parse_frames (r ++ concat cs)) as [[ms' e'] r'].
    destruct IH as (b2 & ? & ? & ->). exists b2. split; [done|]. split; [done|].
    rewrite List.filter_app, submit_all_app, Hs. destruct (submit_all pool1 _) as [pool2 rs'].
    by rewrite refusals_app, app_assoc.
Qed.

(** ** Theorems *)

(** Every request of a connection's stream is submitted or refused, in order, whatever the
    segmentation: the pool is offered exactly the request messages of the decodable frames, each
    refused one is answered with a [kSystem] reply carrying its sequence number, other messages
    are dropped, and the connection is shut down exactly when the stream is malformed. *)
Theorem server_stream_dispatch (pool : P) (chunks : list bytes) :
  let '(ms, e, r) := parse_frames (concat chunks) in
  let '(pool', rs) := submit_all pool (List.filter is_request ms) in
  exists b', wf b' /\ contents b' = r /\
    serve pool [] (Buffer_new kInitialSize) false chunks
    = Some (pool', refusals rs, b', malformed e).
Proof.
  pose proof (serve_spec pool [] (Buffer_new kInitialSize) chunks (wf_new _)) as Hs.
  rewrite contents_new in Hs. specialize (Hs eq_refl). cbn [app] in Hs.
  destruct (parse_frames (concat chunks)) as [[ms e] r].
  by destruct (submit_all pool _) as [pool' rs].
Qed.

(** C12. One reply per request: when [handleRequest] returns, it has sent exactly one more string
    on the connection. If the reply is within the size limit, a client of any byte order decodes
    that string as one response message with the request's sequence number, whose envelope is
    the reply the specification [reply_for] defines for the request, the only one, and the service
    is in the state [reply_for] gives. *)
Theorem handleRequest_one_reply `{!EnvelopeLaws} (client : endian)
  (reg : ServiceRegistry Msg St) (st st' : St) (conn conn' : list bytes) (m : ProtocolMessage)
  (Hseq : fits 64 (seq (header m)))
  (Hret : handleRequest reg st conn m = (st', conn', Ok tt)) :
  exists r frame, conn' = conn ++ [frame] /\ reply_for reg st (body m) st' r /\
    (forall st2 r2, reply_for reg st (body m) st2 r2 -> st2 = st' /\ r2 = r) /\
    ((Z.of_nat (length (serializeResponse r)) <= kMaxBodySize)%Z ->
     exists resp b', tryDecode client (append (Buffer_new kInitialSize) frame) = Ok (Some resp, b')
       /\ contents b' = [] /\ type_ (header resp) = kResponse /\
       seq (header resp) = seq (header m) /\ parseResponse (body resp) = Some r).
Proof.
  pose proof (handleRequest_reply reg st conn m) as Hr. rewrite Hret in Hr.
  destruct Hr as (r & -> & Hrep). exists r. eexists. split; [done|]. split; [done|].
  split; [intros st2 r2 Hr2; by eapply reply_unique|]. intros Hlen.
  set (rm := reply_message (seq (header m)) r).
  destruct (append_spec (Buffer_new kInitialSize) (wire rm) (wf_new _)) as [Hw Hc].
  pose proof (tryDecode_buffer client _ Hw) as Hd. rewrite Hc, contents_new in Hd.
  cbn [app] in Hd. pose proof (decode_spec_wire rm []) as Hwire. rewrite app_nil_r in Hwire.
  rewrite Hwire in Hd by (repeat split; done || apply Hseq). clear Hwire.
  destruct (tryDecode client _) as [[o b']|]; [|done].
  destruct Hd as ([= <- Hnil] & _). exists (received rm), b'.
  repeat split; [done|]. cbn. apply parse_serializeResponse.
Qed.

End RpcServer.

(** ** Witnesses *)

Module Samples.
Import SampleEnvelope.

(** A service with one method, which counts its calls, echoes its request, and fails on an empty
    one; and a pool with room for one task. *)
Definition sample_method : Method bytes nat := {|
  ParseRequest b := Some b;
  NewResponse := [];
  CallMethod n c req _ :=
    match req with
    | [] => (S n, Ok (SetFailedCode c kInvalidArgument (lit "empty"), []))
    | _ => (S n, Ok (c, req))
    end;
  SerializeResponse b := b;
|}.
Definition sample_service : Service bytes nat := {|
  full_name := lit "pkg.Echo";
  FindMethodByName n := if decide (n = lit "Echo") then Some sample_method else None;
|}.
Definition sample_registry : ServiceRegistry bytes nat :=
  (registerService ServiceRegistry_new (Some sample_service)).2.
Definition sample_call (sq : Z) (name req : bytes) : ProtocolMessage :=
  mkMessage (mkHeader kMagic kProtocolVersion kRequest 0 sq 0 0)
            (serializeRequest (mkRpcRequest name req)).

Definition sample_echo : ProtocolMessage := sample_call 9 (lit "pkg.Echo.Echo") (lit "hi").

Lemma handleRequest_one_reply_witness :
  exists r frame,
    handleRequest LittleEndian sample_registry 0 [] sample_echo = (1, [] ++ [frame], Ok tt) /\
    reply_for sample_registry 0 (body sample_echo) 1 r.
Proof.
  assert (Hret : handleRequest LittleEndian sample_registry 0 [] sample_echo
    = (1, [wire (reply_message 9 (mkRpcResponse kOk [] (lit "hi")))], Ok tt))
    by (vm_compute; reflexivity).
  assert (Hseq : fits 64 (seq (header sample_echo))) by (vm_compute; split; congruence).
  destruct (handleRequest_one_reply LittleEndian BigEndian sample_registry 0 1 [] _ sample_echo
              Hseq Hret) as (r & frame & Hc & Hr & _).
  exists r, frame. rewrite <- Hc. split; [exact Hret|exact Hr].
Defined.

(** The outcomes of the dispatch, evaluated. *)
Example dispatch_outcomes :
  let reply m := match (handleRequest LittleEndian sample_registry 0 [] m).1.2 with
                 | [f] => parseResponse (drop kHeaderSize f)
                 | _ => None
                 end in
  reply (sample_call 1 (lit "pkg.Echo.Echo") (lit "hi")) = Some (mkRpcResponse kOk [] (lit "hi")) /\
  reply (sample_call 2 (lit "pkg.Echo.Echo") []) =
    Some (mkRpcResponse kInvalidArgument (lit "empty") []) /\
  reply (sample_call 3 (lit "pkg.Echo.Nope") []) =
    Some (mkRpcResponse kNoMethod (lit "no such method: Nope") []) /\
  reply (sample_call 4 (lit "Other.Echo") []) =
    Some (mkRpcResponse kNoService (lit "no such service: Other") []) /\
  reply (sample_call 5 (lit ".Echo") []) =
    Some (mkRpcResponse kInvalidArgument (lit "invalid method name: .Echo") []) /\
  reply (sample_call 6 (lit "Echo.") []) =
    Some (mkRpcResponse kInvalidArgument (lit "invalid method name: Echo.") []).
Proof. vm_compute. repeat split. Qed.

End Samples.
