(* ===== verification/Inet.v ===== *)
(** [minirpc::InetAddress] (include/minirpc/net/InetAddress.h, src/net/InetAddress.cpp). *)
From stdpp Require Import base list strings numbers.
From Stdlib Require Import Ascii ZArith Lia.
From S2P Require Import Prelude Bytes.

(** [sockaddr_in]; port and address hold the values stored in network order. *)
Record sockaddr_in := mkSockaddr { sin_family : Z; sin_port : Z; s_addr : Z }.

Definition AF_INET : Z := 2.
Definition INADDR_ANY : Z := 0.
Definition INADDR_LOOPBACK : Z := 0x7f000001.

#[export] Instance sockaddr_in_eq_dec : EqDecision sockaddr_in.
Proof. solve_decision. Defined.

Section InetAddress.
(** libc's [inet_pton] and [inet_ntop] for [AF_INET]. *)
Context (host : endian) (inet_pton : bytes -> option Z) (inet_ntop : Z -> bytes).

Definition InetAddress_of_port (port : Z) (loopbackOnly : bool) : sockaddr_in :=
  mkSockaddr AF_INET (hton host 2 port)
    (hton host 4 (if loopbackOnly then INADDR_LOOPBACK else INADDR_ANY)).

Definition InetAddress_of_ip (ip : bytes) (port : Z) : sockaddr_in :=
  mkSockaddr AF_INET (hton host 2 port)
    (match inet_pton ip with
     | Some a => a
     | None => hton host 4 INADDR_ANY
     end).

Definition port (a : sockaddr_in) : Z := ntoh host 2 (sin_port a).
Definition toIp (a : sockaddr_in) : bytes := inet_ntop (s_addr a).
Definition toIpPort (a : sockaddr_in) : bytes := toIp a ++ lit ":" ++ to_string (port a).

Lemma ntoh_hton n v : fits (8 * Z.of_nat n) v -> ntoh host n (hton host n v) = v.
Proof.
  intros Hv. destruct host; cbn; [|done]. unfold bswap.
  replace (le_bytes n (le_value (rev (le_bytes n v)))) with (rev (le_bytes n v)).
  - by rewrite rev_involutive, le_value_le_bytes, wrap_small.
  - symmetry. rewrite <- (length_le_bytes n v) at 1. rewrite <- length_rev.
    apply le_bytes_le_value.
Qed.

(** The port of an address is the port it was built from. *)
Lemma port_InetAddress_of_ip ip p : fits 16 p -> port (InetAddress_of_ip ip p) = p.
Proof. apply (ntoh_hton 2). Qed.

Lemma port_InetAddress_of_port p b : fits 16 p -> port (InetAddress_of_port p b) = p.
Proof. apply (ntoh_hton 2). Qed.

End InetAddress.
