(* ===== verification/RpcChannel.v ===== *)
(** [minirpc::RpcChannel] (include/minirpc/rpc/RpcChannel.h, src/rpc/RpcChannel.cpp): the
    synchronous client channel, over the system calls of any kernel. *)
From stdpp Require Import base list gmap strings numbers.
From Stdlib Require Import Ascii ZArith Lia.
From S2P Require Import Prelude Bytes Common Buffer Codec Controller Service Inet.

(** ** Interface: the kernel *)

(** The system calls of the channel on a world [W]: results as the calls return them. Times are
    nanoseconds of the steady clock. *)
Class Kernel (W : Type) := {
  steady_now : W -> Z * W;
  sys_socket : W -> Z * W;
  sys_connect : Z -> sockaddr_in -> W -> Z * W;
  sys_close : Z -> W -> W;
  sys_send : Z -> bytes -> W -> Z * W;
  sys_poll : Z -> Z -> W -> Z * Z * W;
  sys_readv : Z -> nat -> W -> read_outcome * W;
  errno : W -> Z;
  strerror : Z -> bytes;
}.

Definition EINTR : Z := 4.
Definition POLLIN : Z := 1.
Definition POLLERR : Z := 8.
Definition POLLHUP : Z := 16.
Definition POLLNVAL : Z := 32.

Inductive CallResult := CallOk | CallTimeout | CallClosed | CallSystem.
#[export] Instance CallResult_eq_dec : EqDecision CallResult.
Proof. solve_decision. Defined.

Record RpcChannel := mkChannel {
  serverAddr_ : sockaddr_in;
  fd_ : Z;
  timeoutMs_ : Z;
  maxRetries_ : Z;
  nextSeq_ : Z;
  inputBuffer_ : Buffer;
}.

Definition RpcChannel_new (serverAddr : sockaddr_in) (timeoutMs maxRetries : Z) : RpcChannel :=
  mkChannel serverAddr (-1) timeoutMs maxRetries 1 (Buffer_new kInitialSize).

Definition set_fd (c : RpcChannel) (fd : Z) : RpcChannel :=
  mkChannel (serverAddr_ c) fd (timeoutMs_ c) (maxRetries_ c) (nextSeq_ c) (inputBuffer_ c).
Definition set_input (c : RpcChannel) (b : Buffer) : RpcChannel :=
  mkChannel (serverAddr_ c) (fd_ c) (timeoutMs_ c) (maxRetries_ c) (nextSeq_ c) b.
Definition set_nextSeq (c : RpcChannel) (s : Z) : RpcChannel :=
  mkChannel (serverAddr_ c) (fd_ c) (timeoutMs_ c) (maxRetries_ c) s (inputBuffer_ c).

Definition connected (c : RpcChannel) : bool := (0 <=? fd_ c)%Z.

Section RpcChannel.
Context (host : endian) `{Envelope} {W : Type} `{Kernel W}.

(** The caller's response message: [ParseFromString] replaces its content and says whether the
    bytes were well formed. *)
Context {Msg : Type} (ParseFromString : bytes -> bool * Msg).

(** The state a call works on. *)
Record CallState := mkCall {
  chan : RpcChannel;
  ctrl : Controller;
  resp : Msg;
  world : W;
}.

Definition close (c : RpcChannel) (w : W) : RpcChannel * W :=
  if (0 <=? fd_ c)%Z then (set_fd c (-1), sys_close (fd_ c) w) else (c, w).

Definition connect (c : RpcChannel) (w : W) : bool * RpcChannel * W :=
  if (0 <=? fd_ c)%Z then (true, c, w)
  else
    let '(fd, w) := sys_socket w in
    if (fd <? 0)%Z then (false, c, w)
    else
      let '(rc, w) := sys_connect fd (serverAddr_ c) w in
      if (rc <? 0)%Z then (false, c, sys_close fd w)
      else (true, set_fd c fd, w).

(** [None] is an exhausted fuel. *)
Fixpoint sendAll (fuel : nat) (fd : Z) (data : bytes) (sent : nat) (w : W) : option (bool * W) :=
  match fuel with
  | O => None
  | S fuel =>
      if sent <? length data then
        let '(n, w) := sys_send fd (drop sent data) w in
        if (n <? 0)%Z then
          if (errno w =? EINTR)%Z then sendAll fuel fd data sent w else Some (false, w)
        else if (n =? 0)%Z then Some (false, w)
        else sendAll fuel fd data (sent + Z.to_nat n) w
      else Some (true, w)
  end.

(** The body of the decoding loop in [waitResponse]. *)
Definition response_body (seq_ : Z) (s : Msg * Controller) (m : ProtocolMessage) :
    (Msg * Controller) * option CallResult :=
  let '(rsp, c) := s in
  if (type_ (header m) =? kResponse)%Z && (seq (header m) =? seq_)%Z then
    match parseResponse (body m) with
    | None => ((rsp, failController c kUnknown (lit "bad response envelope")), Some CallSystem)
    | Some r =>
        let code := error_code r in
        if negb (code =? kOk)%Z then
          ((rsp, failController c code
                   (match error_message r with
                    | [] => lit "rpc call failed"
                    | msg => msg
                    end)), Some CallSystem)
        else
          let '(ok, rsp) := ParseFromString (response r) in
          if negb ok then
            ((rsp, failController c kUnknown (lit "bad response payload")), Some CallSystem)
          else ((rsp, c), Some CallOk)
    end
  else ((rsp, c), None).

(** The [for (;;)] loop of [waitResponse]. [None] is an exhausted fuel. *)
Fixpoint wait_loop (fuel : nat) (seq_ deadline : Z) (s : CallState) :
    option (CallResult * CallState) :=
  match fuel with
  | O => None
  | S fuel =>
      let fail s code msg :=
        mkCall (chan s) (failController (ctrl s) code msg) (resp s) (world s) in
      let '(now, w) := steady_now (world s) in
      let s := mkCall (chan s) (ctrl s) (resp s) w in
      if (deadline <=? now)%Z then Some (CallTimeout, fail s kTimeout (lit "rpc call timeout"))
      else
        let remainingMs := i32 ((deadline - now) ÷ 1000000) in
        let '(rc, revents, w) := sys_poll (fd_ (chan s)) remainingMs (world s) in
        let s := mkCall (chan s) (ctrl s) (resp s) w in
        if (rc =? 0)%Z then Some (CallTimeout, fail s kTimeout (lit "rpc call timeout"))
        else if (rc <? 0)%Z then
          if (errno w =? EINTR)%Z then wait_loop fuel seq_ deadline s
          else Some (CallSystem, fail s kSystem (strerror (errno w)))
        else if negb (Z.land revents (Z.lor (Z.lor POLLERR POLLHUP) POLLNVAL) =? 0)%Z
        then Some (CallClosed, fail s kClosed (lit "connection closed"))
        else if (Z.land revents POLLIN =? 0)%Z then wait_loop fuel seq_ deadline s
        else
          let '(o, w) :=
            sys_readv (fd_ (chan s)) (readFd_capacity (inputBuffer_ (chan s))) (world s) in
          let '((n, _), b) := readFd (inputBuffer_ (chan s)) o in
          let s := mkCall (set_input (chan s) b) (ctrl s) (resp s) w in
          if (n <=? 0)%Z then Some (CallClosed, fail s kClosed (lit "connection closed"))
          else
            match while_decode host (S (readableBytes b)) (response_body seq_)
                    (resp s, ctrl s) b with
            | None => None
            | Some (e, (rsp, c), b) =>
                let s := mkCall (set_input (chan s) b) c rsp (world s) in
                match e with
                | LoopReturn r => Some (r, s)
                | LoopThrow e => Some (CallSystem, fail s kUnknown (what e))
                | LoopDone => wait_loop fuel seq_ deadline s
                end
            end
  end.

Definition waitResponse (fuel : nat) (seq_ timeoutMs : Z) (s : CallState) :
    option (CallResult * CallState) :=
  let '(now, w) := steady_now (world s) in
  wait_loop fuel seq_ (now + timeoutMs * 1000000) (mkCall (chan s) (ctrl s) (resp s) w).

(** The request frame of one attempt. *)
Definition request_message (seq_ : Z) (envelopeBytes : bytes) : ProtocolMessage :=
  {| header := {| magic := kMagic; version := kProtocolVersion; type_ := kRequest;
                  flags := flags ProtocolHeader_default; seq := seq_;
                  bodyLen := bodyLen ProtocolHeader_default;
                  reserved := reserved ProtocolHeader_default |};
     body := envelopeBytes |}.

(** The [for (attempt ...)] loop of [CallMethod], [attempts] being those left. *)
Fixpoint attempt_loop (fuel attempts : nat) (envelopeBytes : bytes) (s : CallState) :
    option CallState :=
  match attempts with
  | O => Some s
  | S attempts =>
      let sq := nextSeq_ (chan s) in
      let s := mkCall (set_nextSeq (chan s) (u64 (sq + 1))) (resetController (ctrl s)) (resp s)
                      (world s) in
      let out := encode host (request_message sq envelopeBytes) (Buffer_new kInitialSize) in
      match sendAll fuel (fd_ (chan s)) (take (readableBytes out) (peek out)) 0 (world s) with
      | None => None
      | Some (false, w) =>
          let c := failController (ctrl s) kSystem (strerror (errno w)) in
          let '(ch, w) := close (chan s) w in
          Some (mkCall ch c (resp s) w)
      | Some (true, w) =>
          match waitResponse fuel sq (timeoutMs_ (chan s))
                  (mkCall (chan s) (ctrl s) (resp s) w) with
          | None => None
          | Some (CallTimeout, s) => attempt_loop fuel attempts envelopeBytes s
          | Some (_, s) => Some s
          end
      end
  end.

(** [CallMethod]: the serialized request and the method's full name come from protobuf; the
    closures run ([done]) come with the final state. *)
Definition CallMethod (fuel : nat) (methodFullName requestBytes : bytes) (done_ : option closure)
    (s : CallState) : option (list closure * CallState) :=
  let run_done := match done_ with Some d => [d] | None => [] end in
  let s := mkCall (chan s) (resetController (ctrl s)) (resp s) (world s) in
  let envelopeBytes := serializeRequest (mkRpcRequest methodFullName requestBytes) in
  match connect (chan s) (world s) with
  | (false, ch, w) =>
      Some (run_done,
            mkCall ch (failController (ctrl s) kSystem (strerror (errno w))) (resp s) w)
  | (true, ch, w) =>
      let s := mkCall ch (ctrl s) (resp s) w in
      match attempt_loop fuel (Z.to_nat (maxRetries_ ch + 1)) envelopeBytes s with
      | None => None
      | Some s => Some (run_done, s)
      end
  end.

(** ** Specification *)

(** The frame the call with sequence number [sq] waits for. *)
Definition answers (sq : Z) (m : ProtocolMessage) : Prop :=
  type_ (header m) = kResponse /\ seq (header m) = sq.

(** A decoded frame that is not. *)
Definition other (sq : Z) (m : ProtocolMessage) : Prop := decoded m /\ ~ answers sq m.

(** What the frame a call waited for makes of it: the result, the controller, the response
    message. One rule per outcome. *)
Inductive answered (m : ProtocolMessage) (c : Controller) (rsp : Msg) :
    CallResult -> Controller -> Msg -> Prop :=
| answered_bad_envelope :
    parseResponse (body m) = None ->
    answered m c rsp CallSystem (failController c kUnknown (lit "bad response envelope")) rsp
| answered_error r text :
    parseResponse (body m) = Some r -> error_code r <> kOk ->
    text = (if decide (error_message r = []) then lit "rpc call failed" else error_message r) ->
    answered m c rsp CallSystem (failController c (error_code r) text) rsp
| answered_bad_payload r rsp' :
    parseResponse (body m) = Some r -> error_code r = kOk ->
    ParseFromString (response r) = (false, rsp') ->
    answered m c rsp CallSystem (failController c kUnknown (lit "bad response payload")) rsp'
| answered_ok r rsp' :
    parseResponse (body m) = Some r -> error_code r = kOk ->
    ParseFromString (response r) = (true, rsp') ->
    answered m c rsp CallOk c rsp'.

(** How a wait ends without the frame: the result, its error code and text. *)
Inductive unanswered : CallResult -> ErrorCode -> bytes -> Prop :=
| unanswered_timeout : unanswered CallTimeout kTimeout (lit "rpc call timeout")
| unanswered_closed : unanswered CallClosed kClosed (lit "connection closed")
| unanswered_system e : unanswered CallSystem kSystem (strerror e)
| unanswered_malformed e : unanswered CallSystem kUnknown (what e).

(** The result of a wait for [sq], the bytes [input] being those buffered before it and then
    received, and [left_] those buffered after it: frames of other numbers are dropped unseen,
    up to the one awaited, if any. *)
Inductive waited (sq : Z) (c : Controller) (rsp : Msg) (input left_ : bytes) :
    CallResult -> Controller -> Msg -> Prop :=
| waited_answer skipped m r c' rsp' :
    Forall (other sq) skipped -> decoded m -> answers sq m ->
    input = concat (map wire skipped) ++ wire m ++ left_ ->
    answered m c rsp r c' rsp' ->
    waited sq c rsp input left_ r c' rsp'
| waited_nothing skipped r code text :
    Forall (other sq) skipped ->
    input = concat (map wire skipped) ++ left_ ->
    unanswered r code text ->
    waited sq c rsp input left_ r (failController c code text) rsp.

(** ** Lemmas *)

Lemma answers_test sq m :
  ((type_ (header m) =? kResponse)%Z && (seq (header m) =? sq)%Z = true) <-> answers sq m.
Proof. unfold answers. by rewrite andb_true_iff, !Z.eqb_eq. Qed.

Lemma others_decoded sq ms : Forall (other sq) ms -> Forall decoded ms.
Proof. apply Forall_impl. by intros m [Hd _]. Qed.

(** The loop body returns on the awaited frame, as specified, and ignores every other. *)
Lemma response_body_spec sq rsp c m :
  match response_body sq (rsp, c) m with
  | ((rsp', c'), Some r) => answers sq m /\ answered m c rsp r c' rsp'
  | (s', None) => ~ answers sq m /\ s' = (rsp, c)
  end.
Proof.
  unfold response_body. destruct ((_ =? _)%Z && _) eqn:Ha.
  2: { split; [|done]. intros Ha'%answers_test. congruence. }
  apply answers_test in Ha. destruct (parseResponse (body m)) as [r|] eqn:Hp.
  2: { split; [done|]. by constructor. }
  destruct (Z.eqb_spec (error_code r) kOk) as [Hc|Hc]; cbn [negb].
  - destruct (ParseFromString (response r)) as [[] rsp'] eqn:Hr; cbn [negb];
      (split; [done|]); by econstructor.
  - split; [done|]. eapply answered_error; [done|done|].
    destruct (error_message r); by case_decide.
Qed.

Lemma response_body_passes sq s ms s' :
  passes (response_body sq) s ms s' -> Forall decoded ms -> Forall (other sq) ms /\ s' = s.
Proof.
  revert s. induction ms as [|m ms IH]; intros [rsp c]; cbn [passes]; [done|].
  intros ([rsp1 c1] & Hm & Hp). pose proof (response_body_spec sq rsp c m) as Hb. rewrite Hm in Hb.
  destruct Hb as [Hn [= -> ->]]. intros [Hd Hds]%Forall_cons_1.
  destruct (IH _ Hp Hds) as [Hall ->]. by split; [constructor|].
Qed.

(** Frames dropped before a wait count as dropped by it. *)
Lemma waited_skip sq c rsp ms input left_ r c' rsp' :
  Forall (other sq) ms -> waited sq c rsp input left_ r c' rsp' ->
  waited sq c rsp (concat (map wire ms) ++ input) left_ r c' rsp'.
Proof.
  intros Hms [skipped m r0 c0 rsp0 Hsk Hd Hm -> Ha|skipped r0 code text Hsk -> Hu].
  - apply waited_answer with (ms ++ skipped) m; [by apply Forall_app|done|done| |done].
    by rewrite map_app, concat_app, <- app_assoc.
  - apply waited_nothing with (ms ++ skipped); [by apply Forall_app| |done].
    by rewrite map_app, concat_app, <- app_assoc.
Qed.

(** *** Ghost state: the bytes the kernel accepted and delivered *)

Class KernelTrace := {
  tx : W -> bytes;
  rx : W -> bytes;
  trace_now w : tx (steady_now w).2 = tx w /\ rx (steady_now w).2 = rx w;
  trace_socket w : tx (sys_socket w).2 = tx w /\ rx (sys_socket w).2 = rx w;
  trace_connect fd a w :
    tx (sys_connect fd a w).2 = tx w /\ rx (sys_connect fd a w).2 = rx w;
  trace_close fd w : tx (sys_close fd w) = tx w /\ rx (sys_close fd w) = rx w;
  trace_poll fd ms w : tx (sys_poll fd ms w).2 = tx w /\ rx (sys_poll fd ms w).2 = rx w;
  trace_send fd d w :
    ((sys_send fd d w).1 <= Z.of_nat (length d))%Z /\
    tx (sys_send fd d w).2 = tx w ++ take (Z.to_nat (sys_send fd d w).1) d /\
    rx (sys_send fd d w).2 = rx w;
  trace_readv fd cap w :
    tx (sys_readv fd cap w).2 = tx w /\
    rx (sys_readv fd cap w).2
    = rx w ++ match (sys_readv fd cap w).1 with ReadOk d => d | ReadErr _ => [] end;
}.

Section Traced.
Context `{!KernelTrace}.

(** A wait changes nothing of the channel but its input buffer. *)
Definition same_channel (c c' : RpcChannel) : Prop :=
  exists b, wf b /\ c' = set_input c b.

(** The postcondition of a wait from [s]. *)
Definition wait_post (sq : Z) (s : CallState) (r : CallResult) (s' : CallState) : Prop :=
  same_channel (chan s) (chan s') /\ tx (world s') = tx (world s) /\
  exists got, rx (world s') = rx (world s) ++ got /\
    waited sq (ctrl s) (resp s) (contents (inputBuffer_ (chan s)) ++ got)
      (contents (inputBuffer_ (chan s'))) r (ctrl s') (resp s').

(** A wait that ends before reading. *)
Lemma wait_post_stop sq c k m w w' r code text :
  wf (inputBuffer_ c) -> tx w' = tx w -> rx w' = rx w -> unanswered r code text ->
  wait_post sq (mkCall c k m w) r (mkCall c (failController k code text) m w').
Proof.
  intros Hw Ht Hr Hu. split; [|split; [done|]].
  - exists (inputBuffer_ c). by destruct c.
  - exists []. cbn. rewrite !app_nil_r. split; [done|].
    by apply waited_nothing with [].
Qed.

(** A wait after system calls that moved no data. *)
Lemma wait_post_world sq c k m w w' r s' :
  tx w' = tx w -> rx w' = rx w ->
  wait_post sq (mkCall c k m w') r s' -> wait_post sq (mkCall c k m w) r s'.
Proof.
  intros Ht Hr (Hc & Ht' & got & Hg & Hwt). cbn [world] in *. split; [done|].
  split; [by rewrite Ht'|]. exists got. by rewrite Hg, Hr.
Qed.

(** The decoding loop of a wait: a result as specified, or only frames dropped. *)
Lemma decode_wait sq k m b e m' k' b' :
  wf b ->
  while_decode host (S (readableBytes b)) (response_body sq) (m, k) b = Some (e, (m', k'), b') ->
  wf b' /\
  match e with
  | LoopReturn r => waited sq k m (contents b) (contents b') r k' m'
  | _ => k' = k /\ m' = m /\ exists ms, Forall (other sq) ms /\
         contents b = concat (map wire ms) ++ contents b'
  end.
Proof.
  intros Hw Hl. destruct (while_decode_buffer_inv host _ _ _ _ _ _ Hw Hl)
    as (Hw' & ms & s1 & Hp & Hdec & He). split; [done|].
  apply response_body_passes in Hp as [Hms ->]; [|done].
  destruct e as [|r|ex]; [| |].
  - destruct He as [[= -> ->] Hc]. eauto.
  - destruct He as (f & Hf & Hfd & Hc). pose proof (response_body_spec sq m k f) as Hb.
    rewrite Hf in Hb. destruct Hb as [Ha Hans]. by apply waited_answer with ms f.
  - destruct He as [[= -> ->] Hc]. eauto.
Qed.

(** A wait after a read of [d] in which only frames were dropped. *)
Lemma wait_post_read sq c k m w w' d b b' ms r s' :
  tx w' = tx w -> rx w' = rx w ++ d -> wf b' ->
  contents b = contents (inputBuffer_ c) ++ d ->
  Forall (other sq) ms -> contents b = concat (map wire ms) ++ contents b' ->
  wait_post sq (mkCall (set_input (set_input c b) b') k m w') r s' ->
  wait_post sq (mkCall c k m w) r s'.
Proof.
  intros Ht Hr Hw Hb Hms Hc ((b2 & Hw2 & Hch) & Ht' & got & Hg & Hwt).
  cbn [world chan ctrl resp inputBuffer_ set_input] in *. split; [|split; [cbn; congruence|]].
  - by exists b2.
  - exists (d ++ got). split; [by rewrite Hg, Hr, app_assoc|].
    cbn [world chan ctrl resp]. rewrite app_assoc, <- Hb, Hc, <- app_assoc.
    by apply waited_skip.
Qed.

(** Evaluates the next system call of the goal, keeping its trace law. *)
Ltac syscall :=
  match goal with
  | |- context [steady_now ?w] =>
      destruct (trace_now w) as [? ?]; destruct (steady_now w) as [? ?]
  | |- context [sys_poll ?fd ?ms ?w] =>
      destruct (trace_poll fd ms w) as [? ?]; destruct (sys_poll fd ms w) as [[? ?] ?]
  | |- context [sys_readv ?fd ?cap ?w] =>
      destruct (trace_readv fd cap w) as [? ?]; destruct (sys_readv fd cap w) as [[?|?] ?]
  end; cbn [fst snd chan ctrl resp world] in *.

(** Closes the branch of a wait that ends without reading further. *)
Ltac wait_stops :=
  intros [= <- <-]; apply wait_post_stop; [done|congruence|congruence|constructor].

(** Every wait that returns meets the specification [waited] on the bytes received, sends
    nothing, and leaves the rest of the channel alone. *)
Lemma wait_loop_spec fuel sq dl s r s' :
  wf (inputBuffer_ (chan s)) -> wait_loop fuel sq dl s = Some (r, s') -> wait_post sq s r s'.
Proof.
  revert s. induction fuel as [|fuel IH]; intros [c k m w] Hw; cbn [wait_loop chan] in *; [done|].
  syscall. destruct (dl <=? _)%Z; [wait_stops|].
  syscall. destruct (_ =? 0)%Z; [wait_stops|].
  destruct (_ <? 0)%Z; [destruct (_ =? EINTR)%Z; [|wait_stops]|].
  { intros Hl%IH; [|done]. revert Hl. apply wait_post_world; congruence. }
  destruct (negb _); [wait_stops|]. destruct (_ =? 0)%Z.
  { intros Hl%IH; [|done]. revert Hl. apply wait_post_world; congruence. }
  syscall; [cbn [readFd]|].
  { rewrite app_nil_r in *. cbn [Z.leb Z.compare].
    replace (set_input c (inputBuffer_ c)) with c by (by destruct c). wait_stops. }
  destruct (readFd_Ok_spec (inputBuffer_ c) data Hw) as [Hw1 Hc1].
  assert (Hn : (readFd (inputBuffer_ c) (ReadOk data)).1.1 = Z.of_nat (length data)) by done.
  destruct (readFd _ _) as [[n en] b]. cbn [fst snd] in *. subst n.
  match goal with H1 : tx ?w1 = _, H2 : rx ?w1 = _ ++ data |- _ =>
    assert (Ht : tx w1 = tx w) by congruence; assert (Hr : rx w1 = rx w ++ data) by congruence
  end.
  destruct (_ <=? 0)%Z.
  { intros [= <- <-].
    apply (wait_post_read sq c k m w _ data b b [] _ _ Ht Hr); [done|done|done|done|].
    apply wait_post_stop; [done|done|done|constructor]. }
  destruct (while_decode _ _ _ _ _) as [[[e [m' k']] b']|] eqn:Hd; [|done].
  apply decode_wait in Hd as [Hw' He]; [|done]. cbn [chan ctrl resp world].
  destruct e as [|r0|e].
  - destruct He as (-> & -> & ms & Hms & Hcb). intros Hl%IH; [|done].
    by apply (wait_post_read sq c k m w _ data b b' ms _ _ Ht Hr).
  - intros [= <- <-]. split; [by exists b'|]. split; [done|].
    exists data. cbn. split; [done|]. by rewrite <- Hc1.
  - destruct He as (-> & -> & ms & Hms & Hcb). intros [= <- <-].
    apply (wait_post_read sq c k m w _ data b b' ms _ _ Ht Hr); [done|done|done|done|].
    apply wait_post_stop; [done|done|done|constructor].
Qed.

Lemma waitResponse_spec fuel sq ms s r s' :
  wf (inputBuffer_ (chan s)) -> waitResponse fuel sq ms s = Some (r, s') -> wait_post sq s r s'.
Proof.
  destruct s as [c k m w]. unfold waitResponse. cbn [chan]. intros Hw. syscall.
  intros Hl%wait_loop_spec; [|done]. revert Hl. by apply wait_post_world.
Qed.

(** *** The attempts of a call *)

Definition request_frame (env : bytes) (sq : Z) : bytes := wire (request_message sq env).

(** The request frames of [k] attempts, numbered from [sq]. *)
Fixpoint requests (env : bytes) (sq : Z) (k : nat) : bytes :=
  match k with
  | O => []
  | S k => request_frame env sq ++ requests env (u64 (sq + 1)) k
  end.

(** What a call of at most [n] attempts does: nothing when no attempt is allowed, else [k]
    attempts that timed out and a last one, whose request could not be sent or which waited. *)
Inductive attempts_post (env : bytes) (n : nat) (s s' : CallState) : Prop :=
| post_none :
    n = 0 -> s' = s -> attempts_post env n s s'
| post_send_failed k got part text :
    k < n ->
    nextSeq_ (chan s') = u64 (nextSeq_ (chan s) + Z.of_nat (S k)) ->
    rx (world s') = rx (world s) ++ got ->
    tx (world s') = tx (world s) ++ requests env (nextSeq_ (chan s)) k ++ part ->
    part `prefix_of` request_frame env (u64 (nextSeq_ (chan s) + Z.of_nat k)) ->
    ctrl s' = failController (resetController (ctrl s)) kSystem text -> resp s' = resp s ->
    connected (chan s') = false ->
    attempts_post env n s s'
| post_waited k got earlier input r :
    k < n ->
    nextSeq_ (chan s') = u64 (nextSeq_ (chan s) + Z.of_nat (S k)) ->
    rx (world s') = rx (world s) ++ got ->
    tx (world s') = tx (world s) ++ requests env (nextSeq_ (chan s)) (S k) ->
    contents (inputBuffer_ (chan s)) ++ got = concat (map wire earlier) ++ input ->
    Forall decoded earlier ->
    waited (u64 (nextSeq_ (chan s) + Z.of_nat k)) (resetController (ctrl s)) (resp s) input
      (contents (inputBuffer_ (chan s'))) r (ctrl s') (resp s') ->
    (r = CallTimeout -> S k = n) ->
    fd_ (chan s') = fd_ (chan s) ->
    attempts_post env n s s'.

Lemma u64_small z : fits 64 z -> u64 z = z.
Proof. apply wrap_small. Qed.

Lemma u64_add_u64 a b : u64 (u64 a + b) = u64 (a + b).
Proof. unfold u64, wrap. by rewrite Z.add_mod_idemp_l. Qed.

Lemma reset_fail c code text : resetController (failController c code text) = resetController c.
Proof. by destruct c. Qed.

Lemma reset_reset c : resetController (resetController c) = resetController c.
Proof. by destruct c. Qed.

(** A wait that timed out saw no answer. *)
Lemma waited_timeout sq c rsp input left_ c' rsp' :
  waited sq c rsp input left_ CallTimeout c' rsp' ->
  rsp' = rsp /\ resetController c' = resetController c /\
  exists ms, Forall decoded ms /\ input = concat (map wire ms) ++ left_.
Proof.
  inversion 1 as [? ? ? ? ? _ _ _ _ Ha|ms ? ? ? Hms Hi _]; subst; [inversion Ha|].
  split; [done|]. split; [apply reset_fail|]. exists ms. split; [|done].
  by apply others_decoded with sq.
Qed.

Lemma sendAll_spec fuel fd data sent w ok w' :
  sent <= length data -> sendAll fuel fd data sent w = Some (ok, w') ->
  rx w' = rx w /\
  exists part, tx w' = tx w ++ part /\ part `prefix_of` drop sent data /\
               (ok = true -> part = drop sent data).
Proof.
  revert sent w. induction fuel as [|fuel IH]; intros sent w Hle; cbn [sendAll]; [done|].
  destruct (Nat.ltb_spec sent (length data)) as [Hlt|Hge].
  2: { intros [= <- <-]. split; [done|]. exists []. rewrite app_nil_r, drop_ge by lia.
       eauto using prefix_nil. }
  destruct (trace_send fd (drop sent data) w) as (Hn & Ht & Hr).
  destruct (sys_send fd (drop sent data) w) as [n w1]. cbn [fst snd] in *.
  destruct (Z.ltb_spec n 0) as [Hneg|Hpos]; [destruct (_ =? EINTR)%Z|].
  - rewrite Z2Nat.nonpos, take_0, app_nil_r in Ht by lia. intros Hs%IH; [|done].
    by rewrite Hr, Ht in Hs.
  - rewrite Z2Nat.nonpos, take_0 in Ht by lia. intros [= <- <-]. split; [done|].
    exists []. split; [done|]. split; [apply prefix_nil|done].
  - destruct (Z.eqb_spec n 0) as [->|Hnz].
    { intros [= <- <-]. split; [done|]. exists []. split; [done|]. split; [apply prefix_nil|done]. }
    rewrite length_drop in Hn. intros Hs%IH; [|lia]. destruct Hs as (Hr' & part & Ht' & Hp & Hok).
    split; [congruence|]. exists (take (Z.to_nat n) (drop sent data) ++ part).
    rewrite Ht', Ht, <- app_assoc. split; [done|].
    rewrite <- (take_drop (Z.to_nat n) (drop sent data)) at 2 4. rewrite drop_drop.
    split; [by apply prefix_app|]. intros ->%Hok. done.
Qed.

(** The bytes passed to [sendAll] are the request frame. *)
Lemma request_bytes sq env :
  let out := encode host (request_message sq env) (Buffer_new kInitialSize) in
  take (readableBytes out) (peek out) = request_frame env sq.
Proof.
  cbn zeta. destruct (encode_buffer host (request_message sq env) _ (wf_new kInitialSize))
    as [Hw Hc].
  rewrite contents_new in Hc. exact (eq_trans (bq_peek_spec _ Hw) Hc).
Qed.

Lemma connected_close c w : connected (close c w).1 = false.
Proof.
  unfold close. destruct (0 <=? fd_ c)%Z eqn:Hf; [done|]. cbn. exact Hf.
Qed.

Lemma close_same c w :
  nextSeq_ (close c w).1 = nextSeq_ c /\ inputBuffer_ (close c w).1 = inputBuffer_ c /\
  tx (close c w).2 = tx w /\ rx (close c w).2 = rx w.
Proof.
  unfold close. destruct (0 <=? fd_ c)%Z; [|done].
  destruct (trace_close (fd_ c) w) as [Ht Hr]. done.
Qed.

(** One more attempt, timed out, before those of a call. *)
Lemma attempts_post_retry env n s s1 s' got ms :
  nextSeq_ (chan s1) = u64 (nextSeq_ (chan s) + 1) -> fd_ (chan s1) = fd_ (chan s) ->
  rx (world s1) = rx (world s) ++ got ->
  tx (world s1) = tx (world s) ++ request_frame env (nextSeq_ (chan s)) ->
  contents (inputBuffer_ (chan s)) ++ got
    = concat (map wire ms) ++ contents (inputBuffer_ (chan s1)) ->
  Forall decoded ms ->
  resetController (ctrl s1) = resetController (ctrl s) -> resp s1 = resp s ->
  n <> 0 -> attempts_post env n s1 s' -> attempts_post env (S n) s s'.
Proof.
  intros Hq Hfd Hr Ht Hb Hms Hc Hm Hn [|k got' part text Hk Hq' Hr' Ht' Hp Hc' Hm' Hcl
    |k got' earlier input r Hk Hq' Hr' Ht' Hb' Hear Hw Hto Hfd']; [done| |].
  - rewrite Hq, u64_add_u64 in *.
    apply post_send_failed with (S k) (got ++ got') part text; try congruence || lia.
    + rewrite Hq'. f_equal. lia.
    + by rewrite Hr', Hr, app_assoc.
    + rewrite Ht', Ht. cbn [requests]. by rewrite <- !app_assoc.
    + replace (nextSeq_ (chan s) + Z.of_nat (S k))%Z
        with (nextSeq_ (chan s) + 1 + Z.of_nat k)%Z by lia. done.
  - rewrite Hq, u64_add_u64, Hc, Hm in *.
    apply post_waited with (S k) (got ++ got') (ms ++ earlier) input r; try congruence || lia.
    + rewrite Hq'. f_equal. lia.
    + by rewrite Hr', Hr, app_assoc.
    + rewrite Ht', Ht. cbn [requests]. by rewrite <- !app_assoc.
    + by rewrite app_assoc, Hb, map_app, concat_app, <- !app_assoc, Hb'.
    + by apply Forall_app.
    + by replace (nextSeq_ (chan s) + Z.of_nat (S k))%Z
        with (nextSeq_ (chan s) + 1 + Z.of_nat k)%Z by lia.
    + intros ->%Hto. lia.
Qed.

Lemma attempt_loop_spec fuel n env s s' :
  wf (inputBuffer_ (chan s)) -> fits 64 (nextSeq_ (chan s)) ->
  attempt_loop fuel n env s = Some s' ->
  wf (inputBuffer_ (chan s')) /\ attempts_post env n s s'.
Proof.
  revert s. induction n as [|n IH]; intros [c k m w] Hw Hq; cbn [attempt_loop chan ctrl resp world] in *.
  { intros [= <-]. split; [done|]. by apply post_none. }
  rewrite request_bytes. cbn [set_nextSeq fd_ timeoutMs_].
  destruct (sendAll fuel (fd_ c) (request_frame env (nextSeq_ c)) 0 w) as [[[] w1]|] eqn:Hs;
    [| |done]; apply sendAll_spec in Hs as (Hr & part & Ht & Hp & Hok); try lia.
  - rewrite drop_0 in *. rewrite Hok in Ht by done. clear Hok Hp.
    destruct (waitResponse _ _ _ _) as [[r s1]|] eqn:Hwt; [|done].
    apply waitResponse_spec in Hwt as ((b1 & Hw1 & Hc1) & Ht1 & got & Hr1 & Hwait); [|done].
    cbn [chan ctrl resp world set_nextSeq inputBuffer_] in *. rewrite Ht in Ht1. rewrite Hr in Hr1.
    assert (Hend : (r = CallTimeout -> n = 0) -> attempts_post env (S n) (mkCall c k m w) s1).
    { intros Hto. apply post_waited with 0 got [] (contents (inputBuffer_ c) ++ got) r;
        cbn [chan ctrl resp world requests]; try done; try lia.
      - by rewrite Hc1.
      - by rewrite app_nil_r.
      - by rewrite Z.add_0_r, (u64_small _ Hq).
      - intros ->%Hto. done.
      - by rewrite Hc1. }
    destruct r; try (intros [= <-]; split; [by rewrite Hc1|by apply Hend]).
    destruct n as [|n']; [intros [= <-]; split; [by rewrite Hc1|by apply Hend]|].
    intros Hl. apply IH in Hl as [Hw' Hpost]; [|by rewrite Hc1|rewrite Hc1; by apply wrap_fits].
    split; [done|]. destruct (waited_timeout _ _ _ _ _ _ _ Hwait) as (Hrsp & Hctl & ms & Hdec & Hms).
    apply attempts_post_retry with s1 got ms; cbn [chan ctrl resp world]; rewrite ?Hc1; try done.
    + by rewrite Hms, Hc1.
    + by rewrite Hctl, reset_reset.
  - pose proof (connected_close (set_nextSeq c (u64 (nextSeq_ c + 1))) w1) as Hcl.
    destruct (close_same (set_nextSeq c (u64 (nextSeq_ c + 1))) w1) as (Hn & Hb & Ht1 & Hr1).
    destruct (close _ _) as [c1 w2]. cbn [fst snd] in *. intros [= <-]. cbn [chan].
    split; [by rewrite Hb|].
    eapply post_send_failed with 0 [] part _; cbn [chan ctrl resp world requests app]; try done; try lia.
    + by rewrite app_nil_r, Hr1.
    + by rewrite Ht1.
    + by rewrite Z.add_0_r, (u64_small _ Hq).
Qed.

(** *** CallMethod *)

Lemma connect_spec c w :
  let '(ok, c', w') := connect c w in
  tx w' = tx w /\ rx w' = rx w /\ c' = (if ok then set_fd c (fd_ c') else c) /\
  connected c' = ok.
Proof.
  unfold connect, connected. destruct (0 <=? fd_ c)%Z eqn:Hfd; [by destruct c|].
  destruct (trace_socket w) as [Ht1 Hr1]. destruct (sys_socket w) as [fd w1]. cbn [snd] in *.
  destruct (Z.ltb_spec fd 0) as [|Hpos]; [done|].
  destruct (trace_connect fd (serverAddr_ c) w1) as [Ht2 Hr2].
  destruct (sys_connect fd (serverAddr_ c) w1) as [rc w2]. cbn [snd] in *.
  destruct (rc <? 0)%Z.
  - destruct (trace_close fd w2) as [Ht3 Hr3]. repeat split; congruence.
  - repeat split; [congruence|congruence|]. cbn. by apply Z.leb_le.
Qed.

Definition done_list (d : option closure) : list closure := option_list d.

(** A call either fails to connect, or makes its attempts on a connected channel. *)
Lemma CallMethod_spec fuel name req d s ran s' :
  wf (inputBuffer_ (chan s)) -> fits 64 (nextSeq_ (chan s)) ->
  CallMethod fuel name req d s = Some (ran, s') ->
  ran = done_list d /\
  ((exists text, chan s' = chan s /\ connected (chan s) = false /\
      tx (world s') = tx (world s) /\ rx (world s') = rx (world s) /\
      resp s' = resp s /\ ctrl s' = failController (resetController (ctrl s)) kSystem text) \/
   (exists s0, connected (chan s0) = true /\ chan s0 = set_fd (chan s) (fd_ (chan s0)) /\
      ctrl s0 = resetController (ctrl s) /\ resp s0 = resp s /\
      tx (world s0) = tx (world s) /\ rx (world s0) = rx (world s) /\
      wf (inputBuffer_ (chan s')) /\
      attempts_post (serializeRequest (mkRpcRequest name req))
        (Z.to_nat (maxRetries_ (chan s) + 1)) s0 s')).
Proof.
  destruct s as [c k m w]. unfold CallMethod. cbn [chan ctrl resp world]. intros Hw Hq.
  pose proof (connect_spec c w) as Hcn. destruct (connect c w) as [[[] c1] w1].
  - destruct Hcn as (Ht & Hr & Hc & Hon).
    destruct (attempt_loop _ _ _ _) as [s1|] eqn:Hl; [|done]. intros [= <- <-].
    split; [by destruct d|]. right.
    apply attempt_loop_spec in Hl as [Hw' Hpost]; cbn [chan]; [|by rewrite Hc|by rewrite Hc].
    exists (mkCall c1 (resetController k) m w1). repeat (split; [done|]).
    by rewrite Hc in Hpost at 1.
  - destruct Hcn as (Ht & Hr & Hc & Hon). intros [= <- <-]. split; [by destruct d|]. left.
    subst c1. eexists. by repeat (split; [done|]).
Qed.

Lemma fail_failed c code text :
  c <> NullController -> controllerFailed (failController c code text) = true.
Proof. by destruct c. Qed.

Lemma reset_not_null c : c <> NullController -> resetController c <> NullController.
Proof. by destruct c. Qed.

#[local] Hint Resolve reset_not_null : rpc.

Lemma requests_S env sq k :
  fits 64 sq -> requests env sq (S k) = requests env sq k ++ request_frame env (u64 (sq + Z.of_nat k)).
Proof.
  revert sq. induction k as [|k IH]; intros sq Hq.
  { cbn [requests]. by rewrite app_nil_r, Z.add_0_r, u64_small. }
  remember (S k) as j. cbn [requests]. rewrite IH by by apply wrap_fits. subst j. cbn [requests].
  rewrite <- app_assoc, u64_add_u64.
  by replace (sq + 1 + Z.of_nat k)%Z with (sq + Z.of_nat (S k))%Z by lia.
Qed.

(** A controller failed by the client itself, for want of an answer. *)
Inductive local_failure : ErrorCode -> bytes -> Prop :=
| local_timeout : local_failure kTimeout (lit "rpc call timeout")
| local_closed : local_failure kClosed (lit "connection closed")
| local_system text : local_failure kSystem text
| local_malformed e : local_failure kUnknown (what e).

Lemma unanswered_local r code text : unanswered r code text -> local_failure code text.
Proof. destruct 1; constructor. Qed.

(** How a call that may make an attempt ends: it fails for want of an answer, or after [k]
    attempts that timed out the next was answered by the frame [m]. *)
Lemma call_ended (fuel : nat) (name req : bytes) (d : option closure) (s s' : CallState)
  (ran : list closure) :
  wf (inputBuffer_ (chan s)) -> fits 64 (nextSeq_ (chan s)) -> (0 <= maxRetries_ (chan s))%Z ->
  CallMethod fuel name req d s = Some (ran, s') ->
  (exists code text, local_failure code text /\ resp s' = resp s /\
     ctrl s' = failController (resetController (ctrl s)) code text) \/
  (exists k got dropped m r,
    (Z.of_nat k <= maxRetries_ (chan s))%Z /\
    tx (world s') = tx (world s) ++
      requests (serializeRequest (mkRpcRequest name req)) (nextSeq_ (chan s)) (S k) /\
    rx (world s') = rx (world s) ++ got /\
    contents (inputBuffer_ (chan s)) ++ got
      = concat (map wire dropped) ++ wire m ++ contents (inputBuffer_ (chan s')) /\
    Forall decoded dropped /\ decoded m /\
    answers (u64 (nextSeq_ (chan s) + Z.of_nat k)) m /\
    answered m (resetController (ctrl s)) (resp s) r (ctrl s') (resp s')).
Proof.
  intros Hw Hq Hmax Hret.
  destruct (CallMethod_spec _ _ _ _ _ _ _ Hw Hq Hret)
    as [-> [(text & _ & _ & _ & _ & Hm & Hc)|Hrun]].
  { left. exists kSystem, text. split; [constructor|done]. }
  destruct Hrun as (s0 & _ & Hch & Hc & Hm & Ht & Hr & _ & Hpost).
  destruct Hpost as [Hn _|k got part text _ _ _ _ _ Hc' Hm' _
    |k got earlier input r Hk _ Hr' Ht' Hi Hear Hwt _ _]; [lia| |].
  { left. exists kSystem, text. rewrite Hc', Hc, reset_reset, Hm'.
    split; [constructor|done]. }
  rewrite Hc, reset_reset, Hm in Hwt. rewrite Hch in *. cbn [set_fd nextSeq_ inputBuffer_] in *.
  remember (ctrl s') as c' eqn:Hc'. remember (resp s') as m' eqn:Hm'.
  destruct Hwt as [dropped m r0 c0 rsp0 Hdr Hd Hans Hin Ha|dropped r0 code text _ _ Hu].
  - right. exists k, got, (earlier ++ dropped), m, r0. split; [lia|].
    do 2 (split; [congruence|]).
    split; [by rewrite Hi, Hin, map_app, concat_app, <- app_assoc|].
    split; [|done]. apply Forall_app. split; [done|]. by apply others_decoded in Hdr.
  - left. exists code, text. split; [by eapply unanswered_local|done].
Qed.

(** What a call that succeeded sent and received. *)
Lemma call_success_lemma (fuel : nat) (name req : bytes) (d : option closure) (s s' : CallState)
  (ran : list closure)
  (Hw : wf (inputBuffer_ (chan s))) (Hq : fits 64 (nextSeq_ (chan s)))
  (Hmax : (0 <= maxRetries_ (chan s))%Z) (Hctrl : ctrl s <> NullController)
  (Hret : CallMethod fuel name req d s = Some (ran, s'))
  (Hok : controllerFailed (ctrl s') = false) :
  exists k got dropped m r,
    (Z.of_nat k <= maxRetries_ (chan s))%Z /\
    tx (world s') = tx (world s) ++
      requests (serializeRequest (mkRpcRequest name req)) (nextSeq_ (chan s)) (S k) /\
    rx (world s') = rx (world s) ++ got /\
    contents (inputBuffer_ (chan s)) ++ got
      = concat (map wire dropped) ++ wire m ++ contents (inputBuffer_ (chan s')) /\
    Forall decoded dropped /\ decoded m /\
    answers (u64 (nextSeq_ (chan s) + Z.of_nat k)) m /\
    parseResponse (body m) = Some r /\ error_code r = kOk /\
    ParseFromString (response r) = (true, resp s').
Proof.
  destruct (call_ended _ _ _ _ _ _ _ Hw Hq Hmax Hret)
    as [(code & text & _ & _ & Hc)|(k & got & dropped & m & r & Hk & Ht & Hr & Hi & Hdr & Hd & Ha & Han)].
  { rewrite Hc, fail_failed in Hok by auto with rpc. done. }
  exists k, got, dropped, m. revert Hok.
  destruct Han as [| | |rs ? ? ? ?]; rewrite ?fail_failed by auto with rpc; try done.
  intros _. by exists rs.
Qed.

(** ** Theorems *)

(** C13. A successful call is answered by its own request: when [CallMethod] returns and the
    controller has not failed, the bytes sent are the whole request frames of at most
    [maxRetries_ + 1] attempts, numbered consecutively from [nextSeq_]; among the bytes
    received there is a response frame numbered as the last of them; its envelope has code
    [kOk], and the caller's response is parsed from its payload; [done] has run once. *)
Theorem call_success (fuel : nat) (name req : bytes) (d : option closure) (s s' : CallState)
  (ran : list closure)
  (Hw : wf (inputBuffer_ (chan s))) (Hq : fits 64 (nextSeq_ (chan s)))
  (Hmax : (0 <= maxRetries_ (chan s))%Z) (Hctrl : ctrl s <> NullController)
  (Hret : CallMethod fuel name req d s = Some (ran, s'))
  (Hok : controllerFailed (ctrl s') = false) :
  ran = done_list d /\
  exists k got dropped m r,
    (Z.of_nat k <= maxRetries_ (chan s))%Z /\
    tx (world s') = tx (world s) ++
      requests (serializeRequest (mkRpcRequest name req)) (nextSeq_ (chan s)) (S k) /\
    rx (world s') = rx (world s) ++ got /\
    contents (inputBuffer_ (chan s)) ++ got
      = concat (map wire dropped) ++ wire m ++ contents (inputBuffer_ (chan s')) /\
    Forall decoded dropped /\ decoded m /\
    answers (u64 (nextSeq_ (chan s) + Z.of_nat k)) m /\
    parseResponse (body m) = Some r /\ error_code r = kOk /\
    ParseFromString (response r) = (true, resp s').
Proof.
  destruct (CallMethod_spec _ _ _ _ _ _ _ Hw Hq Hret) as [-> _]. split; [done|].
  exact (call_success_lemma _ _ _ _ _ _ _ Hw Hq Hmax Hctrl Hret Hok).
Qed.

(** C14. Retries are bounded and only follow timeouts: a call that returns has run [done] once,
    advanced [nextSeq_] by the number of its attempts, which is at most [maxRetries_ + 1], and
    sent their frames in order, the last possibly cut short. When it made fewer attempts than
    allowed, it could not connect, could not send, or its last wait ended otherwise than by a
    timeout. *)
Theorem call_attempts (fuel : nat) (name req : bytes) (d : option closure) (s s' : CallState)
  (ran : list closure)
  (Hw : wf (inputBuffer_ (chan s))) (Hq : fits 64 (nextSeq_ (chan s)))
  (Hret : CallMethod fuel name req d s = Some (ran, s')) :
  let env := serializeRequest (mkRpcRequest name req) in
  let allowed := Z.to_nat (maxRetries_ (chan s) + 1) in
  ran = done_list d /\
  exists k sent, k <= allowed /\
    nextSeq_ (chan s') = u64 (nextSeq_ (chan s) + Z.of_nat k) /\
    tx (world s') = tx (world s) ++ sent /\
    (requests env (nextSeq_ (chan s)) (Nat.pred k) `prefix_of` sent) /\
    (sent `prefix_of` requests env (nextSeq_ (chan s)) k) /\
    (k < allowed ->
     connected (chan s') = false \/
     exists r input left_, r <> CallTimeout /\
       waited (u64 (nextSeq_ (chan s) + Z.of_nat k - 1)) (resetController (ctrl s)) (resp s)
         input left_ r (ctrl s') (resp s')).
Proof.
  destruct (CallMethod_spec _ _ _ _ _ _ _ Hw Hq Hret)
    as [-> [(text & Hch & Hon & Ht & _)|Hrun]].
  { split; [done|]. exists 0, []. rewrite Hch, Z.add_0_r, app_nil_r, (u64_small _ Hq).
    repeat split; try done || lia. auto. }
  split; [done|]. destruct Hrun as (s0 & _ & Hch & Hc & Hm & Ht & Hr & _ & Hpost).
  revert Hpost. generalize (serializeRequest (mkRpcRequest name req)). intros env Hpost.
  rewrite <- Ht. destruct Hpost as [-> ->|k got part text Hk Hn _ Ht' Hpart _ _ Hcl
    |k got earlier input r Hk Hn _ Ht' _ _ Hwt Hto _]; rewrite Hch in *;
    cbn [set_fd nextSeq_] in *.
  - exists 0, []. rewrite Z.add_0_r, app_nil_r, (u64_small _ Hq). by repeat split; try lia.
  - exists (S k), (requests env (nextSeq_ (chan s)) k ++ part). rewrite (requests_S env _ k Hq).
    repeat split; try done; [by apply prefix_app_r|by apply prefix_app|auto].
  - exists (S k), (requests env (nextSeq_ (chan s)) (S k)).
    repeat split; try done; [by rewrite (requests_S env _ k Hq); apply prefix_app_r|].
    intros Hlt. right. exists r, input. eexists. split; [intros Ht0%Hto; lia|].
    replace (nextSeq_ (chan s) + Z.of_nat (S k) - 1)%Z
      with (nextSeq_ (chan s) + Z.of_nat k)%Z by lia.
    by rewrite Hc, reset_reset, Hm in Hwt.
Qed.

End Traced.

(** ** Termination *)

(** What a call needs of the kernel to return: successive readings of the steady clock are
    different, and only finitely many signals interrupt it ([signals] bounds those to come). *)
Class KernelProgress := {
  clock : W -> Z;
  signals : W -> nat;
  progress_now w :
    (clock w < (steady_now w).1)%Z /\ clock (steady_now w).2 = (steady_now w).1 /\
    signals (steady_now w).2 <= signals w;
  progress_socket w : signals (sys_socket w).2 <= signals w;
  progress_connect fd a w : signals (sys_connect fd a w).2 <= signals w;
  progress_close fd w : signals (sys_close fd w) <= signals w;
  progress_poll fd ms w :
    (clock w <= clock (sys_poll fd ms w).2)%Z /\ signals (sys_poll fd ms w).2 <= signals w;
  progress_readv fd cap w :
    (clock w <= clock (sys_readv fd cap w).2)%Z /\ signals (sys_readv fd cap w).2 <= signals w;
  progress_send fd d w :
    signals (sys_send fd d w).2 <= signals w /\
    (((sys_send fd d w).1 < 0)%Z -> errno (sys_send fd d w).2 = EINTR ->
     signals (sys_send fd d w).2 < signals w);
}.

Section Termination.
Context `{!KernelProgress}.

Lemma sendAll_total fuel fd data sent w :
  length data - sent + signals w < fuel ->
  exists ok w', sendAll fuel fd data sent w = Some (ok, w') /\ signals w' <= signals w.
Proof.
  revert sent w. induction fuel as [|fuel IH]; intros sent w Hf; [lia|]. cbn [sendAll].
  destruct (Nat.ltb_spec sent (length data)); [|by eauto].
  destruct (progress_send fd (drop sent data) w) as [Hs He].
  destruct (sys_send fd (drop sent data) w) as [n w1]. cbn [fst snd] in *.
  destruct (Z.ltb_spec n 0); [destruct (Z.eqb_spec (errno w1) EINTR)|].
  - specialize (He ltac:(done) ltac:(done)). destruct (IH sent w1) as (ok & w' & -> & ?); [lia|].
    exists ok, w'. split; [done|lia].
  - by eauto.
  - destruct (Z.eqb_spec n 0); [by eauto|].
    destruct (IH (sent + Z.to_nat n) w1) as (ok & w' & -> & ?); [lia|].
    exists ok, w'. split; [done|lia].
Qed.

(** A wait from [s] that returns. *)
Definition wait_ends (s : CallState) (o : option (CallResult * CallState)) : Prop :=
  exists r s', o = Some (r, s') /\ signals (world s') <= signals (world s) /\
               same_channel (chan s) (chan s').

Lemma wait_ends_now c k m w r k' m' w' b :
  wf b -> signals w' <= signals w ->
  wait_ends (mkCall c k m w) (Some (r, mkCall (set_input c b) k' m' w')).
Proof. intros Hb Hs. eexists _, _. split; [done|]. split; [done|]. by exists b. Qed.

Lemma wait_ends_stop c k m w r k' w' :
  wf (inputBuffer_ c) -> signals w' <= signals w ->
  wait_ends (mkCall c k m w) (Some (r, mkCall c k' m w')).
Proof.
  intros Hb Hs. replace c with (set_input c (inputBuffer_ c)) at 2 by (by destruct c).
  by apply wait_ends_now.
Qed.

Lemma wait_ends_later c k m w b k' m' w' o :
  signals w' <= signals w -> wait_ends (mkCall (set_input c b) k' m' w') o ->
  wait_ends (mkCall c k m w) o.
Proof.
  intros Hs (r & s' & -> & Hs' & (b' & Hw & Hc)). eexists _, _. split; [done|].
  cbn [world chan] in *. split; [lia|]. by exists b'.
Qed.

Lemma set_input_same c : set_input c (inputBuffer_ c) = c.
Proof. by destruct c. Qed.

Lemma wait_loop_total fuel sq dl s :
  wf (inputBuffer_ (chan s)) -> Z.to_nat (dl - clock (world s)) < fuel ->
  wait_ends s (wait_loop fuel sq dl s).
Proof.
  revert s. induction fuel as [|fuel IH]; intros [c k m w] Hw Hf; [lia|].
  cbn [wait_loop chan ctrl resp world] in *.
  assert (Hagain : forall b k' m' w', wf b -> (clock w < dl)%Z -> (clock w < clock w')%Z ->
    signals w' <= signals w ->
    wait_ends (mkCall c k m w) (wait_loop fuel sq dl (mkCall (set_input c b) k' m' w'))).
  { intros b k' m' w' Hb Hlt Hclk Hs. eapply wait_ends_later; [exact Hs|].
    apply IH; cbn; [done|lia]. }
  assert (Hagain0 : forall w', (clock w < dl)%Z -> (clock w < clock w')%Z ->
    signals w' <= signals w ->
    wait_ends (mkCall c k m w) (wait_loop fuel sq dl (mkCall c k m w'))).
  { intros w' Hlt Hclk Hs. rewrite <- (set_input_same c) at 2. by apply Hagain. }
  clear IH Hf. destruct (progress_now w) as (Hn1 & Hn2 & Hn3).
  destruct (steady_now w) as [now w0]. cbn [fst snd] in *.
  destruct (Z.leb_spec dl now); [by apply wait_ends_stop|].
  destruct (progress_poll (fd_ c) (i32 ((dl - now) ÷ 1000000)) w0) as [Hp1 Hp2].
  destruct (sys_poll _ _ w0) as [[rc revents] w1]. cbn [fst snd] in *.
  destruct (rc =? 0)%Z; [apply wait_ends_stop; done || lia|].
  destruct (rc <? 0)%Z;
    [destruct (_ =? EINTR)%Z; [apply Hagain0; lia|apply wait_ends_stop; done || lia]|].
  destruct (negb _); [apply wait_ends_stop; done || lia|].
  destruct (_ =? 0)%Z; [apply Hagain0; lia|].
  destruct (progress_readv (fd_ c) (readFd_capacity (inputBuffer_ c)) w1) as [Hr1 Hr2].
  destruct (sys_readv _ _ w1) as [o w2]. cbn [fst snd] in *.
  assert (Hb : wf (readFd (inputBuffer_ c) o).2)
    by (destruct o; [done|by apply readFd_Ok_spec]).
  destruct (readFd _ _) as [[n en] b]. cbn [snd] in Hb.
  destruct (n <=? 0)%Z; [apply wait_ends_now; done || lia|].
  pose proof (while_decode_buffer_total host (response_body sq) (m, k) b Hb) as Htot.
  destruct (while_decode _ _ _ _ _) as [[[e [m' k']] b']|] eqn:Hd; [|done].
  apply decode_wait in Hd as [Hb' _]; [|done].
  cbn [chan ctrl resp world]. change (set_input (set_input c b) b') with (set_input c b').
  destruct e; (apply Hagain || apply wait_ends_now); done || lia.
Qed.

Lemma attempt_loop_total fuel n env s :
  wf (inputBuffer_ (chan s)) ->
  (forall sq, length (request_frame env sq) + signals (world s) < fuel) ->
  Z.to_nat (timeoutMs_ (chan s) * 1000000) < fuel ->
  exists s', attempt_loop fuel n env s = Some s'.
Proof.
  revert s. induction n as [|n IH]; intros [c k m w] Hw Hsend Hwait;
    cbn [attempt_loop chan ctrl resp world] in *; [by eauto|].
  rewrite request_bytes. cbn [set_nextSeq fd_ timeoutMs_].
  destruct (sendAll_total fuel (fd_ c) (request_frame env (nextSeq_ c)) 0 w)
    as ([] & w1 & -> & Hs1); [by rewrite Nat.sub_0_r| |by destruct (close _ _); eauto].
  unfold waitResponse. destruct (progress_now w1) as (Hn1 & Hn2 & Hn3).
  cbn [world]. destruct (steady_now w1) as [now w2]. cbn [fst snd chan ctrl resp] in *.
  edestruct (wait_loop_total fuel) as (r & s' & -> & Hs2 & (b & Hb & Hc)).
  3: { cbn [chan world] in *. destruct r; eauto. apply IH; rewrite ?Hc; try done.
       intros sq. specialize (Hsend sq). lia. }
  - done.
  - cbn [world]. rewrite Hn2.
    by replace (now + timeoutMs_ c * 1000000 - now)%Z with (timeoutMs_ c * 1000000)%Z by lia.
Qed.

Lemma connect_total c w :
  let '(_, c', w') := connect c w in signals w' <= signals w /\ c' = set_fd c (fd_ c').
Proof.
  unfold connect. destruct (0 <=? fd_ c)%Z; [by destruct c|].
  pose proof (progress_socket w). destruct (sys_socket w) as [fd w1].
  destruct (fd <? 0)%Z; [by destruct c|].
  pose proof (progress_connect fd (serverAddr_ c) w1). destruct (sys_connect _ _ w1) as [rc w2].
  pose proof (progress_close fd w2). cbn [snd] in *.
  destruct (rc <? 0)%Z; (split; [lia|by destruct c]).
Qed.

(** C15. A call returns: when the clock advances and the kernel interrupts the call finitely
    often, [CallMethod] returns whatever the peer sends, including nothing and malformed or
    endless unrelated frames; iterations of each loop bounded by the timeout in nanoseconds and
    by the bytes to send are enough. *)
Theorem call_returns (fuel : nat) (name req : bytes) (d : option closure) (s : CallState)
  (Hw : wf (inputBuffer_ (chan s)))
  (Hsend : kHeaderSize + length (serializeRequest (mkRpcRequest name req)) + signals (world s)
           < fuel)
  (Hwait : Z.to_nat (timeoutMs_ (chan s) * 1000000) < fuel) :
  exists s', CallMethod fuel name req d s = Some (done_list d, s').
Proof.
  destruct s as [c k m w]. unfold CallMethod. cbn [chan ctrl resp world] in *.
  pose proof (connect_total c w) as Hcn. destruct (connect c w) as [[[] c1] w1];
    [|by destruct d; eauto].
  destruct Hcn as (Hs & Hc).
  edestruct (attempt_loop_total fuel) as (s' & ->).
  4: { exists s'. by destruct d. }
  all: cbn [chan world]; try (rewrite Hc; done).
  intros sq. unfold request_frame. rewrite length_wire. cbn [body request_message]. lia.
Qed.

End Termination.

End RpcChannel.

(** ** A scripted kernel *)

(** A kernel that plays a script: how many bytes each [send] takes (all, once the list ends; a
    negative number is an error), and what each [readv] returns; [poll] reports a timeout once
    nothing is left to read. *)
Module Script.
Import SampleEnvelope.

Record world_ := mkWorld {
  time : Z;
  sends : list Z;
  inbox : list read_outcome;
  sent : bytes;
  got : bytes;
}.

Definition data_of (o : read_outcome) : bytes :=
  match o with ReadOk d => d | ReadErr _ => [] end.

#[export] Instance kernel : Kernel world_ := {
  steady_now w := (time w + 1, mkWorld (time w + 1) (sends w) (inbox w) (sent w) (got w))%Z;
  sys_socket w := (3%Z, w);
  sys_connect _ _ w := (0%Z, w);
  sys_close _ w := w;
  sys_send _ d w :=
    let n := match sends w with
             | [] => Z.of_nat (length d)
             | n :: _ => Z.min n (Z.of_nat (length d))
             end in
    (n, mkWorld (time w) (tail (sends w)) (inbox w) (sent w ++ take (Z.to_nat n) d) (got w));
  sys_poll _ ms w :=
    match inbox w with
    | [] => (0%Z, 0%Z, mkWorld (time w + Z.max 0 ms * 1000000)%Z (sends w) [] (sent w) (got w))
    | _ => (1%Z, POLLIN, w)
    end;
  sys_readv _ _ w :=
    match inbox w with
    | [] => (ReadErr 11, w)
    | o :: os => (o, mkWorld (time w) (sends w) os (sent w) (got w ++ data_of o))
    end;
  errno _ := 32%Z;
  strerror _ := lit "Broken pipe";
}.

#[export, refine] Instance trace : KernelTrace := { tx := sent; rx := got }.
Proof.
  all: try (by intros; cbn; rewrite ?app_nil_r).
  - intros fd ms w. cbn. by destruct (inbox w).
  - intros fd d w. cbn. destruct (sends w); cbn; (split; [lia|done]).
  - intros fd cap w. cbn. destruct (inbox w) as [|o os]; cbn; by rewrite ?app_nil_r.
Defined.

#[export, refine] Instance progress : KernelProgress := { clock := time; signals _ := 0 }.
Proof.
  all: try (by intros; cbn; lia).
  - intros fd ms w. cbn. destruct (inbox w); cbn; lia.
  - intros fd cap w. cbn. destruct (inbox w); cbn; lia.
  - intros fd d w. cbn. split; [done|]. discriminate.
Defined.

(** A caller that reads the payload as it is. *)
Definition raw (b : bytes) : bool * bytes := (true, b).

Definition reply (sq : Z) (text : bytes) : bytes :=
  wire (mkMessage (mkHeader kMagic kProtocolVersion kResponse 0 sq 0 0)
                  (serializeResponse (mkRpcResponse kOk [] text))).

Abbreviation state := (CallState (W := world_) (Msg := bytes)).

(** A new channel, 5 ms of timeout and one retry, on a kernel that delivers [chunks]. *)
Definition start (snd : list Z) (chunks : list bytes) : state :=
  mkCall (RpcChannel_new (mkSockaddr AF_INET 0 0) 5 1) (Mini RpcController_new) []
         (mkWorld 0 snd (map ReadOk chunks) [] []).

Abbreviation call s :=
  (CallMethod LittleEndian raw 64 (lit "pkg.Echo.Echo") (lit "hi") (Some 7) s).

(** A late answer to another call, then the answer to this one, cut in two. *)
Definition answered_start : state :=
  start [3%Z] [reply 9 (lit "other"); take 10 (reply 1 (lit "hi")); drop 10 (reply 1 (lit "hi"))].

Definition call_state (o : option (list closure * state)) (dflt : state) : state :=
  match o with Some (_, s) => s | None => dflt end.

Lemma call_success_witness :
  let s' := call_state (call answered_start) answered_start in
  controllerFailed (ctrl s') = false /\ resp s' = lit "hi" /\
  exists k, tx (world s') = requests (serializeRequest (mkRpcRequest (lit "pkg.Echo.Echo")
                                        (lit "hi"))) 1 (S k).
Proof.
  assert (Hret : call answered_start
    = Some (done_list (Some 7), call_state (call answered_start) answered_start))
    by (vm_compute; reflexivity).
  remember (call_state _ _) as s' eqn:Hs'.
  assert (Hok : controllerFailed (ctrl s') = false) by (rewrite Hs'; vm_compute; reflexivity).
  cbn zeta. split; [exact Hok|]. split; [rewrite Hs'; vm_compute; reflexivity|].
  assert (Hctrl : ctrl answered_start <> NullController) by discriminate.
  destruct (call_success LittleEndian raw 64 (lit "pkg.Echo.Echo") (lit "hi") (Some 7)
              answered_start s' (done_list (Some 7)) (wf_new _) (conj Z.le_0_1 eq_refl)
              Z.le_0_1 Hctrl Hret Hok)
    as (_ & k & _ & _ & _ & _ & _ & Ht & _).
  exists k. exact Ht.
Defined.

(** A peer that never answers. *)
Lemma call_attempts_witness :
  exists s', call (start [] []) = Some ([7], s') /\ nextSeq_ (chan s') = 3%Z /\
  exists k, k <= 2 /\ nextSeq_ (chan s') = u64 (1 + Z.of_nat k).
Proof.
  assert (Hret : call (start [] [])
    = Some (done_list (Some 7), call_state (call (start [] [])) (start [] [])))
    by (vm_compute; reflexivity).
  remember (call_state _ _) as s' eqn:Hs'. exists s'. split; [exact Hret|].
  split; [rewrite Hs'; vm_compute; reflexivity|].
  destruct (call_attempts LittleEndian raw 64 (lit "pkg.Echo.Echo") (lit "hi") (Some 7)
              (start [] []) s' (done_list (Some 7)) (wf_new _) (conj Z.le_0_1 eq_refl) Hret)
    as (_ & k & snt & Hk & Hn & _).
  exists k. split; [exact Hk|exact Hn].
Defined.

Lemma call_returns_witness :
  exists s', CallMethod LittleEndian raw (Z.to_nat 5000001) (lit "pkg.Echo.Echo") (lit "hi")
               (Some 7) (start [] [lit "not a frame at all, at any rate"])
             = Some ([7], s').
Proof.
  apply (call_returns LittleEndian raw (Z.to_nat 5000001) (lit "pkg.Echo.Echo") (lit "hi")
           (Some 7) (start [] [lit "not a frame at all, at any rate"])).
  - apply wf_new.
  - apply Nat.lt_trans with 100; [vm_compute; lia|]. apply Nat2Z.inj_lt.
    rewrite Z2Nat.id; lia.
  - cbn [chan timeoutMs_ start RpcChannel_new]. lia.
Defined.

(** The kernel's script from here on. *)
Definition next_script (s : state) (snd : list Z) (chunks : list bytes) : state :=
  mkCall (chan s) (ctrl s) (resp s)
         (mkWorld (time (world s)) snd (map ReadOk chunks) (sent (world s)) (got (world s))).

(** Bytes of a closed connection are taken for the next one's: a call times out with part of
    its answer buffered, the next finds the connection broken and closes it, and the third, on a
    new connection whose peer answers it at once and correctly, fails on a frame made of the old
    bytes and the new ones, because [close] leaves [inputBuffer_] as it is. On an empty buffer
    the same call succeeds. *)
Theorem stale_input_after_reconnect :
  let s1 := call_state (call (start [] [take 20 (reply 1 (lit "hi"))])) (start [] []) in
  let s2 := call_state (call (next_script s1 [(-1)%Z] [])) s1 in
  let s3 := call_state (call (next_script s2 [] [reply 4 (lit "hi")])) s2 in
  let s2' := mkCall (set_input (chan s2) (Buffer_new kInitialSize)) (ctrl s2) (resp s2) (world s2) in
  let s3' := call_state (call (next_script s2' [] [reply 4 (lit "hi")])) s2' in
  connected (chan s2) = false /\ connected (chan s3) = true /\
  contents (inputBuffer_ (chan s2)) = take 20 (reply 1 (lit "hi")) /\
  controllerFailed (ctrl s3) = true /\ resp s3 = [] /\
  controllerFailed (ctrl s3') = false /\ resp s3' = lit "hi".
Proof. vm_compute. repeat split. Qed.

(** A connection the peer closed is not given up: after the [kClosed] failure the channel still
    counts as connected, so the next call does not reconnect and sends on the dead descriptor. *)
Theorem closed_channel_stays_connected :
  let s1 := call_state (call (start [] [[]])) (start [] []) in
  let s2 := call_state (call (next_script s1 [(-1)%Z] [])) s1 in
  ctrl s1 = Mini (SetFailedCode RpcController_new kClosed (lit "connection closed")) /\
  connected (chan s1) = true /\ fd_ (chan s1) = 3%Z /\
  ctrl s2 = Mini (SetFailedCode RpcController_new kSystem (lit "Broken pipe")) /\
  connected (chan s2) = false.
Proof. vm_compute. repeat split. Qed.

End Script.
