(* ===== verification/System.v ===== *)
(** The client channel and the server together (src/rpc/RpcChannel.cpp and src/rpc/RpcServer.cpp
    over one connection): what a successful call returns is what the service computed. *)
From stdpp Require Import base list gmap strings numbers.
From Stdlib Require Import Ascii ZArith Lia.
From S2P Require Import Prelude Bytes Common Buffer Codec.
From S2P Require Import Controller Service RpcServer Inet RpcChannel.

Section EndToEnd.
Context (client server : endian) `{EnvelopeLaws}.
Context {W : Type} `{Kernel W} `{!KernelTrace}.
Context {Msg SMsg St : Type} (ParseFromString : bytes -> bool * Msg).
Context (reg : ServiceRegistry SMsg St).

(** ** The server's side of a connection *)

(** The states the services go through once the server has decoded the requests [all], on any of
    its connections: the pool's threads run [handleRequest] on them in any order. *)
Inductive served (st0 : St) (all : list ProtocolMessage) : St -> Prop :=
| served_start : served st0 all st0
| served_call st conn m st' conn' r :
    served st0 all st -> m ∈ all -> is_request m = true ->
    handleRequest server reg st conn m = (st', conn', r) ->
    served st0 all st'.

(** The loop thread's reply when the pool refuses a request. *)
Definition refusal : RpcResponse := mkRpcResponse kSystem (lit "ThreadPool: queue full, timed out") [].

(** A reply the server sends for the request [m]: the one the specification defines, in a state
    the services were in, or the refusal. *)
Definition reply_to (st0 : St) (all : list ProtocolMessage) (m : ProtocolMessage) (r : RpcResponse) :
    Prop :=
  (exists st st', served st0 all st /\ reply_for reg st (body m) st' r) \/
  r = refusal.

(** The frame of a reply. *)
Definition reply_frame (mr : ProtocolMessage * RpcResponse) : bytes :=
  wire (reply_message (seq (header mr.1)) mr.2).

(** [f] is the frame of a reply to the request [m]. *)
Definition is_reply (st0 : St) (all : list ProtocolMessage) (m : ProtocolMessage) (f : bytes) : Prop :=
  exists r, f = reply_frame (m, r) /\ reply_to st0 all m r.

(** What the server may have put on a connection from which it decoded [ms]. *)
Definition replies (st0 : St) (all ms : list ProtocolMessage) (outs : list bytes) : Prop :=
  Forall (fun f => exists m, m ∈ ms /\ is_reply st0 all m f) outs.

Lemma served_mono st0 ms ms' st : ms ⊆ ms' -> served st0 ms st -> served st0 ms' st.
Proof.
  intros Hsub. induction 1 as [|st conn m st' conn' r _ IH Hm Hr Hh]; [constructor|].
  eapply served_call; [exact IH|by apply Hsub|done|exact Hh].
Qed.

Lemma is_reply_mono st0 ms ms' m f : ms ⊆ ms' -> is_reply st0 ms m f -> is_reply st0 ms' m f.
Proof.
  intros Hsub (r & Hf & Hr). exists r. split; [done|].
  destruct Hr as [(st & st' & Hs & Hr)|He]; [left|by right]. exists st, st'.
  split; [by eapply served_mono|done].
Qed.

(** The requests and the replies of a list of frames. *)
Lemma replies_list st0 all ms outs :
  replies st0 all ms outs ->
  exists rs, outs = map reply_frame rs /\
    Forall (fun mr => mr.1 ∈ ms /\ reply_to st0 all mr.1 mr.2) rs.
Proof.
  induction 1 as [|f outs (m & Hm & r & -> & Hr) _ (rs & -> & Hrs)]; [by exists []|].
  exists ((m, r) :: rs). split; [done|]. by constructor.
Qed.

(** The frames of a part of a stream are among the frames of the stream. *)
Lemma parse_frames_sub q q' :
  q `prefix_of` q' -> (parse_frames q).1.1 ⊆ (parse_frames q').1.1.
Proof.
  intros [z ->] m Hm. rewrite parse_frames_app. destruct (parse_frames q) as [[ms [e|]] r]; [done|].
  destruct (parse_frames (r ++ z)) as [[ms' e'] r']. cbn [fst] in *. apply elem_of_app. by left.
Qed.

(** ** Streams *)

Lemma parse_frames_decoded ms q :
  Forall decoded ms ->
  parse_frames (concat (map wire ms) ++ q) =
  let '(ms', e, r) := parse_frames q in (ms ++ ms', e, r).
Proof.
  induction 1 as [|m ms [Hs Hr] _ IH]; cbn [map concat app].
  { by destruct (parse_frames q) as [[? ?] ?]. }
  rewrite <- app_assoc, parse_frames_unfold, decode_spec_wire, IH, Hr by done.
  by destruct (parse_frames q) as [[? ?] ?].
Qed.

(** A frame decoded from what a stream of frames has delivered so far is one of its frames. *)
Lemma delivered_frame ms m rest sent_ :
  Forall decoded ms -> decoded m -> Forall sendable sent_ ->
  (concat (map wire ms) ++ wire m ++ rest) `prefix_of` concat (map wire sent_) ->
  m ∈ map received sent_.
Proof.
  intros Hms Hm Hs [z Hz].
  assert (Hp := parse_frames_wires sent_ Hs). rewrite Hz in Hp.
  replace ((concat (map wire ms) ++ wire m ++ rest) ++ z)
    with (concat (map wire (ms ++ [m])) ++ rest ++ z) in Hp
    by (rewrite map_app, concat_app; cbn [map concat]; by rewrite app_nil_r, <- !app_assoc).
  rewrite parse_frames_decoded in Hp by (apply Forall_app; by rewrite Forall_singleton).
  destruct (parse_frames (rest ++ z)) as [[ms' e] r]. injection Hp as <- _ _.
  apply elem_of_app. left. apply elem_of_app. right. by apply list_elem_of_singleton.
Qed.

(** The request messages of [k] attempts. *)
Fixpoint request_list (env : bytes) (sq : Z) (k : nat) : list ProtocolMessage :=
  match k with
  | O => []
  | S k => request_message sq env :: request_list env (u64 (sq + 1)) k
  end.

Lemma requests_wires env sq k : requests env sq k = concat (map wire (request_list env sq k)).
Proof. revert sq. induction k as [|k IH]; intros sq; [done|]. cbn. by rewrite IH. Qed.

Lemma request_list_sendable env sq k :
  (Z.of_nat (length env) <= kMaxBodySize)%Z -> fits 64 sq ->
  Forall sendable (request_list env sq k).
Proof.
  intros He. revert sq. induction k as [|k IH]; intros sq Hq; cbn; constructor.
  - by repeat split; try done; apply Hq.
  - apply IH. by apply wrap_fits.
Qed.

Lemma request_list_body env sq k m : m ∈ request_list env sq k -> body m = env.
Proof.
  revert sq. induction k as [|k IH]; intros sq; cbn; [by intros ?%elem_of_nil|].
  intros [->|Hm]%elem_of_cons; [done|]. by apply (IH (u64 (sq + 1))).
Qed.

(** ** Sessions *)

(** A channel between two calls on one connection: the bytes sent are frames numbered below
    [nextSeq_], those received are whole frames and then what is buffered. *)
Definition session (s : CallState (W := W) (Msg := Msg)) : Prop :=
  wf (inputBuffer_ (chan s)) /\ fits 64 (nextSeq_ (chan s)) /\
  exists old seen,
    tx (world s) = concat (map wire old) /\ Forall sendable old /\
    Forall (fun m => seq (header m) < nextSeq_ (chan s))%Z old /\
    rx (world s) = concat (map wire seen) ++ contents (inputBuffer_ (chan s)) /\
    Forall decoded seen.

(** The server's frames, when they are within the size limit, as messages a client decodes. *)
Lemma replies_sendable ms (rs : list (ProtocolMessage * RpcResponse)) :
  Forall decoded ms -> Forall (fun mr => mr.1 ∈ ms) rs ->
  Forall (fun f => Z.of_nat (length f) <= Z.of_nat kHeaderSize + kMaxBodySize)%Z
    (map reply_frame rs) ->
  Forall sendable (map (fun mr => reply_message (seq (header mr.1)) mr.2) rs).
Proof.
  intros Hms Hrs. induction Hrs as [|[m r] rs Hm _ IH]; cbn [map]; [done|].
  intros [Hl Hls]%Forall_cons_1. constructor; [|by apply IH].
  unfold reply_frame in Hl. rewrite length_wire in Hl. rewrite list.Forall_forall in Hms.
  destruct (Hms m Hm) as [[Ht _] _]. repeat split; try done; [apply Ht|apply Ht|].
  cbn [reply_message body] in *. lia.
Qed.

(** The requests the server decodes from what the client has sent. *)
Lemma session_requests old env n k :
  Forall sendable old -> (Z.of_nat (length env) <= kMaxBodySize)%Z -> fits 64 n ->
  (parse_frames (concat (map wire old) ++ requests env n k)).1.1
  = map received (old ++ request_list env n k).
Proof.
  intros Hold He Hn. rewrite requests_wires, <- concat_app, <- map_app.
  rewrite parse_frames_wires; [done|]. apply Forall_app. split; [done|].
  by apply request_list_sendable.
Qed.

Lemma received_decoded m : sendable m -> decoded (received m).
Proof.
  intros (Ht & Hm & Hv & Hl). split; [|done].
  repeat split; try apply Ht; try done; cbn; unfold kMaxBodySize in *; lia.
Qed.

(** A request the server decoded, numbered from [n] on, is one of this call. *)
Lemma session_body old env n k rq :
  Forall (fun m => seq (header m) < n)%Z old -> rq ∈ map received (old ++ request_list env n k) ->
  (n <= seq (header rq))%Z -> body rq = env.
Proof.
  intros Hlow Hin Hge. apply list_elem_of_In, in_map_iff in Hin as (q & <- & Hq).
  apply list_elem_of_In, elem_of_app in Hq as [Hq|Hq].
  - rewrite list.Forall_forall in Hlow. specialize (Hlow q Hq). cbn in *. lia.
  - by apply request_list_body in Hq.
Qed.

(** A frame decoded from what the server has sent so far is one of its replies. *)
Lemma delivered_reply ms m rest (rs : list (ProtocolMessage * RpcResponse)) :
  Forall decoded ms -> decoded m ->
  Forall sendable (map (fun mr => reply_message (seq (header mr.1)) mr.2) rs) ->
  (concat (map wire ms) ++ wire m ++ rest) `prefix_of` concat (map reply_frame rs) ->
  exists q r, (q, r) ∈ rs /\ m = received (reply_message (seq (header q)) r).
Proof.
  intros Hms Hm Hs Hpre. unfold reply_frame in Hpre.
  rewrite <- (map_map (fun mr => reply_message (seq (header mr.1)) mr.2) wire) in Hpre.
  apply delivered_frame in Hpre; [|done..].
  rewrite map_map in Hpre. apply list_elem_of_In, in_map_iff in Hpre as ([q r] & <- & Hin).
  exists q, r. split; [by apply list_elem_of_In|done].
Qed.

(** The frame that answered a call is the server's reply to the call's request. *)
Lemma answer_is_reply (s s' : CallState (W := W) (Msg := Msg)) env k got dropped m st0 all inp outs :
  session s -> (nextSeq_ (chan s) + Z.of_nat k < 2 ^ 64)%Z ->
  (Z.of_nat (length env) <= kMaxBodySize)%Z ->
  tx (world s') = tx (world s) ++ requests env (nextSeq_ (chan s)) (S k) ->
  rx (world s') = rx (world s) ++ got ->
  contents (inputBuffer_ (chan s)) ++ got
    = concat (map wire dropped) ++ wire m ++ contents (inputBuffer_ (chan s')) ->
  Forall decoded dropped -> decoded m -> answers (u64 (nextSeq_ (chan s) + Z.of_nat k)) m ->
  inp `prefix_of` tx (world s') -> replies st0 all (parse_frames inp).1.1 outs ->
  Forall (fun f => Z.of_nat (length f) <= Z.of_nat kHeaderSize + kMaxBodySize)%Z outs ->
  rx (world s') `prefix_of` concat outs ->
  exists rq r, parseResponse (body m) = Some r /\ body rq = env /\
    reply_to st0 all rq r.
Proof.
  intros (Hw & Hq & old & seen & Htx & Hold & Hlow & Hrx & Hseen) Hseq He Htx' Hrx' Hb Hdr Hd
    [_ Hans] Hinp (rs & -> & Hrs)%replies_list Hlim Hnet.
  assert (Hsub := parse_frames_sub _ _ Hinp). rewrite Htx', Htx, session_requests in Hsub by done.
  set (ms := (parse_frames inp).1.1) in *.
  assert (Hdec : Forall decoded (map received (old ++ request_list env (nextSeq_ (chan s)) (S k)))).
  { apply Forall_map. eapply list.Forall_impl; [|exact received_decoded].
    apply Forall_app. split; [done|]. by apply request_list_sendable. }
  assert (Hsend := replies_sendable _ rs Hdec). rewrite Hrx', Hrx, <- app_assoc, Hb, app_assoc,
    <- concat_app, <- map_app in Hnet.
  apply delivered_reply in Hnet as (rq & r & Hin & ->);
    [|by apply Forall_app|done|apply Hsend; [|done]].
  2: { eapply list.Forall_impl; [exact Hrs|]. intros mr [Hm _]. by apply Hsub. }
  rewrite list.Forall_forall in Hrs. destruct (Hrs _ Hin) as [Hrq Hto]. cbn [fst snd] in *.
  exists rq, r. cbn [received reply_message header body seq] in *.
  split; [apply parse_serializeResponse|]. split; [|done].
  apply (session_body old env (nextSeq_ (chan s)) (S k)); [done|by apply Hsub|].
  rewrite Hans, u64_small; [|unfold fits in *]; lia.
Qed.

(** ** Calls *)

(** When a call on an open session returns and its controller has not failed,
    the server has read a part of what the client sent and the client a part of what the server
    sent, whatever the order in which its threads served the requests, then the caller's response
    is parsed from the payload of the reply the specification [reply_for] defines for this method
    and these request bytes, in a state the services were in, with code [kOk]. No reply to another
    call or attempt is taken. *)
Lemma call_success_served (fuel : nat) (name req : bytes) (d : option closure)
  (s s' : CallState (W := W) (Msg := Msg)) (ran : list closure)
  (st0 : St) (all : list ProtocolMessage) (inp : bytes) (outs : list bytes)
  (Hses : session s)
  (Hmax : (0 <= maxRetries_ (chan s))%Z)
  (Hseq : (nextSeq_ (chan s) + maxRetries_ (chan s) < 2 ^ 64)%Z)
  (Hctrl : ctrl s <> NullController)
  (Hsize : (Z.of_nat (length (serializeRequest (mkRpcRequest name req))) <= kMaxBodySize)%Z)
  (Hret : CallMethod client ParseFromString fuel name req d s = Some (ran, s'))
  (Hok : controllerFailed (ctrl s') = false)
  (Hinp : inp `prefix_of` tx (world s'))
  (Hserver : replies st0 all (parse_frames inp).1.1 outs)
  (Hlimit : Forall (fun f => Z.of_nat (length f) <= Z.of_nat kHeaderSize + kMaxBodySize)%Z outs)
  (Hnet : rx (world s') `prefix_of` concat outs) :
  exists st1 st2 r, served st0 all st1 /\
    reply_for reg st1 (serializeRequest (mkRpcRequest name req)) st2 r /\
    error_code r = kOk /\ ParseFromString (response r) = (true, resp s').
Proof.
  pose proof Hses as (Hw & Hq & _).
  destruct (call_success_lemma client ParseFromString fuel name req d s s' ran Hw Hq Hmax Hctrl
              Hret Hok) as (k & got & dropped & m & r & Hk & Htx & Hrx & Hb & Hdr & Hd & Ha & Hp &
                            Hcode & Hparse).
  destruct (answer_is_reply s s' _ k got dropped m st0 all inp outs Hses ltac:(lia) Hsize Htx Hrx Hb Hdr Hd Ha
              Hinp Hserver Hlimit Hnet) as (rq & r' & Hp' & Hbody & Hto).
  rewrite Hp in Hp'. injection Hp' as <-.
  destruct Hto as [(st1 & st2 & Hs & Hrep)| ->]; [|done].
  rewrite Hbody in Hrep. by exists st1, st2, r.
Qed.

(** Under the same conditions, when the controller has failed with a
    code that no failure of the client itself has, the code is that of the reply the
    specification defines for this method and these request bytes, in a state the services were
    in, and the text is the reply's, or a fixed one when that is empty. *)
Lemma call_error_served (fuel : nat) (name req : bytes) (d : option closure)
  (s s' : CallState (W := W) (Msg := Msg)) (ran : list closure)
  (st0 : St) (all : list ProtocolMessage) (inp : bytes) (outs : list bytes) (c c' : RpcController)
  (Hses : session s)
  (Hmax : (0 <= maxRetries_ (chan s))%Z)
  (Hseq : (nextSeq_ (chan s) + maxRetries_ (chan s) < 2 ^ 64)%Z)
  (Hctrl : ctrl s = Mini c)
  (Hsize : (Z.of_nat (length (serializeRequest (mkRpcRequest name req))) <= kMaxBodySize)%Z)
  (Hret : CallMethod client ParseFromString fuel name req d s = Some (ran, s'))
  (Hctrl' : ctrl s' = Mini c')
  (Hfail : Failed c' = true)
  (Hcode : errorCode c' ∉ [kTimeout; kClosed; kSystem; kUnknown])
  (Hinp : inp `prefix_of` tx (world s'))
  (Hserver : replies st0 all (parse_frames inp).1.1 outs)
  (Hlimit : Forall (fun f => Z.of_nat (length f) <= Z.of_nat kHeaderSize + kMaxBodySize)%Z outs)
  (Hnet : rx (world s') `prefix_of` concat outs) :
  exists st1 st2 r, served st0 all st1 /\
    reply_for reg st1 (serializeRequest (mkRpcRequest name req)) st2 r /\
    error_code r = errorCode c' /\ error_code r <> kOk /\
    ErrorText c' = (if decide (error_message r = []) then lit "rpc call failed"
                    else error_message r).
Proof.
  pose proof Hses as (Hw & Hq & _). rewrite !elem_of_cons in Hcode.
  destruct (call_ended client ParseFromString fuel name req d s s' ran Hw Hq Hmax Hret)
    as [(code & text & Hl & _ & Hc)|(k & got & dropped & m & cr & Hk & Htx & Hrx & Hb & Hdr & Hd & Ha & Han)].
  { rewrite Hctrl', Hctrl in Hc. injection Hc as ->. destruct Hl; naive_solver. }
  destruct (answer_is_reply s s' _ k got dropped m st0 all inp outs Hses ltac:(lia) Hsize Htx Hrx Hb Hdr Hd Ha
              Hinp Hserver Hlimit Hnet) as (rq & r & Hp & Hbody & Hto).
  rewrite Hctrl', Hctrl in Han. cbn [resetController] in Han.
  assert (Hans : exists r' text, parseResponse (body m) = Some r' /\ error_code r' <> kOk /\
    text = (if decide (error_message r' = []) then lit "rpc call failed" else error_message r') /\
    c' = SetFailedCode (Reset c) (error_code r') text).
  { inversion Han; simplify_eq; try (cbn in Hcode; naive_solver); eauto 10. }
  destruct Hans as (r' & text & Hp' & Hne & Htext & ->).
  rewrite Hp in Hp'. injection Hp' as <-.
  destruct Hto as [(st1 & st2 & Hs & Hrep)| ->]; [|cbn in Hcode; naive_solver].
  rewrite Hbody in Hrep. exists st1, st2, r. by repeat split.
Qed.

End EndToEnd.
