(* ===== verification/LoadBalancer.v ===== *)
(** [minirpc::RoundRobin] and [minirpc::ConsistentHash] (include/minirpc/rpc/LoadBalancer.h,
    src/rpc/LoadBalancer.cpp). *)
From stdpp Require Import base list strings numbers sorting.
From Stdlib Require Import Ascii ZArith Lia.
From S2P Require Import Prelude Bytes.

(** ** RoundRobin *)

Record RoundRobin := mkRoundRobin { index_ : Z; nodeCount_ : nat }.

Definition RoundRobin_new : RoundRobin := mkRoundRobin 0 0.

Definition setNodeCount (r : RoundRobin) (n : nat) : RoundRobin := mkRoundRobin (index_ r) n.

(** [fetch_add] returns the old value and wraps at 64 bits. *)
Definition next (r : RoundRobin) : nat * RoundRobin :=
  if nodeCount_ r =? 0 then (0, r)
  else (Z.to_nat (index_ r mod Z.of_nat (nodeCount_ r)),
        mkRoundRobin (u64 (index_ r + 1)) (nodeCount_ r)).

(** The results of [k] calls. *)
Fixpoint nexts (r : RoundRobin) (k : nat) : list nat * RoundRobin :=
  match k with
  | O => ([], r)
  | S k => let '(i, r) := next r in let '(l, r) := nexts r k in (i :: l, r)
  end.

(** ** ConsistentHash *)

(** [std::map<uint64_t, std::string>]: the bindings in the order of their keys. *)
Abbreviation ring := (list (Z * bytes)).

(** [m[k] = v] *)
Fixpoint map_assign (m : ring) (k : Z) (v : bytes) : ring :=
  match m with
  | [] => [(k, v)]
  | (k', v') :: m' =>
      if (k <? k')%Z then (k, v) :: m
      else if (k =? k')%Z then (k, v) :: m'
      else (k', v') :: map_assign m' k v
  end.

(** [m.lower_bound(k)]: the first binding whose key is not less than [k], or [end()]. *)
Definition lower_bound (m : ring) (k : Z) : option (Z * bytes) :=
  List.find (fun '(k', _) => (k <=? k')%Z) m.

Section ConsistentHash.
(** [std::hash<std::string>] of the standard library in use. *)
Context (std_hash : bytes -> Z).

Definition hash64 (s : bytes) : Z := u64 (std_hash s).

Record ConsistentHash := mkConsistentHash {
  ring_ : ring;
  virtualNodesPerNode_ : nat;
  nodeKeys_ : list bytes;
}.

Definition ConsistentHash_new (virtualNodesPerNode : nat) : ConsistentHash :=
  mkConsistentHash [] virtualNodesPerNode [].

(** The ring position of the [i]-th virtual node of [key]. *)
Definition virtual_hash (key : bytes) (i : nat) : Z :=
  hash64 (key ++ lit "#" ++ to_string (Z.of_nat i)).

(** The inner loop of [setNodes], [n] rounds from [i]. *)
Fixpoint assign_virtual (m : ring) (key : bytes) (i n : nat) : ring :=
  match n with
  | O => m
  | S n => assign_virtual (map_assign m (virtual_hash key i) key) key (S i) n
  end.

Definition setNodes (c : ConsistentHash) (nodeKeys : list bytes) : ConsistentHash :=
  mkConsistentHash
    (fold_left (fun m key => assign_virtual m key 0 (virtualNodesPerNode_ c)) nodeKeys [])
    (virtualNodesPerNode_ c) nodeKeys.

Definition selectNode (c : ConsistentHash) (key : bytes) : bytes :=
  match ring_ c with
  | [] => []
  | (_, first) :: _ =>
      let h := hash64 key in
      match lower_bound (ring_ c) h with
      | None => first
      | Some (_, v) => v
      end
  end.

Definition nodeCount (c : ConsistentHash) : nat := length (nodeKeys_ c).

(** ** Lemmas: the ordered map *)

Definition sorted (m : ring) : Prop := StronglySorted (fun a b => a.1 < b.1)%Z m.

Fixpoint map_find (m : ring) (k : Z) : option bytes :=
  match m with
  | [] => None
  | (k', v) :: m => if (k =? k')%Z then Some v else map_find m k
  end.

Lemma map_assign_bound m k v (P : Z * bytes -> Prop) :
  Forall P m -> P (k, v) -> Forall P (map_assign m k v).
Proof.
  induction 1 as [|[k' v'] m Hp Hm IH]; intros Hkv; cbn [map_assign]; [by constructor|].
  destruct (k <? k')%Z; [by repeat constructor|]. destruct (k =? k')%Z; constructor; auto.
Qed.

Lemma map_assign_sorted m k v : sorted m -> sorted (map_assign m k v).
Proof.
  unfold sorted. induction 1 as [|[k' v'] m Hm IH Hall]; cbn [map_assign]; [by repeat constructor|].
  destruct (Z.ltb_spec k k').
  - constructor; [by constructor|]. constructor; [done|].
    eapply list.Forall_impl; [exact Hall|]. cbn. lia.
  - destruct (Z.eqb_spec k k') as [->|]; [by constructor|].
    constructor; [done|]. apply map_assign_bound; [done|cbn; lia].
Qed.

Lemma map_find_assign m k v k' :
  sorted m -> map_find (map_assign m k v) k' = if (k' =? k)%Z then Some v else map_find m k'.
Proof.
  unfold sorted. induction 1 as [|[p w] m Hm IH Hall]; cbn [map_assign map_find]; [done|].
  destruct (Z.ltb_spec k p); cbn [map_find]; [done|].
  destruct (Z.eqb_spec k p) as [->|]; cbn [map_find].
  - by destruct (k' =? p)%Z.
  - rewrite IH. destruct (Z.eqb_spec k' p), (Z.eqb_spec k' k); congruence.
Qed.

Lemma map_find_In m k v : sorted m -> (map_find m k = Some v <-> In (k, v) m).
Proof.
  unfold sorted. induction 1 as [|[p w] m Hm IH Hall]; cbn [map_find In]; [done|].
  rewrite List.Forall_forall in Hall. destruct (Z.eqb_spec k p) as [->|Hne].
  - split; [intros [= ->]; auto|]. intros [[= ->]|Hin]; [done|].
    specialize (Hall _ Hin). cbn in Hall. lia.
  - rewrite IH. split; [auto|]. by intros [[= ? ?]|?].
Qed.

(** The binding [selectNode] takes: the first at or after [h], else the first of all. *)
Definition clockwise (m : ring) (h : Z) : option (Z * bytes) :=
  match lower_bound m h with Some b => Some b | None => head m end.

(** [(p, v)] is bound in [m], and no key of [m] lies on the way from [h] round to [p]. *)
Definition first_clockwise (m : ring) (h p : Z) (v : bytes) : Prop :=
  map_find m p = Some v /\
  ((h <= p /\ forall q w, map_find m q = Some w -> h <= q -> p <= q) \/
   (p < h /\ forall q w, map_find m q = Some w -> q < h /\ p <= q))%Z.

Lemma lower_bound_spec m h :
  sorted m ->
  match lower_bound m h with
  | Some (p, v) => In (p, v) m /\ (h <= p)%Z /\ forall q w, In (q, w) m -> (h <= q)%Z -> (p <= q)%Z
  | None => forall q w, In (q, w) m -> (q < h)%Z
  end.
Proof.
  unfold sorted, lower_bound. induction 1 as [|[p w] m Hm IH Hall]; cbn [List.find]; [done|].
  rewrite List.Forall_forall in Hall. destruct (Z.leb_spec h p).
  - split; [by left|]. split; [done|]. intros q x [[= <- <-]|Hin] Hq; [lia|].
    specialize (Hall _ Hin). cbn in Hall. lia.
  - destruct (List.find _ m) as [[p' v']|].
    + destruct IH as (Hin & Hh & Hmin). split; [by right|]. split; [done|].
      intros q x [[= <- <-]|Hin'] Hq; [lia|]. by apply Hmin with x.
    + intros q x [[= <- <-]|Hin']; [done|]. by apply IH with x.
Qed.

Lemma clockwise_spec m h :
  sorted m ->
  match clockwise m h with
  | Some (p, v) => first_clockwise m h p v
  | None => m = []
  end.
Proof.
  intros Hs. unfold clockwise, first_clockwise.
  pose proof (lower_bound_spec m h Hs) as Hlb. destruct (lower_bound m h) as [[p v]|].
  - destruct Hlb as (Hin & Hh & Hmin). split; [by apply map_find_In|]. left. split; [done|].
    intros q w Hq%map_find_In; [|done]. by apply Hmin with w.
  - destruct m as [|[p v] m]; [done|]. cbn [head].
    split; [by apply map_find_In; [|left]|]. right. split; [apply Hlb with v; by left|].
    intros q w Hq%map_find_In; [|done]. split; [by apply Hlb with w|].
    destruct Hq as [[= <- <-]|Hq]; [lia|]. inversion Hs as [|? ? ? Hall]; subst.
    rewrite List.Forall_forall in Hall. specialize (Hall _ Hq). cbn in Hall. lia.
Qed.

Lemma first_clockwise_unique m h p v p' v' :
  first_clockwise m h p v -> first_clockwise m h p' v' -> p = p' /\ v = v'.
Proof.
  intros [Hf Hp] [Hf' Hp'].
  assert (p = p').
  { destruct Hp as [[? Hp]|[? Hp]], Hp' as [[? Hp']|[? Hp']];
      pose proof (Hp _ _ Hf'); pose proof (Hp' _ _ Hf); lia. }
  subst. split; [done|]. congruence.
Qed.

Lemma selectNode_clockwise c key p v :
  sorted (ring_ c) -> first_clockwise (ring_ c) (hash64 key) p v -> selectNode c key = v.
Proof.
  intros Hs Hfc. pose proof (clockwise_spec (ring_ c) (hash64 key) Hs) as Hc.
  unfold selectNode. unfold clockwise in Hc. destruct (ring_ c) as [|[p0 v0] m]; [by destruct Hfc|].
  cbn [head] in Hc. destruct (lower_bound _ _) as [[p1 v1]|];
    by destruct (first_clockwise_unique _ _ _ _ _ _ Hc Hfc).
Qed.

(** *** The ring of a node list *)

(** [p] is a virtual node of [key], among those numbered from [i] on. *)
Definition is_point (key : bytes) (i n : nat) (p : Z) : bool :=
  existsb (fun j => p =? virtual_hash key j)%Z (List.seq i n).

(** The node that owns the position [p]: the last one with a virtual node there. *)
Definition owner_from (o : option bytes) (n : nat) (nodes : list bytes) (p : Z) : option bytes :=
  fold_left (fun o key => if is_point key 0 n p then Some key else o) nodes o.
Definition owner : nat -> list bytes -> Z -> option bytes := owner_from None.

Lemma assign_virtual_spec m key i n :
  sorted m ->
  sorted (assign_virtual m key i n) /\
  forall p, map_find (assign_virtual m key i n) p
            = if is_point key i n p then Some key else map_find m p.
Proof.
  revert m i. induction n as [|n IH]; intros m i Hm; cbn [assign_virtual]; [done|].
  destruct (IH (map_assign m (virtual_hash key i) key) (S i)) as [Hs Hf];
    [by apply map_assign_sorted|].
  split; [done|]. intros p. rewrite Hf, map_find_assign by done. unfold is_point.
  cbn [List.seq existsb]. by destruct (p =? virtual_hash key i)%Z, (existsb _ _).
Qed.

Lemma setNodes_spec c nodes :
  sorted (ring_ (setNodes c nodes)) /\
  forall p, map_find (ring_ (setNodes c nodes)) p = owner (virtualNodesPerNode_ c) nodes p.
Proof.
  unfold setNodes, owner. cbn [ring_]. generalize (virtualNodesPerNode_ c). intros n.
  assert (Hgen : forall m, sorted m ->
    sorted (fold_left (fun m key => assign_virtual m key 0 n) nodes m) /\
    forall p, map_find (fold_left (fun m key => assign_virtual m key 0 n) nodes m) p
              = owner_from (map_find m p) n nodes p);
    [|by apply (Hgen []); constructor].
  induction nodes as [|key nodes IH]; intros m Hm; cbn [fold_left]; [done|].
  destruct (assign_virtual_spec m key 0 n Hm) as [Hs Hf].
  destruct (IH _ Hs) as [Hs' Hf']. split; [done|]. intros p. rewrite Hf', Hf. done.
Qed.

Lemma owner_point n nodes p a :
  owner n nodes p = Some a -> a ∈ nodes /\ is_point a 0 n p = true.
Proof.
  unfold owner. assert (Hgen : forall o, owner_from o n nodes p = Some a ->
    o = Some a \/ a ∈ nodes /\ is_point a 0 n p = true); [|by intros []%Hgen].
  induction nodes as [|key nodes IH]; intros o; cbn; [by left|].
  intros [Ho|[Hin Hp]]%IH; [|right; split; [by right|done]].
  destruct (is_point key 0 n p) eqn:Hk; [|by left]. injection Ho as ->.
  right. split; [by left|done].
Qed.

Lemma owner_exists n nodes key p :
  key ∈ nodes -> is_point key 0 n p = true -> owner n nodes p <> None.
Proof.
  intros Hin Hp. unfold owner.
  assert (Hkeep : forall l o, o <> None -> owner_from o n l p <> None).
  { induction l as [|k l IH]; intros o Ho; cbn; [done|]. apply IH. by destruct (is_point k 0 n p). }
  assert (Hgen : forall o, owner_from o n nodes p <> None); [|by apply Hgen].
  induction nodes as [|k nodes IH]; intros o; [by apply elem_of_nil in Hin|]. cbn.
  apply elem_of_cons in Hin as [->|Hin]; [rewrite Hp; by apply Hkeep|by apply IH].
Qed.

(** Taking a node away leaves the positions of the others as they were. *)
Lemma owner_filter n nodes x p :
  (forall a, owner n nodes p = Some a -> a <> x ->
             owner n (filter (fun k => k <> x) nodes) p = Some a) /\
  (owner n nodes p = None -> owner n (filter (fun k => k <> x) nodes) p = None).
Proof.
  unfold owner. assert (Hgen : forall o o',
    ((forall a, o = Some a -> a <> x -> o' = Some a) /\ (o = None -> o' = None)) ->
    ((forall a, owner_from o n nodes p = Some a -> a <> x ->
       owner_from o' n (filter (fun k => k <> x) nodes) p = Some a) /\
     (owner_from o n nodes p = None ->
       owner_from o' n (filter (fun k => k <> x) nodes) p = None))); [|by apply Hgen].
  induction nodes as [|key nodes IH]; intros o o' Ho; cbn [owner_from fold_left]; [done|].
  rewrite list.filter_cons. case_decide as Hk; cbn [owner_from fold_left]; apply IH.
  - by destruct (is_point key 0 n p).
  - subst key. destruct (is_point x 0 n p); [|done].
    split; [|done]. intros a [= <-] Hne. done.
Qed.

(** The clockwise search ends on a virtual node of one of the nodes. *)
Lemma selectNode_clockwise_exists (c : ConsistentHash) (nodes : list bytes) (key : bytes)
  (Hnodes : nodes <> []) (Hvirtual : 0 < virtualNodesPerNode_ c) :
  exists node i, node ∈ nodes /\ i < virtualNodesPerNode_ c /\
    selectNode (setNodes c nodes) key = node /\
    first_clockwise (ring_ (setNodes c nodes)) (hash64 key) (virtual_hash node i) node.
Proof.
  destruct (setNodes_spec c nodes) as [Hs Hf].
  pose proof (clockwise_spec _ (hash64 key) Hs) as Hc.
  destruct (clockwise _ _) as [[p v]|].
  - pose proof Hc as [Hp _]. rewrite Hf in Hp. apply owner_point in Hp as [Hin Hpt].
    apply existsb_exists in Hpt as (i & Hi%List.in_seq & ->%Z.eqb_eq).
    exists v, i. repeat split; try apply Hc; [done|lia|]. by eapply selectNode_clockwise.
  - exfalso. destruct nodes as [|k nodes]; [done|].
    apply (owner_exists (virtualNodesPerNode_ c) (k :: nodes) k (virtual_hash k 0)); [by left| |].
    + unfold is_point. destruct (virtualNodesPerNode_ c); [lia|]. cbn. by rewrite Z.eqb_refl.
    + by rewrite <- Hf, Hc.
Qed.

(** ** Theorems *)

(** Clockwise selection: with some nodes and virtual nodes, [selectNode] returns the node
    of the first virtual node met from the key's hash round the ring, one of the given nodes. *)
Theorem selectNode_first_clockwise (c : ConsistentHash) (nodes : list bytes) (key : bytes)
  (Hnodes : nodes <> []) (Hvirtual : 0 < virtualNodesPerNode_ c) :
  exists node i, node ∈ nodes /\ i < virtualNodesPerNode_ c /\
    selectNode (setNodes c nodes) key = node /\
    first_clockwise (ring_ (setNodes c nodes)) (hash64 key) (virtual_hash node i) node.
Proof. by apply selectNode_clockwise_exists. Qed.

(** C35. Losing a node moves only its keys: whatever the hash function and its collisions, a key
    that is not served by node [x] is served by the same node after [x] is taken away; read
    backwards, adding a node moves keys only to it. *)
Theorem selectNode_stable (c : ConsistentHash) (nodes : list bytes) (x key : bytes)
  (Hx : selectNode (setNodes c nodes) key <> x) :
  selectNode (setNodes c (filter (fun k => k <> x) nodes)) key
  = selectNode (setNodes c nodes) key.
Proof.
  destruct (setNodes_spec c nodes) as [Hs Hf].
  destruct (setNodes_spec c (filter (fun k => k <> x) nodes)) as [Hs' Hf'].
  pose proof (owner_filter (virtualNodesPerNode_ c) nodes x) as Hown.
  pose proof (clockwise_spec _ (hash64 key) Hs) as Hc. destruct (clockwise _ _) as [[p v]|].
  - rewrite (selectNode_clockwise _ _ _ _ Hs Hc) in *. apply selectNode_clockwise with p; [done|].
    assert (Hsub : forall q w, map_find (ring_ (setNodes c (filter (fun k => k <> x) nodes))) q
      = Some w -> exists w', map_find (ring_ (setNodes c nodes)) q = Some w').
    { intros q w. rewrite Hf', Hf. destruct (owner _ nodes q) eqn:Ho; [by eauto|].
      by rewrite (proj2 (Hown q) Ho). }
    destruct Hc as [Hp Hc]. split.
    + rewrite Hf'. apply Hown; [by rewrite <- Hf|done].
    + destruct Hc as [[? Hc]|[? Hc]]; [left|right]; (split; [done|]);
        intros q w (w' & Hq)%Hsub; by apply Hc with w'.
  - unfold selectNode at 2. rewrite Hc. unfold selectNode.
    destruct (ring_ (setNodes c (filter _ nodes))) as [|[p v] m] eqn:Hr; [done|].
    specialize (Hf' p). cbn [map_find] in Hf'. rewrite Z.eqb_refl in Hf'.
    rewrite (proj2 (Hown p)) in Hf'; [done|]. by rewrite <- Hf, Hc.
Qed.

End ConsistentHash.

(** How often [x] occurs among the picks. *)
Definition picks (x : nat) (l : list nat) : nat := length (filter (eq x) l).

Lemma picks_cons x y l : picks x (y :: l) = (if decide (x = y) then 1 else 0) + picks x l.
Proof. unfold picks. rewrite list.filter_cons. by case_decide. Qed.

Lemma picks_app x l k : picks x (l ++ k) = picks x l + picks x k.
Proof. unfold picks. by rewrite list.filter_app, length_app. Qed.

Lemma picks_seq x n i : i <= x < i + n -> picks x (List.seq i n) = 1.
Proof.
  revert i. induction n as [|n IH]; intros i Hx; [lia|]. cbn [List.seq]. rewrite picks_cons.
  case_decide as Hi; [|rewrite IH; lia]. subst i.
  assert (Hnone : forall k j, x < j -> picks x (List.seq j k) = 0); [|rewrite Hnone; lia].
  induction k as [|k IHk]; intros j Hj; [done|]. cbn [List.seq].
  rewrite picks_cons, IHk by lia. case_decide; lia.
Qed.

(** Any [n] consecutive numbers have each remainder modulo [n] once. *)
Lemma picks_block x n i : x < n -> picks x (map (fun j => j mod n) (List.seq i n)) = 1.
Proof.
  intros Hx. induction i as [|i IH].
  - rewrite (map_ext_in _ (fun j => j)) by (intros j Hj%List.in_seq; apply Nat.mod_small; lia).
    rewrite map_id. apply picks_seq. lia.
  - assert (Hsh : i :: List.seq (S i) n = List.seq i n ++ [i + n]) by apply List.seq_S.
    apply (f_equal (fun l => picks x (map (fun j => j mod n) l))) in Hsh.
    rewrite map_app, picks_app, IH in Hsh. cbn [map] in Hsh. rewrite !picks_cons in Hsh.
    replace ((i + n) mod n) with (i mod n) in Hsh
      by (rewrite <- (Nat.Div0.mod_add i 1 n); by rewrite Nat.mul_1_l).
    change (picks x []) with 0 in Hsh. lia.
Qed.

Lemma picks_blocks x n k i : x < n -> picks x (map (fun j => j mod n) (List.seq i (k * n))) = k.
Proof.
  intros Hx. revert i. induction k as [|k IH]; intros i; [done|].
  cbn [Nat.mul]. rewrite List.seq_app, map_app, picks_app, picks_block, IH by done. lia.
Qed.

(** Until the counter wraps, the picks follow it. *)
Lemma nexts_seq n i k :
  0 < n -> (Z.of_nat (i + k) <= 2 ^ 64)%Z ->
  (nexts (mkRoundRobin (Z.of_nat i) n) k).1 = map (fun j => j mod n) (List.seq i k).
Proof.
  intros Hn. revert i. induction k as [|k IH]; intros i Hw; [done|].
  cbn [nexts List.seq map]. unfold next. cbn [nodeCount_ index_].
  destruct (Nat.eqb_spec n 0); [lia|].
  assert (Hi : Z.to_nat (Z.of_nat i mod Z.of_nat n) = i mod n)
    by (rewrite <- Nat2Z.inj_mod; apply Nat2Z.id).
  destruct k as [|k]; [cbn; by rewrite Hi|].
  replace (u64 (Z.of_nat i + 1)) with (Z.of_nat (S i)).
  - specialize (IH (S i)). destruct (nexts _ (S k)) as [l r]. cbn [fst] in *.
    rewrite Hi. f_equal. apply IH. lia.
  - unfold u64, wrap. rewrite Z.mod_small; lia.
Qed.

(** Round robin is fair: over [k] rounds of as many calls as there are nodes, from any counter
    value that does not reach 2^64 on the way, every node is picked exactly [k] times. *)
Theorem round_robin_fair (n i k x : nat)
  (Hx : x < n) (Hwrap : (Z.of_nat (i + k * n) <= 2 ^ 64)%Z) :
  picks x (nexts (mkRoundRobin (Z.of_nat i) n) (k * n)).1 = k.
Proof. rewrite nexts_seq by lia. by apply picks_blocks. Qed.

(** Whatever the counter, wrapped or not, [next] is below the node count. *)
Lemma next_bound r : 0 < nodeCount_ r -> (next r).1 < nodeCount_ r.
Proof.
  intros Hn. unfold next. destruct (Nat.eqb_spec (nodeCount_ r) 0); [lia|]. cbn [fst].
  pose proof (Z.mod_pos_bound (index_ r) (Z.of_nat (nodeCount_ r))). lia.
Qed.

(** ** Witnesses *)

(** A hash for the evaluations: the bytes as digits, scrambled. *)
Definition sample_hash (s : bytes) : Z :=
  fold_left (fun h c => (h * 31 + Z_of_byte c) mod 1009)%Z s 7%Z.

Definition sample_nodes : list bytes := [lit "a:1"; lit "b:2"; lit "c:3"].

Lemma selectNode_first_clockwise_witness :
  exists node, node ∈ sample_nodes /\
    selectNode sample_hash (setNodes sample_hash (ConsistentHash_new 3) sample_nodes) (lit "k")
    = node.
Proof.
  destruct (selectNode_first_clockwise sample_hash (ConsistentHash_new 3) sample_nodes (lit "k"))
    as (node & i & Hin & _ & Hsel & _); [discriminate|cbn; lia|].
  exists node. split; [exact Hin|exact Hsel].
Defined.

Lemma selectNode_stable_witness :
  let c := ConsistentHash_new 3 in
  selectNode sample_hash (setNodes sample_hash c (filter (fun k => k <> lit "a:1") sample_nodes))
    (lit "k")
  = selectNode sample_hash (setNodes sample_hash c sample_nodes) (lit "k").
Proof.
  apply (selectNode_stable sample_hash (ConsistentHash_new 3) sample_nodes (lit "a:1") (lit "k")).
  vm_compute. discriminate.
Defined.

Lemma round_robin_fair_witness :
  picks 2 (nexts (mkRoundRobin (Z.of_nat 5) 3) (4 * 3)).1 = 4.
Proof. apply (round_robin_fair 3 5 4 2); lia. Defined.
