(* ===== verification/Registry.v ===== *)
(** [minirpc::RegistryServiceImpl] (include/minirpc/registry/RegistryServiceImpl.h,
    src/registry/RegistryServiceImpl.cpp): registration, discovery, heartbeats and eviction, over
    the messages of proto/registry.proto. Each operation runs under the mutex, so the threads'
    calls form a sequence; the steady clock's reading (nanoseconds) is an argument of each. *)
From stdpp Require Import base list gmap strings numbers sorting.
From Stdlib Require Import Ascii ZArith Lia.
From S2P Require Import Prelude Bytes Common Controller.

(** ** Messages *)

Record NodeInfo := mkNode { node_name : bytes; node_host : bytes; node_port : Z }.

(** [RegisterResponse], [UnregisterResponse] and [HeartbeatResponse]. *)
Record StatusResponse := mkStatus { st_error_code : Z; st_error_message : bytes }.
Record DiscoverResponse := mkDiscover {
  ds_error_code : Z;
  ds_error_message : bytes;
  nodes : list NodeInfo;
}.

#[export] Instance NodeInfo_eq_dec : EqDecision NodeInfo.
Proof. solve_decision. Defined.

(** [port] is a [uint32]. *)
Definition node_typed (n : NodeInfo) : Prop := fits 32 (node_port n).

(** ** State *)

Record NodeEntry := mkEntry { node : NodeInfo; lastHeartbeat : Z }.
#[export] Instance NodeEntry_eq_dec : EqDecision NodeEntry.
Proof. solve_decision. Defined.

Abbreviation ServiceMap := (gmap bytes NodeEntry).

Record Registry := mkRegistryState {
  services_ : gmap bytes ServiceMap;
  heartbeatTimeout_ : Z;
  stopEviction_ : bool;
}.

Definition okCode : Z := kOk.
Definition errCode : Z := kUnknown.

(** The constructor; the timeout is in milliseconds. *)
Definition Registry_new (heartbeatTimeout : Z) : Registry := mkRegistryState ∅ heartbeatTimeout false.

Definition set_services (r : Registry) (s : gmap bytes ServiceMap) : Registry :=
  mkRegistryState s (heartbeatTimeout_ r) (stopEviction_ r).

Definition nodeKey (n : NodeInfo) : bytes := node_host n ++ lit ":" ++ to_string (node_port n).

(** [now - e.lastHeartbeat > heartbeatTimeout_] *)
Definition expired (r : Registry) (now : Z) (e : NodeEntry) : bool :=
  (heartbeatTimeout_ r * 1000000 <? now - lastHeartbeat e)%Z.

(** Both loops of [purgeExpired]: the expired nodes erased, then the services left empty. *)
Definition purge_service (r : Registry) (now : Z) (ns : ServiceMap) : option ServiceMap :=
  let ns := filter (fun kv => expired r now kv.2 = false) ns in
  if decide (ns = ∅) then None else Some ns.

Definition purgeExpired (now : Z) (r : Registry) : Registry :=
  set_services r (omap (purge_service r now) (services_ r)).

(** One turn of [evictionLoop] after its sleep; [false] ends the loop. *)
Definition evictionLoop_turn (now : Z) (r : Registry) : bool * Registry :=
  if stopEviction_ r then (false, r) else (true, purgeExpired now r).

(** ** Operations *)

Definition run_done (done_ : option closure) : list closure := option_list done_.

Definition Register (now : Z) (service_name : bytes) (n : NodeInfo) (done_ : option closure)
    (r : Registry) : StatusResponse * list closure * Registry :=
  let entry := mkEntry n now in
  let ns := default ∅ (services_ r !! service_name) in
  (mkStatus okCode [], run_done done_,
   set_services r (<[service_name := <[nodeKey n := entry]> ns]> (services_ r))).

Definition Unregister (service_name : bytes) (n : NodeInfo) (done_ : option closure)
    (r : Registry) : StatusResponse * list closure * Registry :=
  (mkStatus okCode [], run_done done_,
   match services_ r !! service_name with
   | None => r
   | Some ns =>
       let ns := delete (nodeKey n) ns in
       if decide (ns = ∅) then set_services r (delete service_name (services_ r))
       else set_services r (<[service_name := ns]> (services_ r))
   end).

(** [std::make_pair(a.host(), a.port()) < std::make_pair(b.host(), b.port())] *)
Definition node_less (a b : NodeInfo) : bool :=
  str_ltb (node_host a) (node_host b) ||
  (negb (str_ltb (node_host b) (node_host a)) && (node_port a <? node_port b)%Z).

(** [std::sort] with that comparison. *)
Fixpoint sort_insert (a : NodeInfo) (l : list NodeInfo) : list NodeInfo :=
  match l with
  | [] => [a]
  | b :: l' => if node_less b a then b :: sort_insert a l' else a :: l
  end.
Definition std_sort (l : list NodeInfo) : list NodeInfo := foldr sort_insert [] l.

Section Discover.
(** The order in which an [unordered_map] is iterated. *)
Context (iterate : ServiceMap -> list (bytes * NodeEntry)).

Definition Discover (now : Z) (service_name : bytes) (done_ : option closure) (r : Registry) :
    DiscoverResponse * list closure * Registry :=
  let r := purgeExpired now r in
  let ns := match services_ r !! service_name with
            | Some ns => map (fun kv => node kv.2) (iterate ns)
            | None => []
            end in
  (mkDiscover okCode [] (std_sort ns), run_done done_, r).

Definition liveNodeCount (now : Z) (service_name : bytes) (r : Registry) : nat :=
  match services_ r !! service_name with
  | None => 0
  | Some ns =>
      fold_left (fun live kv => if expired r now kv.2 then live else S live) (iterate ns) 0
  end.
End Discover.

Definition Heartbeat (now : Z) (service_name : bytes) (n : NodeInfo) (done_ : option closure)
    (r : Registry) : StatusResponse * list closure * Registry :=
  let key := nodeKey n in
  match services_ r !! service_name ≫= (.!! key) with
  | None => (mkStatus errCode (lit "node not registered"), run_done done_, r)
  | Some e =>
      (mkStatus okCode [], run_done done_,
       set_services r (alter (alter (fun e => mkEntry (node e) now) key) service_name
                             (services_ r)))
  end.

(** ** Invariant *)

(** The entry of a node, in the flat view of the two maps. *)
Definition entry (r : Registry) (svc key : bytes) : option NodeEntry :=
  services_ r !! svc ≫= (.!! key).

(** No service is kept without nodes, and every node is filed under its own key. *)
Definition inv (r : Registry) : Prop :=
  (forall svc ns, services_ r !! svc = Some ns -> ns <> ∅) /\
  (forall svc key e, entry r svc key = Some e -> key = nodeKey (node e) /\ node_typed (node e)).

(** ** Lemmas *)

Lemma nodeKey_inj a b :
  node_typed a -> node_typed b -> nodeKey a = nodeKey b ->
  node_host a = node_host b /\ node_port a = node_port b.
Proof.
  intros [Ha _] [Hb _] Heq. unfold nodeKey in Heq. cbn [lit String.list_ascii_of_string app] in Heq.
  apply last_split_unique in Heq as [Hh Hp]; [|by apply to_string_no_char..].
  split; [done|]. by apply to_string_inj.
Qed.

(** *** The flat view of each operation *)

Lemma entry_purge now r svc key :
  entry (purgeExpired now r) svc key =
  match entry r svc key with
  | Some e => if expired r now e then None else Some e
  | None => None
  end.
Proof.
  unfold entry, purgeExpired, purge_service. cbn [services_ set_services].
  rewrite lookup_omap. destruct (services_ r !! svc) as [ns|]; cbn; [|done].
  assert (Hf : filter (fun kv => expired r now kv.2 = false) ns !! key =
    match ns !! key with Some e => if expired r now e then None else Some e | None => None end).
  { rewrite map_lookup_filter. destruct (ns !! key) as [e|]; cbn; [|done].
    case_guard as He; cbn in *; [by rewrite He|]. by destruct (expired r now e). }
  case_decide as Hd; cbn; [|done]. rewrite <- Hf, Hd. by rewrite lookup_empty.
Qed.

Lemma entry_insert r svc ns svc' key :
  entry (set_services r (<[svc := ns]> (services_ r))) svc' key =
  if decide (svc = svc') then ns !! key else entry r svc' key.
Proof. unfold entry. cbn. rewrite lookup_insert. by case_decide. Qed.

Lemma entry_register now svc n d r svc' key :
  entry (Register now svc n d r).2 svc' key =
  if decide (svc = svc' /\ nodeKey n = key) then Some (mkEntry n now) else entry r svc' key.
Proof.
  unfold Register. cbn [snd]. rewrite entry_insert. destruct (decide (svc = svc')) as [<-|Hs].
  - rewrite lookup_insert. destruct (decide (nodeKey n = key)).
    + by rewrite decide_True.
    + rewrite decide_False by (by intros []). unfold entry. by destruct (services_ r !! svc).
  - by rewrite decide_False by (by intros []).
Qed.

Lemma entry_unregister svc n d r svc' key :
  entry (Unregister svc n d r).2 svc' key =
  if decide (svc = svc' /\ nodeKey n = key) then None else entry r svc' key.
Proof.
  unfold Unregister. cbn [snd]. destruct (services_ r !! svc) as [ns|] eqn:Hns.
  - assert (Hdel : entry (set_services r (<[svc := delete (nodeKey n) ns]> (services_ r))) svc' key
      = if decide (svc = svc' /\ nodeKey n = key) then None else entry r svc' key).
    { rewrite entry_insert. destruct (decide (svc = svc')) as [<-|Hs].
      - rewrite lookup_delete. destruct (decide (nodeKey n = key)).
        + by rewrite decide_True.
        + rewrite decide_False by (by intros []). unfold entry. by rewrite Hns.
      - by rewrite decide_False by (by intros []). }
    destruct (decide (delete (nodeKey n) ns = ∅)) as [He|]; [|done].
    rewrite <- Hdel, entry_insert, He.
    unfold entry. cbn. rewrite lookup_delete.
    destruct (decide (svc = svc')); cbn; by rewrite ?lookup_empty.
  - case_decide as Hc; [|done]. destruct Hc as [<- _]. unfold entry. by rewrite Hns.
Qed.

Lemma entry_heartbeat now svc n d r svc' key :
  entry (Heartbeat now svc n d r).2 svc' key =
  if decide (svc = svc' /\ nodeKey n = key)
  then (fun e => mkEntry (node e) now) <$> entry r svc' key else entry r svc' key.
Proof.
  unfold Heartbeat. fold (entry r svc (nodeKey n)).
  destruct (entry r svc (nodeKey n)) as [e|] eqn:He; cbn [snd].
  - unfold entry. cbn [services_ set_services]. rewrite lookup_alter.
    destruct (decide (svc = svc')) as [<-|Hs].
    + unfold entry in He. destruct (services_ r !! svc) as [ns|]; [|done]. cbn in *.
      rewrite lookup_alter. destruct (decide (nodeKey n = key)) as [<-|].
      * by rewrite decide_True.
      * by rewrite decide_False by (by intros []).
    + by rewrite decide_False by (by intros []).
  - case_decide as Hc; [|done]. destruct Hc as [<- <-]. by rewrite He.
Qed.

(** *** The invariant *)

Lemma inv_new t : inv (Registry_new t).
Proof.
  split.
  - intros svc ns. cbn. by rewrite lookup_empty.
  - intros svc key e. unfold entry. cbn. by rewrite lookup_empty.
Qed.

Lemma inv_purge now r : inv r -> inv (purgeExpired now r).
Proof.
  intros [He Hk]. split.
  - intros svc ns. unfold purgeExpired. cbn [services_ set_services]. rewrite lookup_omap.
    destruct (services_ r !! svc); cbn; [|done]. unfold purge_service.
    by case_decide; intros [= <-].
  - intros svc key e. rewrite entry_purge. destruct (entry r svc key) as [e'|] eqn:Hr; [|done].
    destruct (expired r now e'); [done|]. intros [= <-]. by apply Hk in Hr.
Qed.

Lemma inv_register now svc n d r : node_typed n -> inv r -> inv (Register now svc n d r).2.
Proof.
  intros Hn [He Hk]. split.
  - intros svc' ns. unfold Register. cbn. rewrite lookup_insert.
    case_decide; [|by apply He]. intros [= <-]. by apply insert_non_empty.
  - intros svc' key e. rewrite entry_register. case_decide as Hc; [|by apply Hk].
    destruct Hc as [<- <-]. by intros [= <-].
Qed.

Lemma inv_unregister svc n d r : inv r -> inv (Unregister svc n d r).2.
Proof.
  intros [He Hk]. split.
  - intros svc' ns. unfold Unregister. cbn [snd].
    destruct (services_ r !! svc) as [ns0|]; [|by apply He].
    destruct (decide (delete (nodeKey n) ns0 = ∅)); cbn [services_ set_services].
    + rewrite lookup_delete. case_decide; [done|]. by apply He.
    + rewrite lookup_insert. case_decide; [by intros [= <-]|]. by apply He.
  - intros svc' key e. rewrite entry_unregister. case_decide; [done|]. by apply Hk.
Qed.

Lemma inv_heartbeat now svc n d r : inv r -> inv (Heartbeat now svc n d r).2.
Proof.
  intros [He Hk]. split.
  - intros svc' ns. unfold Heartbeat. fold (entry r svc (nodeKey n)).
    destruct (entry r svc (nodeKey n)); cbn [snd services_ set_services]; [|by apply He].
    rewrite lookup_alter. case_decide; [|by apply He].
    subst. destruct (services_ r !! svc') as [ns0|] eqn:Hs; cbn; [|done]. intros [= <-] H0.
    apply (He _ _ Hs). apply map_empty. intros k. apply (f_equal (lookup k)) in H0.
    rewrite lookup_alter, lookup_empty in H0.
    destruct (ns0 !! k) as [e0|] eqn:Hk0; [|done].
    case_decide as Hd; [|done]. by rewrite Hd, Hk0 in H0.
  - intros svc' key e. rewrite entry_heartbeat. case_decide; [|by apply Hk].
    destruct (entry r svc' key) as [e0|] eqn:Hr; cbn; [|done]. intros [= <-]. by apply Hk in Hr.
Qed.

(** *** Sorting *)

Definition node_lt (a b : NodeInfo) : Prop := node_less a b = true.

Lemma node_less_iff a b :
  node_less a b = true <->
  str_ltb (node_host a) (node_host b) = true \/
  (node_host a = node_host b /\ (node_port a < node_port b)%Z).
Proof.
  unfold node_less. rewrite orb_true_iff, andb_true_iff, negb_true_iff, Z.ltb_lt. split.
  - intros [H|[H1 H2]]; [by left|]. destruct (str_ltb (node_host a) (node_host b)) eqn:Hab.
    + by left.
    + right. split; [by apply str_ltb_total|done].
  - intros [H|[H1 H2]]; [by left|]. right. by rewrite H1, str_ltb_irrefl.
Qed.

Lemma node_less_irrefl a : node_less a a = false.
Proof. unfold node_less. by rewrite str_ltb_irrefl, Z.ltb_irrefl. Qed.

Lemma node_lt_trans a b c : node_lt a b -> node_lt b c -> node_lt a c.
Proof.
  unfold node_lt. rewrite !node_less_iff. intros [H1|[E1 L1]] [H2|[E2 L2]].
  - left. by eapply str_ltb_trans.
  - left. by rewrite <- E2.
  - left. by rewrite E1.
  - right. split; [congruence|lia].
Qed.

(** Incomparable nodes have the same address. *)
Lemma node_less_total a b :
  node_less a b = false -> node_less b a = false ->
  node_host a = node_host b /\ node_port a = node_port b.
Proof.
  intros Hab Hba. unfold node_less in *. apply orb_false_iff in Hab as [H1 H2], Hba as [H3 H4].
  rewrite H3 in H2. rewrite H1 in H4. cbn in *. apply Z.ltb_ge in H2, H4.
  split; [by apply str_ltb_total|lia].
Qed.

Lemma sort_insert_perm a l : sort_insert a l ≡ₚ a :: l.
Proof.
  induction l as [|b l IH]; cbn; [done|]. destruct (node_less b a); [|done].
  rewrite IH. apply Permutation_swap.
Qed.

Lemma std_sort_perm l : std_sort l ≡ₚ l.
Proof. induction l as [|a l IH]; cbn; [done|]. by rewrite sort_insert_perm, IH. Qed.

(** Nodes of distinct addresses. *)
Definition distinct (l : list NodeInfo) : Prop :=
  NoDup (map (fun n => (node_host n, node_port n)) l).

Lemma sort_insert_sorted a l :
  StronglySorted node_lt l -> (node_host a, node_port a) ∉ map (fun n => (node_host n, node_port n)) l ->
  StronglySorted node_lt (sort_insert a l).
Proof.
  induction 1 as [|b l Hl IH Hall]; cbn [sort_insert map]; intros Hni; [by repeat constructor|].
  apply not_elem_of_cons in Hni as [Hne Hni]. destruct (node_less b a) eqn:Hba.
  - constructor; [by apply IH|]. apply list.Forall_forall. intros x Hx.
    rewrite sort_insert_perm in Hx. apply elem_of_cons in Hx as [->|Hx]; [done|].
    by rewrite list.Forall_forall in Hall; apply Hall.
  - assert (Hab : node_lt a b).
    { unfold node_lt. destruct (node_less a b) eqn:Hab; [done|].
      destruct (node_less_total _ _ Hab Hba). congruence. }
    constructor; [by constructor|]. constructor; [done|].
    eapply list.Forall_impl; [exact Hall|]. intros x Hx. by apply node_lt_trans with b.
Qed.

Lemma std_sort_sorted l : distinct l -> StronglySorted node_lt (std_sort l).
Proof.
  unfold distinct. induction l as [|a l IH]; cbn; [by constructor|].
  intros [Hni Hnd]%NoDup_cons. apply sort_insert_sorted; [by apply IH|].
  by rewrite std_sort_perm.
Qed.

(** A set of nodes has one sorted enumeration, so neither the iteration order of the map nor the
    sorting algorithm matters. *)
Lemma sorted_unique l k :
  StronglySorted node_lt l -> StronglySorted node_lt k -> l ≡ₚ k -> l = k.
Proof.
  intros Hl. revert k. induction Hl as [|a l Hl IH Ha]; intros k Hk Hp.
  { by apply Permutation_nil_l in Hp. }
  destruct Hk as [|b k Hk Hb]; [by apply Permutation_nil_r in Hp|].
  rewrite list.Forall_forall in Ha, Hb.
  assert (a = b) as ->.
  { assert (Hab : a ∈ b :: k) by (rewrite <- Hp; by left).
    assert (Hba : b ∈ a :: l) by (rewrite Hp; by left).
    apply elem_of_cons in Hab as [|Hab], Hba as [|Hba]; try done.
    pose proof (node_lt_trans _ _ _ (Ha _ Hba) (Hb _ Hab)) as Hx.
    unfold node_lt in Hx. by rewrite node_less_irrefl in Hx. }
  f_equal. apply IH; [done|]. by apply Permutation_cons_inv in Hp.
Qed.

(** *** Purging *)

Lemma expired_later r t0 t e :
  (t0 <= t)%Z -> expired r t0 e = true -> expired r t e = true.
Proof. unfold expired. rewrite !Z.ltb_lt. lia. Qed.

Lemma purge_service_later r t0 t ns :
  (t0 <= t)%Z ->
  purge_service r t0 ns ≫= purge_service r t = purge_service r t ns.
Proof.
  intros Ht. unfold purge_service at 2. cbn zeta.
  assert (Hf : filter (fun kv => expired r t kv.2 = false)
                 (filter (fun kv => expired r t0 kv.2 = false) ns)
               = filter (fun kv => expired r t kv.2 = false) ns).
  { rewrite map_filter_filter. apply map_filter_ext. intros k e He. cbn. split; [by intros []|].
    intros Hx. split; [done|]. destruct (expired r t0 e) eqn:H0; [|done].
    by rewrite (expired_later _ _ _ _ Ht H0) in Hx. }
  case_decide as Hd; cbn.
  - unfold purge_service. rewrite <- Hf, Hd, map_filter_empty. by rewrite decide_True.
  - unfold purge_service. by rewrite Hf.
Qed.

(** Purging leaves a table alone in which nothing has expired. *)
Lemma purge_fresh t r :
  inv r -> (forall svc key e, entry r svc key = Some e -> expired r t e = false) -> purgeExpired t r = r.
Proof.
  intros [Hne _] Hf. destruct r as [ss to st]. unfold purgeExpired, set_services.
  cbn [services_ heartbeatTimeout_ stopEviction_]. f_equal. apply map_eq. intros svc. rewrite lookup_omap.
  destruct (ss !! svc) as [ns|] eqn:Hs; [|done]. cbn. unfold purge_service. cbn zeta.
  assert (Hall : filter (fun kv => expired (mkRegistryState ss to st) t kv.2 = false) ns = ns).
  { apply map_filter_id. intros key e He. apply (Hf svc key). unfold entry. cbn. by rewrite Hs. }
  rewrite Hall, decide_False; [done|]. by eapply Hne.
Qed.

(** Purging at two times in a row is purging at the later one. *)
Lemma purge_later t0 t r :
  (t0 <= t)%Z -> purgeExpired t (purgeExpired t0 r) = purgeExpired t r.
Proof.
  intros Ht. unfold purgeExpired. destruct r as [ss to st].
  unfold set_services. cbn [services_ heartbeatTimeout_ stopEviction_]. f_equal.
  apply map_eq. intros svc. rewrite !lookup_omap. destruct (ss !! svc) as [ns|]; [|done]. cbn.
  exact (purge_service_later (mkRegistryState ss to st) t0 t ns Ht).
Qed.

(** ** Sequences of calls *)

Inductive event :=
| EvRegister (svc : bytes) (n : NodeInfo)
| EvUnregister (svc : bytes) (n : NodeInfo)
| EvHeartbeat (svc : bytes) (n : NodeInfo)
| EvDiscover (svc : bytes)
| EvEvict.

(** One call at its time; the state after [Discover] does not depend on the iteration order. *)
Definition step (r : Registry) (ev : Z * event) : Registry :=
  let '(now, e) := ev in
  match e with
  | EvRegister svc n => (Register now svc n None r).2
  | EvUnregister svc n => (Unregister svc n None r).2
  | EvHeartbeat svc n => (Heartbeat now svc n None r).2
  | EvDiscover svc => (Discover map_to_list now svc None r).2
  | EvEvict => (evictionLoop_turn now r).2
  end.

Definition run (r : Registry) (evs : list (Z * event)) : Registry := fold_left step evs r.

Definition event_typed (ev : Z * event) : Prop :=
  match ev.2 with
  | EvRegister _ n => node_typed n
  | _ => True
  end.

Lemma step_inv r ev : event_typed ev -> inv r -> inv (step r ev).
Proof.
  destruct ev as [now []]; intros Ht Hi; cbn [step].
  - by apply inv_register.
  - by apply inv_unregister.
  - by apply inv_heartbeat.
  - by apply inv_purge.
  - unfold evictionLoop_turn. destruct (stopEviction_ r); [done|]. by apply inv_purge.
Qed.

Lemma run_inv r evs : Forall event_typed evs -> inv r -> inv (run r evs).
Proof.
  intros Hall. revert r. induction Hall as [|ev evs Hev _ IH]; intros r Hr; [done|].
  apply IH. by apply step_inv.
Qed.

Lemma step_timeout r ev : heartbeatTimeout_ (step r ev) = heartbeatTimeout_ r.
Proof.
  destruct ev as [now []]; cbn; try done.
  - unfold Unregister. destruct (services_ r !! svc); [|done]. cbn. by case_decide.
  - unfold Heartbeat. by destruct (_ ≫= _).
  - unfold evictionLoop_turn. by destruct (stopEviction_ r).
Qed.

Lemma run_timeout r evs : heartbeatTimeout_ (run r evs) = heartbeatTimeout_ r.
Proof.
  revert r. induction evs as [|ev evs IH]; intros r; [done|].
  exact (eq_trans (IH _) (step_timeout _ _)).
Qed.

(** *** One node's life *)

Section Life.
Context (svc key : bytes).

(** The call refreshes, or removes, the node filed under [key] of [svc]. *)
Definition registers (e : event) : bool :=
  match e with EvRegister s n => bool_decide (s = svc /\ nodeKey n = key) | _ => false end.
Definition refreshes (e : event) : bool :=
  match e with
  | EvRegister s n | EvHeartbeat s n => bool_decide (s = svc /\ nodeKey n = key)
  | _ => false
  end.
Definition removes (e : event) : bool :=
  match e with EvUnregister s n => bool_decide (s = svc /\ nodeKey n = key) | _ => false end.

(** The node, last heard of at [last], is heard of in time at every call of the sequence, and is
    not removed; and when it was last heard of after the sequence. *)
Fixpoint in_time (timeout last : Z) (evs : list (Z * event)) : bool :=
  match evs with
  | [] => true
  | (t, e) :: evs =>
      (t - last <=? timeout * 1000000)%Z && negb (removes e) &&
      in_time timeout (if refreshes e then t else last) evs
  end.
Fixpoint last_heard (last : Z) (evs : list (Z * event)) : Z :=
  match evs with
  | [] => last
  | (t, e) :: evs => last_heard (if refreshes e then t else last) evs
  end.

Lemma entry_purge_keep r t e :
  entry r svc key = Some e -> (t - lastHeartbeat e <= heartbeatTimeout_ r * 1000000)%Z ->
  entry (purgeExpired t r) svc key = Some e.
Proof.
  intros He Ht. rewrite entry_purge, He. unfold expired.
  by destruct (Z.ltb_spec (heartbeatTimeout_ r * 1000000) (t - lastHeartbeat e)); [lia|].
Qed.

Lemma step_in_time r t ev e :
  entry r svc key = Some e -> (t - lastHeartbeat e <= heartbeatTimeout_ r * 1000000)%Z ->
  removes ev = false ->
  exists e', entry (step r (t, ev)) svc key = Some e' /\
             lastHeartbeat e' = if refreshes ev then t else lastHeartbeat e.
Proof.
  intros He Ht Hrm. destruct ev as [s n|s n|s n|s|]; cbn [step refreshes removes] in *.
  - rewrite entry_register. case_decide as Hc.
    + rewrite bool_decide_eq_true_2 by done. by eexists.
    + rewrite bool_decide_eq_false_2 by done. by exists e.
  - apply bool_decide_eq_false in Hrm. rewrite entry_unregister, decide_False by done. by exists e.
  - rewrite entry_heartbeat, He. case_decide as Hc.
    + rewrite bool_decide_eq_true_2 by done. by eexists.
    + rewrite bool_decide_eq_false_2 by done. by exists e.
  - exists e. split; [|done]. by apply entry_purge_keep.
  - exists e. split; [|done]. unfold evictionLoop_turn. destruct (stopEviction_ r); [done|].
    by apply entry_purge_keep.
Qed.

Lemma run_in_time r evs e :
  entry r svc key = Some e -> in_time (heartbeatTimeout_ r) (lastHeartbeat e) evs = true ->
  exists e', entry (run r evs) svc key = Some e' /\
             lastHeartbeat e' = last_heard (lastHeartbeat e) evs.
Proof.
  revert r e. induction evs as [|[t ev] evs IH]; intros r e He; cbn [in_time last_heard]; [by eauto|].
  rewrite !andb_true_iff, negb_true_iff, Z.leb_le. intros [[Ht Hrm] Hin].
  destruct (step_in_time r t ev e He Ht Hrm) as (e1 & He1 & Hl1).
  rewrite <- Hl1 in *. apply IH; [done|]. by rewrite step_timeout.
Qed.

Lemma step_stays_out r t ev :
  entry r svc key = None -> registers ev = false -> entry (step r (t, ev)) svc key = None.
Proof.
  intros He Hr. destruct ev as [s n|s n|s n|s|]; cbn [step registers] in *.
  - apply bool_decide_eq_false in Hr. by rewrite entry_register, decide_False.
  - rewrite entry_unregister. by case_decide.
  - rewrite entry_heartbeat, He. by case_decide.
  - change (entry (purgeExpired t r) svc key = None). by rewrite entry_purge, He.
  - unfold evictionLoop_turn. destruct (stopEviction_ r); [done|].
    cbn [snd]. by rewrite entry_purge, He.
Qed.

Lemma run_stays_out r evs :
  entry r svc key = None -> forallb (fun ev => negb (registers ev.2)) evs = true ->
  entry (run r evs) svc key = None.
Proof.
  revert r. induction evs as [|[t ev] evs IH]; intros r He; cbn; [done|].
  rewrite andb_true_iff, negb_true_iff. intros [Hr Hall]. apply IH; [|done].
  by apply step_stays_out.
Qed.

End Life.

(** ** Theorems *)

Section Iteration.
Context (iterate : ServiceMap -> list (bytes * NodeEntry)).
(** An [unordered_map] is iterated in some order, each binding once. *)
Hypothesis iterate_perm : forall m, iterate m ≡ₚ map_to_list m.

(** The nodes [Discover] sorts. *)
Definition found (r : Registry) (svc : bytes) : list NodeInfo :=
  match services_ r !! svc with
  | Some ns => map (fun kv => node kv.2) (iterate ns)
  | None => []
  end.

Lemma found_entry r svc n :
  inv r -> n ∈ found r svc <-> exists e, entry r svc (nodeKey n) = Some e /\ node e = n.
Proof.
  intros [_ Hk]. unfold found, entry in *. destruct (services_ r !! svc) as [ns|] eqn:Hs; cbn.
  2: { split; [by intros ?%elem_of_nil|by intros (? & ? & _)]. }
  rewrite iterate_perm, list_elem_of_In, in_map_iff. split.
  - intros ([k e] & Hn & Hin%list_elem_of_In%elem_of_map_to_list). cbn in Hn.
    exists e. split; [|done]. destruct (Hk svc k e) as [-> _]; [by rewrite Hs|]. by rewrite <- Hn.
  - intros (e & He & Hn). exists (nodeKey n, e). split; [done|].
    by apply list_elem_of_In, elem_of_map_to_list.
Qed.

Lemma found_distinct r svc : inv r -> distinct (found r svc).
Proof.
  intros [_ Hk]. unfold distinct, found, entry in *.
  destruct (services_ r !! svc) as [ns|] eqn:Hs; [|by constructor].
  rewrite iterate_perm, map_map. apply NoDup_fmap_2_strong; [|apply NoDup_map_to_list].
  intros [k1 e1] [k2 e2] H1%elem_of_map_to_list H2%elem_of_map_to_list Heq. cbn in Heq.
  destruct (Hk svc k1 e1) as [-> _]; [by rewrite Hs|].
  destruct (Hk svc k2 e2) as [-> _]; [by rewrite Hs|].
  injection Heq as Hh Hp.
  assert (Hkey : nodeKey (node e1) = nodeKey (node e2)) by (unfold nodeKey; congruence).
  rewrite Hkey in *. congruence.
Qed.

Lemma Discover_nodes now svc d r :
  nodes (Discover iterate now svc d r).1.1 = std_sort (found (purgeExpired now r) svc).
Proof. done. Qed.

Lemma discover_entry now svc d r n :
  inv r ->
  n ∈ nodes (Discover iterate now svc d r).1.1 <->
  exists e, entry r svc (nodeKey n) = Some e /\ node e = n /\ expired r now e = false.
Proof.
  intros Hi. rewrite Discover_nodes, std_sort_perm, found_entry by by apply inv_purge.
  rewrite entry_purge. destruct (entry r svc (nodeKey n)) as [e|].
  - destruct (expired r now e) eqn:He; split.
    + by intros (? & ? & _).
    + intros (e' & [= <-] & _ & Hx). congruence.
    + intros (e' & [= <-] & Hx). by exists e.
    + intros (e' & [= <-] & Hx & _). by exists e.
  - split; by intros (? & ? & _).
Qed.

(** No two nodes of an answer have the same key. *)
Lemma discover_keys now svc d r :
  inv r -> NoDup (map nodeKey (nodes (Discover iterate now svc d r).1.1)).
Proof.
  intros Hi. apply NoDup_fmap_2_strong.
  - intros a b (x & Hx & Hxa & _)%discover_entry (y & Hy & Hyb & _)%discover_entry Hk; [|done..]. congruence.
  - rewrite Discover_nodes, std_sort_perm. apply (NoDup_fmap_1 (fun n => (node_host n, node_port n))).
    by apply found_distinct, inv_purge.
Qed.

(** C16. [Discover] returns exactly the live nodes of the service: a node is listed if and only if
    it is registered under the service and its last heartbeat is within the timeout; the list is
    strictly sorted by host and port, so no node is listed twice; the code is [kOk] and [done]
    runs once. *)
Theorem discover_exact (r : Registry) (now : Z) (svc : bytes) (d : option closure)
  (Hinv : inv r) :
  let '(rsp, ran, r') := Discover iterate now svc d r in
  ds_error_code rsp = kOk /\ ran = option_list d /\ inv r' /\
  StronglySorted node_lt (nodes rsp) /\
  forall n, n ∈ nodes rsp <->
    exists last, entry r svc (nodeKey n) = Some (mkEntry n last) /\
                 (now - last <= heartbeatTimeout_ r * 1000000)%Z.
Proof.
  pose proof (discover_entry now svc d r) as Hn. pose proof (Discover_nodes now svc d r) as Hl.
  assert (Hi' : inv (Discover iterate now svc d r).2) by (by apply inv_purge).
  destruct (Discover iterate now svc d r) as [[rsp ran] r'] eqn:Hd.
  injection Hd as Hrsp <- Hr'. cbn [fst snd] in *. split; [by rewrite <- Hrsp|].
  split; [done|]. split; [done|]. split.
  - rewrite Hl. apply std_sort_sorted, found_distinct, inv_purge, Hinv.
  - intros n. rewrite (Hn n Hinv). unfold expired. split.
    + intros ([n' last] & He & <- & Hx%Z.ltb_ge). by exists last.
    + intros (last & He & Hx). eexists. split; [exact He|]. split; [done|]. by apply Z.ltb_ge.
Qed.

(** A registered node is discovered: after [Register], a [Discover] of the service within the
    timeout lists the new node and, beside it, exactly the nodes of other addresses it would have
    listed before; other services are unaffected. *)
Theorem register_discover (r : Registry) (t0 t : Z) (svc svc' : bytes) (n m : NodeInfo)
  (d : option closure)
  (Hinv : inv r) (Hn : node_typed n) (Hm : node_typed m)
  (Ht : (t - t0 <= heartbeatTimeout_ r * 1000000)%Z) :
  m ∈ nodes (Discover iterate t svc' None (Register t0 svc n d r).2).1.1 <->
  (svc' = svc /\ m = n) \/
  (m ∈ nodes (Discover iterate t svc' None r).1.1 /\
   (svc' <> svc \/ (node_host m, node_port m) <> (node_host n, node_port n))).
Proof.
  rewrite !discover_entry by (done || by apply inv_register). rewrite entry_register.
  assert (Hkey : nodeKey n = nodeKey m <->
    (node_host m, node_port m) = (node_host n, node_port n)).
  { split; [|unfold nodeKey; congruence]. intros Hk. by destruct (nodeKey_inj n m Hn Hm Hk) as [-> ->]. }
  assert (Hfresh : expired (Register t0 svc n d r).2 t (mkEntry n t0) = false)
    by (by apply Z.ltb_ge).
  case_decide as Hc.
  - destruct Hc as [<- Hk]. apply Hkey in Hk as Haddr. split.
    + intros (e & [= <-] & <- & _). by left.
    + intros [[_ ->]|[_ [?|?]]]; [by eexists|done|done].
  - change (expired (Register t0 svc n d r).2) with (expired r). split.
    + intros He. right. split; [done|]. destruct (decide (svc = svc')) as [<-|]; [|by left].
      right. intros Ha. apply Hc. split; [done|]. by apply Hkey.
    + intros [[-> ->]|[He _]]; [by destruct Hc|done].
Qed.

(** C19. Heartbeats keep a node discoverable: a node heard of at [last] that is heard of again in
    time, by [Heartbeat] or [Register], before every further call, and is not unregistered, is
    listed by a [Discover] in time, whatever other calls and evictions come in between. *)
Theorem heartbeats_keep_alive (r : Registry) (svc : bytes) (n : NodeInfo) (last t : Z)
  (evs : list (Z * event))
  (Hinv : inv r) (Htyped : Forall event_typed evs)
  (Hreg : entry r svc (nodeKey n) = Some (mkEntry n last))
  (Hbeats : in_time svc (nodeKey n) (heartbeatTimeout_ r) last evs = true)
  (Ht : (t - last_heard svc (nodeKey n) last evs <= heartbeatTimeout_ r * 1000000)%Z) :
  exists m, m ∈ nodes (Discover iterate t svc None (run r evs)).1.1 /\ nodeKey m = nodeKey n.
Proof.
  destruct (run_in_time svc (nodeKey n) r evs _ Hreg Hbeats) as (e & He & Hl). cbn in Hl.
  assert (Hi : inv (run r evs)) by (by apply run_inv).
  destruct (proj2 Hi _ _ _ He) as [Hk _]. exists (node e). split; [|done].
  apply discover_entry; [done|]. exists e. rewrite <- Hk. split; [done|]. split; [done|].
  unfold expired. apply Z.ltb_ge. rewrite Hl, run_timeout. done.
Qed.

(** C20. A silent node is evicted for good: once the registry has purged a node not heard of
    within the timeout, no sequence of calls without a new [Register] of it brings it back: no
    [Discover] lists it, and its heartbeats are answered with an error. *)
Theorem silent_node_evicted (r : Registry) (svc : bytes) (n : NodeInfo) (e : NodeEntry)
  (t t' : Z) (evs : list (Z * event))
  (Hinv : inv r) (Htyped : Forall event_typed evs)
  (Hreg : entry r svc (nodeKey n) = Some e)
  (Hsilent : (t - lastHeartbeat e > heartbeatTimeout_ r * 1000000)%Z)
  (Hnoreg : forallb (fun ev => negb (registers svc (nodeKey n) ev.2)) evs = true) :
  let r' := run (purgeExpired t r) evs in
  (n ∉ nodes (Discover iterate t' svc None r').1.1) /\
  (Heartbeat t' svc n None r').1.1 = mkStatus kUnknown (lit "node not registered") /\
  (Heartbeat t' svc n None r').2 = r'.
Proof.
  assert (He : entry (purgeExpired t r) svc (nodeKey n) = None).
  { rewrite entry_purge, Hreg. unfold expired.
    by destruct (Z.ltb_spec (heartbeatTimeout_ r * 1000000) (t - lastHeartbeat e)); [|lia]. }
  pose proof (run_stays_out _ _ _ _ He Hnoreg) as Hout. cbn zeta. split.
  - rewrite discover_entry by (apply run_inv; [done|by apply inv_purge]).
    rewrite Hout. by intros (? & ? & _).
  - unfold entry in Hout. unfold Heartbeat. by rewrite Hout.
Qed.

(** C38. The eviction thread is invisible to clients: a turn of it before a [Discover] changes
    neither the answer nor the state the [Discover] leaves. *)
Theorem eviction_invisible (r : Registry) (t0 t : Z) (svc : bytes) (d : option closure)
  (Ht : (t0 <= t)%Z) :
  Discover iterate t svc d (evictionLoop_turn t0 r).2 = Discover iterate t svc d r.
Proof.
  unfold evictionLoop_turn. destruct (stopEviction_ r); [done|]. cbn [snd].
  unfold Discover. by rewrite purge_later.
Qed.

(** Counting in a loop. *)
Lemma count_fold (p : bytes * NodeEntry -> bool) l k :
  fold_left (fun live kv => if p kv then live else S live) l k
  = k + length (filter (fun kv => p kv = false) l).
Proof.
  revert k. induction l as [|x l IH]; intros k; cbn [fold_left]; [cbn; lia|].
  rewrite IH, list.filter_cons. destruct (p x); case_decide; cbn [length]; done || lia.
Qed.

Lemma length_filter_map (P : bytes * NodeEntry -> Prop) `{!forall x, Decision (P x)} (m : ServiceMap) :
  length (map_to_list (filter P m)) = length (filter P (map_to_list m)).
Proof.
  rewrite map_filter_alt, map_to_list_to_map; [done|].
  apply (sublist_NoDup _ (map_to_list m).*1); [apply NoDup_fst_map_to_list|].
  apply fmap_sublist, sublist_filter.
Qed.

(** [liveNodeCount] is the number of nodes a [Discover] at the same time lists. *)
Theorem live_count (r : Registry) (now : Z) (svc : bytes) (d : option closure) :
  liveNodeCount iterate now svc r = length (nodes (Discover iterate now svc d r).1.1).
Proof.
  rewrite Discover_nodes, std_sort_perm. unfold liveNodeCount, found, purgeExpired.
  cbn [services_ set_services]. rewrite lookup_omap.
  destruct (services_ r !! svc) as [ns|]; cbn; [|done].
  rewrite (count_fold (fun kv => expired r now kv.2)), iterate_perm, <- length_filter_map.
  unfold purge_service. case_decide as Hd; cbn.
  - rewrite Hd. by rewrite map_to_list_empty.
  - by rewrite length_map, iterate_perm.
Qed.
End Iteration.

(** The answer of [Discover] is a function of the registry: whatever the order in which the
    hash maps of two runs iterate, the two answers are the same. *)
Theorem discover_order_free (it it' : ServiceMap -> list (bytes * NodeEntry)) (r : Registry)
  (now : Z) (svc : bytes) (d : option closure)
  (Hit : forall m, it m ≡ₚ map_to_list m) (Hit' : forall m, it' m ≡ₚ map_to_list m)
  (Hinv : inv r) :
  Discover it now svc d r = Discover it' now svc d r.
Proof.
  assert (Hn : std_sort (found it (purgeExpired now r) svc)
               = std_sort (found it' (purgeExpired now r) svc)).
  { apply sorted_unique.
    - by apply std_sort_sorted, found_distinct, inv_purge.
    - by apply std_sort_sorted, found_distinct, inv_purge.
    - rewrite !std_sort_perm. unfold found. destruct (services_ _ !! svc); [|done].
      by rewrite Hit, Hit'. }
  unfold Discover. unfold found in Hn. by rewrite Hn.
Qed.

(** ** Witnesses *)

Module RegistrySamples.

Definition calc : bytes := lit "calc".
Definition n1 : NodeInfo := mkNode (lit "one") (lit "10.0.0.1") 9001.
Definition n2 : NodeInfo := mkNode (lit "two") (lit "10.0.0.2") 9001.
Definition ms (t : Z) : Z := (t * 1000000)%Z.
Definition history : list (Z * event) := [(ms 0, EvRegister calc n2); (ms 1, EvRegister calc n1)].
Definition reg : Registry := run (Registry_new 6000) history.

Lemma reg_inv : inv reg.
Proof. apply run_inv; [by repeat constructor|apply inv_new]. Qed.

Definition it : ServiceMap -> list (bytes * NodeEntry) := map_to_list.
Definition it_rev (m : ServiceMap) : list (bytes * NodeEntry) := rev (map_to_list m).

Lemma it_perm m : it m ≡ₚ map_to_list m.
Proof. done. Qed.
Lemma it_rev_perm m : it_rev m ≡ₚ map_to_list m.
Proof. apply Permutation_sym, Permutation_rev. Qed.

Lemma discover_exact_witness :
  nodes (Discover it_rev (ms 100) calc None reg).1.1 = [n1; n2] /\
  StronglySorted node_lt (nodes (Discover it_rev (ms 100) calc None reg).1.1).
Proof.
  split; [vm_compute; reflexivity|].
  pose proof (discover_exact it_rev it_rev_perm reg (ms 100) calc None reg_inv) as H.
  destruct (Discover it_rev (ms 100) calc None reg) as [[rsp ran] r']. apply H.
Defined.

Lemma register_discover_witness :
  n1 ∈ nodes (Discover it (ms 200) calc None (Register (ms 100) calc n2 None reg).2).1.1.
Proof.
  apply (register_discover it it_perm reg (ms 100) (ms 200) calc calc n2 n1 None reg_inv).
  - split; [discriminate|reflexivity].
  - split; [discriminate|reflexivity].
  - vm_compute. discriminate.
  - right. split; [|right; discriminate].
    apply list_elem_of_In. vm_compute. auto.
Defined.

(** Heartbeats every 5 s, with an eviction and the other node leaving in between. *)
Definition beats : list (Z * event) :=
  [(ms 5000, EvHeartbeat calc n1); (ms 6500, EvEvict); (ms 7000, EvUnregister calc n2);
   (ms 10000, EvHeartbeat calc n1); (ms 12000, EvEvict)].

Lemma heartbeats_keep_alive_witness :
  exists m, m ∈ nodes (Discover it (ms 15000) calc None (run reg beats)).1.1 /\
            nodeKey m = nodeKey n1.
Proof.
  apply (heartbeats_keep_alive it it_perm reg calc n1 (ms 1) (ms 15000) beats reg_inv).
  - repeat constructor.
  - vm_compute. reflexivity.
  - vm_compute. reflexivity.
  - vm_compute. discriminate.
Defined.

Lemma silent_node_evicted_witness :
  let r' := run (purgeExpired (ms 7000) reg)
              [(ms 7100, EvHeartbeat calc n1); (ms 7200, EvRegister calc n2)] in
  (n1 ∉ nodes (Discover it (ms 7300) calc None r').1.1) /\
  (Heartbeat (ms 7300) calc n1 None r').1.1 = mkStatus kUnknown (lit "node not registered") /\
  (Heartbeat (ms 7300) calc n1 None r').2 = r'.
Proof.
  apply (silent_node_evicted it it_perm reg calc n1 (mkEntry n1 (ms 1)) (ms 7000) (ms 7300)
           [(ms 7100, EvHeartbeat calc n1); (ms 7200, EvRegister calc n2)] reg_inv).
  - repeat constructor; discriminate.
  - vm_compute. reflexivity.
  - vm_compute. reflexivity.
  - vm_compute. reflexivity.
Defined.

Lemma eviction_invisible_witness :
  Discover it (ms 7000) calc (Some 3) (evictionLoop_turn (ms 6500) reg).2
  = Discover it (ms 7000) calc (Some 3) reg.
Proof. apply (eviction_invisible it reg (ms 6500) (ms 7000) calc (Some 3)). vm_compute. discriminate. Defined.

Lemma discover_order_free_witness :
  Discover it (ms 100) calc None reg = Discover it_rev (ms 100) calc None reg.
Proof.
  apply (discover_order_free it it_rev reg (ms 100) calc None it_perm it_rev_perm reg_inv).
Defined.

Lemma live_count_witness :
  liveNodeCount it (ms 6001) calc reg
  = length (nodes (Discover it (ms 6001) calc None reg).1.1).
Proof. apply (live_count it it_perm reg (ms 6001) calc None). Defined.

End RegistrySamples.
