(* ===== verification/Eviction.v ===== *)
(** The eviction thread of registry/RegistryServiceImpl and the registry's destructor
    (src/registry/RegistryServiceImpl.cpp), over a clock, with the calls of other threads in
    between ([Registry] has the calls and the sweep themselves). *)
From stdpp Require Import base list gmap strings numbers.
From Stdlib Require Import Ascii ZArith Lia.
From S2P Require Import Prelude Bytes Common Controller Registry.

(** ** The threads *)

(** Where [evictionLoop] is: at the loop's test; in [sleep_for] until a deadline; at the test after
    it; about to lock [mutex_] and purge; at its end. *)
Inductive sweeper :=
| SwTest
| SwAsleep (deadline : Z)
| SwRetest
| SwSweep
| SwDone.

(** The registry in use; its destructor after [stopEviction_ = true]; destroyed. *)
Inductive stage := InUse | Destroying | Destroyed.

#[export] Instance sweeper_eq_dec : EqDecision sweeper.
Proof. solve_decision. Defined.
#[export] Instance stage_eq_dec : EqDecision stage.
Proof. solve_decision. Defined.

(** The clock counts nanoseconds. History: the calls and sweeps made, the time of the last sweep
    (of the construction, before the first), and since when the thread has been ready, or will
    be. *)
Record Evicting := mkEvicting {
  table : Registry;
  thread : sweeper;
  stage_ : stage;
  clock : Z;
  made : list (Z * event);
  swept : Z;
  due : Z;
}.

(** [kEvictionIntervalMs] *)
Definition kEvictionInterval : Z := 500 * 1000000.

(** The constructor starts the thread. *)
Definition Evicting_new (heartbeatTimeout t : Z) : Evicting :=
  mkEvicting (Registry_new heartbeatTimeout) SwTest InUse t [] t t.

(** A turn: time passes; another thread makes a call; the eviction thread goes on; the destructor
    is called, or returns from [join]. *)
Inductive evict_step :=
| Tick (ns : N)
| Serve (e : event)
| Sweeper
| Destroy
| Join.

Definition at_thread (s : Evicting) (p : sweeper) : Evicting :=
  mkEvicting (table s) p (stage_ s) (clock s) (made s) (swept s) (due s).

(** [stopEviction_ = true] *)
Definition set_stopEviction (r : Registry) : Registry :=
  mkRegistryState (services_ r) (heartbeatTimeout_ r) true.

(** The eviction thread's next action. *)
Definition sweeper_go (s : Evicting) : option Evicting :=
  match thread s with
  | SwTest =>
      if stopEviction_ (table s) then Some (at_thread s SwDone)
      else let d := (clock s + kEvictionInterval)%Z in
           Some (mkEvicting (table s) (SwAsleep d) (stage_ s) (clock s) (made s) (swept s) d)
  | SwAsleep d => if (d <=? clock s)%Z then Some (at_thread s SwRetest) else None
  | SwRetest => Some (at_thread s (if stopEviction_ (table s) then SwDone else SwSweep))
  | SwSweep =>
      Some (mkEvicting (purgeExpired (clock s) (table s)) SwTest (stage_ s) (clock s)
              (made s ++ [(clock s, EvEvict)]) (clock s) (due s))
  | SwDone => None
  end.

Definition evict_exec (s : Evicting) (l : evict_step) : option Evicting :=
  match l with
  | Tick ns =>
      Some (mkEvicting (table s) (thread s) (stage_ s) (clock s + Z.of_N ns) (made s) (swept s) (due s))
  | Serve e =>
      match stage_ s, e with
      | InUse, EvEvict => None
      | InUse, _ =>
          Some (mkEvicting (Registry.step (table s) (clock s, e)) (thread s) InUse (clock s)
                  (made s ++ [(clock s, e)]) (swept s) (due s))
      | _, _ => None
      end
  | Sweeper => sweeper_go s
  | Destroy =>
      match stage_ s with
      | InUse =>
          Some (mkEvicting (set_stopEviction (table s)) (thread s) Destroying (clock s) (made s)
                  (swept s) (due s))
      | _ => None
      end
  | Join =>
      match stage_ s, thread s with
      | Destroying, SwDone =>
          Some (mkEvicting (table s) SwDone Destroyed (clock s) (made s) (swept s) (due s))
      | _, _ => None
      end
  end.

(** A machine that lets the thread wait for the processor or for [mutex_] no longer than [lag]. *)
Definition prompt_exec (lag : Z) (s : Evicting) (l : evict_step) : option Evicting :=
  match l with
  | Tick ns => if (clock s + Z.of_N ns <=? due s + lag)%Z then evict_exec s l else None
  | _ => evict_exec s l
  end.

(** ** Invariants *)

(** The table is what the calls and sweeps made of it. *)
Record recorded (timeout : Z) (s : Evicting) : Prop := {
  rc_services : services_ (table s) = services_ (run (Registry_new timeout) (made s));
  rc_timeout : heartbeatTimeout_ (table s) = timeout;
  rc_stop : stopEviction_ (table s) = bool_decide (stage_ s <> InUse);
  rc_clock : (swept s <= clock s)%Z;
  rc_fresh : (0 <= timeout)%Z -> forall svc key e, entry (table s) svc key = Some e ->
               (swept s - lastHeartbeat e <= timeout * 1000000)%Z;
}.

(** The thread keeps its pace. *)
Record paced (lag : Z) (s : Evicting) : Prop := {
  pc_clock : (clock s <= due s + lag)%Z;
  pc_due : match thread s with
           | SwTest => (due s <= swept s)%Z
           | SwAsleep d => d = due s /\ (due s <= swept s + lag + kEvictionInterval)%Z
           | SwRetest | SwSweep => (due s <= clock s)%Z /\ (due s <= swept s + lag + kEvictionInterval)%Z
           | SwDone => (due s <= swept s + lag + kEvictionInterval)%Z
           end;
}.

(** *** Lemmas *)

Lemma registry_ext r r' :
  services_ r = services_ r' -> heartbeatTimeout_ r = heartbeatTimeout_ r' ->
  stopEviction_ r = stopEviction_ r' -> r = r'.
Proof. destruct r, r'. cbn. by intros -> -> ->. Qed.

Lemma step_stop r ev : stopEviction_ (Registry.step r ev) = stopEviction_ r.
Proof.
  destruct ev as [t []]; cbn; try done.
  - unfold Unregister. destruct (services_ r !! svc); [|done]. cbn. by case_decide.
  - unfold Heartbeat. by destruct (_ ≫= _).
  - unfold evictionLoop_turn. by destruct (stopEviction_ r) eqn:?.
Qed.

Lemma run_stop r evs : stopEviction_ (run r evs) = stopEviction_ r.
Proof.
  revert r. induction evs as [|ev evs IH]; intros r; [done|]. exact (eq_trans (IH _) (step_stop _ _)).
Qed.

(** No call leaves an entry older than the oldest it found, or than itself. *)
Lemma step_entry r t e svc key x :
  entry (Registry.step r (t, e)) svc key = Some x ->
  lastHeartbeat x = t \/ entry r svc key = Some x.
Proof.
  assert (Hpurge : entry (purgeExpired t r) svc key = Some x -> entry r svc key = Some x).
  { rewrite entry_purge. destruct (entry r svc key); [|done]. by case_match. }
  destruct e; cbn [Registry.step].
  - rewrite entry_register. case_decide; [|by right]. intros [= <-]. by left.
  - rewrite entry_unregister. case_decide; [done|by right].
  - rewrite entry_heartbeat. case_decide; [|by right]. destruct (entry r svc key); [|done].
    intros [= <-]. by left.
  - auto.
  - unfold evictionLoop_turn. destruct (stopEviction_ r); cbn [snd]; auto.
Qed.

Lemma run_snoc r evs ev : run r (evs ++ [ev]) = Registry.step (run r evs) ev.
Proof. unfold run. by rewrite fold_left_app. Qed.

(** While it is in use, the table is the state of the history. *)
Lemma recorded_run timeout s :
  recorded timeout s -> stage_ s = InUse -> table s = run (Registry_new timeout) (made s).
Proof.
  intros [Hsv Hto Hst _ _] Hu. apply registry_ext; [done|by rewrite Hto, run_timeout|].
  by rewrite Hst, Hu, run_stop.
Qed.

Lemma recorded_new t0 timeout : recorded timeout (Evicting_new timeout t0).
Proof.
  split; cbn; [done|done|done|lia|]. intros _ svc key e. unfold entry. cbn. by rewrite lookup_empty.
Qed.

Lemma recorded_serve timeout s e s' :
  recorded timeout s -> evict_exec s (Serve e) = Some s' -> recorded timeout s'.
Proof.
  intros Hr Hs. cbn [evict_exec] in Hs. destruct (stage_ s) eqn:Hu; [|done|done].
  assert (Hs' : s' = mkEvicting (Registry.step (table s) (clock s, e)) (thread s) InUse (clock s)
                       (made s ++ [(clock s, e)]) (swept s) (due s)) by (destruct e; congruence).
  subst s'. clear Hs. pose proof (recorded_run _ _ Hr Hu) as Hrun. destruct Hr as [_ Hto Hst Hck Hfr].
  split; cbn [table made clock swept stage_].
  - by rewrite run_snoc, <- Hrun.
  - by rewrite step_timeout.
  - by rewrite step_stop, Hst, Hu.
  - done.
  - intros H0 svc key x [Hx|Hx]%step_entry; [lia|]. by apply (Hfr H0 svc key).
Qed.

Lemma recorded_sweep timeout s s' :
  recorded timeout s -> sweeper_go s = Some s' -> recorded timeout s'.
Proof.
  intros [Hsv Hto Hst Hck Hfr] Hs. unfold sweeper_go in Hs. destruct (thread s) as [|d| | |].
  - destruct (stopEviction_ (table s)) eqn:?; injection Hs as <-; by split; cbn; try congruence.
  - destruct (d <=? clock s)%Z; [|done]. injection Hs as <-. by split.
  - injection Hs as <-. by split.
  - injection Hs as <-. split; cbn [table made clock swept stage_].
    + rewrite run_snoc. cbn [Registry.step]. unfold evictionLoop_turn. rewrite run_stop. cbn [snd stopEviction_ Registry_new].
      unfold purgeExpired, purge_service, expired. cbn [services_ set_services]. by rewrite Hsv, Hto, run_timeout.
    + done.
    + done.
    + lia.
    + intros _ svc key e. rewrite entry_purge. destruct (entry (table s) svc key) as [x|]; [|done].
      unfold expired. rewrite Hto. destruct (Z.ltb_spec (timeout * 1000000) (clock s - lastHeartbeat x)); [done|].
      by intros [= <-].
  - done.
Qed.

Lemma recorded_exec timeout s l s' :
  recorded timeout s -> evict_exec s l = Some s' -> recorded timeout s'.
Proof.
  intros Hr Hs. destruct l as [ns|e| | |].
  - injection Hs as <-. destruct Hr. split; cbn; try done. lia.
  - by eapply recorded_serve.
  - by eapply recorded_sweep.
  - cbn in Hs. destruct (stage_ s); [|done|done]. injection Hs as <-. destruct Hr. by split.
  - cbn in Hs. destruct (stage_ s) eqn:Hu, (thread s); try done. injection Hs as <-.
    destruct Hr as [? ? Hst ? ?]. split; try done. cbn. by rewrite Hst, Hu.
Qed.

Lemma prompt_is_exec lag s l s' : prompt_exec lag s l = Some s' -> evict_exec s l = Some s'.
Proof. destruct l; cbn [prompt_exec]; try done. by destruct (_ <=? _)%Z. Qed.

Lemma paced_sweep lag timeout s s' :
  (0 <= lag)%Z -> recorded timeout s -> paced lag s -> sweeper_go s = Some s' -> paced lag s'.
Proof.
  intros Hl Hr [Hck Hd] Hs. pose proof (rc_clock _ _ Hr). unfold sweeper_go in Hs.
  destruct (thread s) as [|d| | |]; unfold kEvictionInterval in *.
  - destruct (stopEviction_ (table s)); injection Hs as <-; split; cbn; unfold kEvictionInterval; lia.
  - destruct (Z.leb_spec d (clock s)); [|done]. injection Hs as <-. split; cbn; unfold kEvictionInterval; lia.
  - injection Hs as <-. destruct (stopEviction_ (table s)); split; cbn; unfold kEvictionInterval; lia.
  - injection Hs as <-. split; cbn; lia.
  - done.
Qed.

Lemma paced_exec lag timeout s l s' :
  (0 <= lag)%Z -> recorded timeout s -> paced lag s -> prompt_exec lag s l = Some s' -> paced lag s'.
Proof.
  intros Hl Hr Hp Hs. destruct l as [ns|e| | |]; cbn [prompt_exec] in Hs.
  - destruct (Z.leb_spec (clock s + Z.of_N ns) (due s + lag)); [|done]. injection Hs as <-.
    destruct Hp as [Hck Hd]. split; cbn; [done|]. destruct (thread s); lia.
  - cbn in Hs. destruct Hp as [Hck Hd]. destruct (stage_ s), e; try done; injection Hs as <-; by split.
  - by eapply paced_sweep.
  - cbn in Hs. destruct (stage_ s); [|done|done]. injection Hs as <-. by destruct Hp; split.
  - cbn in Hs. destruct (stage_ s), (thread s) eqn:Ht; try done. injection Hs as <-.
    destruct Hp as [Hck Hd]. rewrite Ht in Hd. by split.
Qed.

(** The sweeps left, and the steps to the thread's end once it has been told to stop. *)
Definition steps_left (p : sweeper) : nat :=
  match p with SwSweep => 2 | SwAsleep _ => 2 | SwTest | SwRetest => 1 | SwDone => 0 end.
Definition is_sweeper (l : evict_step) : bool := match l with Sweeper => true | _ => false end.

Lemma stopped_exec s l s' :
  stopEviction_ (table s) = true -> stage_ s <> InUse -> evict_exec s l = Some s' ->
  stopEviction_ (table s') = true /\ stage_ s' <> InUse /\
  (if is_sweeper l then 1 else 0) + steps_left (thread s') <= steps_left (thread s).
Proof.
  intros Hst Hu Hs. destruct l as [ns|e| | |]; cbn in Hs.
  - by injection Hs as <-.
  - by destruct (stage_ s).
  - unfold sweeper_go in Hs. rewrite Hst in Hs. destruct (thread s); try case_match; simplify_eq; cbn; auto.
  - by destruct (stage_ s).
  - destruct (stage_ s); try done. destruct (thread s); try done. by injection Hs as <-.
Qed.

Lemma stopped_run s ls s' :
  stopEviction_ (table s) = true -> stage_ s <> InUse -> s =[ evict_exec | ls ]=> s' ->
  length (List.filter is_sweeper ls) + steps_left (thread s') <= steps_left (thread s).
Proof.
  revert s. induction ls as [|l ls IH]; intros s Hst Hu; cbn [steps].
  { intros [= <-]. cbn. lia. }
  destruct (evict_exec s l) as [s1|] eqn:Hs; [|done]. intros Hrun.
  destruct (stopped_exec s l s1 Hst Hu Hs) as (Hst1 & Hu1 & Hle). specialize (IH s1 Hst1 Hu1 Hrun).
  cbn [List.filter]. destruct (is_sweeper l); cbn [length]; lia.
Qed.

(** The way to the end of the destructor. *)
Definition finish (s : Evicting) : list evict_step :=
  match thread s with
  | SwTest | SwRetest => [Sweeper; Join]
  | SwAsleep d => [Tick (Z.to_N (d - clock s)); Sweeper; Sweeper; Join]
  | SwSweep => [Sweeper; Sweeper; Join]
  | SwDone => [Join]
  end.

(** A thread asleep wakes within the interval. *)
Definition soon (s : Evicting) : Prop :=
  match thread s with SwAsleep d => (d <= clock s + kEvictionInterval)%Z | _ => True end.

Lemma soon_exec s l s' : soon s -> evict_exec s l = Some s' -> soon s'.
Proof.
  unfold soon. intros Hd Hs. destruct l as [ns|e| | |]; cbn in Hs.
  - injection Hs as <-. cbn. destruct (thread s); try done. lia.
  - destruct (stage_ s), e; try done; by injection Hs as <-.
  - unfold sweeper_go in Hs. destruct (thread s); repeat case_match; simplify_eq; cbn in *; repeat case_match; simplify_eq; (done || lia).
  - destruct (stage_ s); try done. by injection Hs as <-.
  - destruct (stage_ s), (thread s); try done. by injection Hs as <-.
Qed.

Lemma finish_run s :
  stopEviction_ (table s) = true -> stage_ s = Destroying -> soon s ->
  exists s', s =[ evict_exec | finish s ]=> s' /\ stage_ s' = Destroyed /\
    (clock s' <= clock s + kEvictionInterval)%Z.
Proof.
  intros Hst Hu Hd. unfold finish, soon in *. unfold kEvictionInterval in *.
  destruct s as [tb p sg ck md sw du]. cbn in *. subst sg.
  destruct p as [|d| | |]; cbn; unfold sweeper_go; cbn; rewrite ?Hst; cbn;
    try (eexists; split; [reflexivity|]; cbn; split; [done|lia]).
  destruct (Z.leb_spec d (ck + Z.of_N (Z.to_N (d - ck)))); [|lia]. cbn. rewrite Hst. cbn.
  eexists. split; [reflexivity|]. cbn. split; [done|lia].
Qed.

(** ** Theorems *)

Section Theorems.
Context (t0 timeout : Z).

Lemma recorded_steps ls s :
  Evicting_new timeout t0 =[ evict_exec | ls ]=> s -> recorded timeout s /\ soon s.
Proof.
  intros Hrun. refine (steps_inv evict_exec (fun s => recorded timeout s /\ soon s) _ ls s _ _ Hrun).
  - intros a l b [H1 H2] Hs. split; [by eapply recorded_exec|by eapply soon_exec].
  - split; [apply recorded_new|done].
Qed.

(** C21. How long a dead node stays in the registry's table: in any interleaving of the eviction
    thread with the calls of other threads, on a machine that keeps the thread waiting no longer
    than [lag] at a time, the table is that of the calls and sweeps made, in their order, and
    every entry in it was heard of within the timeout, one interval of 500 ms and twice the
    lag. *)
Theorem stale_entries_bounded (lag : Z) (ls : list evict_step) (s : Evicting)
  (Htimeout : (0 <= timeout)%Z) (Hlag : (0 <= lag)%Z)
  (Hrun : Evicting_new timeout t0 =[ prompt_exec lag | ls ]=> s) :
  services_ (table s) = services_ (run (Registry_new timeout) (made s)) /\
  forall svc key e, entry (table s) svc key = Some e ->
    (clock s - lastHeartbeat e <= timeout * 1000000 + kEvictionInterval + 2 * lag)%Z.
Proof.
  assert (H : recorded timeout s /\ paced lag s).
  { refine (steps_inv (prompt_exec lag) (fun s => recorded timeout s /\ paced lag s) _ ls s _ _ Hrun).
    - intros a l b [H1 H2] Hs. split; [|by eapply paced_exec].
      eapply recorded_exec; [done|by eapply prompt_is_exec].
    - split; [apply recorded_new|]. split; cbn; lia. }
  destruct H as [[Hsv _ _ Hck Hfr] [Hc Hd]]. split; [done|]. intros svc key e He.
  specialize (Hfr Htimeout svc key e He). unfold kEvictionInterval in *. destruct (thread s); lia.
Qed.

(** The destructor returns: from its call on, the eviction thread takes at most two more steps,
    however the threads interleave, and the destructor can be run to its return with no more
    than one interval on the clock. *)
Theorem destructor_returns (ls : list evict_step) (s : Evicting)
  (Hrun : Evicting_new timeout t0 =[ evict_exec | ls ]=> s) (Hstage : stage_ s = Destroying) :
  (forall ls' s', s =[ evict_exec | ls' ]=> s' -> length (List.filter is_sweeper ls') <= 2) /\
  exists ls' s', s =[ evict_exec | ls' ]=> s' /\ stage_ s' = Destroyed /\
    (clock s' <= clock s + kEvictionInterval)%Z.
Proof.
  destruct (recorded_steps ls s Hrun) as [Hr Hd].
  assert (Hst : stopEviction_ (table s) = true) by (by rewrite (rc_stop _ _ Hr), Hstage).
  split; [|by exists (finish s); apply finish_run].
  intros ls' s' Hrun'. pose proof (stopped_run s ls' s' Hst ltac:(congruence) Hrun') as Hle.
  destruct (thread s); cbn in Hle; lia.
Qed.
End Theorems.

(** ** Witnesses *)

Module EvictionSamples.
Import RegistrySamples.

(** A node registers, the thread sweeps twice, half a second apart with a lag of 100 ns, and the
    registry is destroyed. *)
Definition evicting_life : list evict_step :=
  [Serve (EvRegister calc n1); Sweeper; Tick (Z.to_N (ms 500) + 100)%N; Sweeper; Sweeper; Sweeper;
   Sweeper; Tick (Z.to_N (ms 500)); Sweeper; Sweeper; Sweeper; Sweeper; Destroy].
Definition constructed : Evicting := Evicting_new 600 0.
Definition evicting (k : nat) : Evicting :=
  default constructed (steps (prompt_exec 100) constructed (take k evicting_life)).

Lemma stale_entries_bounded_witness :
  entry (table (evicting 10)) calc (nodeKey n1) = Some (mkEntry n1 0) /\
  entry (table (evicting 11)) calc (nodeKey n1) = None /\
  (clock (evicting 10) - 0 <= 600 * 1000000 + kEvictionInterval + 2 * 100)%Z.
Proof.
  assert (He : entry (table (evicting 10)) calc (nodeKey n1) = Some (mkEntry n1 0)) by (vm_compute; reflexivity).
  split; [exact He|]. split; [vm_compute; reflexivity|].
  destruct (stale_entries_bounded 0 600 100 (take 10 evicting_life) (evicting 10)) as [_ Hage].
  - discriminate.
  - discriminate.
  - apply steps_default. vm_compute. reflexivity.
  - exact (Hage _ _ _ He).
Defined.

Lemma destructor_returns_witness :
  exists ls' s', evicting 13 =[ evict_exec | ls' ]=> s' /\ stage_ s' = Destroyed /\
    (clock s' <= clock (evicting 13) + kEvictionInterval)%Z.
Proof.
  apply (destructor_returns 0 600 (take 13 evicting_life) (evicting 13)); vm_compute; reflexivity.
Defined.

End EvictionSamples.
