(* ===== verification/LoadBalanceChannel.v ===== *)
(** [minirpc::LoadBalanceChannel] (include/minirpc/rpc/LoadBalanceChannel.h,
    src/rpc/LoadBalanceChannel.cpp): node discovery, node selection and one retry on another node,
    over any channel that makes the calls. *)
From stdpp Require Import base list gmap strings numbers.
From Stdlib Require Import Ascii ZArith Lia.
From S2P Require Import Prelude Bytes Common Buffer Codec.
From S2P Require Import Controller Service Inet RpcChannel LoadBalancer Registry.

(** ** Interface: a channel to one address *)

(** What [google::protobuf::RpcChannel::CallMethod] gives the client of one address: the closures
    run, the channel, the controller, the response and the world after the call. [None] is a call
    that does not return. *)
Class NodeChannel (Ch W : Type) := {
  make_channel : sockaddr_in -> Z -> Z -> Ch;
  channel_call : forall {Msg : Type}, (bytes -> bool * Msg) -> Ch -> bytes -> bytes ->
    option closure -> Controller -> Msg -> W ->
    option (list closure * Ch * Controller * Msg * W);
}.

(** A call that returns has run [done] once, if it was given, and a null controller stays null. *)
Class NodeChannelLaws (Ch W : Type) `{NodeChannel Ch W} : Prop := {
  call_done Msg (parse : bytes -> bool * Msg) ch name req d c m w ran ch' c' m' w' :
    channel_call parse ch name req d c m w = Some (ran, ch', c', m', w') -> ran = option_list d;
  call_null Msg (parse : bytes -> bool * Msg) ch name req d c m w ran ch' c' m' w' :
    channel_call parse ch name req d c m w = Some (ran, ch', c', m', w') ->
    c' = NullController <-> c = NullController;
}.

(** ** [RpcChannel] is such a channel *)

Section RpcChannelInstance.
Context (host : endian) `{Envelope} {W : Type} `{Kernel W} (fuel : nat).

#[export] Instance RpcChannel_node : NodeChannel RpcChannel W := {
  make_channel := RpcChannel_new;
  channel_call Msg parse ch name req d c m w :=
    match CallMethod host parse fuel name req d (mkCall ch c m w) with
    | None => None
    | Some (ran, s) => Some (ran, chan s, ctrl s, resp s, world s)
    end;
}.

Definition null (c : Controller) : bool := match c with NullController => true | _ => false end.

Lemma null_reset c : null (resetController c) = null c.
Proof. by destruct c. Qed.
Lemma null_fail c code text : null (failController c code text) = null c.
Proof. by destruct c. Qed.

Lemma null_response_body {Msg} (parse : bytes -> bool * Msg) sq s m :
  null (response_body parse sq s m).1.2 = null s.2.
Proof.
  destruct s as [rsp c]. unfold response_body. destruct (_ && _); [|done].
  destruct (parseResponse _) as [r|]; [|by apply null_fail].
  destruct (negb _); [by apply null_fail|]. destruct (parse (response r)) as [[] ?]; [done|].
  by apply null_fail.
Qed.

Lemma null_while_decode {Msg} (parse : bytes -> bool * Msg) fuel' sq s (b : Buffer) e s' b' :
  while_decode host fuel' (response_body parse sq) s b = Some (e, s', b') ->
  null s'.2 = null s.2.
Proof.
  revert s b. induction fuel' as [|f IH]; intros s b; cbn [while_decode]; [done|].
  destruct (tryDecode host b) as [[[m|] b1]|ex]; [|by intros [= _ <- _]|by intros [= _ <- _]].
  pose proof (null_response_body parse sq s m) as Hn.
  destruct (response_body parse sq s m) as [s1 [r|]]; cbn [fst] in Hn.
  - by intros [= _ <- _].
  - intros Hw. by rewrite (IH _ _ Hw).
Qed.

Lemma null_wait_loop {Msg} (parse : bytes -> bool * Msg) f sq dl (s : CallState) r s' :
  wait_loop host parse f sq dl s = Some (r, s') -> null (ctrl s') = null (ctrl s).
Proof.
  revert s. induction f as [|f IH]; intros [c k m w]; cbn [wait_loop chan ctrl resp world]; [done|].
  destruct (steady_now w) as [now w0]. destruct (dl <=? now)%Z;
    [intros [= _ <-]; apply null_fail|].
  destruct (sys_poll _ _ w0) as [[rc rv] w1].
  destruct (rc =? 0)%Z; [intros [= _ <-]; apply null_fail|].
  destruct (rc <? 0)%Z; [destruct (_ =? EINTR)%Z; [apply IH|intros [= _ <-]; apply null_fail]|].
  destruct (negb _); [intros [= _ <-]; apply null_fail|]. destruct (_ =? 0)%Z; [apply IH|].
  destruct (sys_readv _ _ w1) as [o w2]. destruct (readFd _ o) as [[n en] b].
  cbn [chan ctrl resp world].
  destruct (n <=? 0)%Z; [intros [= _ <-]; apply null_fail|].
  destruct (while_decode _ _ _ _ _) as [[[e [m' k']] b']|] eqn:Hd; [|done].
  apply null_while_decode in Hd. cbn in Hd. rewrite <- Hd.
  destruct e; [apply IH|by intros [= _ <-]|intros [= _ <-]; apply null_fail].
Qed.

Lemma null_attempt_loop {Msg} (parse : bytes -> bool * Msg) f n env (s : CallState) s' :
  attempt_loop host parse f n env s = Some s' -> null (ctrl s') = null (ctrl s).
Proof.
  revert s. induction n as [|n IH]; intros [c k m w]; cbn [attempt_loop chan ctrl resp world];
    [by intros [= <-]|].
  destruct (sendAll _ _ _ _ _) as [[[] w1]|]; [| |done].
  - unfold waitResponse. cbn [world]. destruct (steady_now w1) as [now w2].
    destruct (wait_loop _ _ _ _ _ _) as [[r s1]|] eqn:Hw; [|done].
    apply null_wait_loop in Hw. cbn [ctrl] in Hw. rewrite null_reset in Hw.
    destruct r; try (by intros [= <-]). intros Hl%IH. by rewrite Hl.
  - destruct (close _ _) as [c1 w2]. intros [= <-]. cbn. by rewrite null_fail, null_reset.
Qed.

#[export] Instance RpcChannel_node_laws : NodeChannelLaws RpcChannel W.
Proof.
  split; intros Msg parse ch name req d c m w ran ch' c' m' w'; cbn [channel_call RpcChannel_node];
    unfold CallMethod; cbn [chan ctrl resp world];
    destruct (connect ch w) as [[[] c1] w1].
  - destruct (attempt_loop _ _ _ _ _ _) as [s1|]; [|done]. intros [= <- _ _ _ _]. by destruct d.
  - intros [= <- _ _ _ _]. by destruct d.
  - destruct (attempt_loop _ _ _ _ _ _) as [s1|] eqn:Hl; [|done]. intros [= _ _ <- _ _].
    apply null_attempt_loop in Hl. cbn [ctrl] in Hl. rewrite null_reset in Hl.
    destruct (ctrl s1), c; done.
  - intros [= _ _ <- _ _]. cbn [ctrl]. by destruct c.
Qed.

End RpcChannelInstance.

(** ** LoadBalanceChannel *)

Module LB.

Inductive BalanceType := kRoundRobin | kConsistentHash.

Section LoadBalanceChannel.
(** libc's [inet_pton], the library's string hash, the channels, and protobuf's codecs of the
    registry's messages and of the caller's response. *)
Context (host : endian) (inet_pton : bytes -> option Z) (std_hash : bytes -> Z).
Context {Ch W : Type} `{NodeChannel Ch W} (now : W -> Z * W).
Context (serializeDiscover : bytes -> bytes) (parseDiscover : bytes -> bool * DiscoverResponse).
Context {Msg : Type} (ParseFromString : bytes -> bool * Msg).

Record LoadBalanceChannel := mkLB {
  registryAddr_ : sockaddr_in;
  serviceName_ : bytes;
  balanceType_ : BalanceType;
  refreshIntervalMs_ : Z;
  callTimeoutMs_ : Z;
  callRetries_ : Z;
  lastRefresh_ : Z;
  nodes_ : list NodeInfo;
  channels_ : gmap bytes Ch;
  registryChannel_ : Ch;
  roundRobin_ : RoundRobin;
  consistentHash_ : ConsistentHash;
  failedNodeKey_ : bytes;
}.

Definition LoadBalanceChannel_new (registryAddr : sockaddr_in) (serviceName : bytes)
    (type : BalanceType) (refreshIntervalMs callTimeoutMs callRetries : Z) : LoadBalanceChannel :=
  mkLB registryAddr serviceName type refreshIntervalMs callTimeoutMs callRetries 0 [] ∅
       (make_channel registryAddr 1500 1) RoundRobin_new (ConsistentHash_new 100) [].

Definition set_nodes (l : LoadBalanceChannel) (ns : list NodeInfo) (rr : RoundRobin)
    (ch : ConsistentHash) (refreshed : Z) : LoadBalanceChannel :=
  mkLB (registryAddr_ l) (serviceName_ l) (balanceType_ l) (refreshIntervalMs_ l)
       (callTimeoutMs_ l) (callRetries_ l) refreshed ns (channels_ l) (registryChannel_ l) rr ch
       (failedNodeKey_ l).
Definition set_rr (l : LoadBalanceChannel) (rr : RoundRobin) : LoadBalanceChannel :=
  set_nodes l (nodes_ l) rr (consistentHash_ l) (lastRefresh_ l).
Definition set_registryChannel (l : LoadBalanceChannel) (c : Ch) : LoadBalanceChannel :=
  mkLB (registryAddr_ l) (serviceName_ l) (balanceType_ l) (refreshIntervalMs_ l)
       (callTimeoutMs_ l) (callRetries_ l) (lastRefresh_ l) (nodes_ l) (channels_ l) c
       (roundRobin_ l) (consistentHash_ l) (failedNodeKey_ l).
Definition set_channel (l : LoadBalanceChannel) (key : bytes) (c : Ch) : LoadBalanceChannel :=
  mkLB (registryAddr_ l) (serviceName_ l) (balanceType_ l) (refreshIntervalMs_ l)
       (callTimeoutMs_ l) (callRetries_ l) (lastRefresh_ l) (nodes_ l)
       (<[key := c]> (channels_ l)) (registryChannel_ l) (roundRobin_ l) (consistentHash_ l)
       (failedNodeKey_ l).
Definition set_failed (l : LoadBalanceChannel) (key : bytes) : LoadBalanceChannel :=
  mkLB (registryAddr_ l) (serviceName_ l) (balanceType_ l) (refreshIntervalMs_ l)
       (callTimeoutMs_ l) (callRetries_ l) (lastRefresh_ l) (nodes_ l) (channels_ l)
       (registryChannel_ l) (roundRobin_ l) (consistentHash_ l) key.

Definition nodeKeyOf (n : NodeInfo) : bytes := node_host n ++ lit ":" ++ to_string (node_port n).

(** The clock is read only when there are nodes. *)
Definition needRefresh (l : LoadBalanceChannel) (w : W) : bool * W :=
  match nodes_ l with
  | [] => (true, w)
  | _ => let '(t, w) := now w in
         ((refreshIntervalMs_ l * 1000000 <=? t - lastRefresh_ l)%Z, w)
  end.

(** [registryStub_->Discover] is a call on [registryChannel_]. *)
Definition refreshNodes (l : LoadBalanceChannel) (w : W) : option (bool * LoadBalanceChannel * W) :=
  match channel_call parseDiscover (registryChannel_ l)
          (lit "minirpc.registry.RegistryService.Discover") (serializeDiscover (serviceName_ l))
          None (Mini RpcController_new) (mkDiscover 0 [] []) w with
  | None => None
  | Some (_, ch, ctrl, rsp, w) =>
      let l := set_registryChannel l ch in
      if controllerFailed ctrl then Some (false, l, w)
      else
        let ns := nodes rsp in
        let keys := map nodeKeyOf ns in
        let rr := setNodeCount (roundRobin_ l) (length ns) in
        let chash := setNodes std_hash (consistentHash_ l) keys in
        let '(t, w) := now w in
        Some (true, set_nodes l ns rr chash t, w)
  end.

(** [nodeKeyOf(nodes_[roundRobin_.next() % nodes_.size()])], on a non-empty list. *)
Definition nextKey (l : LoadBalanceChannel) : bytes * LoadBalanceChannel :=
  let '(i, rr) := next (roundRobin_ l) in
  (nodeKeyOf (nth (i mod length (nodes_ l)) (nodes_ l) (mkNode [] [] 0)), set_rr l rr).

Definition selectNodeKey (l : LoadBalanceChannel) (hashKey : bytes) :
    bytes * LoadBalanceChannel :=
  match nodes_ l with
  | [] => ([], l)
  | _ =>
      match balanceType_ l, hashKey with
      | kConsistentHash, _ :: _ =>
          match selectNode std_hash (consistentHash_ l) hashKey with
          | [] => nextKey l
          | key => (key, l)
          end
      | _, _ => nextKey l
      end
  end.

(** The [for] loop of [selectNodeKeyForRetry], [n] rounds left. *)
Fixpoint retry_loop (n : nat) (failedKey : bytes) (l : LoadBalanceChannel) :
    bytes * LoadBalanceChannel :=
  match n with
  | O => (failedKey, l)
  | S n =>
      let '(key, l) := nextKey l in
      if decide (key = failedKey) then retry_loop n failedKey l else (key, l)
  end.

Definition selectNodeKeyForRetry (l : LoadBalanceChannel) (failedKey : bytes) :
    bytes * LoadBalanceChannel :=
  match nodes_ l with
  | [] => ([], l)
  | _ => retry_loop (length (nodes_ l)) failedKey l
  end.

(** The address in a node key: up to the last colon, and the number after it ([npos] wraps to the
    start when there is none). *)
Definition key_address (nodeKey : bytes) : sockaddr_in :=
  let '(h, p) := match rfind ":"%char nodeKey with
                 | Some colon => (take colon nodeKey, drop (colon + 1) nodeKey)
                 | None => (nodeKey, nodeKey)
                 end in
  InetAddress_of_ip host inet_pton h (u16 (atoi p)).

Definition channelFor (l : LoadBalanceChannel) (nodeKey : bytes) : Ch * LoadBalanceChannel :=
  match channels_ l !! nodeKey with
  | Some ch => (ch, l)
  | None =>
      let ch := make_channel (key_address nodeKey) (callTimeoutMs_ l) (callRetries_ l) in
      (ch, set_channel l nodeKey ch)
  end.

(** The outcome of [CallMethod]: the closures run, the nodes called in order, and the state. *)
Record Outcome := mkOutcome {
  ran : list closure;
  called : list bytes;
  lb : LoadBalanceChannel;
  oc_ctrl : Controller;
  oc_resp : Msg;
  oc_world : W;
}.

(** The error codes after which another node is tried. *)
Definition connection_level (c : Controller) : bool :=
  match c with
  | Mini rc => let code := errorCode rc in
               (code =? kClosed)%Z || (code =? kSystem)%Z || (code =? kTimeout)%Z
  | _ => false
  end.

(** The [for] loop of [CallMethod]: attempt number [attempt], [n] of [maxAttempts] left. *)
Fixpoint attempts (n attempt : nat) (name req hashKey : bytes) (done_ : option closure)
    (o : Outcome) : option Outcome :=
  match n with
  | O => Some o
  | S n =>
      let l := lb o in
      let '(nodeKey, l) := if attempt =? 0 then selectNodeKey l hashKey
                           else selectNodeKeyForRetry l (failedNodeKey_ l) in
      let '(ch, l) := channelFor l nodeKey in
      match channel_call ParseFromString ch name req done_ (oc_ctrl o) (oc_resp o) (oc_world o) with
      | None => None
      | Some (rn, ch, c, m, w) =>
          let l := set_channel l nodeKey ch in
          let o := mkOutcome (ran o ++ rn) (called o ++ [nodeKey]) l c m w in
          if negb (controllerFailed c) then Some o
          else if negb (connection_level c) then Some o
          else if length (nodes_ l) <=? 1 then Some o
          else
            match refreshNodes (set_failed l nodeKey) w with
            | None => None
            | Some (_, l, w) =>
                let o := mkOutcome (ran o) (called o) l c m w in
                if length (nodes_ l) <=? 1 then Some o
                else attempts n (S attempt) name req hashKey done_ o
            end
      end
  end.

Definition CallMethod (name req : bytes) (done_ : option closure) (c : Controller) (m : Msg)
    (l : LoadBalanceChannel) (w : W) : option Outcome :=
  let c := resetController c in
  let '(stale, w) := needRefresh l w in
  match (if stale then refreshNodes l w else Some (true, l, w)) with
  | None => None
  | Some (_, l, w) =>
      match nodes_ l with
      | [] =>
          Some (mkOutcome (option_list done_) [] l
                 (failController c kNoService
                    (lit "no available node for service: " ++ serviceName_ l)) m w)
      | _ =>
          let hashKey := match balanceType_ l with
                         | kConsistentHash => req
                         | kRoundRobin => []
                         end in
          let maxAttempts := match done_ with Some _ => 1 | None => 2 end in
          attempts maxAttempts 0 name req hashKey done_ (mkOutcome [] [] l c m w)
      end
  end.

Definition nodeCount (l : LoadBalanceChannel) : nat := length (nodes_ l).

(** ** Invariant *)

Definition keys (l : LoadBalanceChannel) : list bytes := map nodeKeyOf (nodes_ l).

(** The balancers are set up for the node list, whose keys are distinct. *)
Definition lb_inv (l : LoadBalanceChannel) : Prop :=
  NoDup (keys l) /\ nodeCount_ (roundRobin_ l) = length (nodes_ l) /\
  fits 64 (index_ (roundRobin_ l)) /\
  (nodes_ l <> [] ->
   exists n, 0 < n /\ consistentHash_ l = setNodes std_hash (ConsistentHash_new n) (keys l)).

(** ** Lemmas: selection *)

Lemma consecutive_mod (i n : Z) : (2 <= n -> i mod n <> (i + 1) mod n)%Z.
Proof.
  intros Hn Heq.
  assert (Hd : ((i + 1 - i) mod n = 0)%Z)
    by (rewrite Zminus_mod, <- Heq, Z.sub_diag; apply Z.mod_0_l; lia).
  replace (i + 1 - i)%Z with 1%Z in Hd by lia. rewrite Z.mod_1_l in Hd; lia.
Qed.

(** Successive counter values pick different nodes, except possibly across the wrap. *)
Lemma counter_step i n :
  fits 64 i -> (2 <= n)%Z -> (i mod n <> u64 (i + 1) mod n \/ (i = 2 ^ 64 - 1 /\ 3 <= n))%Z.
Proof.
  intros Hi Hn. destruct (decide (i = 2 ^ 64 - 1)%Z) as [->|Hne].
  - destruct (decide (n = 2)%Z) as [->|]; [left|right]; [done|lia].
  - left. unfold fits in Hi. rewrite (wrap_small 64) by (unfold fits; lia).
    by apply consecutive_mod.
Qed.

Lemma nextKey_spec l :
  lb_inv l -> nodes_ l <> [] ->
  let n := Z.of_nat (length (nodes_ l)) in
  exists i, i < length (nodes_ l) /\ i = Z.to_nat (index_ (roundRobin_ l) mod n) /\
    keys l !! i = Some (nextKey l).1 /\
    (nextKey l).2 = set_rr l (mkRoundRobin (u64 (index_ (roundRobin_ l) + 1)) (length (nodes_ l))).
Proof.
  intros (_ & Hc & Hi & _) Hne. unfold nextKey, next. rewrite Hc.
  assert (Hl : length (nodes_ l) <> 0) by (by destruct (nodes_ l)).
  destruct (Nat.eqb_spec (length (nodes_ l)) 0); [done|]. cbn zeta.
  pose proof (Z.mod_pos_bound (index_ (roundRobin_ l)) (Z.of_nat (length (nodes_ l)))) as Hb.
  eexists. split; [|split; [done|]]; [lia|]. cbn [fst snd]. split; [|done].
  rewrite Nat.mod_small by lia. unfold keys. rewrite list_lookup_fmap.
  rewrite nth_lookup. destruct (nodes_ l !! _) eqn:Hx; [done|].
  apply lookup_ge_None in Hx. lia.
Qed.

Lemma set_rr_inv l i :
  lb_inv l -> lb_inv (set_rr l (mkRoundRobin (u64 i) (length (nodes_ l)))).
Proof.
  intros (Hd & Hc & Hi & Hh). split; [done|]. split; [done|]. split; [by apply wrap_fits|done].
Qed.

Lemma retry_loop_inv n f l :
  lb_inv l -> nodes_ l <> [] ->
  lb_inv (retry_loop n f l).2 /\ nodes_ (retry_loop n f l).2 = nodes_ l /\
  channels_ (retry_loop n f l).2 = channels_ l /\
  ((retry_loop n f l).1 = f \/ (retry_loop n f l).1 ∈ keys l).
Proof.
  revert l. induction n as [|n IH]; intros l Hi Hne; cbn [retry_loop]; [by eauto|].
  destruct (nextKey_spec l Hi Hne) as (i & _ & _ & Hk & Hl).
  destruct (nextKey l) as [key l1]. cbn [fst snd] in *. subst l1.
  case_decide.
  - exact (IH _ (set_rr_inv l _ Hi) Hne).
  - cbn [fst snd]. split; [by apply set_rr_inv|]. split; [done|]. split; [done|]. right.
    by eapply list_elem_of_lookup_2.
Qed.

(** When two successive picks differ, one of them is not the failed node. *)
Lemma retry_two n f l :
  lb_inv l -> nodes_ l <> [] -> (nextKey l).1 <> (nextKey (nextKey l).2).1 ->
  (retry_loop (S (S n)) f l).1 <> f.
Proof.
  intros Hi Hne Hd. cbn [retry_loop]. destruct (nextKey l) as [k0 l1]. cbn [fst snd] in *.
  case_decide; [|done]. destruct (nextKey l1) as [k1 l2]. cbn [fst] in Hd.
  case_decide; [congruence|done].
Qed.

(** The counters of two successive picks tell whether they differ. *)
Lemma nextKey_differ l :
  lb_inv l -> nodes_ l <> [] ->
  let n := Z.of_nat (length (nodes_ l)) in
  (index_ (roundRobin_ l) mod n <> u64 (index_ (roundRobin_ l) + 1) mod n)%Z ->
  (nextKey l).1 <> (nextKey (nextKey l).2).1.
Proof.
  intros Hi Hne n Hd. destruct (nextKey_spec l Hi Hne) as (i & Hil & Hix & Hk & Hl).
  assert (Hi1 : lb_inv (nextKey l).2) by (rewrite Hl; by apply set_rr_inv).
  assert (Hne1 : nodes_ (nextKey l).2 <> []) by (by rewrite Hl).
  destruct (nextKey_spec _ Hi1 Hne1) as (j & Hjl & Hjx & Hk1 & _).
  revert Hjl Hjx Hk1. generalize (nextKey (nextKey l).2).1. intros k1. rewrite Hl.
  cbn [set_rr set_nodes nodes_ roundRobin_ index_]. intros Hjl Hjx Hk1 Heq.
  change (keys (set_rr l _)) with (keys l) in Hk1. rewrite <- Heq in Hk1.
  destruct Hi as (Hnd & _). pose proof (NoDup_lookup _ _ _ _ Hnd Hk Hk1) as Hij.
  apply Hd. subst n. pose proof (Z.mod_pos_bound (index_ (roundRobin_ l)) (Z.of_nat (length (nodes_ l)))).
  pose proof (Z.mod_pos_bound (u64 (index_ (roundRobin_ l) + 1)) (Z.of_nat (length (nodes_ l)))).
  lia.
Qed.

(** With two nodes or more a retry goes to another node, also when the counter wraps. *)
Lemma retry_different l f :
  lb_inv l -> 2 <= length (nodes_ l) ->
  (selectNodeKeyForRetry l f).1 <> f /\ (selectNodeKeyForRetry l f).1 ∈ keys l.
Proof.
  intros Hi Hl. assert (Hne : nodes_ l <> []) by (intros Hx; rewrite Hx in Hl; cbn in Hl; lia).
  assert (Hneq : (retry_loop (length (nodes_ l)) f l).1 <> f).
  { destruct (length (nodes_ l)) as [|[|n]] eqn:Hlen; [lia|lia|].
    destruct (counter_step (index_ (roundRobin_ l)) (Z.of_nat (length (nodes_ l))))
      as [Hd|[Hw Hn]]; [apply Hi|lia| |].
    - apply retry_two; [done|done|by apply nextKey_differ].
    - destruct n as [|n]; [lia|]. destruct (nextKey_spec l Hi Hne) as (i & _ & _ & _ & Hl1).
      assert (Hi1 : lb_inv (nextKey l).2) by (rewrite Hl1; by apply set_rr_inv).
      remember (S (S n)) as m. cbn [retry_loop]. destruct (nextKey l) as [k0 l1]. cbn [snd] in *.
      case_decide; [|done]. subst m. apply retry_two; [done|by subst l1|].
      apply nextKey_differ; [done|by subst l1|]. subst l1.
      cbn [set_rr set_nodes nodes_ roundRobin_ index_]. rewrite Hw.
      change (u64 (2 ^ 64 - 1 + 1)) with 0%Z. change (u64 (0 + 1)) with 1%Z.
      rewrite Z.mod_0_l, Z.mod_1_l; lia. }
  unfold selectNodeKeyForRetry. destruct (nodes_ l) as [|n ns] eqn:Hn; [done|].
  rewrite <- Hn in *. destruct (retry_loop_inv (length (nodes_ l)) f l Hi Hne) as (_ & _ & _ & [?|?]);
    [done|]. done.
Qed.

Lemma nextKey_in l :
  lb_inv l -> nodes_ l <> [] -> (nextKey l).1 ∈ keys l /\ lb_inv (nextKey l).2.
Proof.
  intros Hi Hne. destruct (nextKey_spec l Hi Hne) as (i & _ & _ & Hk & ->).
  split; [by eapply list_elem_of_lookup_2|by apply set_rr_inv].
Qed.

(** Either policy picks one of the nodes. *)
Lemma selectNodeKey_in l hashKey :
  lb_inv l -> nodes_ l <> [] ->
  (selectNodeKey l hashKey).1 ∈ keys l /\ lb_inv (selectNodeKey l hashKey).2.
Proof.
  intros Hi Hne. pose proof (nextKey_in l Hi Hne) as Hnext. unfold selectNodeKey.
  destruct (nodes_ l) as [|n0 ns] eqn:Hn; [done|].
  destruct (balanceType_ l); [done|]. destruct hashKey as [|c hk]; [done|].
  destruct (selectNode _ _ _) as [|c0 k] eqn:Hs; [done|]. cbn [fst snd]. split; [|done].
  destruct Hi as (_ & _ & _ & Hh). destruct Hh as (v & Hv & Hch); [by rewrite Hn|].
  destruct (selectNode_clockwise_exists std_hash (ConsistentHash_new v) (keys l) (c :: hk))
    as (node & i & Hin & _ & Hsel & _); [unfold keys; by rewrite Hn|done|].
  rewrite <- Hch, Hs in Hsel. by rewrite Hsel.
Qed.

(** *** A call *)

Context `{!NodeChannelLaws Ch W}.

(** The registry lists no address twice. *)
Hypothesis discover_distinct : forall ch svc w rn ch' c' rsp w',
  channel_call parseDiscover ch (lit "minirpc.registry.RegistryService.Discover")
    (serializeDiscover svc) None (Mini RpcController_new) (mkDiscover 0 [] []) w
  = Some (rn, ch', c', rsp, w') ->
  controllerFailed c' = false -> NoDup (map nodeKeyOf (nodes rsp)).

(** The ring always has virtual nodes. *)
Definition virtual_ok (l : LoadBalanceChannel) : Prop :=
  0 < virtualNodesPerNode_ (consistentHash_ l).

Definition ready (l : LoadBalanceChannel) : Prop := lb_inv l /\ virtual_ok l.

Lemma new_ready a svc ty ri ct cr : ready (LoadBalanceChannel_new a svc ty ri ct cr).
Proof.
  split; [|unfold virtual_ok; cbn; lia].
  split; [constructor|]. split; [done|]. split; [done|]. done.
Qed.

Lemma refreshNodes_ready l w ok l' w' :
  ready l -> refreshNodes l w = Some (ok, l', w') ->
  ready l' /\ failedNodeKey_ l' = failedNodeKey_ l /\ serviceName_ l' = serviceName_ l /\
  balanceType_ l' = balanceType_ l.
Proof.
  intros [Hi Hv]. unfold refreshNodes.
  destruct (channel_call _ _ _ _ _ _ _ _) as [[[[[rn ch] c] rsp] w1]|] eqn:Hc; [|done].
  destruct (controllerFailed c) eqn:Hf; [by intros [= _ <- _]|].
  destruct (now w1) as [t w2]. intros [= _ <- _]. split; [|done].
  split; [|exact Hv]. split; [by apply (discover_distinct _ _ _ _ _ _ _ _ Hc)|].
  split; [done|]. split; [apply Hi|]. intros _. by eexists.
Qed.

Lemma channelFor_ready l k :
  ready l -> ready (channelFor l k).2 /\ nodes_ (channelFor l k).2 = nodes_ l.
Proof. intros Hr. unfold channelFor. by destruct (channels_ l !! k). Qed.

Lemma keys_nonempty l : [] ∈ keys l -> False.
Proof.
  unfold keys. intros Hin%list_elem_of_In. apply in_map_iff in Hin as (n & Hn & _).
  unfold nodeKeyOf in Hn. by destruct (node_host n).
Qed.

(** *** What a call does, in terms of the policies *)

(** The node list the node is chosen from: the one known, or the registry's when that one is empty
    or old. *)
Definition refreshed (l : LoadBalanceChannel) (w : W) : option (LoadBalanceChannel * W) :=
  let '(stale, w) := needRefresh l w in
  if stale then match refreshNodes l w with Some (_, l, w) => Some (l, w) | None => None end
  else Some (l, w).

(** The node for a request: the ring's for its bytes, or the next in turn; and the turn after it. *)
Definition policy_key (l : LoadBalanceChannel) (req : bytes) : option bytes :=
  match balanceType_ l, req with
  | kConsistentHash, _ :: _ => Some (selectNode std_hash (consistentHash_ l) req)
  | _, _ => keys l !! Z.to_nat (index_ (roundRobin_ l) mod Z.of_nat (length (nodes_ l)))
  end.
Definition chosen (l : LoadBalanceChannel) (req : bytes) : LoadBalanceChannel :=
  match balanceType_ l, req with
  | kConsistentHash, _ :: _ => l
  | _, _ => set_rr l (mkRoundRobin (u64 (index_ (roundRobin_ l) + 1)) (length (nodes_ l)))
  end.

(** The channel of a node: the one it has, or a new one to its address. *)
Definition node_channel (l : LoadBalanceChannel) (key : bytes) : Ch :=
  default (make_channel (key_address key) (callTimeoutMs_ l) (callRetries_ l)) (channels_ l !! key).

(** The call leads to a refresh of the list, before another attempt or as the last step. *)
Definition broken (l : LoadBalanceChannel) (c : Controller) : bool :=
  controllerFailed c && connection_level c && (1 <? length (nodes_ l)).

(** The state after a call on [key] that was the last: that of the channel, or the refreshed one;
    [last]: no attempt was left. *)
Definition ends (last : bool) (l : LoadBalanceChannel) (key : bytes) (ch : Ch) (c : Controller) (w : W)
    (o : Outcome) : Prop :=
  let l := set_channel l key ch in
  if broken l c then
    exists ok, refreshNodes (set_failed l key) w = Some (ok, lb o, oc_world o) /\
      (last = true \/ length (nodes_ (lb o)) <= 1)
  else lb o = l /\ oc_world o = w.

(** How a call on the balanced channel ends: no node; one call, on the node of the policy; or two,
    the second on another node of the refreshed list, after the first, on the node of the policy,
    failed on the level of the connection. *)
Inductive lb_post (name req : bytes) (d : option closure) (c : Controller) (m : Msg)
    (l : LoadBalanceChannel) (w : W) (o : Outcome) : Prop :=
| post_no_node l1 w1 :
    refreshed l w = Some (l1, w1) -> nodes_ l1 = [] ->
    o = mkOutcome (option_list d) [] l1
          (failController (resetController c) kNoService
             (lit "no available node for service: " ++ serviceName_ l1)) m w1 ->
    lb_post name req d c m l w o
| post_one l1 w1 k ch w2 :
    refreshed l w = Some (l1, w1) -> policy_key l1 req = Some k -> k ∈ keys l1 ->
    channel_call ParseFromString (node_channel l1 k) name req d (resetController c) m w1
      = Some (option_list d, ch, oc_ctrl o, oc_resp o, w2) ->
    ran o = option_list d -> called o = [k] ->
    ends (if d then true else false) (chosen l1 req) k ch (oc_ctrl o) w2 o ->
    lb_post name req d c m l w o
| post_retried l1 w1 k1 ch1 c1 m1 w2 ok l2 w3 k2 ch2 w4 rr :
    refreshed l w = Some (l1, w1) -> policy_key l1 req = Some k1 -> k1 ∈ keys l1 -> d = None ->
    channel_call ParseFromString (node_channel l1 k1) name req None (resetController c) m w1
      = Some ([], ch1, c1, m1, w2) ->
    broken l1 c1 = true ->
    refreshNodes (set_failed (set_channel (chosen l1 req) k1 ch1) k1) w2 = Some (ok, l2, w3) ->
    2 <= length (nodes_ l2) -> k2 ∈ keys l2 -> k2 <> k1 ->
    channel_call ParseFromString (node_channel l2 k2) name req None c1 m1 w3
      = Some ([], ch2, oc_ctrl o, oc_resp o, w4) ->
    ran o = [] -> called o = [k1; k2] ->
    ends true (set_rr l2 rr) k2 ch2 (oc_ctrl o) w4 o ->
    lb_post name req d c m l w o.

(** The node an attempt calls. *)
Definition target (attempt : nat) (l : LoadBalanceChannel) (hashKey : bytes) :
    bytes * LoadBalanceChannel :=
  if attempt =? 0 then selectNodeKey l hashKey else selectNodeKeyForRetry l (failedNodeKey_ l).

Lemma channelFor_node l k :
  (channelFor l k).1 = node_channel l k /\
  forall ch, set_channel (channelFor l k).2 k ch = set_channel l k ch.
Proof.
  unfold channelFor, node_channel. destruct (channels_ l !! k); [done|]. split; [done|]. intros ch.
  unfold set_channel. cbn. by rewrite insert_insert_eq.
Qed.

(** One attempt: a call on its node, then the end, or a refreshed list with two nodes or more and
    the next attempt. *)
Lemma attempts_step n a name req hk d o o' :
  attempts (S n) a name req hk d o = Some o' ->
  let key := (target a (lb o) hk).1 in
  let l := (target a (lb o) hk).2 in
  exists ch c m w,
    channel_call ParseFromString (node_channel l key) name req d (oc_ctrl o) (oc_resp o) (oc_world o)
      = Some (option_list d, ch, c, m, w) /\
    ((ran o' = ran o ++ option_list d /\ called o' = called o ++ [key] /\ oc_ctrl o' = c /\ oc_resp o' = m /\
      ends (n =? 0) l key ch c w o') \/
     (broken l c = true /\ exists ok l2 w2,
        refreshNodes (set_failed (set_channel l key ch) key) w = Some (ok, l2, w2) /\
        2 <= length (nodes_ l2) /\ 0 < n /\
        attempts n (S a) name req hk d
          (mkOutcome (ran o ++ option_list d) (called o ++ [key]) l2 c m w2) = Some o')).
Proof.
  cbn [attempts]. fold (target a (lb o) hk). destruct (target a (lb o) hk) as [key l]. cbn [fst snd].
  destruct (channelFor_node l key) as [Hch Hset]. destruct (channelFor l key) as [ch0 l0]. cbn [fst snd] in *. subst ch0.
  destruct (channel_call _ (node_channel l key) _ _ _ _ _ _) as [[[[[rn ch] c] m] w]|] eqn:Hc; [|done].
  pose proof (call_done _ _ _ _ _ _ _ _ _ _ _ _ _ _ Hc) as ->.
  intros Hrun. exists ch, c, m, w. split; [done|]. revert Hrun. rewrite Hset. unfold ends, broken. cbn zeta.
  change (nodes_ (set_channel l key ch)) with (nodes_ l).
  destruct (controllerFailed c); cbn [negb andb]; [|by intros [= <-]; left].
  destruct (connection_level c); cbn [negb andb]; [|by intros [= <-]; left].
  destruct (Nat.leb_spec (length (nodes_ l)) 1), (Nat.ltb_spec 1 (length (nodes_ l))); try lia;
    [by intros [= <-]; left|].
  destruct (refreshNodes _ w) as [[[ok l2] w2]|] eqn:Href; [|done].
  destruct (Nat.leb_spec (length (nodes_ l2)) 1).
  { intros [= <-]. left. cbn. do 4 (split; [done|]). exists ok. auto. }
  destruct n as [|n].
  - cbn [attempts]. intros [= <-]. left. cbn. do 4 (split; [done|]). exists ok. auto.
  - intros Hrun. right. split; [done|]. exists ok, l2, w2. repeat split; try done; lia.
Qed.

(** The choice of the node is the policy's. *)
Lemma select_policy l req :
  lb_inv l -> nodes_ l <> [] ->
  let hk := match balanceType_ l with kConsistentHash => req | kRoundRobin => [] end in
  policy_key l req = Some (selectNodeKey l hk).1 /\ (selectNodeKey l hk).2 = chosen l req.
Proof.
  intros Hi Hne. cbn zeta. destruct (nextKey_spec l Hi Hne) as (i & _ & -> & Hk & Hl).
  pose proof (selectNodeKey_in l req Hi Hne) as [Hin _]. revert Hin. unfold selectNodeKey, policy_key, chosen.
  destruct (nodes_ l) eqn:Hn; [done|]. rewrite <- Hn in *.
  destruct (balanceType_ l), req as [|x req]; try (intros _; by split). intros Hin.
  destruct (selectNode _ _ _) as [|y key] eqn:Hs; [|by split].
  exfalso. destruct Hi as (_ & _ & _ & Hh). destruct (Hh Hne) as (v & Hv & Hch).
  destruct (selectNode_clockwise_exists std_hash (ConsistentHash_new v) (keys l) (x :: req))
    as (node & j & Hnode & _ & Hsel & _); [unfold keys; by rewrite Hn|done|].
  rewrite <- Hch, Hs in Hsel. subst node. by eapply keys_nonempty.
Qed.

(** A retry only turns the round robin. *)
Lemma retry_rr l f : exists rr, (selectNodeKeyForRetry l f).2 = set_rr l rr.
Proof.
  unfold selectNodeKeyForRetry. assert (Hid : l = set_rr l (roundRobin_ l)) by (by destruct l).
  destruct (nodes_ l); [by eexists|]. generalize (length (n :: l0)). intros k. clear n l0.
  assert (Hgen : forall k rr0, exists rr, (retry_loop k f (set_rr l rr0)).2 = set_rr l rr).
  { clear. intros k. induction k as [|k IH]; intros rr0; cbn [retry_loop]; [by eexists|].
    unfold nextKey. destruct (next _) as [i rr1]. case_decide; [|by eexists]. apply (IH rr1). }
  rewrite Hid. apply Hgen.
Qed.

Lemma retry_ready l f : ready l -> nodes_ l <> [] -> ready (selectNodeKeyForRetry l f).2.
Proof.
  intros [Hi Hv] Hne. unfold selectNodeKeyForRetry. destruct (nodes_ l) eqn:Hn; [done|].
  rewrite <- Hn in *. split; [by apply retry_loop_inv|].
  revert Hv. clear -Hn. generalize (length (nodes_ l)). intros k. revert l Hn.
  induction k as [|k IH]; intros l Hn Hv; cbn [retry_loop]; [done|].
  destruct (nextKey l) as [key l1] eqn:Hk. unfold nextKey in Hk.
  destruct (next (roundRobin_ l)) as [i rr]. injection Hk as _ <-. case_decide; [|done].
  by apply IH.
Qed.

Lemma select_ready l hk : ready l -> nodes_ l <> [] -> ready (selectNodeKey l hk).2.
Proof.
  intros [Hi Hv] Hne. split; [by apply selectNodeKey_in|]. unfold selectNodeKey.
  assert (Hnext : virtual_ok (nextKey l).2)
    by (unfold nextKey; by destruct (next (roundRobin_ l))).
  destruct (nodes_ l); [done|]. destruct (balanceType_ l); [done|]. destruct hk; [done|].
  by destruct (selectNode _ _ _).
Qed.

(** The end of the last call leaves the channel ready. *)
Lemma ends_ready last l k ch c w o : ready l -> ends last l k ch c w o -> ready (lb o).
Proof.
  intros Hr. unfold ends. cbn zeta. destruct (broken _ _); [|by intros [-> _]].
  intros (ok & Href & _). by apply refreshNodes_ready in Href as [? _].
Qed.

(** The attempts on a non-empty list. *)
Lemma attempts_post name req d c m l w l1 w1 o :
  refreshed l w = Some (l1, w1) -> ready l1 -> nodes_ l1 <> [] ->
  attempts (match d with Some _ => 1 | None => 2 end) 0 name req
    (match balanceType_ l1 with kConsistentHash => req | kRoundRobin => [] end) d
    (mkOutcome [] [] l1 (resetController c) m w1) = Some o ->
  ran o = option_list d /\ ready (lb o) /\ lb_post name req d c m l w o.
Proof.
  intros Href Hr Hne. set (hk := match balanceType_ l1 with kConsistentHash => req | kRoundRobin => [] end).
  destruct (select_policy l1 req (proj1 Hr) Hne) as [Hkey Hcho]. fold hk in Hkey, Hcho.
  destruct (selectNodeKey_in l1 hk (proj1 Hr) Hne) as [Hin _].
  pose proof (select_ready l1 hk Hr Hne) as Hrc.
  assert (Hchan : forall k, node_channel (selectNodeKey l1 hk).2 k = node_channel l1 k)
    by (intros k; rewrite Hcho; unfold chosen; by destruct (balanceType_ l1), req).
  assert (Hbr : forall c1, broken (selectNodeKey l1 hk).2 c1 = broken l1 c1)
    by (intros c1; rewrite Hcho; unfold chosen; by destruct (balanceType_ l1), req).
  replace (match d with Some _ => 1 | None => 2 end)
    with (S (match d with Some _ => 0 | None => 1 end)) by (by destruct d).
  intros (ch & c1 & m1 & w2 & Hc & Hrun)%attempts_step. cbn [target Nat.eqb lb oc_ctrl oc_resp oc_world ran called] in *.
  rewrite Hchan in Hc. set (k := (selectNodeKey l1 hk).1) in *.
  destruct Hrun as [(Hran & Hcl & <- & <- & Hend)|(Hbroken & ok & l2 & w3 & Hrf & Hlen & Hpos & Hrun)].
  { split; [done|]. split; [by eapply ends_ready|]. rewrite Hcho in Hend.
    apply (post_one _ _ _ _ _ _ _ _ l1 w1 k ch w2); try done. by destruct d. }
  destruct d as [d|]; [lia|]. rewrite Hbr in Hbroken.
  assert (Hr2 : ready l2 /\ failedNodeKey_ l2 = k).
  { apply refreshNodes_ready in Hrf as (? & Hf & _); [by rewrite Hf|exact Hrc]. }
  destruct Hr2 as [Hr2 Hf]. assert (Hne2 : nodes_ l2 <> []) by (intros Hx; rewrite Hx in Hlen; cbn in Hlen; lia).
  destruct (retry_different l2 k (proj1 Hr2) Hlen) as [Hdiff Hin2]. destruct (retry_rr l2 k) as [rr Hrr].
  pose proof (retry_ready l2 k Hr2 Hne2) as Hrd2.
  apply attempts_step in Hrun as (ch2 & c2 & m2 & w4 & Hc2 & Hrun).
  cbn [target Nat.eqb lb oc_ctrl oc_resp oc_world ran called] in *. rewrite Hf in *.
  destruct Hrun as [(Hran & Hcl & <- & <- & Hend)|(_ & _ & _ & _ & _ & _ & Hpos2 & _)]; [|lia].
  split; [done|]. split; [by eapply ends_ready|]. rewrite Hrr in Hend, Hc2. rewrite Hcho in Hrf.
  by apply (post_retried _ _ _ _ _ _ _ _ l1 w1 k ch c1 m1 w2 ok l2 w3 (selectNodeKeyForRetry l2 k).1 ch2 w4 rr).
Qed.

(** ** Theorems *)

(** C22. A balanced call goes where the policy says and is retried at most once, elsewhere, and only
    after a connection-level failure. When the registry lists no address twice, a call that
    returns has run [done] exactly once if it was given, leaves the channel ready, and from the
    list it knew, or refreshed because it was empty or old, either found no node and failed with
    [kNoService] without calling; or made the request to one node, that of the ring for its bytes
    or the next in turn; or, without [done], made it there first, that call failed with [kClosed],
    [kSystem] or [kTimeout], the list was refreshed, and the request was made once more, to another
    node of the refreshed list. The outcome is that of the last call. *)
Theorem balanced_call (name req : bytes) (d : option closure) (c : Controller) (m : Msg)
  (l : LoadBalanceChannel) (w : W) (o : Outcome)
  (Hready : ready l)
  (Hret : CallMethod name req d c m l w = Some o) :
  ran o = option_list d /\ ready (lb o) /\ lb_post name req d c m l w o.
Proof.
  assert (Href : exists l1 w1, refreshed l w = Some (l1, w1) /\ ready l1 /\
    match nodes_ l1 with
    | [] => o = mkOutcome (option_list d) [] l1 (failController (resetController c) kNoService
                  (lit "no available node for service: " ++ serviceName_ l1)) m w1
    | _ => attempts (match d with Some _ => 1 | None => 2 end) 0 name req
             (match balanceType_ l1 with kConsistentHash => req | kRoundRobin => [] end) d
             (mkOutcome [] [] l1 (resetController c) m w1) = Some o
    end).
  { unfold CallMethod in Hret. unfold refreshed. destruct (needRefresh l w) as [stale w1].
    destruct stale; [destruct (refreshNodes l w1) as [[[ok l1] w2]|] eqn:Hr; [|done]; exists l1, w2|exists l, w1].
    - split; [done|]. split; [by apply refreshNodes_ready in Hr as [? _]|].
      destruct (nodes_ l1); [by injection Hret as <-|]. by destruct (balanceType_ l1).
    - split; [done|]. split; [done|]. destruct (nodes_ l); [by injection Hret as <-|]. by destruct (balanceType_ l). }
  destruct Href as (l1 & w1 & Hr & Hr1 & Hret1). destruct (nodes_ l1) as [|n0 ns] eqn:Hn.
  { subst o. split; [done|]. split; [done|]. by eapply post_no_node. }
  apply (attempts_post name req d c m l w l1 w1); try done. by rewrite Hn.
Qed.

(** The address of a node survives the trip through its key: the channel made for the key of
    a discovered node connects to that node's host and port, a port above 65535 being taken
    modulo 65536. *)
Theorem channelFor_address (l : LoadBalanceChannel) (n : NodeInfo)
  (Hport : (0 <= node_port n < 2 ^ 31)%Z) (Hnew : channels_ l !! nodeKeyOf n = None) :
  (channelFor l (nodeKeyOf n)).1
  = make_channel (InetAddress_of_ip host inet_pton (node_host n) (u16 (node_port n)))
      (callTimeoutMs_ l) (callRetries_ l) /\
  channels_ (channelFor l (nodeKeyOf n)).2 !! nodeKeyOf n = Some (channelFor l (nodeKeyOf n)).1.
Proof.
  unfold channelFor. rewrite Hnew. cbn [fst snd channels_ set_channel].
  split; [|by rewrite lookup_insert, decide_True].
  unfold key_address, nodeKeyOf. cbn [lit String.list_ascii_of_string app].
  rewrite rfind_app by (apply to_string_no_char; [lia|done]).
  rewrite take_app_length, Nat.add_1_r, drop_app_ge by lia.
  replace (S (length (node_host n)) - length (node_host n)) with 1 by lia.
  change (drop 1 (":"%char :: to_string (node_port n))) with (to_string (node_port n)).
  by rewrite atoi_to_string.
Qed.

(** A request sticks to its node: under consistent hashing, a call with a non-empty request
    goes to the ring's node for these bytes, one of the discovered nodes, whatever was called
    before, and leaves the round-robin counter alone. *)
Theorem consistent_hash_sticks (l : LoadBalanceChannel) (rr : RoundRobin) (hashKey : bytes)
  (Hready : ready l) (Hnodes : nodes_ l <> [])
  (Htype : balanceType_ l = kConsistentHash) (Hkey : hashKey <> []) :
  selectNodeKey (set_rr l rr) hashKey
  = (selectNode std_hash (setNodes std_hash (consistentHash_ l) (keys l)) hashKey, set_rr l rr) /\
  selectNode std_hash (setNodes std_hash (consistentHash_ l) (keys l)) hashKey ∈ keys l.
Proof.
  destruct Hready as [(_ & _ & _ & Hh) _]. destruct (Hh Hnodes) as (v & Hv & Hch).
  destruct (selectNode_clockwise_exists std_hash (consistentHash_ l) (keys l) hashKey)
    as (nd & i & Hin & _ & Hsel & _); [unfold keys; by destruct (nodes_ l)|by rewrite Hch|].
  rewrite Hsel. split; [|done].
  assert (Hsame : setNodes std_hash (consistentHash_ l) (keys l) = consistentHash_ l)
    by (by rewrite Hch).
  rewrite Hsame in Hsel. unfold selectNodeKey.
  cbn [set_rr set_nodes nodes_ balanceType_ consistentHash_].
  destruct (nodes_ l) eqn:Hn; [done|]. rewrite Htype, Hsel. destruct hashKey; [done|].
  destruct nd; [|done]. by apply keys_nonempty in Hin.
Qed.

End LoadBalanceChannel.
End LB.

(** ** Witnesses *)

Module LBSamples.
Import LB.

(** Channels that play a script: each call fails with a code, or delivers a payload. *)
Abbreviation script := (list (option ErrorCode * bytes)).

#[export] Instance scripted : NodeChannel sockaddr_in script := {
  make_channel a _ _ := a;
  channel_call Msg parse ch _ _ d c m w :=
    match w with
    | [] => Some (option_list d, ch, resetController c, m, [])
    | (Some code, text) :: w =>
        Some (option_list d, ch, failController (resetController c) code text, m, w)
    | (None, payload) :: w =>
        let '(ok, m) := parse payload in
        Some (option_list d, ch,
              if ok : bool then resetController c
              else failController (resetController c) kUnknown (lit "bad response payload"), m, w)
    end;
}.

#[export] Instance scripted_laws : NodeChannelLaws sockaddr_in script.
Proof.
  split; intros Msg parse ch name req d c m w ran ch' c' m' w'; cbn [channel_call scripted].
  - destruct w as [|[[code|] b] w]; [by intros [= <-]|by intros [= <-]|].
    destruct (parse b) as [ok m1]. by intros [= <-].
  - destruct w as [|[[code|] b] w].
    + intros [= _ _ <- _ _]. by destruct c.
    + intros [= _ _ <- _ _]. by destruct c.
    + destruct (parse b) as [[] m1]; intros [= _ _ <- _ _]; by destruct c.
Qed.

Definition n1 : NodeInfo := mkNode (lit "one") (lit "10.0.0.1") 9001.
Definition n2 : NodeInfo := mkNode (lit "two") (lit "10.0.0.2") 9002.

(** The registry's answers: both nodes, only the second, or none. *)
Definition parse_nodes (b : bytes) : bool * DiscoverResponse :=
  (true, mkDiscover 0 []
    (if decide (b = lit "both") then [n1; n2] else if decide (b = lit "second") then [n2] else [])).

Definition clock0 (w : script) : Z * script := (0%Z, w).
Definition no_pton (_ : bytes) : option Z := None.
Definition raw (b : bytes) : bool * bytes := (true, b).

Lemma parse_nodes_distinct b : NoDup (map nodeKeyOf (nodes (parse_nodes b).2)).
Proof.
  unfold parse_nodes. cbn [snd nodes].
  repeat case_decide; apply (bool_decide_unpack (NoDup _)); by vm_compute.
Qed.

Lemma discover_distinct ch svc w rn ch' c' rsp w' :
  channel_call parse_nodes ch (lit "minirpc.registry.RegistryService.Discover") svc None
    (Mini RpcController_new) (mkDiscover 0 [] []) w = Some (rn, ch', c', rsp, w') ->
  controllerFailed c' = false -> NoDup (map nodeKeyOf (nodes rsp)).
Proof.
  cbn [channel_call scripted]. destruct w as [|[[code|] b] w].
  - intros Heq _. simplify_eq. apply NoDup_nil_2.
  - intros Heq Hf. by simplify_eq.
  - intros Heq _. pose proof (parse_nodes_distinct b) as Hb.
    destruct (parse_nodes b) as [ok r]. by simplify_eq.
Qed.

Definition start (ty : BalanceType) : LoadBalanceChannel :=
  LoadBalanceChannel_new (Ch := sockaddr_in) (W := script) (mkSockaddr AF_INET 0 0) (lit "calc")
    ty 3000 2000 1.

Abbreviation lb_call ty d w :=
  (CallMethod LittleEndian no_pton sample_hash clock0 (fun s => s) parse_nodes raw
     (lit "Calc.Add") (lit "x") d (Mini RpcController_new) [] (start ty) w).

(** The first node times out, the second answers. *)
Definition retry_script : script :=
  [(None, lit "both"); (Some kTimeout, lit "late"); (None, lit "both"); (None, lit "sum")].

Lemma balanced_call_witness :
  exists o, lb_call kRoundRobin None retry_script = Some o /\
    called o = [lit "10.0.0.1:9001"; lit "10.0.0.2:9002"] /\ oc_resp o = lit "sum" /\
    ran o = option_list None.
Proof.
  assert (Hchk : match lb_call kRoundRobin None retry_script with
                 | Some o => called o = [lit "10.0.0.1:9001"; lit "10.0.0.2:9002"] /\
                             oc_resp o = lit "sum"
                 | None => False
                 end) by (vm_compute; repeat split).
  destruct (lb_call kRoundRobin None retry_script) as [o|] eqn:Hret; [|destruct Hchk].
  exists o. split; [reflexivity|]. split; [apply Hchk|]. split; [apply Hchk|].
  apply (balanced_call LittleEndian no_pton sample_hash clock0 (fun s => s) parse_nodes raw
           discover_distinct (lit "Calc.Add") (lit "x") None (Mini RpcController_new) []
           (start kRoundRobin) retry_script o); [apply new_ready|exact Hret].
Defined.

Lemma channelFor_address_witness :
  (channelFor LittleEndian no_pton (start kRoundRobin) (nodeKeyOf n1)).1
  = InetAddress_of_ip LittleEndian no_pton (lit "10.0.0.1") (u16 9001).
Proof.
  assert (Hport : (0 <= node_port n1 < 2 ^ 31)%Z) by (cbn; lia).
  exact (proj1 (channelFor_address LittleEndian no_pton (start kRoundRobin) n1 Hport eq_refl)).
Defined.

(** The channel after it discovered both nodes. *)
Definition discovered : LoadBalanceChannel :=
  set_nodes (start kConsistentHash) [n1; n2] (setNodeCount RoundRobin_new 2)
    (setNodes sample_hash (ConsistentHash_new 100) (map nodeKeyOf [n1; n2])) 5.

Lemma discovered_ready : ready sample_hash discovered.
Proof.
  split; [|unfold virtual_ok; cbn; lia]. split.
  - exact (parse_nodes_distinct (lit "both")).
  - split; [done|]. split; [done|]. intros _. exists 100. split; [lia|done].
Qed.

Lemma consistent_hash_sticks_witness :
  selectNodeKey sample_hash (set_rr discovered (mkRoundRobin 77 2)) (lit "x")
  = (selectNode sample_hash
       (setNodes sample_hash (consistentHash_ discovered) (keys discovered)) (lit "x"),
     set_rr discovered (mkRoundRobin 77 2)).
Proof.
  apply (consistent_hash_sticks sample_hash discovered (mkRoundRobin 77 2) (lit "x")
           discovered_ready); [discriminate|reflexivity|discriminate].
Defined.

(** A healthy node is not tried when it is the only one left: two nodes are known, the first
    closes the connection, the refreshed list holds only the second, and the call fails with
    [kClosed] without calling it. *)
Theorem single_survivor_not_tried :
  match lb_call kRoundRobin None
          [(None, lit "both"); (Some kClosed, lit "gone"); (None, lit "second"); (None, lit "sum")]
  with
  | Some o =>
      called o = [nodeKeyOf n1] /\ nodes_ (lb o) = [n2] /\
      oc_ctrl o = Mini (SetFailedCode RpcController_new kClosed (lit "gone")) /\
      oc_world o = [(None, lit "sum")]
  | None => False
  end.
Proof. vm_compute. repeat split. Qed.

(** An empty request does not stick: under consistent hashing two calls in a row with no
    request bytes go to different nodes. *)
Theorem empty_request_not_sticky :
  let '(k1, l1) := selectNodeKey sample_hash discovered [] in
  let '(k2, _) := selectNodeKey sample_hash l1 [] in
  k1 = nodeKeyOf n1 /\ k2 = nodeKeyOf n2.
Proof. vm_compute. split; reflexivity. Qed.

End LBSamples.
