(* ===== verification/ServiceNode.v ===== *)
(** [minirpc::RpcServiceNode] (include/minirpc/rpc/RpcServiceNode.h, src/rpc/RpcServiceNode.cpp):
    what a service node tells the registry over its life, and what the registry then shows. *)
From stdpp Require Import base list gmap strings numbers sorting.
From Stdlib Require Import Ascii ZArith Lia.
From S2P Require Import Prelude Bytes Common Controller Inet Registry.

(** ** Interface: the registry's stub *)

(** A call of [RegistryService::Stub] that a node makes. *)
Inductive RegistryCall :=
| StubRegister (svc : bytes) (n : NodeInfo)
| StubUnregister (svc : bytes) (n : NodeInfo)
| StubHeartbeat (svc : bytes) (n : NodeInfo).

(** The call on a channel to the address with a timeout and retries: the caller's controller and
    response afterwards. *)
Class RegistryStub (W : Type) :=
  stub_call : sockaddr_in -> Z -> Z -> RegistryCall -> W -> (RpcController * StatusResponse) * W.

Section RpcServiceNode.
Context (host : endian) {W : Type} `{RegistryStub W}.

Record RpcServiceNode := mkServiceNode {
  listenAddr_ : sockaddr_in;
  nodeName_ : bytes;
  registryAddr_ : sockaddr_in;
  serviceName_ : bytes;
  heartbeatIntervalMs_ : Z;
  heartbeatTimeoutMs_ : Z;
  stop_ : bool;
  heartbeatThread_ : bool;
}.

Definition RpcServiceNode_new (listenAddr : sockaddr_in) (nodeName : bytes)
    (registryAddr : sockaddr_in) (serviceName : bytes)
    (heartbeatIntervalMs heartbeatTimeoutMs : Z) : RpcServiceNode :=
  mkServiceNode listenAddr nodeName registryAddr serviceName heartbeatIntervalMs
    heartbeatTimeoutMs false false.

(** The node as every request names it. *)
Definition self (s : RpcServiceNode) : NodeInfo :=
  mkNode (nodeName_ s) (lit "127.0.0.1") (port host (listenAddr_ s)).

Definition registerSelf (s : RpcServiceNode) (w : W) : W :=
  (stub_call (registryAddr_ s) 1000 1 (StubRegister (serviceName_ s) (self s)) w).2.

Definition unregisterSelf (s : RpcServiceNode) (w : W) : W :=
  (stub_call (registryAddr_ s) 1000 1 (StubUnregister (serviceName_ s) (self s)) w).2.

(** One turn of [heartbeatLoop]: a failed call is only logged, and the response is not looked
    at. *)
Definition heartbeat_turn (s : RpcServiceNode) (w : W) : W :=
  (stub_call (registryAddr_ s) (heartbeatTimeoutMs_ s ÷ 2 + 200) 1
     (StubHeartbeat (serviceName_ s) (self s)) w).2.

(** [heartbeatLoop], the values its test of [stop_] reads being given (it runs until it reads
    [true]). *)
Fixpoint heartbeatLoop (stops : list bool) (s : RpcServiceNode) (w : W) : W :=
  match stops with
  | [] | true :: _ => w
  | false :: stops => heartbeatLoop stops s (heartbeat_turn s w)
  end.

(** [start], after [server_.start()]; the heartbeat thread then runs [heartbeatLoop]. *)
Definition start (s : RpcServiceNode) (w : W) : RpcServiceNode * W :=
  let w := registerSelf s w in
  (mkServiceNode (listenAddr_ s) (nodeName_ s) (registryAddr_ s) (serviceName_ s)
     (heartbeatIntervalMs_ s) (heartbeatTimeoutMs_ s) (stop_ s) true, w).

(** [stopHeartbeat] returns when the thread has ended. *)
Definition stopHeartbeat (s : RpcServiceNode) : RpcServiceNode :=
  mkServiceNode (listenAddr_ s) (nodeName_ s) (registryAddr_ s) (serviceName_ s)
    (heartbeatIntervalMs_ s) (heartbeatTimeoutMs_ s) true false.

Definition shutdown (s : RpcServiceNode) (w : W) : RpcServiceNode * W :=
  let s := stopHeartbeat s in (s, unregisterSelf s w).

End RpcServiceNode.

(** ** The registry at the other end *)

(** The registry, reached by every call at the next of the given times; at the last one's when
    they are used up. *)
Record served := mkServed { times : list Z; registry : Registry; log : list (Z * event) }.

Definition event_of (c : RegistryCall) : event :=
  match c with
  | StubRegister svc n => EvRegister svc n
  | StubUnregister svc n => EvUnregister svc n
  | StubHeartbeat svc n => EvHeartbeat svc n
  end.

Definition answer (t : Z) (c : RegistryCall) (r : Registry) : StatusResponse :=
  match c with
  | StubRegister svc n => (Register t svc n None r).1.1
  | StubUnregister svc n => (Unregister svc n None r).1.1
  | StubHeartbeat svc n => (Heartbeat t svc n None r).1.1
  end.

#[export] Instance direct : RegistryStub served := fun _ _ _ c w =>
  let '(t, ts) := match times w with [] => (0%Z, []) | t :: ts => (t, ts) end in
  ((RpcController_new, answer t c (registry w)),
   mkServed ts (step (registry w) (t, event_of c)) (log w ++ [(t, event_of c)])).

Section Served.
Context (host : endian).

(** The heartbeats of a loop of [k] turns at the given times. *)
Definition beats (s : RpcServiceNode) (ts : list Z) : list (Z * event) :=
  map (fun t => (t, EvHeartbeat (serviceName_ s) (self host s))) ts.

Lemma heartbeatLoop_log s ts ts' r lg :
  heartbeatLoop host (replicate (length ts) false) s (mkServed (ts ++ ts') r lg)
  = mkServed ts' (run r (beats s ts)) (lg ++ beats s ts).
Proof.
  revert r lg. induction ts as [|t ts IH]; intros r lg; cbn [length replicate app heartbeatLoop].
  { cbn. by rewrite app_nil_r. }
  unfold heartbeat_turn, stub_call, direct. cbn [times snd registry log event_of].
  rewrite IH. cbn. by rewrite <- app_assoc.
Qed.

(** Heartbeats not further apart than the timeout, from [last] on. *)
Fixpoint regular (timeout last : Z) (ts : list Z) : bool :=
  match ts with
  | [] => true
  | t :: ts => (t - last <=? timeout * 1000000)%Z && regular timeout t ts
  end.

(** The time of the last heartbeat. *)
Definition last_beat (last : Z) (ts : list Z) : Z := fold_left (fun _ t => t) ts last.

Lemma beats_in_time s timeout last ts :
  regular timeout last ts = true ->
  in_time (serviceName_ s) (nodeKey (self host s)) timeout last (beats s ts) = true /\
  last_heard (serviceName_ s) (nodeKey (self host s)) last (beats s ts) = last_beat last ts.
Proof.
  revert last. induction ts as [|t ts IH]; intros last; cbn [regular beats map]; [done|].
  intros [Ht Hr]%andb_true_iff. destruct (IH t Hr) as [Hi Hl].
  cbn [in_time last_heard removes refreshes]. rewrite bool_decide_eq_true_2 by done.
  rewrite Ht. cbn [negb andb]. by fold (beats s ts).
Qed.

Lemma beats_typed s ts : Forall event_typed (beats s ts).
Proof. apply Forall_map, Forall_true. done. Qed.

Lemma self_typed s : fits 16 (port host (listenAddr_ s)) -> node_typed (self host s).
Proof. unfold node_typed, fits. cbn. lia. Qed.

(** ** Theorems *)

Section Theorems.
Context (iterate : ServiceMap -> list (bytes * NodeEntry)).
Hypothesis iterate_perm : forall m, iterate m ≡ₚ map_to_list m.

(** The node is listed by a discovery of its service at [t]. *)
Definition listed (s : RpcServiceNode) (t : Z) (r : Registry) : Prop :=
  exists n, n ∈ nodes (Discover iterate t (serviceName_ s) None r).1.1 /\
            nodeKey n = nodeKey (self host s).

Lemma life_listed s r t0 ts t :
  fits 16 (port host (listenAddr_ s)) -> inv r -> regular (heartbeatTimeout_ r) t0 ts = true ->
  (t - last_beat t0 ts <= heartbeatTimeout_ r * 1000000)%Z ->
  let r' := run (step r (t0, EvRegister (serviceName_ s) (self host s))) (beats s ts) in
  inv r' /\ listed s t r'.
Proof.
  intros Hport Hinv Hregular Ht. cbn zeta.
  set (r1 := step r (t0, EvRegister (serviceName_ s) (self host s))).
  assert (Hi1 : inv (run r1 (beats s ts))).
  { apply run_inv; [apply beats_typed|]. apply step_inv; [by apply self_typed|done]. }
  split; [done|]. destruct (beats_in_time s (heartbeatTimeout_ r) t0 ts Hregular) as [Hin Hlast].
  destruct (run_in_time (serviceName_ s) (nodeKey (self host s)) r1 (beats s ts)
              (mkEntry (self host s) t0)) as (e & He & Hl).
  { subst r1. cbn [step]. by rewrite entry_register, decide_True. }
  { subst r1. by rewrite step_timeout. }
  cbn [lastHeartbeat] in Hl. rewrite Hlast in Hl.
  destruct (proj2 Hi1 _ _ _ He) as [Hk _]. exists (node e). split; [|done].
  apply discover_entry; [done|done|]. exists e. rewrite <- Hk. split; [done|]. split; [done|].
  apply Z.ltb_ge. subst r1. by rewrite Hl, run_timeout, step_timeout.
Qed.

Lemma life_unlisted s r t1 t' :
  inv r -> ~ listed s t' (step r (t1, EvUnregister (serviceName_ s) (self host s))).
Proof.
  intros Hinv (n & Hn & Hk).
  apply discover_entry in Hn as (e & He & _); [|done|by apply (step_inv _ (t1, EvUnregister _ _))].
  cbn [step] in He. by rewrite entry_unregister, decide_True in He.
Qed.

(** A node is discoverable from its start to its shutdown: it registers at [t0] and sends
    heartbeats at [ts] that come within the registry's timeout of each other; it is listed at
    any [t] within the timeout of the last one, and no longer once it has shut down. *)
Theorem node_life (s : RpcServiceNode) (r : Registry) (t0 t t1 : Z) (ts : list Z)
  (Hport : fits 16 (port host (listenAddr_ s))) (Hinv : inv r)
  (Hregular : regular (heartbeatTimeout_ r) t0 ts = true)
  (Ht : (t - last_beat t0 ts <= heartbeatTimeout_ r * 1000000)%Z) :
  let '(s1, w1) := start host s (mkServed (t0 :: ts ++ [t1]) r []) in
  let w2 := heartbeatLoop host (replicate (length ts) false) s1 w1 in
  let '(_, w3) := shutdown host s1 w2 in
  listed s t (registry w2) /\ forall t', ~ listed s t' (registry w3).
Proof.
  unfold start, registerSelf, stub_call, direct. cbn [times snd registry log event_of app].
  rewrite heartbeatLoop_log. unfold shutdown, unregisterSelf, stub_call, direct.
  cbn [times snd registry log event_of serviceName_ stopHeartbeat].
  set (s1 := mkServiceNode _ _ _ _ _ _ _ _).
  change (beats s1 ts) with (beats s ts). change (self host (stopHeartbeat s1)) with (self host s).
  destruct (life_listed s r t0 ts t Hport Hinv Hregular Ht) as [Hi Hl]. split; [done|].
  intros t'. by apply life_unlisted.
Qed.

(** An evicted node never comes back: whatever the number and the times of the heartbeats a
    running node sends once the registry has dropped it, no discovery lists it, because the loop
    ignores the registry's answer and never registers again. *)
Theorem evicted_node_stays_out (s : RpcServiceNode) (r : Registry) (ts : list Z) (t : Z)
  (Hinv : inv r) (Hevicted : entry r (serviceName_ s) (nodeKey (self host s)) = None) :
  let w := heartbeatLoop host (replicate (length ts) false) s (mkServed (ts ++ []) r []) in
  ~ listed s t (registry w) /\
  Forall (fun ev => ev.2 = EvHeartbeat (serviceName_ s) (self host s)) (log w).
Proof.
  rewrite heartbeatLoop_log. cbn [registry log app]. split.
  - intros (n & Hn & Hk).
    apply discover_entry in Hn as (e & He & _); [|done|by apply run_inv; [apply beats_typed|]].
    rewrite Hk, run_stays_out in He; [done|done|].
    apply forallb_forall. intros ev Hev. apply in_map_iff in Hev as (t' & <- & _). done.
  - apply Forall_map, Forall_true. done.
Qed.

End Theorems.
End Served.

(** ** Witnesses *)

Module NodeSamples.
Import RegistrySamples.

Definition sample_node : RpcServiceNode :=
  RpcServiceNode_new (InetAddress_of_port LittleEndian 9001 true) (lit "one")
    (InetAddress_of_port LittleEndian 9000 true) calc 2000 6000.

Lemma sample_port : fits 16 (port LittleEndian (listenAddr_ sample_node)).
Proof. split; [discriminate|reflexivity]. Qed.

Lemma node_life_witness :
  let '(s1, w1) := start LittleEndian sample_node
                     (mkServed (ms 10 :: [ms 2010; ms 4010] ++ [ms 5000]) reg []) in
  let w2 := heartbeatLoop LittleEndian (replicate (length [ms 2010; ms 4010]) false) s1 w1 in
  let '(_, w3) := shutdown LittleEndian s1 w2 in
  listed LittleEndian it sample_node (ms 9000) (registry w2) /\
  forall t', ~ listed LittleEndian it sample_node t' (registry w3).
Proof.
  apply (node_life LittleEndian it it_perm sample_node reg (ms 10) (ms 9000) (ms 5000)
           [ms 2010; ms 4010] sample_port reg_inv).
  - vm_compute. reflexivity.
  - vm_compute. discriminate.
Defined.

Lemma evicted_node_stays_out_witness :
  let w := heartbeatLoop LittleEndian (replicate (length [ms 7000; ms 9000]) false) sample_node
             (mkServed ([ms 7000; ms 9000] ++ []) reg []) in
  ~ listed LittleEndian it sample_node (ms 9001) (registry w).
Proof.
  apply (evicted_node_stays_out LittleEndian it it_perm sample_node reg [ms 7000; ms 9000]
           (ms 9001) reg_inv).
  vm_compute. reflexivity.
Defined.

End NodeSamples.
