(* ===== verification/Heartbeat.v ===== *)
(** The heartbeat thread of rpc/RpcServiceNode (src/rpc/RpcServiceNode.cpp): the thread and the
    node's owner as one step system over a clock, and what their interleavings tell the
    registry ([ServiceNode] has the calls themselves). *)
From stdpp Require Import base list gmap strings numbers.
From Stdlib Require Import Ascii ZArith Lia.
From S2P Require Import Prelude Bytes Common Controller Inet Registry ServiceNode.

(** ** The threads *)

(** Where the heartbeat thread is: at the test of [stop_]; in the call, begun at a time; about to
    lock [cvMutex_]; in [wait_for] until a deadline, about to evaluate the predicate, about to
    block, or blocked; at its end. *)
Inductive heart :=
| HbTest
| HbCall (since : Z)
| HbLock
| HbPredicate (deadline : Z)
| HbBlocking (deadline : Z)
| HbAsleep (deadline : Z)
| HbDone.

(** Where the owner is: in none of the node's functions; in [stopHeartbeat] after [stop_ = true]
    or after [notify_all], called by [shutdown] or not; in [shutdown] after it. Assigning to a
    joinable [std::thread] ends the program. *)
Inductive owner :=
| Idle
| Notifying (shutting : bool)
| Joining (shutting : bool)
| Unregistering
| Terminated.

#[export] Instance heart_eq_dec : EqDecision heart.
Proof. solve_decision. Defined.
#[export] Instance owner_eq_dec : EqDecision owner.
Proof. solve_decision. Defined.

(** A call the registry has seen. *)
Inductive act := ARegister | ABeat | AUnregister.
#[export] Instance act_eq_dec : EqDecision act.
Proof. solve_decision. Defined.

Section Heartbeat.
Context (host : endian) {W : Type} `{RegistryStub W}.

(** The node, its thread ([HbDone] also before [start]), its owner, the clock and the world; with
    the history of the calls made and the times between which each heartbeat was under way, the
    last one first. *)
Record Beating := mkBeating {
  node_ : RpcServiceNode;
  thread : heart;
  owner_ : owner;
  clock : Z;
  world : W;
  acts : list act;
  calls : list (Z * Z);
}.

Definition Beating_new (n : RpcServiceNode) (t : Z) (w : W) : Beating :=
  mkBeating n HbDone Idle t w [] [].

Definition at_heart (s : Beating) (h : heart) : Beating :=
  mkBeating (node_ s) h (owner_ s) (clock s) (world s) (acts s) (calls s).
Definition at_owner (s : Beating) (o : owner) : Beating :=
  mkBeating (node_ s) (thread s) o (clock s) (world s) (acts s) (calls s).
Definition at_node (s : Beating) (n : RpcServiceNode) : Beating :=
  mkBeating n (thread s) (owner_ s) (clock s) (world s) (acts s) (calls s).
Definition acted (s : Beating) (w : W) (a : act) : Beating :=
  mkBeating (node_ s) (thread s) (owner_ s) (clock s) w (acts s ++ [a]) (calls s).

(** The interval as the clock counts. *)
Definition interval (n : RpcServiceNode) : Z := (heartbeatIntervalMs_ n * 1000000)%Z.

(** A turn of a thread: time passes; the heartbeat thread goes on, or wakes without a
    notification; the owner calls [start], calls [stopHeartbeat] (the destructor does) or
    [shutdown], or goes on in them. *)
Inductive beat_step :=
| Tick (ns : N)
| HeartGo
| HeartSpurious
| OwnerStart
| OwnerStop (shutting : bool)
| OwnerGo.

(** The heartbeat thread's next action. *)
Definition heart_go (s : Beating) : option Beating :=
  match thread s with
  | HbTest => Some (at_heart s (if stop_ (node_ s) then HbDone else HbCall (clock s)))
  | HbCall since =>
      let s := acted s (heartbeat_turn host (node_ s) (world s)) ABeat in
      Some (mkBeating (node_ s) HbLock (owner_ s) (clock s) (world s) (acts s)
              ((since, clock s) :: calls s))
  | HbLock => Some (at_heart s (HbPredicate (clock s + interval (node_ s))))
  | HbPredicate d => Some (at_heart s (if stop_ (node_ s) then HbTest else HbBlocking d))
  | HbBlocking d => Some (at_heart s (HbAsleep d))
  | HbAsleep d => if (d <=? clock s)%Z then Some (at_heart s HbTest) else None
  | HbDone => None
  end.

(** [stop_ = true]. *)
Definition set_stop (n : RpcServiceNode) : RpcServiceNode :=
  mkServiceNode (listenAddr_ n) (nodeName_ n) (registryAddr_ n) (serviceName_ n)
    (heartbeatIntervalMs_ n) (heartbeatTimeoutMs_ n) true (heartbeatThread_ n).

(** [cv_.notify_all()]: a blocked thread evaluates its predicate again. *)
Definition notify (h : heart) : heart :=
  match h with HbAsleep d => HbPredicate d | h => h end.

Definition owner_go (s : Beating) : option Beating :=
  match owner_ s with
  | Notifying b => Some (at_owner (at_heart s (notify (thread s))) (Joining b))
  | Joining b =>
      let next := if b then Unregistering else Idle in
      if heartbeatThread_ (node_ s) then
        match thread s with
        | HbDone => Some (at_owner (at_node s (stopHeartbeat (node_ s))) next)
        | _ => None
        end
      else Some (at_owner s next)
  | Unregistering =>
      Some (at_owner (acted s (unregisterSelf host (node_ s) (world s)) AUnregister) Idle)
  | Idle | Terminated => None
  end.

(** [start]: assigning to a joinable [heartbeatThread_] is the end of the program. *)
Definition owner_start (s : Beating) : Beating :=
  let '(n, w) := start host (node_ s) (world s) in
  let s1 := acted s w ARegister in
  if heartbeatThread_ (node_ s) then at_owner s1 Terminated else at_heart (at_node s1 n) HbTest.

Definition beat_exec (s : Beating) (l : beat_step) : option Beating :=
  match l, owner_ s with
  | _, Terminated => None
  | Tick ns, _ =>
      Some (mkBeating (node_ s) (thread s) (owner_ s) (clock s + Z.of_N ns) (world s) (acts s)
              (calls s))
  | HeartGo, _ => heart_go s
  | HeartSpurious, _ =>
      match thread s with HbAsleep d => Some (at_heart s (HbPredicate d)) | _ => None end
  | OwnerStart, Idle => Some (owner_start s)
  | OwnerStop b, Idle => Some (at_owner (at_node s (set_stop (node_ s))) (Notifying b))
  | (OwnerStart | OwnerStop _), _ => None
  | OwnerGo, _ => owner_go s
  end.

(** ** What the registry sees *)

(** The effect of a call. *)
Definition do_act (n : RpcServiceNode) (w : W) (a : act) : W :=
  match a with
  | ARegister => registerSelf host n w
  | ABeat => heartbeat_turn host n w
  | AUnregister => unregisterSelf host n w
  end.

(** The calls depend on the fields the constructor set only. *)
Definition same_identity (n n' : RpcServiceNode) : Prop :=
  listenAddr_ n = listenAddr_ n' /\ nodeName_ n = nodeName_ n' /\
  registryAddr_ n = registryAddr_ n' /\ serviceName_ n = serviceName_ n' /\
  heartbeatIntervalMs_ n = heartbeatIntervalMs_ n' /\
  heartbeatTimeoutMs_ n = heartbeatTimeoutMs_ n'.

Lemma do_act_same n n' w a : same_identity n n' -> do_act n w a = do_act n' w a.
Proof.
  intros (H1 & H2 & H3 & H4 & H5 & H6).
  destruct a; cbn; unfold registerSelf, heartbeat_turn, unregisterSelf, self;
    by rewrite H1, H2, H3, H4, ?H6.
Qed.

(** The end of the last heartbeat, the first of [calls]. *)
Definition last_end (calls : list (Z * Z)) : option Z := option_map snd (head calls).

(** A time not before an interval after the last heartbeat. *)
Definition due (gap : Z) (calls : list (Z * Z)) (t : Z) : Prop :=
  match last_end calls with Some e => (e + gap <= t)%Z | None => True end.

Lemma interval_same n n' : same_identity n n' -> interval n' = interval n.
Proof. intros (_ & _ & _ & _ & H5 & _). unfold interval. by rewrite H5. Qed.

(** Heartbeats, each of them begun an interval after the end of the one before. *)
Fixpoint spaced (gap : Z) (calls : list (Z * Z)) : Prop :=
  match calls with
  | [] => True
  | (b, e) :: rest => (b <= e)%Z /\ due gap rest b /\ spaced gap rest
  end.

(** The calls of a node's life: registration, [k] heartbeats, then what is not a heartbeat; or no
    heartbeat at all. *)
Definition bracketed (l : list act) (k : nat) (post : list act) : Prop :=
  (l = ARegister :: replicate k ABeat ++ post \/ k = 0 /\ l = post) /\ ABeat ∉ post.

(** ** The invariant *)

(** What the place of the thread says about the times. *)
Definition heart_inv (s : Beating) : Prop :=
  let gap := interval (node_ s) in
  match thread s with
  | HbTest => stop_ (node_ s) = false -> due gap (calls s) (clock s)
  | HbCall b => (b <= clock s)%Z /\ due gap (calls s) b
  | HbLock => due 0 (calls s) (clock s)
  | HbPredicate d | HbBlocking d | HbAsleep d => due gap (calls s) d /\ (d <= clock s + gap)%Z
  | HbDone => True
  end.

Record beat_inv (n0 : RpcServiceNode) (w0 : W) (s : Beating) : Prop := {
  bi_node : same_identity n0 (node_ s);
  bi_world : world s = fold_left (do_act n0) (acts s) w0;
  bi_acts : exists post, bracketed (acts s) (length (calls s)) post /\
              (post <> [] -> owner_ s = Terminated \/
                 (stop_ (node_ s) = true /\ forall b, thread s <> HbCall b));
  bi_begun : heartbeatThread_ (node_ s) = true -> acts s <> [];
  bi_fresh : heartbeatThread_ (node_ s) = false -> stop_ (node_ s) = false -> acts s = [];
  bi_joined : heartbeatThread_ (node_ s) = false -> thread s = HbDone;
  bi_owner : match owner_ s with
             | Idle | Terminated => True
             | Notifying _ | Joining _ => stop_ (node_ s) = true
             | Unregistering => stop_ (node_ s) = true /\ heartbeatThread_ (node_ s) = false
             end;
  bi_heart : heart_inv s;
  bi_spaced : spaced (interval (node_ s)) (calls s);
}.

Lemma bracketed_beat l k : bracketed l k [] -> l <> [] -> bracketed (l ++ [ABeat]) (S k) [].
Proof.
  intros [[->|[-> ->]] Hn] Hl; [|done]. split; [left|done]. cbn [app]. f_equal.
  by rewrite !app_nil_r, <- replicate_cons_app.
Qed.

Lemma bracketed_snoc l k post a :
  a <> ABeat -> bracketed l k post -> bracketed (l ++ [a]) k (post ++ [a]).
Proof.
  intros Ha [Hl Hn]. split; [|by rewrite elem_of_app, list_elem_of_singleton; naive_solver].
  destruct Hl as [->|[-> ->]]; [left|by right]. cbn [app]. by rewrite app_assoc.
Qed.

Lemma due_later gap l t t' : (t <= t')%Z -> due gap l t -> due gap l t'.
Proof. unfold due. destruct (last_end l); lia. Qed.

Lemma fold_acts n n' l w a :
  same_identity n n' -> fold_left (do_act n) (l ++ [a]) w = do_act n' (fold_left (do_act n) l w) a.
Proof. intros Hn. rewrite fold_left_app. cbn. by apply do_act_same. Qed.

(** The heartbeat thread going on. *)
Lemma heart_go_inv n0 w0 s s' :
  owner_ s <> Terminated -> beat_inv n0 w0 s -> heart_go s = Some s' -> beat_inv n0 w0 s'.
Proof.
  intros Ho [Hn Hw (post & Hb & Hp) Hbe Hf Hj How Hh Hs]. unfold heart_go.
  unfold heart_inv in Hh. destruct (thread s) as [|b| |d|d|d|] eqn:Ht; [..|done].
  2: { assert (Hpost : post = []).
       { destruct post; [done|]. destruct Hp as [?|[_ Hc]]; [done|done|by destruct (Hc b)]. }
       subst post. assert (Hjt : heartbeatThread_ (node_ s) = true).
       { destruct (heartbeatThread_ (node_ s)) eqn:?; [done|]. by specialize (Hj eq_refl). }
       intros [= <-]. cbn in *. split; cbn; try done.
       - by rewrite (fold_acts n0 (node_ s)), Hw.
       - exists []. split; [|done]. apply bracketed_beat; auto.
       - intros _. by destruct (acts s).
       - intros Hj'. congruence.
       - intros Hj'. congruence.
       - unfold due. cbn. lia.
       - destruct Hh as [? ?]. by repeat split. }
  all: try (destruct (Z.leb_spec d (clock s)); [|done]); intros [= <-];
    assert (Hjt : heartbeatThread_ (node_ s) = true)
      by (destruct (heartbeatThread_ (node_ s)); [done|]; by specialize (Hj eq_refl)).
  all: split; cbn [node_ thread owner_ clock world acts calls at_heart]; try done;
    try (by intros ?; congruence).
  all: try (exists post; split; [done|]; intros Hne; destruct (Hp Hne) as [?|[Hst Hc]]; [by left|right];
            split; [done|]; intros b'; rewrite ?Hst; done).
  all: unfold heart_inv; cbn [node_ thread owner_ clock world acts calls at_heart].
  - destruct (stop_ (node_ s)) eqn:Hst; [done|]. split; [lia|]. by apply Hh.
  - split; [|lia]. unfold due in *. destruct (last_end (calls s)); lia.
  - destruct (stop_ (node_ s)) eqn:Hst; done.
  - intros _. eapply due_later; [|apply Hh]. lia.
Qed.

Lemma owner_go_inv n0 w0 s s' : beat_inv n0 w0 s -> owner_go s = Some s' -> beat_inv n0 w0 s'.
Proof.
  intros [Hn Hw (post & Hb & Hp) Hbe Hf Hj How Hh Hs]. unfold owner_go.
  destruct (owner_ s) as [|b|b| |] eqn:Ho; [done| | | |done].
  - intros [= <-]. split; cbn; try done.
    + exists post. split; [done|]. intros Hne. destruct (Hp Hne) as [?|[Hst Hc]]; [done|right].
      split; [done|]. intros b'. destruct (thread s) eqn:Ht; cbn; try done; by specialize (Hc b').
    + intros Hj'. by rewrite Hj.
    + unfold heart_inv in *. cbn in *. by destruct (thread s).
  - destruct (heartbeatThread_ (node_ s)) eqn:Hjt.
    + destruct (thread s) eqn:Ht; try done. intros [= <-]. split; cbn; try done.
      * exists post. split; [done|]. intros Hne. right.
        split; [done|]. intros b'. by rewrite Ht.
      * by destruct b.
      * unfold heart_inv. cbn. by rewrite Ht.
    + intros [= <-]. split; cbn; try done.
      * exists post. split; [done|]. intros Hne. destruct (Hp Hne) as [?|?]; [done|by right].
      * by intros Hj'; congruence.
      * intros _ ?. congruence.
      * intros _. by apply Hj.
      * destruct b; cbn; [by split|done].
  - destruct How as [Hst Hjt]. intros [= <-]. split; cbn; try done.
    + by rewrite (fold_acts n0 (node_ s)), Hw.
    + exists (post ++ [AUnregister]). split; [by apply bracketed_snoc|]. intros _. right.
      split; [done|]. intros b. by rewrite (Hj Hjt).
    + intros _. by destruct (acts s).
    + intros _ ?. congruence.
Qed.

Lemma owner_start_inv n0 w0 s : owner_ s = Idle -> beat_inv n0 w0 s -> beat_inv n0 w0 (owner_start s).
Proof.
  intros Hos [Hn Hw (post & Hb & Hp) Hbe Hf Hj How Hh Hsp]. unfold owner_start, start.
  destruct (heartbeatThread_ (node_ s)) eqn:Hjt.
  - split; cbn; try done.
    + by rewrite (fold_acts n0 (node_ s)), Hw.
    + exists (post ++ [ARegister]). split; [by apply bracketed_snoc|]. by left.
    + intros _. by destruct (acts s).
    + by intros ?; congruence.
    + by intros ?; congruence.
  - split; cbn; try done.
    + by rewrite (fold_acts n0 (node_ s)), Hw.
    + destruct (stop_ (node_ s)) eqn:Hst.
      * exists (post ++ [ARegister]). split; [by apply bracketed_snoc|]. by right.
      * exists []. rewrite (Hf eq_refl eq_refl) in *. split; [|done].
        destruct Hb as [[?|[-> _]] _]; [done|]. split; [by left|by intros ?%elem_of_nil].
    + intros _. by destruct (acts s).
    + by rewrite Hos.
    + unfold heart_inv. cbn. intros Hst. rewrite (Hf eq_refl Hst) in Hb.
      destruct Hb as [[?|[Hk _]] _]; [done|]. by destruct (calls s).
Qed.

(** The clock going on, and a wake-up without a notification. *)
Lemma tick_inv n0 w0 s ns :
  beat_inv n0 w0 s ->
  beat_inv n0 w0 (mkBeating (node_ s) (thread s) (owner_ s) (clock s + Z.of_N ns) (world s) (acts s)
                    (calls s)).
Proof.
  intros [Hn Hw Ha Hbe Hf Hj How Hh Hsp]. split; try done. unfold heart_inv in *. cbn in *.
  destruct (thread s); try done; repeat split; try (apply Hh || (eapply due_later; [|apply Hh])); try lia.
  intros Hst. eapply due_later; [|by apply Hh]. lia.
Qed.

Lemma spurious_inv n0 w0 s d :
  thread s = HbAsleep d -> beat_inv n0 w0 s -> beat_inv n0 w0 (at_heart s (HbPredicate d)).
Proof.
  intros Ht [Hn Hw (post & Hb & Hp) Hbe Hf Hj How Hh Hsp]. split; cbn; try done.
  - exists post. split; [done|]. intros Hne. destruct (Hp Hne) as [?|[? _]]; [by left|by right].
  - intros Hjt. by rewrite (Hj Hjt) in Ht.
  - unfold heart_inv in *. by rewrite Ht in Hh.
Qed.

Lemma owner_stop_inv n0 w0 s b :
  owner_ s = Idle -> beat_inv n0 w0 s ->
  beat_inv n0 w0 (at_owner (at_node s (set_stop (node_ s))) (Notifying b)).
Proof.
  intros Hos [Hn Hw (post & Hb & Hp) Hbe Hf Hj How Hh Hsp]. split; cbn; try done.
  - exists post. split; [done|]. intros Hne. destruct (Hp Hne) as [?|[_ Hc]]; [congruence|by right].
  - unfold heart_inv in *. cbn. by destruct (thread s).
Qed.

Lemma beat_exec_inv n0 w0 s l s' : beat_inv n0 w0 s -> beat_exec s l = Some s' -> beat_inv n0 w0 s'.
Proof.
  intros Hi. destruct (decide (owner_ s = Terminated)) as [Ho|Ho].
  { unfold beat_exec. rewrite Ho. by destruct l. }
  unfold beat_exec. destruct l as [ns| | | |b|].
  - destruct (owner_ s) eqn:Hos; intros [= <-]; rewrite <- ?Hos; try by apply tick_inv.
  - intros Hs. apply (heart_go_inv n0 w0 s s' Ho Hi). by destruct (owner_ s).
  - destruct (owner_ s), (thread s) eqn:Ht; intros [= <-]; try done; by apply spurious_inv.
  - destruct (owner_ s) eqn:Hos; intros [= <-]. by apply owner_start_inv.
  - destruct (owner_ s) eqn:Hos; intros [= <-]. by apply owner_stop_inv.
  - intros Hs. apply (owner_go_inv n0 w0 s s' Hi). by destruct (owner_ s).
Qed.

(** A node as constructed. *)
Definition fresh_node (n : RpcServiceNode) : Prop := stop_ n = false /\ heartbeatThread_ n = false.

Lemma beating_inv n t w ls s :
  fresh_node n -> Beating_new n t w =[ beat_exec | ls ]=> s -> beat_inv n w s.
Proof.
  intros [Hst Hth] Hrun.
  refine (steps_inv beat_exec (beat_inv n w) (Beating_new n t w) ls s
            (fun s l s' Hi Hs => beat_exec_inv n w s l s' Hi Hs) _ Hrun).
  split; cbn; try done.
  - exists []. split; [|done]. split; [by right|by intros ?%elem_of_nil].
  - congruence.
Qed.

(** ** Stopping *)

Definition heart_step (l : beat_step) : bool :=
  match l with HeartGo | HeartSpurious => true | _ => false end.

(** The steps the thread has left once it is told to stop. *)
Definition heart_left (h : heart) : nat :=
  match h with
  | HbDone => 0 | HbTest => 1 | HbPredicate _ => 2 | HbAsleep _ | HbLock => 3
  | HbBlocking _ | HbCall _ => 4
  end.

(** The heartbeats it still makes. *)
Definition calls_left (h : heart) : nat := match h with HbCall _ => 1 | _ => 0 end.

Lemma stopping_step s l s' :
  l <> OwnerStart -> stop_ (node_ s) = true -> beat_exec s l = Some s' ->
  stop_ (node_ s') = true /\
  (if heart_step l then 1 else 0) + heart_left (thread s') <= heart_left (thread s) /\
  length (calls s') + calls_left (thread s') <= length (calls s) + calls_left (thread s).
Proof.
  intros Hl Hst. unfold beat_exec, owner_start, owner_go, heart_go.
  destruct l, (owner_ s) eqn:Ho; try done; try (intros [= <-]; cbn; rewrite ?Hst; lia).
  all: destruct (thread s) eqn:Ht; try done; repeat case_match; try done; intros [= <-]; simplify_eq;
    cbn; rewrite ?Ht, ?Hst; cbn; repeat split; try done; lia.
Qed.

Lemma stopped_steps ls s s' :
  OwnerStart ∉ ls -> stop_ (node_ s) = true -> s =[ beat_exec | ls ]=> s' ->
  length (List.filter heart_step ls) + heart_left (thread s') <= heart_left (thread s) /\
  length (calls s') + calls_left (thread s') <= length (calls s) + calls_left (thread s).
Proof.
  revert s. induction ls as [|l ls IH]; intros s Hl Hst; cbn [steps].
  { intros [= <-]. cbn. lia. }
  apply not_elem_of_cons in Hl as [Hl Hls]. destruct (beat_exec s l) as [s1|] eqn:Hs; [|done].
  intros Hrun. destruct (stopping_step s l s1 (not_eq_sym Hl) Hst Hs) as (Hst1 & H1 & H2).
  destruct (IH s1 Hls Hst1 Hrun) as [H3 H4]. cbn [List.filter].
  destruct (heart_step l); cbn [length]; lia.
Qed.

(** The thread, told to stop, run to its end: it may first wait for its deadline. *)
Definition drain (s : Beating) : list beat_step :=
  let wait d := Tick (Z.to_N (d - clock s)) in
  match thread s with
  | HbDone => []
  | HbTest => [HeartGo]
  | HbPredicate _ => [HeartGo; HeartGo]
  | HbLock => [HeartGo; HeartGo; HeartGo]
  | HbCall _ => [HeartGo; HeartGo; HeartGo; HeartGo]
  | HbBlocking d => [HeartGo; wait d; HeartGo; HeartGo]
  | HbAsleep d => [wait d; HeartGo; HeartGo]
  end.

Lemma drain_run n0 w0 s :
  beat_inv n0 w0 s -> owner_ s <> Terminated -> stop_ (node_ s) = true ->
  exists s', s =[ beat_exec | drain s ]=> s' /\ thread s' = HbDone /\ owner_ s' = owner_ s /\
    stop_ (node_ s') = true /\ (clock s' <= clock s + Z.max 0 (interval (node_ s)))%Z.
Proof.
  intros Hi Ho Hst. pose proof (bi_heart _ _ _ Hi) as Hh. unfold heart_inv in Hh. unfold drain.
  destruct s as [n h o c w a cs]. cbn [node_ thread owner_ clock] in *.
  destruct h as [|b| |d|d|d|]; destruct o; try done; cbn; rewrite ?Hst; cbn; rewrite ?Hst; cbn;
    rewrite ?Hst;
    repeat match goal with |- context [(d <=? ?e)%Z] => rewrite (proj2 (Z.leb_le d e)) by lia end;
    cbn; rewrite ?Hst;
    (eexists; split; [reflexivity|]; cbn; repeat split; try done; lia).
Qed.

(** The owner, run to the end of its call once the thread has ended. *)
Lemma owner_returns s :
  thread s = HbDone -> owner_ s <> Terminated ->
  exists ls s', s =[ beat_exec | ls ]=> s' /\ owner_ s' = Idle /\ thread s' = HbDone /\
    clock s' = clock s.
Proof.
  intros Ht Ho. destruct s as [n h o c w a cs]. cbn in *. subst h.
  destruct o as [|[]|[]| |]; try done; [by exists [], (mkBeating n HbDone Idle c w a cs)|..].
  1: exists [OwnerGo; OwnerGo; OwnerGo]. 2: exists [OwnerGo; OwnerGo].
  3: exists [OwnerGo; OwnerGo]. 4: exists [OwnerGo]. 5: exists [OwnerGo].
  all: cbn; destruct (heartbeatThread_ n); cbn; by eexists.
Qed.

(** An owner that waits for a thread asleep. *)
Lemma asleep_step s l s' d b :
  l <> HeartSpurious -> thread s = HbAsleep d -> owner_ s = Joining b ->
  heartbeatThread_ (node_ s) = true -> (clock s' < d)%Z -> beat_exec s l = Some s' ->
  thread s' = HbAsleep d /\ owner_ s' = Joining b /\ heartbeatThread_ (node_ s') = true /\
  (clock s <= clock s')%Z.
Proof.
  intros Hl Ht Ho Hj Hc. unfold beat_exec, heart_go, owner_go. rewrite Ho, Ht, Hj.
  destruct l; try done.
  - intros [= <-]. cbn in *. repeat split; try done. lia.
  - destruct (Z.leb_spec d (clock s)); [|done]. intros [= <-]. cbn in Hc. lia.
Qed.

Lemma clock_step s l s' : beat_exec s l = Some s' -> (clock s <= clock s')%Z.
Proof.
  unfold beat_exec, heart_go, owner_go, owner_start, start. repeat case_match; try done;
    intros [= <-]; cbn; try lia; destruct (heartbeatThread_ _); cbn; lia.
Qed.

Lemma asleep_steps ls s s' d b :
  HeartSpurious ∉ ls -> thread s = HbAsleep d -> owner_ s = Joining b ->
  heartbeatThread_ (node_ s) = true -> s =[ beat_exec | ls ]=> s' -> (clock s' < d)%Z ->
  owner_ s' = Joining b.
Proof.
  revert s. induction ls as [|l ls IH]; intros s Hl Ht Ho Hj; cbn [steps]; [by intros [= <-]|].
  apply not_elem_of_cons in Hl as [Hl Hls]. destruct (beat_exec s l) as [s1|] eqn:Hs; [|done].
  intros Hrun Hc. assert (Hle : (clock s1 <= clock s')%Z).
  { refine (steps_inv beat_exec (fun x => clock s1 <= clock x)%Z s1 ls s' _ (Z.le_refl _) Hrun).
    intros x l' y Hx Hy. pose proof (clock_step x l' y Hy). lia. }
  destruct (asleep_step s l s1 d b (not_eq_sym Hl) Ht Ho Hj) as (Ht1 & Ho1 & Hj1 & _); [lia|done|].
  by apply (IH s1).
Qed.

(** ** Theorems *)

Section Theorems.
Context (n : RpcServiceNode) (t : Z) (w : W).
Hypothesis fresh : fresh_node n.

(** C29. What the registry sees of a node, in any interleaving of its heartbeat thread with the
    [start], [stopHeartbeat], [shutdown] and destructor calls of its owner: the effect on the
    world is that of the calls made, one after the other; they are the registration, then the
    heartbeats, and no heartbeat follows an unregistration or a second registration; and each
    heartbeat begins at least an interval after the end of the one before. *)
Theorem registry_sees (ls : list beat_step) (s : Beating)
  (Hrun : Beating_new n t w =[ beat_exec | ls ]=> s) :
  world s = fold_left (do_act n) (acts s) w /\
  (exists post, bracketed (acts s) (length (calls s)) post) /\
  spaced (interval n) (calls s).
Proof.
  destruct (beating_inv n t w ls s fresh Hrun) as [Hn Hw (post & Hb & _) _ _ _ _ _ Hs].
  split; [done|]. split; [by exists post|]. by rewrite <- (interval_same _ _ Hn).
Qed.

(** C30. Stopping ends: once [stopHeartbeat] has set [stop_], the heartbeat thread takes at most four
    more steps and makes at most one more call, however the threads interleave, and the owner's
    call can always be run to its return, with no more than one interval on the clock. *)
Theorem stop_returns (ls : list beat_step) (s : Beating)
  (Hrun : Beating_new n t w =[ beat_exec | ls ]=> s)
  (Hstop : stop_ (node_ s) = true) (Halive : owner_ s <> Terminated) :
  (forall ls' s', OwnerStart ∉ ls' -> s =[ beat_exec | ls' ]=> s' ->
     length (List.filter heart_step ls') <= 4 /\ length (calls s') <= S (length (calls s))) /\
  exists ls' s', s =[ beat_exec | ls' ]=> s' /\ owner_ s' = Idle /\ thread s' = HbDone /\
    (clock s' <= clock s + Z.max 0 (interval n))%Z.
Proof.
  pose proof (beating_inv n t w ls s fresh Hrun) as Hi. split.
  - intros ls' s' Hls Hr. destruct (stopped_steps ls' s s' Hls Hstop Hr) as [H1 H2].
    split; [destruct (thread s)|destruct (thread s)]; cbn in *; lia.
  - destruct (drain_run n w s Hi Halive Hstop) as (s1 & Hr1 & Ht1 & Ho1 & Hst1 & Hc1).
    destruct (owner_returns s1) as (ls2 & s2 & Hr2 & Ho2 & Ht2 & Hc2); [done|congruence|].
    exists (drain s ++ ls2), s2. split; [apply steps_app; by exists s1|]. split; [done|].
    split; [done|]. by rewrite Hc2, <- (interval_same _ _ (bi_node _ _ _ Hi)).
Qed.

(** A notification can be missed: [stopHeartbeat] sets [stop_] without holding [cvMutex_], so
    [notify_all] can fall between the thread's test of the predicate and its going to sleep; the
    thread then sleeps on, and [join] does not return before the whole interval has passed or
    the thread wakes up by itself. *)
Theorem stop_waits_out_interval (shutting : bool) :
  exists (ls : list beat_step) (s : Beating), Beating_new n t w =[ beat_exec | ls ]=> s /\
    stop_ (node_ s) = true /\ owner_ s = Joining shutting /\
    forall ls' s', HeartSpurious ∉ ls' -> s =[ beat_exec | ls' ]=> s' ->
      (clock s' < clock s + interval n)%Z -> owner_ s' = Joining shutting.
Proof.
  destruct fresh as [Hst Hth].
  exists [OwnerStart; HeartGo; HeartGo; HeartGo; HeartGo; OwnerStop shutting; OwnerGo; HeartGo].
  destruct n as [a1 a2 a3 a4 a5 a6 st th]. cbn in Hst, Hth. subst st th. cbn.
  eexists. split; [reflexivity|]. cbn. split; [done|]. split; [done|].
  intros ls' s' Hsp Hr Hc.
  refine (asleep_steps ls' _ s' _ shutting Hsp _ _ _ Hr Hc); reflexivity.
Qed.

End Theorems.
End Heartbeat.

(** ** Witnesses *)

Module HeartbeatSamples.
Import RegistrySamples NodeSamples.

(** The node starts, beats twice an interval apart, and is shut down while it sleeps. *)
Definition life : list beat_step :=
  [OwnerStart; HeartGo; Tick 30%N; HeartGo; HeartGo; HeartGo; HeartGo;
   Tick (Z.to_N (ms 2000)); HeartGo; HeartGo; HeartGo; HeartGo; HeartGo; HeartGo; Tick 5%N;
   OwnerStop true; OwnerGo; HeartGo; HeartGo; OwnerGo; OwnerGo].

Definition before_life : Beating := Beating_new sample_node (ms 10) (mkServed [] reg []).
Definition living (k : nat) : Beating :=
  default before_life (steps (beat_exec LittleEndian) before_life (take k life)).

Lemma sample_fresh : fresh_node sample_node.
Proof. by split. Qed.

Lemma registry_sees_witness :
  acts (living 21) = [ARegister; ABeat; ABeat; AUnregister] /\
  owner_ (living 21) = Idle /\
  spaced (interval sample_node) (calls (living 21)).
Proof.
  split; [vm_compute; reflexivity|]. split; [vm_compute; reflexivity|].
  apply (registry_sees LittleEndian sample_node (ms 10) (mkServed [] reg []) sample_fresh
           (take 21 life) (living 21)).
  apply steps_default. vm_compute. reflexivity.
Defined.

Lemma stop_returns_witness :
  thread (living 16) = HbAsleep (ms 4010 + 30) /\
  exists ls' s', living 16 =[ beat_exec LittleEndian | ls' ]=> s' /\ owner_ s' = Idle /\
    thread s' = HbDone /\ (clock s' <= clock (living 16) + Z.max 0 (interval sample_node))%Z.
Proof.
  split; [vm_compute; reflexivity|].
  apply (stop_returns LittleEndian sample_node (ms 10) (mkServed [] reg []) sample_fresh
           (take 16 life) (living 16)).
  - apply steps_default. vm_compute. reflexivity.
  - vm_compute. reflexivity.
  - vm_compute. discriminate.
Defined.

Lemma stop_waits_out_interval_witness :
  exists (ls : list beat_step) (s : Beating),
    Beating_new sample_node (ms 10) (mkServed [] reg []) =[ beat_exec LittleEndian | ls ]=> s /\
    stop_ (node_ s) = true /\ owner_ s = Joining true /\
    forall ls' s', HeartSpurious ∉ ls' -> s =[ beat_exec LittleEndian | ls' ]=> s' ->
      (clock s' < clock s + ms 2000)%Z -> owner_ s' = Joining true.
Proof.
  exact (stop_waits_out_interval LittleEndian sample_node (ms 10) (mkServed [] reg []) sample_fresh
           true).
Defined.

End HeartbeatSamples.
