(* ===== verification/Poller.v ===== *)
(** [minirpc::Channel] (include/minirpc/net/Channel.h, src/net/Channel.cpp) and
    [minirpc::EpollPoller] (include/minirpc/net/EpollPoller.h, src/net/EpollPoller.cpp), over
    epoll's interest list as epoll_ctl(2) documents it. *)
From stdpp Require Import base list gmap strings numbers.
From Stdlib Require Import ZArith Lia.
From S2P Require Import Prelude.

(** ** sys/epoll.h *)

Definition EPOLLIN : Z := 0x001.
Definition EPOLLPRI : Z := 0x002.
Definition EPOLLOUT : Z := 0x004.
Definition EPOLLERR : Z := 0x008.
Definition EPOLLHUP : Z := 0x010.
Definition EPOLLRDHUP : Z := 0x2000.

(** ** Channel *)

Record Channel := mkChannel_ {
  ch_fd : Z;
  events_ : Z;
  revents_ : Z;
}.

Definition kNoneEvent : Z := 0.
Definition kReadEvent : Z := EPOLLIN.
Definition kWriteEvent : Z := EPOLLOUT.

Definition Channel_new (fd : Z) : Channel := mkChannel_ fd 0 0.

Definition set_events (c : Channel) (e : Z) : Channel := mkChannel_ (ch_fd c) e (revents_ c).
Definition setRevents (c : Channel) (r : Z) : Channel := mkChannel_ (ch_fd c) (events_ c) r.

Definition isNoneEvent (c : Channel) : bool := (events_ c =? kNoneEvent)%Z.
Definition isReading (c : Channel) : bool := negb (Z.land (events_ c) kReadEvent =? 0)%Z.
Definition isWriting (c : Channel) : bool := negb (Z.land (events_ c) kWriteEvent =? 0)%Z.

(** The new [events_] of the five calls; each is followed by [update()]. *)
Inductive interest_op := EnableReading | DisableReading | EnableWriting | DisableWriting | DisableAll.

Definition new_events (c : Channel) (o : interest_op) : Z :=
  match o with
  | EnableReading => Z.lor (events_ c) kReadEvent
  | DisableReading => Z.land (events_ c) (u32 (Z.lnot kReadEvent))
  | EnableWriting => Z.lor (events_ c) kWriteEvent
  | DisableWriting => Z.land (events_ c) (u32 (Z.lnot kWriteEvent))
  | DisableAll => kNoneEvent
  end.

(** The callbacks [handleEvent] runs, in order (all four are set on a connection's channel). *)
Inductive callback := CbRead | CbWrite | CbClose | CbError.
#[export] Instance callback_eq_dec : EqDecision callback.
Proof. solve_decision. Defined.

Definition has (r mask : Z) : bool := negb (Z.land r mask =? 0)%Z.

Definition handleEvent (c : Channel) : list callback :=
  let r := revents_ c in
  if has r EPOLLHUP && negb (has r EPOLLIN) then [CbClose]
  else
    (if has r EPOLLERR then [CbError] else []) ++
    (if has r (Z.lor (Z.lor EPOLLIN EPOLLPRI) EPOLLRDHUP) then [CbRead] else []) ++
    (if has r EPOLLOUT then [CbWrite] else []).

(** ** epoll_ctl *)

(** A [Channel*]. *)
Definition ptr : Type := nat.

Inductive epoll_op := EPOLL_CTL_ADD | EPOLL_CTL_MOD | EPOLL_CTL_DEL.

(** The interest list: the events and the data of each registered descriptor. [None] is a failed
    call: [EEXIST] for an [ADD] of a registered descriptor, [ENOENT] otherwise. *)
Definition epoll_ctl (l : gmap Z (Z * ptr)) (op : epoll_op) (fd : Z) (ev : Z * ptr) :
    option (gmap Z (Z * ptr)) :=
  match op, l !! fd with
  | EPOLL_CTL_ADD, None => Some (<[fd := ev]> l)
  | EPOLL_CTL_MOD, Some _ => Some (<[fd := ev]> l)
  | EPOLL_CTL_DEL, Some _ => Some (delete fd l)
  | _, _ => None
  end.

(** ** EpollPoller *)

Record EpollPoller := mkPoller {
  channels_ : gmap Z ptr;
  interest : gmap Z (Z * ptr);
  errors : nat;
}.

Definition EpollPoller_new : EpollPoller := mkPoller ∅ ∅ 0.

(** [update]; a failed call is logged. *)
Definition update (p : EpollPoller) (op : epoll_op) (c : Channel) (this : ptr) : EpollPoller :=
  match epoll_ctl (interest p) op (ch_fd c) (events_ c, this) with
  | Some l => mkPoller (channels_ p) l (errors p)
  | None => mkPoller (channels_ p) (interest p) (S (errors p))
  end.

Definition set_channels (p : EpollPoller) (m : gmap Z ptr) : EpollPoller :=
  mkPoller m (interest p) (errors p).

Definition updateChannel (p : EpollPoller) (c : Channel) (this : ptr) : EpollPoller :=
  let fd := ch_fd c in
  match channels_ p !! fd with
  | None =>
      if isNoneEvent c then p
      else update (set_channels p (<[fd := this]> (channels_ p))) EPOLL_CTL_ADD c this
  | Some _ =>
      if isNoneEvent c then
        let p := update p EPOLL_CTL_DEL c this in set_channels p (delete fd (channels_ p))
      else update p EPOLL_CTL_MOD c this
  end.

Definition removeChannel (p : EpollPoller) (c : Channel) (this : ptr) : EpollPoller :=
  let fd := ch_fd c in
  match channels_ p !! fd with
  | None => p
  | Some _ => let p := update p EPOLL_CTL_DEL c this in set_channels p (delete fd (channels_ p))
  end.

(** [fillActiveChannels]: what [epoll_wait] returned, as the channels to dispatch. *)
Definition fillActiveChannels (ready : list (Z * ptr)) (chans : gmap ptr Channel) :
    list ptr * gmap ptr Channel :=
  fold_left (fun '(active, chans) '(ev, p) =>
               (active ++ [p], alter (fun c => setRevents c ev) p chans)) ready ([], chans).

Definition EINTR : Z := 4.
(** [constexpr int kMaxEvents] *)
Definition kMaxEvents : nat := 1024.

(** What [epoll_wait] returned: an error number, or the ready events. *)
Inductive wait_outcome :=
| WaitErr (errno : Z)
| WaitOk (ready : list (Z * ptr)).

(** [poll]: the active channels, and whether an error was logged. *)
Definition poll (o : wait_outcome) (chans : gmap ptr Channel) :
    list ptr * gmap ptr Channel * bool :=
  match o with
  | WaitErr e => ([], chans, negb (e =? EINTR)%Z)
  | WaitOk ready => (fillActiveChannels ready chans, false)
  end.

(** ** The channels of a loop *)

(** The [Channel]s of one loop that exist, its poller, the open descriptors of the process, and the
    channels taken out by [remove()] and not changed since. *)
Record net := mkNet {
  chans : gmap ptr Channel;
  poller : EpollPoller;
  open_fds : gset Z;
  removed : gset ptr;
}.

Definition net_new : net := mkNet ∅ EpollPoller_new ∅ ∅.

(** [enableReading()] and the like on the channel [p]. *)
Definition change (n : net) (p : ptr) (o : interest_op) : net :=
  match chans n !! p with
  | None => n
  | Some c =>
      let c := set_events c (new_events c o) in
      mkNet (<[p := c]> (chans n)) (updateChannel (poller n) c p) (open_fds n) (removed n ∖ {[p]})
  end.

(** [remove()] on the channel [p]: its event set stays as it is. *)
Definition remove (n : net) (p : ptr) : net :=
  match chans n !! p with
  | None => n
  | Some c => mkNet (chans n) (removeChannel (poller n) c p) (open_fds n) ({[p]} ∪ removed n)
  end.

(** [~Channel] is the default: the poller and epoll are not told. *)
Definition destroy (n : net) (p : ptr) : net :=
  mkNet (delete p (chans n)) (poller n) (open_fds n) (removed n ∖ {[p]}).

(** [::close]: the kernel takes the descriptor out of the interest list; the poller's table stays. *)
Definition close_fd (n : net) (fd : Z) : net :=
  let po := poller n in
  mkNet (chans n) (mkPoller (channels_ po) (delete fd (interest po)) (errors po)) (open_fds n ∖ {[fd]}) (removed n).

(** [~EventLoop] disables the wakeup channel, removes it and closes its descriptor; the channel goes
    with the members. *)
Definition EventLoop_destroy (n : net) (p : ptr) (wakeupFd : Z) : net :=
  destroy (close_fd (remove (change n p DisableAll) p) wakeupFd) p.

(** [~TcpConnection] disables its channel, which is destroyed before the socket is closed. *)
Definition TcpConnection_destroy (n : net) (p : ptr) (fd : Z) : net :=
  close_fd (destroy (change n p DisableAll) p) fd.

(** [~TcpServer] is the default: the accept channel is destroyed as it is, then the socket closed. *)
Definition TcpServer_destroy (n : net) (p : ptr) (listenFd : Z) : net := close_fd (destroy n p) listenFd.

Inductive net_op :=
| OpOpen (fd : Z)
| OpCreate (p : ptr) (fd : Z)
| OpChange (p : ptr) (o : interest_op)
| OpRemove (p : ptr)
| OpDestroy (p : ptr)
| OpClose (fd : Z).

(** [None]: not possible. The kernel hands out descriptors that are not open; an object is made where
    none is, with an open descriptor that no other channel of the loop has; members are called on
    objects that exist, [update()] while the descriptor is open. *)
Definition net_exec (n : net) (o : net_op) : option net :=
  match o with
  | OpOpen fd =>
      if decide (fd ∈ open_fds n) then None
      else Some (mkNet (chans n) (poller n) ({[fd]} ∪ open_fds n) (removed n))
  | OpCreate p fd =>
      if bool_decide (chans n !! p = None /\ fd ∈ open_fds n /\ map_Forall (fun _ c => ch_fd c <> fd) (chans n))
      then Some (mkNet (<[p := Channel_new fd]> (chans n)) (poller n) (open_fds n) (removed n)) else None
  | OpChange p o =>
      match chans n !! p with
      | Some c => if decide (ch_fd c ∈ open_fds n) then Some (change n p o) else None
      | None => None
      end
  | OpRemove p => match chans n !! p with Some _ => Some (remove n p) | None => None end
  | OpDestroy p => match chans n !! p with Some _ => Some (destroy n p) | None => None end
  | OpClose fd => if decide (fd ∈ open_fds n) then Some (close_fd n fd) else None
  end.

(** A channel is destroyed, or its descriptor closed, only when it is out of the poller's table. *)
Definition unregistered_first (n : net) (o : net_op) : bool :=
  let out fd := bool_decide (channels_ (poller n) !! fd = None) in
  match o with
  | OpDestroy p => match chans n !! p with Some c => out (ch_fd c) | None => true end
  | OpClose fd => out fd
  | _ => true
  end.
Fixpoint tidy (n : net) (os : list net_op) : bool :=
  match os with
  | [] => true
  | o :: os => unregistered_first n o && match net_exec n o with Some n => tidy n os | None => true end
  end.

(** ** Invariant *)

(** The channel [p] has the descriptor [fd] and waits for the events [e]. *)
Definition waiting (n : net) (fd e : Z) (p : ptr) : Prop :=
  exists c, chans n !! p = Some c /\ ch_fd c = fd /\ events_ c = e /\ e <> 0%Z /\ p ∉ removed n.

(** The poller and the kernel know exactly the channels that wait for something, with the events
    they wait for, and no call to [epoll_ctl] has failed. *)
Definition mirror (n : net) : Prop :=
  errors (poller n) = 0 /\
  (forall p q c d, chans n !! p = Some c -> chans n !! q = Some d -> ch_fd c = ch_fd d -> p = q) /\
  (forall fd, channels_ (poller n) !! fd = snd <$> (interest (poller n) !! fd)) /\
  (forall fd e p, interest (poller n) !! fd = Some (e, p) <-> waiting n fd e p).

Lemma mirror_new : mirror net_new.
Proof.
  split; [done|]. split; [intros p q c d H; cbn in H; by rewrite lookup_empty in H|].
  split; [intros fd; cbn; by rewrite !lookup_empty|].
  intros fd e p. cbn. rewrite lookup_empty. split; [done|].
  intros (c & Hc & _). cbn in Hc. by rewrite lookup_empty in Hc.
Qed.

(** What [updateChannel] does, whichever of its branches it takes. *)
Definition registered (fd e : Z) (p : ptr) (po : EpollPoller) : EpollPoller :=
  if (e =? 0)%Z
  then mkPoller (delete fd (channels_ po)) (delete fd (interest po)) (errors po)
  else mkPoller (<[fd := p]> (channels_ po)) (<[fd := (e, p)]> (interest po)) (errors po).

Lemma updateChannel_registered n p c o :
  mirror n -> chans n !! p = Some c ->
  updateChannel (poller n) (set_events c (new_events c o)) p
  = registered (ch_fd c) (new_events c o) p (poller n).
Proof.
  intros (_ & Huniq & Hch & Hint) Hc. unfold updateChannel, isNoneEvent, registered, update.
  destruct n as [cs [cm il er] fds rm]. cbn [poller chans channels_ interest errors] in *.
  cbn [ch_fd events_ set_events]. pose proof (Hch (ch_fd c)) as Hf.
  destruct (il !! ch_fd c) as [[e q]|] eqn:Hi; cbn in Hf; rewrite Hf.
  - assert (q = p) as ->.
    { apply Hint in Hi as (cq & Hq & Hfd & _). by apply (Huniq q p cq c). }
    unfold kNoneEvent. destruct (new_events c o =? 0)%Z; cbn [epoll_ctl]; rewrite Hi; [done|].
    cbn. f_equal. apply map_eq. intros fd. rewrite lookup_insert. case_decide; [by subst|done].
  - unfold kNoneEvent. destruct (new_events c o =? 0)%Z.
    + by rewrite !delete_id.
    + unfold set_channels. cbn. by rewrite Hi.
Qed.

(** [removeChannel] leaves the poller as [updateChannel] does for an empty event set. *)
Lemma removeChannel_registered n p c :
  mirror n -> chans n !! p = Some c -> removeChannel (poller n) c p = registered (ch_fd c) 0 p (poller n).
Proof.
  intros (_ & _ & Hch & _) Hc. unfold removeChannel, registered, update. rewrite Hch. cbn [Z.eqb].
  destruct (interest (poller n) !! ch_fd c) as [[e q]|] eqn:Hi; cbn [fmap option_fmap option_map epoll_ctl].
  - by rewrite Hi.
  - rewrite !delete_id; [by destruct (poller n)|done|by rewrite Hch, Hi].
Qed.

(** The poller has come to know the event set [e] of the channel [p]. *)
Lemma mirror_registered n p c e cs fds rm :
  mirror n -> chans n !! p = Some c ->
  (forall q, q <> p -> cs !! q = chans n !! q /\ (q ∈ rm <-> q ∈ removed n)) ->
  (exists c', cs !! p = Some c' /\ ch_fd c' = ch_fd c /\
     if decide (e = 0%Z) then events_ c' = 0%Z \/ p ∈ rm else events_ c' = e /\ p ∉ rm) ->
  mirror (mkNet cs (registered (ch_fd c) e p (poller n)) fds rm).
Proof.
  intros (Her & Huniq & Hch & Hint) Hc Hother (c' & Hc' & Hfd & He).
  assert (Hback : forall q d, cs !! q = Some d -> exists d0, chans n !! q = Some d0 /\ ch_fd d = ch_fd d0).
  { intros q d Hd. destruct (decide (q = p)) as [->|Hne]; [exists c; split; congruence|].
    exists d. by rewrite <- (proj1 (Hother q Hne)). }
  split; [unfold registered; by destruct (e =? 0)%Z|]. split; [|split].
  - cbn [chans]. intros q r d d' (d0 & Hq & Hdq)%Hback (d1 & Hr & Hdr)%Hback Heq.
    apply (Huniq q r d0 d1); congruence.
  - intros fd. unfold registered. cbn [poller]. destruct (e =? 0)%Z; cbn [channels_ interest].
    + rewrite !lookup_delete. by destruct (decide (ch_fd c = fd)).
    + rewrite !lookup_insert. by destruct (decide (ch_fd c = fd)).
  - intros fd e0 q. cbn [poller].
    assert (Hw : waiting (mkNet cs (registered (ch_fd c) e p (poller n)) fds rm) fd e0 q <->
      if decide (ch_fd c = fd) then q = p /\ e0 = e /\ e <> 0%Z else waiting n fd e0 q).
    { unfold waiting. cbn [chans removed]. split.
      - intros (d & Hd & Hf & Hev & Hne & Hrm). destruct (decide (q = p)) as [->|Hq].
        + assert (d = c') as -> by congruence. rewrite decide_True by congruence. split; [done|].
          destruct (decide (e = 0%Z)) as [|Hz]; [destruct He; [congruence|done]|]. destruct He as [He _]. split; congruence.
        + destruct (Hother q Hq) as [Hl Hr]. destruct (decide (ch_fd c = fd)) as [Hcd|Hcd].
          * destruct Hq. apply (Huniq q p d c); [by rewrite <- Hl|done|congruence].
          * exists d. rewrite <- Hl, <- Hr. done.
      - destruct (decide (ch_fd c = fd)) as [Hcd|Hcd].
        + intros (-> & -> & Hz). rewrite decide_False in He by done. destruct He as [He Hrm]. exists c'. repeat split; congruence.
        + intros (d & Hd & Hf & Hev & Hne & Hrm). assert (Hq : q <> p) by (intros ->; congruence).
          destruct (Hother q Hq) as [Hl Hr]. exists d. rewrite Hl, Hr. done. }
    rewrite Hw. unfold registered. destruct (Z.eqb_spec e 0) as [Hz|Hz]; cbn [interest].
    + rewrite lookup_delete. destruct (decide (ch_fd c = fd)); [|by apply Hint]. split; [done|]. by intros (_ & _ & ?).
    + rewrite lookup_insert. destruct (decide (ch_fd c = fd)); [|by apply Hint]. split; [by intros [= <- <-]|]. by intros (-> & -> & _).
Qed.

Lemma mirror_change n p o : mirror n -> mirror (change n p o).
Proof.
  intros Hm. unfold change. destruct (chans n !! p) as [c|] eqn:Hc; [|done].
  rewrite (updateChannel_registered n p c o Hm Hc). apply mirror_registered; [done|done|..].
  - intros q Hq. rewrite lookup_insert_ne by done. split; [done|]. set_solver.
  - eexists. rewrite lookup_insert_eq. split; [done|]. split; [done|]. cbn [events_ set_events].
    case_decide; [by left|]. split; [done|]. set_solver.
Qed.

Lemma mirror_remove n p : mirror n -> mirror (remove n p).
Proof.
  intros Hm. unfold remove. destruct (chans n !! p) as [c|] eqn:Hc; [|done].
  rewrite (removeChannel_registered n p c Hm Hc). apply mirror_registered; [done|done|..].
  - intros q Hq. split; [done|]. set_solver.
  - exists c. rewrite decide_True by done. split; [done|]. split; [done|]. right. set_solver.
Qed.

Lemma mirror_create n p fd :
  mirror n -> chans n !! p = None -> map_Forall (fun _ c => ch_fd c <> fd) (chans n) ->
  mirror (mkNet (<[p := Channel_new fd]> (chans n)) (poller n) (open_fds n) (removed n)).
Proof.
  intros (Her & Huniq & Hch & Hint) Hp Hfd.
  split; [done|]. split; [|split; [done|]].
  - intros q r c d. cbn [chans]. rewrite !lookup_insert. intros Hq Hr Heq.
    destruct (decide (p = q)) as [<-|], (decide (p = r)) as [<-|]; [done| | |].
    + injection Hq as <-. by destruct (Hfd r d).
    + injection Hr as <-. by destruct (Hfd q c).
    + by apply (Huniq q r c d).
  - intros fd' e q. cbn [chans poller]. rewrite Hint. unfold waiting. cbn [chans removed]. rewrite lookup_insert.
    split; intros (c & Hc & Hf & He & Hne & Hr); exists c.
    + rewrite decide_False; [done|]. intros ->. congruence.
    + destruct (decide (p = q)); [|done]. injection Hc as <-. cbn in He. congruence.
Qed.

(** A channel out of the table can go. *)
Lemma mirror_destroy n p c :
  mirror n -> chans n !! p = Some c -> channels_ (poller n) !! ch_fd c = None -> mirror (destroy n p).
Proof.
  intros (Her & Huniq & Hch & Hint) Hp Hout. split; [done|]. split; [|split; [done|]].
  - intros q r d d'. cbn [destroy chans]. rewrite !lookup_delete. intros Hq Hr.
    repeat case_decide; try done. by apply (Huniq q r d d').
  - intros fd e q. cbn [destroy poller]. rewrite Hint. unfold waiting. cbn [destroy chans removed]. rewrite lookup_delete.
    split; intros (d & Hd & Hf & He & Hne & Hr); exists d.
    + rewrite decide_False; [repeat (split; [done|]); set_solver|]. intros <-.
      assert (Hi : interest (poller n) !! fd = Some (e, p)) by (apply Hint; exists d; auto).
      rewrite Hch in Hout. replace (ch_fd c) with fd in Hout by congruence. by rewrite Hi in Hout.
    + case_decide; [done|]. repeat (split; [done|]). set_solver.
Qed.

Lemma mirror_close n fd : mirror n -> channels_ (poller n) !! fd = None -> mirror (close_fd n fd).
Proof.
  intros Hm Hout. pose proof Hm as (Her & Huniq & Hch & Hint). rewrite Hch in Hout.
  destruct (interest (poller n) !! fd) as [x|] eqn:Hi; [done|]. unfold close_fd. rewrite delete_id by done.
  by destruct n as [cs [cm il er] fds rm].
Qed.

Lemma mirror_exec n o n' :
  mirror n -> unregistered_first n o = true -> net_exec n o = Some n' -> mirror n'.
Proof.
  intros Hm Hu. destruct o as [fd|p fd|p o|p|p|fd]; cbn [net_exec unregistered_first] in *.
  - case_decide; [done|]. by intros [= <-].
  - case_bool_decide as Hc; [|done]. destruct Hc as (Hp & _ & Hfd). intros [= <-]. by apply mirror_create.
  - destruct (chans n !! p); [|done]. case_decide; [|done]. intros [= <-]. by apply mirror_change.
  - destruct (chans n !! p); [|done]. intros [= <-]. by apply mirror_remove.
  - destruct (chans n !! p) as [c|] eqn:Hc; [|done]. apply bool_decide_eq_true in Hu. intros [= <-].
    by apply (mirror_destroy n p c).
  - case_decide; [|done]. apply bool_decide_eq_true in Hu. intros [= <-]. by apply mirror_close.
Qed.

Lemma mirror_run n os n' : mirror n -> tidy n os = true -> n =[ net_exec | os ]=> n' -> mirror n'.
Proof.
  revert n. induction os as [|o os IH]; intros n Hm; cbn [tidy steps]; [by intros _ [= <-]|].
  intros [Hu Ht]%andb_true_iff. destruct (net_exec n o) as [n1|] eqn:Hn; [|done].
  apply IH; [|done]. by eapply mirror_exec.
Qed.

(** ** Theorems *)

(** C37. epoll mirrors the channels: over any sequence in which descriptors are opened and closed and
    channels made, changed, removed and destroyed, each channel taken out of the poller's table
    before it is destroyed and before its descriptor is closed, no call to [epoll_ctl] fails; the
    kernel's interest list holds exactly the existing channels with a non-empty event set that were
    not removed since it was last set, each under its descriptor, with that set and its own
    pointer; and the poller's table holds the same pointers. The destructors of [TcpConnection] and
    [EventLoop] keep to this order ([destructors_tidy]), that of [TcpServer] does not
    ([stale_registration]). *)
Theorem poller_mirrors_channels (os : list net_op) (n : net)
  (Hrun : net_new =[ net_exec | os ]=> n) (Htidy : tidy net_new os = true) :
  errors (poller n) = 0 /\
  (forall fd e p, interest (poller n) !! fd = Some (e, p) <->
     exists c, chans n !! p = Some c /\ ch_fd c = fd /\ events_ c = e /\ e <> 0%Z /\ p ∉ removed n) /\
  (forall fd, channels_ (poller n) !! fd = snd <$> (interest (poller n) !! fd)).
Proof. by destruct (mirror_run net_new os n mirror_new Htidy Hrun) as (Her & _ & Hch & Hint). Qed.

(** The events [epoll_wait] reports for an entry: those asked for, and [EPOLLERR] and [EPOLLHUP],
    which it always reports. *)
Definition reportable (asked r : Z) : Prop :=
  Z.land r (Z.lor asked (Z.lor EPOLLERR EPOLLHUP)) = r.

(** What epoll_wait(2) promises: entries of the interest list, each at most once. *)
Definition wait_ok (po : EpollPoller) (ready : list (Z * ptr)) : Prop :=
  length ready <= kMaxEvents /\ NoDup (map snd ready) /\
  Forall (fun x => exists fd e, interest po !! fd = Some (e, x.2) /\ reportable e x.1) ready.

Lemma fill_spec ready active (cs : gmap ptr Channel) :
  NoDup (map snd ready) ->
  let '(active', cs') := fold_left (fun '(active, chans) '(ev, p) =>
      (active ++ [p], alter (fun c => setRevents c ev) p chans)) ready (active, cs) in
  active' = active ++ map snd ready /\
  (forall ev p c, (ev, p) ∈ ready -> cs !! p = Some c -> cs' !! p = Some (setRevents c ev)) /\
  (forall p, p ∉ map snd ready -> cs' !! p = cs !! p).
Proof.
  revert active cs. induction ready as [|[ev p] ready IH]; intros active cs Hnd; cbn [fold_left map].
  { rewrite app_nil_r. split; [done|]. split; [by intros ??? ?%elem_of_nil|done]. }
  cbn [map snd] in Hnd. apply list.NoDup_cons in Hnd as [Hp Hnd].
  specialize (IH (active ++ [p]) (alter (fun c => setRevents c ev) p cs) Hnd).
  destruct (fold_left _ ready _) as [active' cs']. destruct IH as (-> & Hin & Hout).
  split; [by rewrite <- app_assoc|]. split.
  - intros ev' q c [[= -> ->]|Hq]%elem_of_cons Hc.
    + rewrite Hout by done. by rewrite lookup_alter_eq, Hc.
    + apply Hin; [done|]. rewrite lookup_alter_ne; [done|]. intros ->. apply Hp.
      by apply (list_elem_of_fmap_2' snd ready (ev', q)).
  - intros q Hq. rewrite not_elem_of_cons in Hq. rewrite Hout by tauto. rewrite lookup_alter_ne; naive_solver.
Qed.

(** A bit reported was asked for, unless it is always reported. *)
Lemma reported_asked asked r mask :
  reportable asked r -> Z.land mask (Z.lor EPOLLERR EPOLLHUP) = 0%Z -> has r mask = true ->
  Z.land asked mask <> 0%Z.
Proof.
  unfold reportable, has. intros Hr Hm Hh. apply negb_true_iff, Z.eqb_neq in Hh. intros Ha. apply Hh.
  rewrite <- Hr, <- Z.land_assoc, Z.land_lor_distr_l, Ha, Z.lor_0_l.
  rewrite (Z.land_comm (Z.lor EPOLLERR EPOLLHUP)), Hm. apply Z.land_0_r.
Qed.

(** The callbacks of a channel that asks for nothing but [EPOLLIN] and [EPOLLOUT]. *)
Lemma callbacks_asked c ev :
  reportable (events_ c) ev -> Z.lor (events_ c) 5 = 5%Z ->
  (CbRead ∈ handleEvent (setRevents c ev) -> isReading c = true) /\
  (CbWrite ∈ handleEvent (setRevents c ev) -> isWriting c = true).
Proof.
  intros Hr H5.
  assert (Hread : has ev (Z.lor (Z.lor EPOLLIN EPOLLPRI) EPOLLRDHUP) = true -> isReading c = true).
  { intros Hh. apply (reported_asked _ _ (Z.lor (Z.lor EPOLLIN EPOLLPRI) EPOLLRDHUP) Hr eq_refl) in Hh.
    unfold isReading.
    apply negb_true_iff, Z.eqb_neq. intros Hz. apply Hh.
    rewrite <- Z.lor_assoc, Z.land_lor_distr_r. unfold kReadEvent in Hz. rewrite Hz, Z.lor_0_l.
    assert (Hs : events_ c = Z.land (events_ c) 5).
    { rewrite <- H5. apply Z.bits_inj'. intros k Hk. rewrite Z.land_spec, Z.lor_spec.
      by destruct (Z.testbit (events_ c) k). }
    rewrite Hs, <- Z.land_assoc. by replace (Z.land 5 (Z.lor EPOLLPRI EPOLLRDHUP)) with 0%Z by done; rewrite Z.land_0_r. }
  assert (Hwrite : has ev EPOLLOUT = true -> isWriting c = true).
  { intros Hh. apply (reported_asked _ _ EPOLLOUT Hr eq_refl) in Hh. unfold isWriting.
    by apply negb_true_iff, Z.eqb_neq. }
  unfold handleEvent. cbn [revents_ setRevents].
  destruct (has ev EPOLLHUP && negb (has ev EPOLLIN)).
  { rewrite !list_elem_of_singleton. done. }
  rewrite !elem_of_app.
  destruct (has ev EPOLLERR), (has ev (Z.lor _ _)), (has ev EPOLLOUT);
    rewrite ?list_elem_of_singleton, ?elem_of_nil; naive_solver.
Qed.

(** Dispatch reaches live channels only, for what they asked: whatever was made, changed and
    destroyed before, the channels [poll] activates are existing ones that wait for events, each
    once, in the order reported, with the reported events; and for a channel of the server's
    kind, [handleEvent] runs the read callback only while it reads and the write callback only
    while it writes. *)
Theorem poll_dispatches (os : list net_op) (n : net) (ready : list (Z * ptr))
  (Hrun : net_new =[ net_exec | os ]=> n) (Htidy : tidy net_new os = true) (Hwait : wait_ok (poller n) ready) :
  let '(active, cs, logged) := poll (WaitOk ready) (chans n) in
  active = map snd ready /\ NoDup active /\ logged = false /\
  forall ev p, (ev, p) ∈ ready -> exists c,
    chans n !! p = Some c /\ isNoneEvent c = false /\ cs !! p = Some (setRevents c ev) /\
    (Z.lor (events_ c) 5 = 5%Z ->
     (CbRead ∈ handleEvent (setRevents c ev) -> isReading c = true) /\
     (CbWrite ∈ handleEvent (setRevents c ev) -> isWriting c = true)).
Proof.
  destruct (mirror_run net_new os n mirror_new Htidy Hrun) as (_ & _ & _ & Hint). destruct Hwait as (_ & Hnd & Hready).
  cbn [poll]. unfold fillActiveChannels. pose proof (fill_spec ready [] (chans n) Hnd) as Hf.
  destruct (fold_left _ ready _) as [active cs]. destruct Hf as (-> & Hin & _). cbn [app].
  split; [done|]. split; [done|]. split; [done|]. intros ev p Hp.
  rewrite list.Forall_forall in Hready. destruct (Hready _ Hp) as (fd & e & He & Hr).
  apply Hint in He as (c & Hc & Hfd & <- & Hne & _). exists c. split; [done|].
  split; [by apply Z.eqb_neq|]. split; [by apply Hin|]. intros H5. by apply callbacks_asked.
Qed.

(** *** The destructors *)

(** After [disableAll()] the channel is out of the table. *)
Lemma disabled_out n p c :
  mirror n -> chans n !! p = Some c ->
  mirror (change n p DisableAll) /\ channels_ (poller (change n p DisableAll)) !! ch_fd c = None /\
  exists c', chans (change n p DisableAll) !! p = Some c' /\ ch_fd c' = ch_fd c.
Proof.
  intros Hm Hc. split; [by apply mirror_change|]. unfold change. rewrite Hc. cbn [poller chans].
  rewrite (updateChannel_registered n p c DisableAll Hm Hc), lookup_insert_eq.
  split; [cbn [registered new_events kNoneEvent Z.eqb channels_]; by rewrite lookup_delete_eq|]. by eexists.
Qed.

Lemma destructors_tidy n p c :
  mirror n -> chans n !! p = Some c ->
  mirror (TcpConnection_destroy n p (ch_fd c)) /\ mirror (EventLoop_destroy n p (ch_fd c)).
Proof.
  intros Hm Hc. destruct (disabled_out n p c Hm Hc) as (Hm1 & Hout & c' & Hc' & Hfd).
  assert (Hsame : channels_ (poller (remove (change n p DisableAll) p)) = channels_ (poller (change n p DisableAll))).
  { unfold remove. rewrite Hc'. cbn [poller]. rewrite (removeChannel_registered _ p c' Hm1 Hc').
    cbn [registered Z.eqb channels_]. rewrite Hfd. by apply delete_id. }
  split.
  - apply mirror_close; [|exact Hout]. apply (mirror_destroy _ p c'); [done|done|by rewrite Hfd].
  - apply (mirror_destroy _ p c').
    + apply mirror_close; [by apply mirror_remove|by rewrite Hsame].
    + unfold remove. by rewrite Hc'.
    + rewrite Hfd. cbn [close_fd poller channels_]. by rewrite Hsame.
Qed.

(** The accept channel is destroyed while it waits for connections: the table of the poller keeps
    its pointer, and when the number of its descriptor is used again on this loop, the new channel
    is not registered: [epoll_ctl] fails and no event of it is ever reported. *)
Theorem stale_registration (n : net) (p q : ptr) (c : Channel) (fd : Z)
  (Hm : mirror n) (Hc : chans n !! p = Some c) (Hfd : ch_fd c = fd) (Hopen : fd ∈ open_fds n)
  (Henabled : isNoneEvent c = false) (Hkept : p ∉ removed n) (Hq : q = p \/ chans n !! q = None) :
  exists n',
    TcpServer_destroy n p fd =[ net_exec | [OpOpen fd; OpCreate q fd; OpChange q EnableReading] ]=> n' /\
    chans n' !! q = Some (set_events (Channel_new fd) kReadEvent) /\
    errors (poller n') = 1 /\ interest (poller n') !! fd = None.
Proof.
  destruct Hm as (Her & Huniq & Hch & Hint).
  assert (Hi : interest (poller n) !! fd = Some (events_ c, p)).
  { apply Hint. exists c. repeat split; try done. by apply Z.eqb_neq. }
  set (n0 := TcpServer_destroy n p fd). assert (Hno : fd ∉ open_fds n0) by (cbn; set_solver).
  set (n1 := mkNet (chans n0) (poller n0) ({[fd]} ∪ open_fds n0) (removed n0)).
  assert (Hfree : chans n1 !! q = None /\ fd ∈ open_fds n1 /\ map_Forall (fun _ d => ch_fd d <> fd) (chans n1)).
  { cbn. split; [destruct Hq as [->|Hq]; [by rewrite lookup_delete_eq|by apply lookup_delete_None; right]|].
    split; [set_solver|]. intros r d [Hne Hr]%lookup_delete_Some Hd. apply Hne, (Huniq p r c d); congruence. }
  cbn [steps net_exec]. rewrite decide_False by done. fold n1. cbn [steps net_exec]. rewrite bool_decide_eq_true_2 by done.
  cbn [steps net_exec chans open_fds]. rewrite lookup_insert_eq, decide_True by apply Hfree.
  eexists. split; [reflexivity|]. unfold change. cbn [chans]. rewrite lookup_insert_eq. cbn [chans poller].
  split; [by rewrite lookup_insert_eq|].
  assert (Htab : channels_ (poller n1) !! fd = Some p) by (cbn; by rewrite Hch, Hi).
  assert (Hgone : interest (poller n1) !! fd = None) by (cbn; by rewrite lookup_delete_eq).
  unfold updateChannel. cbn [ch_fd set_events Channel_new]. rewrite Htab. cbn [isNoneEvent events_ set_events new_events].
  unfold update. cbn [epoll_ctl ch_fd set_events Channel_new]. rewrite Hgone. cbn [errors interest]. split; [|done].
  cbn. by rewrite Her.
Qed.

(** ** Witnesses *)

(** Two connections, one of which also waits to write; a third was closed, its descriptor used
    again. *)
Definition sample_ops : list net_op :=
  [OpOpen 5; OpCreate 0 5; OpChange 0 EnableReading; OpOpen 6; OpCreate 2 6; OpChange 2 EnableReading;
   OpChange 2 DisableAll; OpRemove 2; OpDestroy 2; OpClose 6; OpOpen 6; OpCreate 1 6;
   OpChange 1 EnableReading; OpChange 1 EnableWriting].
Definition sample_net : net := default net_new (steps net_exec net_new sample_ops).
Definition sample_ready : list (Z * ptr) := [(EPOLLIN, 0); (Z.lor EPOLLOUT EPOLLHUP, 1)].

Lemma sample_run : net_new =[ net_exec | sample_ops ]=> sample_net.
Proof. apply steps_default. vm_compute. reflexivity. Qed.
Lemma sample_tidy : tidy net_new sample_ops = true.
Proof. vm_compute. reflexivity. Qed.

Lemma poller_mirrors_channels_witness :
  errors (poller sample_net) = 0 /\ interest (poller sample_net) !! 6%Z = Some (5%Z, 1) /\
  exists c, chans sample_net !! 1 = Some c /\ ch_fd c = 6%Z /\ events_ c = 5%Z.
Proof.
  destruct (poller_mirrors_channels sample_ops sample_net sample_run sample_tidy) as (He & Hi & _).
  assert (H1 : interest (poller sample_net) !! 6%Z = Some (5%Z, 1)) by (vm_compute; reflexivity).
  split; [exact He|]. split; [exact H1|]. apply Hi in H1 as (c & H1 & H2 & H3 & _). exists c. auto.
Defined.

Lemma poll_dispatches_witness :
  (poll (WaitOk sample_ready) (chans sample_net)).1.1 = [0; 1] /\
  exists c, chans sample_net !! 1 = Some c /\ isNoneEvent c = false.
Proof.
  assert (H0 : interest (poller sample_net) !! 5%Z = Some (1%Z, 0)) by (vm_compute; reflexivity).
  assert (H1 : interest (poller sample_net) !! 6%Z = Some (5%Z, 1)) by (vm_compute; reflexivity).
  assert (Hw : wait_ok (poller sample_net) sample_ready).
  { split; [vm_compute; lia|]. split; [apply (bool_decide_unpack _); vm_compute; exact I|].
    constructor; [exists 5%Z, 1%Z; split; [exact H0|reflexivity]|].
    constructor; [exists 6%Z, 5%Z; split; [exact H1|reflexivity]|constructor]. }
  pose proof (poll_dispatches sample_ops sample_net sample_ready sample_run sample_tidy Hw) as Hd.
  destruct (poll (WaitOk sample_ready) (chans sample_net)) as [[active cs] logged].
  destruct Hd as (Ha & _ & _ & Hall). split; [exact Ha|].
  destruct (Hall (Z.lor EPOLLOUT EPOLLHUP) 1) as (c & Hc & Hn & _).
  - apply elem_of_cons. right. by apply list_elem_of_singleton.
  - exists c. split; [exact Hc|exact Hn].
Defined.

(** The accept channel of a stopped server, on a loop that runs on. *)
Lemma stale_registration_witness :
  exists n', TcpServer_destroy sample_net 0 5 =[ net_exec | [OpOpen 5; OpCreate 7 5; OpChange 7 EnableReading] ]=> n' /\
    errors (poller n') = 1 /\ interest (poller n') !! 5%Z = None.
Proof.
  destruct (stale_registration sample_net 0 7 (mkChannel_ 5 1 0) 5) as (n' & Hrun & _ & He & Hi).
  - exact (mirror_run net_new sample_ops sample_net mirror_new sample_tidy sample_run).
  - vm_compute. reflexivity.
  - reflexivity.
  - apply (bool_decide_unpack _). vm_compute. exact I.
  - reflexivity.
  - apply (bool_decide_unpack _). vm_compute. exact I.
  - right. vm_compute. reflexivity.
  - exists n'. auto.
Defined.
