(* ===== verification/TcpConnection.v ===== *)
(** [minirpc::TcpConnection] (include/minirpc/net/TcpConnection.h, src/net/TcpConnection.cpp): the
    calls that run on the connection's loop thread, in the order the loop runs them. *)
From stdpp Require Import base list strings numbers.
From Stdlib Require Import Ascii ZArith Lia.
From S2P Require Import Prelude Buffer Poller.

Inductive State := kConnecting | kConnected | kDisconnecting | kDisconnected.
#[export] Instance State_eq_dec : EqDecision State.
Proof. solve_decision. Defined.

Definition EAGAIN : Z := 11.

(** What [::write] returned: an error number, or how many bytes the kernel took. *)
Inductive write_outcome :=
| WriteErr (errno : Z)
| WriteOk (n : nat).

(** [write] takes no more than it is given. *)
Definition taken (o : write_outcome) (data : bytes) : nat :=
  match o with WriteErr _ => 0 | WriteOk n => Nat.min n (length data) end.

(** The connection: its state, its channel's event set, its buffers, and what it has done: the
    bytes given to the kernel, whether [shutdownWrite] was called, and how often each callback
    ran. *)
Record TcpConnection := mkConnection {
  state_ : State;
  channel_ : Channel;
  inputBuffer_ : Buffer;
  outputBuffer_ : Buffer;
  written : bytes;
  shut_ : bool;
  completions : nat;
  closes : nat;
}.

Definition TcpConnection_new (fd : Z) : TcpConnection :=
  mkConnection kConnecting (Channel_new fd) (Buffer_new kInitialSize) (Buffer_new kInitialSize)
    [] false 0 0.

Section Updates.
Context (c : TcpConnection).
Definition setState (s : State) : TcpConnection :=
  mkConnection s (channel_ c) (inputBuffer_ c) (outputBuffer_ c) (written c) (shut_ c)
    (completions c) (closes c).
Definition set_interest (o : interest_op) : TcpConnection :=
  mkConnection (state_ c) (set_events (channel_ c) (new_events (channel_ c) o)) (inputBuffer_ c)
    (outputBuffer_ c) (written c) (shut_ c) (completions c) (closes c).
Definition set_output (b : Buffer) (w : bytes) : TcpConnection :=
  mkConnection (state_ c) (channel_ c) (inputBuffer_ c) b w (shut_ c) (completions c) (closes c).
Definition set_input (b : Buffer) : TcpConnection :=
  mkConnection (state_ c) (channel_ c) b (outputBuffer_ c) (written c) (shut_ c) (completions c)
    (closes c).
Definition completed : TcpConnection :=
  mkConnection (state_ c) (channel_ c) (inputBuffer_ c) (outputBuffer_ c) (written c) (shut_ c)
    (S (completions c)) (closes c).
Definition close_called : TcpConnection :=
  mkConnection (state_ c) (channel_ c) (inputBuffer_ c) (outputBuffer_ c) (written c) (shut_ c)
    (completions c) (S (closes c)).
Definition shutdownWrite : TcpConnection :=
  mkConnection (state_ c) (channel_ c) (inputBuffer_ c) (outputBuffer_ c) (written c) true
    (completions c) (closes c).
End Updates.

Definition connectEstablished (c : TcpConnection) : TcpConnection :=
  set_interest (setState c kConnected) EnableReading.

Definition connectDestroyed (c : TcpConnection) : TcpConnection :=
  if bool_decide (state_ c = kConnected)
  then set_interest (setState c kDisconnected) DisableAll else c.

(** The result of the one [::write] is given, for when it is called. *)
Definition sendInLoop (c : TcpConnection) (message : bytes) (o : write_outcome) : TcpConnection :=
  if bool_decide (state_ c = kDisconnected) then c
  else
    let '(c, remaining, done_) :=
      if negb (isWriting (channel_ c)) && (readableBytes (outputBuffer_ c) =? 0) then
        match o with
        | WriteOk _ =>
            let n := taken o message in
            let c := set_output c (outputBuffer_ c) (written c ++ take n message) in
            let remaining := length message - n in
            if remaining =? 0 then (completed c, remaining, true) else (c, remaining, false)
        | WriteErr _ => (c, length message, false)
        end
      else (c, length message, false) in
    if done_ : bool then c
    else if 0 <? remaining then
      let start := drop (length message - remaining) message in
      let c := set_output c (append (outputBuffer_ c) start) (written c) in
      if negb (isWriting (channel_ c)) then set_interest c EnableWriting else c
    else c.

Definition shutdownInLoop (c : TcpConnection) : TcpConnection :=
  if negb (isWriting (channel_ c)) then shutdownWrite c else c.

(** [shutdown] called on the loop thread, where [runInLoop] runs its argument at once. *)
Definition shutdown (c : TcpConnection) : TcpConnection :=
  if bool_decide (state_ c = kConnected) then shutdownInLoop (setState c kDisconnecting) else c.

(** The part of [shutdown] that runs on another thread, which then queues [shutdownInLoop]. *)
Definition shutdown_begin (c : TcpConnection) : TcpConnection :=
  if bool_decide (state_ c = kConnected) then setState c kDisconnecting else c.

(** [send] called on the loop thread. *)
Definition send (c : TcpConnection) (message : bytes) (o : write_outcome) : TcpConnection :=
  if bool_decide (state_ c = kConnected) then sendInLoop c message o else c.

Definition handleClose (c : TcpConnection) : TcpConnection :=
  close_called (setState (set_interest c DisableAll) kDisconnected).

(** [messageCallback] is the application's; it may [send] and [shutdown]. *)
Definition handleRead (c : TcpConnection) (o : read_outcome)
    (messageCallback : TcpConnection -> TcpConnection) : TcpConnection :=
  let '((n, savedErrno), b) := readFd (inputBuffer_ c) o in
  let c := set_input c b in
  if (0 <? n)%Z then messageCallback c
  else if (n =? 0)%Z then handleClose c
  else if (savedErrno =? EAGAIN)%Z then c
  else handleClose c.

Definition handleWrite (c : TcpConnection) (o : write_outcome) : TcpConnection :=
  if negb (isWriting (channel_ c)) then c
  else
    let data := take (readableBytes (outputBuffer_ c)) (peek (outputBuffer_ c)) in
    let n := taken o data in
    if 0 <? n then
      let c := set_output c (retrieve (outputBuffer_ c) n) (written c ++ take n data) in
      if readableBytes (outputBuffer_ c) =? 0 then completed (set_interest c DisableWriting) else c
    else c.

(** ** Calls on the loop thread *)

Inductive conn_call :=
| CallSendInLoop (message : bytes) (o : write_outcome)
| CallShutdown
| CallShutdownBegin
| CallShutdownInLoop
| CallHandleWrite (o : write_outcome)
| CallReadNothing (o : read_outcome)
| CallHandleClose
| CallDestroyed.

(** [handleRead] with a callback that only looks at the buffer; what the callback sends and shuts
    down appears as calls of its own. *)
Definition conn_exec (c : TcpConnection) (k : conn_call) : TcpConnection :=
  match k with
  | CallSendInLoop m o => sendInLoop c m o
  | CallShutdown => shutdown c
  | CallShutdownBegin => shutdown_begin c
  | CallShutdownInLoop => shutdownInLoop c
  | CallHandleWrite o => handleWrite c o
  | CallReadNothing o => handleRead c o (fun c => c)
  | CallHandleClose => handleClose c
  | CallDestroyed => connectDestroyed c
  end.

Definition conn_run (c : TcpConnection) (ks : list conn_call) : TcpConnection :=
  fold_left conn_exec ks c.

(** The messages [sendInLoop] accepted: those before the connection was closed. *)
Fixpoint accepted (c : TcpConnection) (ks : list conn_call) : list bytes :=
  match ks with
  | [] => []
  | k :: ks =>
      match k with
      | CallSendInLoop m _ => if bool_decide (state_ c = kDisconnected) then [] else [m]
      | _ => []
      end ++ accepted (conn_exec c k) ks
  end.

(** ** Invariant *)

(** The event set is one of the four [EPOLLIN]/[EPOLLOUT] combinations. *)
Definition events_ok (c : TcpConnection) : Prop :=
  events_ (channel_ c) = 0%Z \/ events_ (channel_ c) = 1%Z \/
  events_ (channel_ c) = 4%Z \/ events_ (channel_ c) = 5%Z.

(** The connection waits to write exactly when it has something to write. *)
Definition conn_inv (c : TcpConnection) : Prop :=
  wf (inputBuffer_ c) /\ wf (outputBuffer_ c) /\ events_ok c /\
  (state_ c <> kDisconnected ->
   isWriting (channel_ c) = negb (readableBytes (outputBuffer_ c) =? 0)) /\
  (state_ c = kDisconnected -> isWriting (channel_ c) = false).

(** ** Lemmas *)

(** The bytes accepted so far: given to the kernel, then waiting. *)
Definition stream (c : TcpConnection) : bytes := written c ++ contents (outputBuffer_ c).

Lemma writing_events c :
  events_ok c ->
  isWriting (channel_ (set_interest c EnableWriting)) = true /\
  isWriting (channel_ (set_interest c DisableWriting)) = false /\
  isWriting (channel_ (set_interest c DisableAll)) = false /\
  isWriting (channel_ (set_interest c EnableReading)) = isWriting (channel_ c) /\
  forall o, events_ok (set_interest c o).
Proof.
  unfold events_ok, isWriting. destruct c as [st ch ib ob w sh cp cl].
  cbn [channel_ set_interest set_events events_].
  intros [He|[He|[He|He]]]; repeat split; try (intros o; destruct o); cbn [new_events];
    rewrite ?He; cbn; auto.
Qed.

Lemma readable_zero b : wf b -> (readableBytes b =? 0) = true <-> contents b = [].
Proof.
  intros Hw. rewrite Nat.eqb_eq, <- (length_contents b Hw). split.
  - by apply nil_length_inv.
  - by intros ->.
Qed.

Lemma conn_inv_new fd : conn_inv (connectEstablished (TcpConnection_new fd)).
Proof.
  split; [apply wf_new|]. split; [apply wf_new|]. split; [by right; left|]. by split.
Qed.

(** Buffering [rest] keeps the invariant, with the write event on. *)
Lemma buffer_rest c rest :
  conn_inv c -> state_ c <> kDisconnected -> rest <> [] ->
  let c1 := set_output c (append (outputBuffer_ c) rest) (written c) in
  let c2 := if negb (isWriting (channel_ c1)) then set_interest c1 EnableWriting else c1 in
  conn_inv c2 /\ stream c2 = stream c ++ rest /\ state_ c2 = state_ c.
Proof.
  intros (Hwi & Hwo & Hev & Hw & _) Hst Hrest. cbn zeta.
  destruct (append_spec (outputBuffer_ c) rest Hwo) as [Hw1 Hc1].
  set (c1 := set_output c (append (outputBuffer_ c) rest) (written c)).
  assert (Hne : (readableBytes (append (outputBuffer_ c) rest) =? 0) = false).
  { apply not_true_iff_false. rewrite (readable_zero _ Hw1), Hc1. intros [_ ?]%app_eq_nil. done. }
  assert (Hs : stream c1 = stream c ++ rest).
  { unfold stream, c1. cbn [written outputBuffer_ set_output]. by rewrite Hc1, app_assoc. }
  destruct (writing_events c1 Hev) as (Hon & _ & _ & _ & Hall).
  destruct (isWriting (channel_ c1)) eqn:Hwr; cbn [negb].
  - split; [|done]. split; [done|]. split; [done|]. split; [done|]. split; [|done].
    intros _. rewrite Hwr. cbn [outputBuffer_ set_output c1]. by rewrite Hne.
  - split; [|done]. split; [done|]. split; [done|]. split; [apply Hall|]. split; [|done].
    intros _. rewrite Hon. cbn [outputBuffer_ set_output set_interest c1]. by rewrite Hne.
Qed.

(** The tail of [sendInLoop], after the first [rest'] bytes have gone to the kernel. *)
Lemma send_rest c m n :
  conn_inv c -> state_ c <> kDisconnected -> n <= length m ->
  let c1 := set_output c (outputBuffer_ c) (written c ++ take n m) in
  contents (outputBuffer_ c) = [] \/ n = 0 ->
  let c2 :=
    if 0 <? length m - n then
      let start := drop (length m - (length m - n)) m in
      let c2 := set_output c1 (append (outputBuffer_ c1) start) (written c1) in
      if negb (isWriting (channel_ c2)) then set_interest c2 EnableWriting else c2
    else c1 in
  conn_inv c2 /\ state_ c2 = state_ c /\ shut_ c2 = shut_ c /\ stream c2 = stream c ++ m.
Proof.
  intros Hi Hst Hn c1 Hnow. cbn zeta.
  assert (Hi1 : conn_inv c1) by exact Hi.
  assert (Hs1 : stream c1 = stream c ++ take n m).
  { unfold stream, c1. cbn [written outputBuffer_ set_output]. destruct Hnow as [->| ->]; [by rewrite !app_nil_r|].
    by rewrite take_0, !app_nil_r. }
  destruct (Nat.ltb_spec 0 (length m - n)).
  - replace (length m - (length m - n)) with n by lia.
    destruct (buffer_rest c1 (drop n m) Hi1 Hst) as (Hi2 & Hs2 & Hst2).
    { intros Hd. apply (f_equal length) in Hd. rewrite length_drop in Hd. cbn in Hd. lia. }
    split; [exact Hi2|]. split; [exact Hst2|]. split.
    + by destruct (negb _).
    + rewrite Hs2, Hs1, <- app_assoc. by rewrite take_drop.
  - split; [exact Hi1|]. split; [done|]. split; [done|]. rewrite Hs1. f_equal. apply take_ge. lia.
Qed.

Lemma sendInLoop_spec c m o :
  conn_inv c ->
  conn_inv (sendInLoop c m o) /\ state_ (sendInLoop c m o) = state_ c /\
  shut_ (sendInLoop c m o) = shut_ c /\
  stream (sendInLoop c m o)
  = stream c ++ (if bool_decide (state_ c = kDisconnected) then [] else m).
Proof.
  intros Hi. unfold sendInLoop. case_bool_decide as Hst; [by rewrite app_nil_r|].
  assert (Hself : set_output c (outputBuffer_ c) (written c ++ take 0 m) = c).
  { destruct c. unfold set_output. cbn. by rewrite app_nil_r. }
  pose proof (send_rest c m 0 Hi Hst ltac:(lia) (or_intror eq_refl)) as Hall.
  cbn zeta in Hall. rewrite Hself, Nat.sub_0_r in Hall.
  destruct (negb (isWriting (channel_ c)) && (readableBytes (outputBuffer_ c) =? 0)) eqn:Hfast;
    [|done].
  destruct o as [e|n]; [done|]. apply andb_true_iff in Hfast as [_ Hemp].
  pose proof Hi as (_ & Hwo & _). apply (readable_zero _ Hwo) in Hemp.
  set (k := taken (WriteOk n) m). assert (Hk : k <= length m) by (cbn in k; lia).
  pose proof (send_rest c m k Hi Hst Hk (or_introl Hemp)) as Hsr. cbn zeta in Hsr.
  destruct (Nat.eqb_spec (length m - k) 0) as [Hz|Hz]; [|done].
  rewrite Hz in Hsr. cbn [Nat.ltb Nat.leb] in Hsr.
  exact Hsr.
Qed.

Lemma handleWrite_spec c o :
  conn_inv c ->
  conn_inv (handleWrite c o) /\ state_ (handleWrite c o) = state_ c /\
  shut_ (handleWrite c o) = shut_ c /\ stream (handleWrite c o) = stream c /\
  (isWriting (channel_ c) = true ->
   contents (outputBuffer_ (handleWrite c o))
   = drop (taken o (contents (outputBuffer_ c))) (contents (outputBuffer_ c))).
Proof.
  intros Hi. pose proof Hi as (Hwi & Hwo & Hev & Hw & Hd). unfold handleWrite.
  destruct (isWriting (channel_ c)) eqn:Hwr; cbn [negb]; [|done].
  assert (Hst : state_ c <> kDisconnected) by (intros Hx; by specialize (Hd Hx)).
  assert (Hdata : take (readableBytes (outputBuffer_ c)) (peek (outputBuffer_ c))
                  = contents (outputBuffer_ c)) by exact (bq_peek_spec _ Hwo).
  rewrite Hdata. set (n := taken o (contents (outputBuffer_ c))).
  destruct (Nat.ltb_spec 0 n) as [Hn|Hn].
  2: { split; [done|]. do 3 (split; [done|]). intros _. by replace n with 0 by lia. }
  destruct (retrieve_spec (outputBuffer_ c) n Hwo) as [Hw1 Hc1].
  set (c1 := set_output c (retrieve (outputBuffer_ c) n)
               (written c ++ take n (contents (outputBuffer_ c)))).
  assert (Hs1 : stream c1 = stream c).
  { unfold stream, c1. cbn [written outputBuffer_ set_output]. rewrite Hc1, <- app_assoc, take_drop. done. }
  destruct (writing_events c1 Hev) as (_ & Hoff & _ & _ & Hall).
  change (outputBuffer_ c1) with (retrieve (outputBuffer_ c) n).
  destruct (readableBytes (retrieve (outputBuffer_ c) n) =? 0) eqn:Hz.
  - split; [|done]. split; [done|]. split; [done|]. split; [apply Hall|]. split; [|done]. intros _.
    change (isWriting (channel_ (set_interest c1 DisableWriting))
            = negb (readableBytes (retrieve (outputBuffer_ c) n) =? 0)). by rewrite Hoff, Hz.
  - split; [|done]. split; [done|]. split; [done|]. split; [done|]. split; [|done]. intros _.
    change (isWriting (channel_ c) = negb (readableBytes (retrieve (outputBuffer_ c) n) =? 0)).
    by rewrite Hwr, Hz.
Qed.

Lemma handleClose_spec c :
  conn_inv c -> conn_inv (handleClose c) /\ stream (handleClose c) = stream c /\
  shut_ (handleClose c) = shut_ c.
Proof.
  intros (Hwi & Hwo & Hev & Hw & Hd).
  destruct (writing_events c Hev) as (_ & _ & Hoff & _ & Hall).
  split; [|done]. split; [done|]. split; [done|]. split; [apply Hall|]. by split.
Qed.

Lemma setState_inv c s :
  conn_inv c -> state_ c <> kDisconnected -> s <> kDisconnected -> conn_inv (setState c s).
Proof.
  intros (Hwi & Hwo & Hev & Hw & Hd) Hst Hs. split; [done|]. split; [done|]. split; [done|].
  split; [|done]. intros _. by apply Hw.
Qed.

Lemma handleRead_spec c o :
  conn_inv c ->
  conn_inv (handleRead c o id) /\ stream (handleRead c o id) = stream c /\
  shut_ (handleRead c o id) = shut_ c.
Proof.
  intros Hi. unfold handleRead.
  assert (Hb : wf (readFd (inputBuffer_ c) o).2)
    by (destruct o; [apply Hi|apply readFd_Ok_spec, Hi]).
  destruct (readFd (inputBuffer_ c) o) as [[n en] b]. cbn [snd] in Hb.
  assert (Hi1 : conn_inv (set_input c b)).
  { destruct Hi as (_ & Hwo & Hev & Hw & Hd). by split. }
  destruct (0 <? n)%Z; [done|]. destruct (n =? 0)%Z; [by apply (handleClose_spec (set_input c b))|].
  destruct (en =? EAGAIN)%Z; [done|]. by apply (handleClose_spec (set_input c b)).
Qed.

(** Every call keeps the invariant and appends to the stream what it accepts. *)
Lemma conn_exec_spec c k :
  conn_inv c ->
  conn_inv (conn_exec c k) /\
  stream (conn_exec c k) = stream c ++
    match k with
    | CallSendInLoop m _ => if bool_decide (state_ c = kDisconnected) then [] else m
    | _ => []
    end.
Proof.
  intros Hi. destruct k as [m o| | | |o|o| |]; cbn [conn_exec]; rewrite ?app_nil_r.
  - by destruct (sendInLoop_spec c m o Hi) as (? & _ & _ & ?).
  - unfold shutdown. case_bool_decide as Hst; [|done].
    assert (Hi1 : conn_inv (setState c kDisconnecting)) by (apply setState_inv; congruence || done).
    unfold shutdownInLoop. by destruct (negb _).
  - unfold shutdown_begin. case_bool_decide as Hst; [|done].
    split; [|done]. apply setState_inv; congruence || done.
  - unfold shutdownInLoop. by destruct (negb _).
  - by destruct (handleWrite_spec c o Hi) as (? & _ & _ & ? & _).
  - by destruct (handleRead_spec c o Hi) as (? & ? & _).
  - by destruct (handleClose_spec c Hi) as (? & ? & _).
  - unfold connectDestroyed. case_bool_decide as Hst; [|done].
    destruct (handleClose_spec c Hi) as ((? & ? & ? & ? & ?) & _ & _). split; [|done].
    by split.
Qed.

Lemma conn_run_spec c ks :
  conn_inv c -> conn_inv (conn_run c ks) /\ stream (conn_run c ks) = stream c ++ concat (accepted c ks).
Proof.
  revert c. induction ks as [|k ks IH]; intros c Hi; [by rewrite app_nil_r|].
  destruct (conn_exec_spec c k Hi) as [Hi1 Hs1]. destruct (IH _ Hi1) as [Hi2 Hs2].
  split; [exact Hi2|]. cbn [accepted]. rewrite concat_app.
  change (conn_run c (k :: ks)) with (conn_run (conn_exec c k) ks).
  rewrite Hs2, Hs1, <- app_assoc. f_equal. f_equal. destruct k; try done.
  case_bool_decide; cbn; by rewrite ?app_nil_r.
Qed.

(** Once a connection is shutting down, only a queued [shutdownInLoop] half-closes it. *)
Lemma exec_closing c k :
  conn_inv c -> state_ c <> kConnected -> k <> CallShutdownInLoop ->
  state_ (conn_exec c k) <> kConnected /\ shut_ (conn_exec c k) = shut_ c.
Proof.
  intros Hi Hst Hk. destruct k as [m o| | | |o|o| |]; cbn [conn_exec]; try done.
  - destruct (sendInLoop_spec c m o Hi) as (_ & -> & -> & _). done.
  - unfold shutdown. by rewrite bool_decide_eq_false_2.
  - unfold shutdown_begin. by rewrite bool_decide_eq_false_2.
  - destruct (handleWrite_spec c o Hi) as (_ & -> & -> & _). done.
  - unfold handleRead. destruct (readFd (inputBuffer_ c) o) as [[n en] b].
    destruct (0 <? n)%Z, (n =? 0)%Z, (en =? EAGAIN)%Z; done.
  - unfold connectDestroyed. by rewrite bool_decide_eq_false_2.
Qed.

(** A connection is never open again. *)
Lemma exec_connected c k :
  conn_inv c -> state_ (conn_exec c k) = kConnected -> state_ c = kConnected.
Proof.
  intros Hi. destruct (decide (state_ c = kConnected)) as [|Hn]; [done|]. intros Hc. exfalso.
  revert Hc. destruct k; try (by apply exec_closing). cbn. unfold shutdownInLoop.
  by destruct (negb _).
Qed.

(** ** Theorems *)

(** C23. Output is a FIFO stream: whatever the order of sends, writability events, partial, failed
    and blocked writes, reads, shutdowns and closes on the loop thread, the bytes given to the
    kernel followed by those still buffered are exactly the messages accepted before the
    connection closed, in order, none lost or repeated; and while it is open the connection waits
    for [EPOLLOUT] exactly when something is buffered. *)
Theorem output_fifo (fd : Z) (ks : list conn_call) :
  let c0 := connectEstablished (TcpConnection_new fd) in
  let c := conn_run c0 ks in
  written c ++ contents (outputBuffer_ c) = concat (accepted c0 ks) /\
  (state_ c <> kDisconnected ->
   isWriting (channel_ c) = true <-> contents (outputBuffer_ c) <> []).
Proof.
  destruct (conn_run_spec _ ks (conn_inv_new fd)) as [(_ & Hwo & _ & Hw & _) Hs].
  split; [exact Hs|]. intros Hst. rewrite (Hw Hst), negb_true_iff, <- not_true_iff_false.
  by rewrite readable_zero.
Qed.

(** The writability events with the given amounts. *)
Definition writes (c : TcpConnection) (ns : list nat) : TcpConnection :=
  fold_left (fun c n => handleWrite c (WriteOk n)) ns c.

(** Buffered output drains: on an open connection, as many writability events as there are
    buffered bytes are enough to write all of them, if each takes at least one byte; then the
    connection stops waiting for [EPOLLOUT]. *)
Theorem output_drains (c : TcpConnection) (ns : list nat)
  (Hinv : conn_inv c) (Hopen : state_ c <> kDisconnected)
  (Hprogress : Forall (fun n => 1 <= n) ns)
  (Henough : length (contents (outputBuffer_ c)) <= length ns) :
  let c' := writes c ns in
  contents (outputBuffer_ c') = [] /\ written c' = written c ++ contents (outputBuffer_ c) /\
  isWriting (channel_ c') = false.
Proof.
  unfold writes. revert c Hinv Hopen Henough.
  induction Hprogress as [|n ns Hn _ IH]; intros c Hi Hopen Hle; cbn [fold_left length] in *.
  - assert (He : contents (outputBuffer_ c) = []) by (apply nil_length_inv; lia).
    rewrite He, app_nil_r. split; [done|]. split; [done|].
    destruct Hi as (_ & Hwo & _ & Hw & _). rewrite (Hw Hopen).
    by rewrite (proj2 (readable_zero _ Hwo) He).
  - destruct (handleWrite_spec c (WriteOk n) Hi) as (Hi1 & Hst & _ & Hs & Hd).
    destruct (IH (handleWrite c (WriteOk n)) Hi1) as (He & Hwr & Hoff); [by rewrite Hst| |].
    + destruct (isWriting (channel_ c)) eqn:Hw.
      * rewrite Hd by done. rewrite length_drop. cbn [taken]. lia.
      * destruct Hi as (_ & Hwo & _ & Hw' & _). rewrite (Hw' Hopen) in Hw.
        apply negb_false_iff, (readable_zero _ Hwo) in Hw. unfold handleWrite.
        rewrite (Hw' Hopen), (proj2 (readable_zero _ Hwo) Hw). cbn. rewrite Hw. cbn. lia.
    + split; [done|]. split; [|done]. rewrite Hwr. exact Hs.
Qed.

(** C39. A graceful shutdown with output pending never happens: after [shutdown] on a connection
    that still has bytes to write, no sequence of writes, sends, reads and further shutdowns on
    the loop thread half-closes the socket, not even once everything has been written, because
    [handleWrite] does not finish the shutdown. *)
Theorem shutdown_pending_lost (c : TcpConnection) (ks : list conn_call)
  (Hinv : conn_inv c) (Hopen : state_ c = kConnected)
  (Hpending : contents (outputBuffer_ c) <> [])
  (Hks : Forall (fun k => k <> CallShutdownInLoop) ks) :
  shut_ (conn_run (shutdown c) ks) = shut_ c.
Proof.
  assert (Hsd : shutdown c = setState c kDisconnecting).
  { unfold shutdown, shutdownInLoop. rewrite bool_decide_eq_true_2 by done.
    destruct Hinv as (_ & Hwo & _ & Hw & _).
    assert (Hwr : isWriting (channel_ c) = true).
    { rewrite Hw, negb_true_iff, <- not_true_iff_false by congruence. by rewrite readable_zero. }
    cbn [channel_ setState]. by rewrite Hwr. }
  assert (Hgen : forall c, conn_inv c -> state_ c <> kConnected ->
    shut_ (conn_run c ks) = shut_ c).
  { induction Hks as [|k ks Hk _ IH]; intros c1 Hi Hst; [done|].
    change (conn_run c1 (k :: ks)) with (conn_run (conn_exec c1 k) ks).
    destruct (conn_exec_spec c1 k Hi) as [Hi1 _].
    destruct (exec_closing c1 k Hi Hst Hk) as [Hst1 Hsh1]. by rewrite IH. }
  rewrite Hsd, Hgen; [done| |done]. apply setState_inv; congruence || done.
Qed.

(** ** Witnesses *)

(** A connection with a reply half written: the kernel took two of its five bytes. *)
Definition sample_conn : TcpConnection :=
  sendInLoop (connectEstablished (TcpConnection_new 7)) (lit "reply") (WriteOk 2).

Lemma sample_conn_inv : conn_inv sample_conn.
Proof. apply sendInLoop_spec, conn_inv_new. Qed.

Lemma output_drains_witness :
  contents (outputBuffer_ sample_conn) = lit "ply" /\
  let c' := writes sample_conn [1; 1; 5] in
  contents (outputBuffer_ c') = [] /\
  written c' = written sample_conn ++ contents (outputBuffer_ sample_conn) /\
  isWriting (channel_ c') = false.
Proof.
  split; [vm_compute; reflexivity|].
  apply (output_drains sample_conn [1; 1; 5] sample_conn_inv).
  - vm_compute. discriminate.
  - repeat constructor.
  - vm_compute. lia.
Defined.

Lemma shutdown_pending_lost_witness :
  let ks := [CallHandleWrite (WriteOk 5); CallShutdown; CallHandleWrite (WriteOk 5)] in
  contents (outputBuffer_ (conn_run (shutdown sample_conn) ks)) = [] /\
  shut_ (conn_run (shutdown sample_conn) ks) = shut_ sample_conn.
Proof.
  split; [vm_compute; reflexivity|].
  apply (shutdown_pending_lost sample_conn _ sample_conn_inv).
  - vm_compute. reflexivity.
  - vm_compute. discriminate.
  - repeat constructor; discriminate.
Defined.
