(* ===== verification/EventLoop.v ===== *)
(** [minirpc::EventLoop] (include/minirpc/net/EventLoop.h, src/net/EventLoop.cpp) as a step system:
    the loop thread and the other threads interleave at the points where they touch the shared
    state: the queue of functors under its mutex, the eventfd, and the two atomic flags. *)
From stdpp Require Import base list numbers.
From Stdlib Require Import Lia.
From S2P Require Import Prelude.

(** A queued functor, by its identity, and whether another thread queued it. *)
Record Functor := mkFunctor { fid : nat; remote : bool }.
#[export] Instance Functor_eq_dec : EqDecision Functor.
Proof. solve_decision. Defined.

(** Where the loop thread is: before [loop()], at the test of [quit_], inside [epoll_wait],
    dispatching the events ([woken]: the eventfd's is among them, still to be handled), running
    the functors it swapped out, or after [loop()]. *)
Inductive phase :=
| Idle
| Testing
| Polling
| Dispatching (woken : bool)
| Running (functors : list Functor)
| Stopped.
#[export] Instance phase_eq_dec : EqDecision phase.
Proof. solve_decision. Defined.

Record EventLoop := mkLoop {
  looping_ : bool;
  quit_ : bool;
  pendingFunctors_ : list Functor;
  wakeups : nat;
  owed : nat;
  at_ : phase;
  executed : list Functor;
}.

(** [wakeups] is the eventfd's counter; [owed] counts the calls of [wakeup()] that threads are
    about to make, after pushing a functor or setting [quit_]. *)
Definition EventLoop_new : EventLoop := mkLoop false false [] 0 0 Idle [].

(** The atomic steps. *)
Inductive step_label :=
| LoopStart
| LoopTest
| LoopPollReturns (reported : bool)
| LoopHandleWakeup
| LoopDispatched
| LoopRunFunctor
| LoopQueue (f : nat)
| LoopQuit
| OtherPush (f : nat)
| OtherQuit
| OtherWakeup.

Definition set_phase (l : EventLoop) (p : phase) : EventLoop :=
  mkLoop (looping_ l) (quit_ l) (pendingFunctors_ l) (wakeups l) (owed l) p (executed l).

(** ** The functions *)

(** [loop()] up to its [while]. *)
Definition loop_begin (l : EventLoop) : EventLoop :=
  mkLoop true false (pendingFunctors_ l) (wakeups l) (owed l) Testing (executed l).

(** [while (!quit_)], and what follows the loop. *)
Definition loop_while (l : EventLoop) : EventLoop :=
  if quit_ l
  then mkLoop false (quit_ l) (pendingFunctors_ l) (wakeups l) (owed l) Stopped (executed l)
  else set_phase l Polling.

(** [poll] returns, on events, after ten seconds, or interrupted by a signal; [reported]: a
    readable eventfd is among the events it gives. *)
Definition poll_returns (reported : bool) (l : EventLoop) : EventLoop :=
  set_phase l (Dispatching (reported && (0 <? wakeups l))).

(** [wakeup()] adds one to the eventfd. *)
Definition wakeup (l : EventLoop) : EventLoop :=
  mkLoop (looping_ l) (quit_ l) (pendingFunctors_ l) (S (wakeups l)) (owed l) (at_ l) (executed l).

(** [handleWakeup] reads until the eventfd is empty. *)
Definition handleWakeup (l : EventLoop) : EventLoop :=
  mkLoop (looping_ l) (quit_ l) (pendingFunctors_ l) 0 (owed l) (at_ l) (executed l).

(** The critical section of [queueInLoop]. *)
Definition push_functor (f : Functor) (l : EventLoop) : EventLoop :=
  mkLoop (looping_ l) (quit_ l) (pendingFunctors_ l ++ [f]) (wakeups l) (owed l) (at_ l) (executed l).

(** [queueInLoop] on the loop thread: it wakes the loop only when the loop does not run. *)
Definition queueInLoop (f : Functor) (l : EventLoop) : EventLoop :=
  let l := push_functor f l in if looping_ l then l else wakeup l.

(** The critical section of [doPendingFunctors]: the swap. *)
Definition swap_functors (l : EventLoop) : EventLoop :=
  mkLoop (looping_ l) (quit_ l) [] (wakeups l) (owed l) (Running (pendingFunctors_ l)) (executed l).

(** [quit_ = true] *)
Definition set_quit (l : EventLoop) : EventLoop :=
  mkLoop (looping_ l) true (pendingFunctors_ l) (wakeups l) (owed l) (at_ l) (executed l).

(** Another thread is about to call [wakeup()], or does. *)
Definition set_owed (n : nat) (l : EventLoop) : EventLoop :=
  mkLoop (looping_ l) (quit_ l) (pendingFunctors_ l) (wakeups l) n (at_ l) (executed l).

(** The loop thread is inside a callback or a functor. *)
Definition in_callback (p : phase) : bool :=
  match p with Dispatching _ | Running _ => true | _ => false end.

(** ** Steps *)

(** [None]: the step is not possible now. *)
Definition loop_step (l : EventLoop) (s : step_label) : option EventLoop :=
  match s with
  | LoopStart => match at_ l with Idle => Some (loop_begin l) | _ => None end
  | LoopTest => match at_ l with Testing => Some (loop_while l) | _ => None end
  | LoopPollReturns reported =>
      match at_ l with Polling => Some (poll_returns reported l) | _ => None end
  | LoopHandleWakeup =>
      match at_ l with
      | Dispatching true => Some (set_phase (handleWakeup l) (Dispatching false))
      | _ => None
      end
  | LoopDispatched =>
      match at_ l with Dispatching false => Some (swap_functors l) | _ => None end
  (* one functor, or the end of doPendingFunctors *)
  | LoopRunFunctor =>
      match at_ l with
      | Running (f :: fs) =>
          Some (mkLoop (looping_ l) (quit_ l) (pendingFunctors_ l) (wakeups l) (owed l)
                       (Running fs) (executed l ++ [f]))
      | Running [] => Some (set_phase l Testing)
      | _ => None
      end
  | LoopQueue f =>
      if in_callback (at_ l) || bool_decide (at_ l = Idle)
      then Some (queueInLoop (mkFunctor f false) l)
      else None
  | LoopQuit => if in_callback (at_ l) then Some (set_quit l) else None
  (* queueInLoop on another thread: the push; the wakeup follows *)
  | OtherPush f => Some (set_owed (S (owed l)) (push_functor (mkFunctor f true) l))
  (* quit() on another thread: the flag; the wakeup follows *)
  | OtherQuit => Some (set_owed (S (owed l)) (set_quit l))
  | OtherWakeup => match owed l with O => None | S n => Some (set_owed n (wakeup l)) end
  end.

(** The functors queued by a sequence of steps. *)
Definition queued (ss : list step_label) : list Functor :=
  flat_map (fun s => match s with
                     | LoopQueue f => [mkFunctor f false]
                     | OtherPush f => [mkFunctor f true]
                     | _ => []
                     end) ss.

(** ** Invariants *)

(** The functors the loop has taken but not run. *)
Definition taken (p : phase) : list Functor := match p with Running fs => fs | _ => [] end.

(** A functor of another thread that waits is announced by the eventfd, or about to be, unless
    the loop is on its way to take it. *)
Definition announced (l : EventLoop) : Prop :=
  match at_ l with
  | Dispatching _ => True
  | Stopped => True
  | _ => Exists (fun f => remote f = true) (pendingFunctors_ l) -> 0 < wakeups l + owed l
  end.

(** The loop runs between [LoopStart] and [Stopped]. *)
Definition flags_ok (l : EventLoop) : Prop :=
  looping_ l = match at_ l with Idle | Stopped => false | _ => true end.

(** Case analysis of one step. *)
Ltac step_cases :=
  repeat match goal with
  | H : context [match ?x with _ => _ end] |- _ => destruct x eqn:?; try discriminate H
  end; simplify_eq;
  cbn [at_ pendingFunctors_ wakeups owed executed looping_ quit_ set_phase taken] in *.

Ltac unfold_step :=
  unfold loop_step, loop_begin, loop_while, poll_returns, queueInLoop, push_functor, wakeup,
    handleWakeup, swap_functors, set_quit, set_owed in *.

Lemma step_order l s l' :
  loop_step l s = Some l' ->
  executed l' ++ taken (at_ l') ++ pendingFunctors_ l'
  = executed l ++ taken (at_ l) ++ pendingFunctors_ l ++ queued [s].
Proof.
  unfold_step. intros Hs. destruct l as [lo qu pe wa ow ph ex].
  destruct s; cbn [at_ pendingFunctors_ wakeups owed executed looping_ quit_ set_phase taken] in *;
    step_cases; cbn [queued flat_map app]; rewrite ?app_nil_r; try done.
  all: by rewrite ?app_assoc, <- ?app_assoc.
Qed.

Lemma step_flags l s l' : flags_ok l -> loop_step l s = Some l' -> flags_ok l'.
Proof.
  unfold flags_ok. unfold_step. intros Hf Hs. destruct l as [lo qu pe wa ow ph ex].
  destruct s; cbn [at_ pendingFunctors_ wakeups owed executed looping_ quit_ set_phase] in *;
    step_cases; done.
Qed.

Lemma step_announced l s l' :
  flags_ok l -> announced l -> loop_step l s = Some l' -> announced l'.
Proof.
  unfold flags_ok, announced. unfold_step. intros Hf Ha Hs. destruct l as [lo qu pe wa ow ph ex].
  destruct s; cbn [at_ pendingFunctors_ wakeups owed executed looping_ quit_ set_phase] in *;
    step_cases; try done; try (intros Hex; specialize (Ha Hex); lia); try (intros; lia).
  - by intros ?%Exists_nil.
  - intros [Hex|Hex]%Exists_app; [by apply Ha|].
    apply Exists_cons in Hex as [Hex|Hex]; [done|by apply Exists_nil in Hex].
Qed.

Lemma run_order ss l :
  EventLoop_new =[ loop_step | ss ]=> l ->
  executed l ++ taken (at_ l) ++ pendingFunctors_ l = queued ss.
Proof.
  apply (steps_history _ (fun ss l => executed l ++ taken (at_ l) ++ pendingFunctors_ l = queued ss));
    [|done].
  intros ss1 l1 s l2 Hl1 Hs. rewrite (step_order _ _ _ Hs). unfold queued.
  by rewrite flat_map_app, !app_assoc, <- (app_assoc (executed l1)), Hl1.
Qed.

Lemma run_announced ss l :
  EventLoop_new =[ loop_step | ss ]=> l -> flags_ok l /\ announced l.
Proof.
  apply (steps_inv _ (fun l => flags_ok l /\ announced l)).
  - intros l1 s l2 [Hf Ha] Hs. split; [by eapply step_flags|by eapply step_announced].
  - split; [done|]. by intros ?%Exists_nil.
Qed.

(** ** Theorems *)

(** Functors run once and in order: over any interleaving of the loop with threads that queue
    functors, those run so far, then those the loop has taken, then those waiting are exactly
    the functors queued, in the order they were queued. *)
Theorem functors_fifo (ss : list step_label) (l : EventLoop)
  (Hrun : EventLoop_new =[ loop_step | ss ]=> l) :
  executed l ++ taken (at_ l) ++ pendingFunctors_ l = queued ss.
Proof. exact (run_order _ _ Hrun). Qed.

Lemma run_functors l fs :
  at_ l = Running fs ->
  l =[ loop_step | replicate (length fs) LoopRunFunctor ]=>
    mkLoop (looping_ l) (quit_ l) (pendingFunctors_ l) (wakeups l) (owed l) (Running [])
           (executed l ++ fs).
Proof.
  revert l. induction fs as [|f fs IH]; intros l Hat; cbn [length replicate steps].
  { rewrite app_nil_r, <- Hat. by destruct l. }
  unfold loop_step. rewrite Hat. rewrite IH by done. cbn. by rewrite <- app_assoc.
Qed.

(** A posted functor is not lost to sleep: whenever the loop is blocked in [epoll_wait] and a
    functor of another thread waits, the eventfd is readable or about to be written; and once
    the loop returns from the wait, the same turn runs every waiting functor. *)
Theorem posted_functor_runs (ss : list step_label) (l : EventLoop) (f : Functor)
  (Hrun : EventLoop_new =[ loop_step | ss ]=> l)
  (Hblocked : at_ l = Polling) (Hwaits : f ∈ pendingFunctors_ l) (Hremote : remote f = true) :
  0 < wakeups l + owed l /\
  (0 < wakeups l ->
   exists l', l =[ loop_step | [LoopPollReturns true; LoopHandleWakeup; LoopDispatched] ++
                      replicate (length (pendingFunctors_ l)) LoopRunFunctor ]=> l' /\
              executed l' = executed l ++ pendingFunctors_ l /\ pendingFunctors_ l' = []).
Proof.
  split.
  - destruct (run_announced _ _ Hrun) as [_ Ha].
    unfold announced in Ha. rewrite Hblocked in Ha. apply Ha, Exists_exists.
    exists f. by split; [apply list_elem_of_In|].
  - intros Hw. destruct l as [lo qu pe wa ow ph ex]. cbn in Hblocked, Hw. subst ph.
    destruct (Nat.ltb_spec 0 wa) as [_|]; [|lia].
    cbn [app steps loop_step at_ set_phase wakeups poll_returns andb].
    rewrite (proj2 (Nat.ltb_lt 0 wa) Hw).
    cbn [at_ pendingFunctors_ set_phase handleWakeup swap_functors].
    rewrite run_functors by done. by eexists.
Qed.

(** A functor the loop thread queues from a functor waits out the poll: there is a run in which
    the loop blocks in [epoll_wait] with a functor queued, the eventfd at zero and no wakeup on
    its way, because [queueInLoop] wakes the loop only from other threads or before [loop()]. *)
Theorem local_functor_sleeps :
  exists ss l, EventLoop_new =[ loop_step | ss ]=> l /\ at_ l = Polling /\
    pendingFunctors_ l = [mkFunctor 2 false] /\ wakeups l = 0 /\ owed l = 0.
Proof.
  exists [LoopStart; LoopTest; OtherPush 1; OtherWakeup; LoopPollReturns true; LoopHandleWakeup;
          LoopDispatched; LoopQueue 2; LoopRunFunctor; LoopRunFunctor; LoopTest].
  eexists. by repeat split.
Qed.

Definition quits (s : step_label) : bool :=
  match s with LoopQuit | OtherQuit => true | _ => false end.

Lemma step_no_quit l s l' :
  quit_ l = false -> at_ l <> Stopped -> quits s = false -> loop_step l s = Some l' ->
  quit_ l' = false /\ at_ l' <> Stopped.
Proof.
  unfold_step. intros Hq Hst Hs Hstep. destruct l as [lo qu pe wa ow ph ex].
  destruct s; cbn [at_ pendingFunctors_ wakeups owed executed looping_ quit_ set_phase quits] in *;
    step_cases; done.
Qed.

Lemma forallb_quits ss :
  forallb (fun s => negb (quits s)) ss = true -> Forall (fun s => quits s = false) ss.
Proof.
  intros H. apply Forall_forall. intros s Hs. rewrite forallb_forall in H.
  by apply negb_true_iff, H.
Qed.

(** A quit that comes before [loop()] is lost: when another thread calls [quit()] on a loop
    that has not yet started, the loop starts all the same and, without another [quit()], never
    stops, whatever else happens, because [loop()] resets [quit_]. *)
Theorem early_quit_lost (ss : list step_label) (l : EventLoop)
  (Hnoquit : forallb (fun s => negb (quits s)) ss = true)
  (Hrun : EventLoop_new =[ loop_step | [OtherQuit; OtherWakeup; LoopStart] ++ ss ]=> l) :
  at_ l <> Stopped.
Proof.
  rewrite steps_app in Hrun. destruct Hrun as (l0 & [= <-] & Hrun).
  refine (proj2 (steps_inv_labels _ (fun s => quits s = false)
                   (fun l => quit_ l = false /\ at_ l <> Stopped) _ ss l _ _ _ Hrun)).
  - intros l1 s l2 Hs [Hq Hst]. by apply step_no_quit.
  - by apply forallb_quits.
  - done.
Qed.

(** ** Quitting a running loop *)

(** A loop that has been told to quit is not left asleep. *)
Definition quit_announced (l : EventLoop) : Prop :=
  quit_ l = true -> at_ l = Polling -> 0 < wakeups l + owed l.

Lemma step_quit_announced l s l' :
  quit_announced l -> loop_step l s = Some l' -> quit_announced l'.
Proof.
  unfold quit_announced. unfold_step. intros Ha Hs. destruct l as [lo qu pe wa ow ph ex].
  destruct s; cbn [at_ pendingFunctors_ wakeups owed executed looping_ quit_ set_phase] in *;
    step_cases; try done; try (intros; lia); intros Hq Hp; subst; try done;
    specialize (Ha eq_refl eq_refl); lia.
Qed.

(** The flag of a running loop is not reset. *)
Lemma step_quit_stays l s l' :
  quit_ l = true -> at_ l <> Idle -> loop_step l s = Some l' -> quit_ l' = true /\ at_ l' <> Idle.
Proof.
  unfold_step. intros Hq Hst Hstep. destruct l as [lo qu pe wa ow ph ex].
  destruct s; cbn [at_ pendingFunctors_ wakeups owed executed looping_ quit_ set_phase] in *;
    step_cases; done.
Qed.

(** From each position the loop thread's own steps lead to the end of [loop()]. *)
Lemma running_stops l fs :
  quit_ l = true -> at_ l = Running fs ->
  exists l', l =[ loop_step | replicate (length fs) LoopRunFunctor ++ [LoopRunFunctor; LoopTest] ]=> l'
    /\ at_ l' = Stopped.
Proof.
  intros Hq Hat. eexists. split.
  - apply steps_app. eexists. split; [by apply run_functors|]. cbn. by rewrite Hq.
  - done.
Qed.

Lemma dispatching_stops l woken :
  quit_ l = true -> at_ l = Dispatching woken ->
  exists ss l', l =[ loop_step | ss ]=> l' /\ at_ l' = Stopped /\
    length ss <= length (pendingFunctors_ l) + 4.
Proof.
  intros Hq Hat.
  destruct (running_stops (swap_functors l) (pendingFunctors_ l) Hq eq_refl) as (l' & Hrun & Hst).
  destruct woken.
  - destruct (running_stops (swap_functors (set_phase (handleWakeup l) (Dispatching false)))
                (pendingFunctors_ l) Hq eq_refl) as (l2 & Hrun2 & Hst2).
    eexists (LoopHandleWakeup :: LoopDispatched :: _), l2. cbn [steps loop_step]. rewrite Hat.
    cbn [at_ set_phase]. split; [exact Hrun2|]. split; [done|].
    cbn [length]. rewrite length_app, length_replicate. cbn [length]. lia.
  - eexists (LoopDispatched :: _), l'. cbn [steps loop_step]. rewrite Hat.
    split; [exact Hrun|]. split; [done|]. cbn [length]. rewrite length_app, length_replicate. cbn [length]. lia.
Qed.

Lemma loop_stops l :
  flags_ok l -> quit_announced l -> quit_ l = true -> at_ l <> Idle ->
  exists ss l', l =[ loop_step | ss ]=> l' /\ at_ l' = Stopped /\
    length ss <= length (taken (at_ l)) + length (pendingFunctors_ l) + 6.
Proof.
  intros Hf Ha Hq Hidle. destruct (at_ l) as [| | |woken|fs|] eqn:Hat; try done.
  - exists [LoopTest]. eexists. cbn [steps loop_step]. rewrite Hat. unfold loop_while. rewrite Hq.
    split; [done|]. split; [done|]. cbn. lia.
  - destruct (dispatching_stops (poll_returns true l) _ Hq eq_refl) as (ss & l' & Hrun & Hst & Hlen).
    exists (LoopPollReturns true :: ss), l'. cbn [steps loop_step]. rewrite Hat.
    split; [done|]. split; [done|]. cbn in *. lia.
  - destruct (dispatching_stops l woken Hq Hat) as (ss & l' & Hrun & Hst & Hlen).
    exists ss, l'. split; [done|]. split; [done|]. cbn. lia.
  - destruct (running_stops l fs Hq Hat) as (l' & Hrun & Hst). eexists _, l'.
    split; [exact Hrun|]. split; [done|]. rewrite length_app, length_replicate. cbn. lia.
  - exists [], l. split; [done|]. split; [done|]. cbn. lia.
Qed.

Lemma run_quit_announced ss l : EventLoop_new =[ loop_step | ss ]=> l -> quit_announced l.
Proof. apply steps_inv; [intros ???; apply step_quit_announced|by intros ?]. Qed.

(** A running loop that is told to quit stops: once [loop()] has begun and the flag is set,
    the flag stays set whatever happens; a loop blocked in [epoll_wait] has its eventfd readable
    or about to be written; and the loop thread reaches the end of [loop()] in a number of steps
    bounded by the functors it holds. *)
Theorem quit_stops (ss : list step_label) (l : EventLoop)
  (Hrun : EventLoop_new =[ loop_step | ss ]=> l)
  (Hquit : quit_ l = true) (Hstarted : at_ l <> Idle) :
  (forall ss' l', l =[ loop_step | ss' ]=> l' -> quit_ l' = true) /\
  (at_ l = Polling -> 0 < wakeups l + owed l) /\
  exists ss' l', l =[ loop_step | ss' ]=> l' /\ at_ l' = Stopped /\
    length ss' <= length (taken (at_ l)) + length (pendingFunctors_ l) + 6.
Proof.
  pose proof (run_quit_announced ss l Hrun) as Ha. split; [|split].
  - intros ss' l' Hrun'. refine (proj1 (steps_inv _ (fun l => quit_ l = true /\ at_ l <> Idle)
                                          l ss' l' _ (conj Hquit Hstarted) Hrun')).
    intros l1 s l2 [H1 H2] H3. by eapply step_quit_stays.
  - auto.
  - apply loop_stops; try done. apply (run_announced ss l Hrun).
Qed.

(** ** EventLoopPool::~EventLoopPool *)

(** [quit()] on every loop, from the destructor's thread. *)
Definition quit_all (ls : list EventLoop) : list EventLoop :=
  map (fun l => set_owed (S (owed l)) (set_quit l)) ls.

(** The threads' loops have ended, so [join] returns on each. *)
Definition joined (ls : list EventLoop) : Prop := Forall (fun l => at_ l = Stopped) ls.

(** The runs of the threads, side by side. *)
Inductive threads_run : list EventLoop -> list EventLoop -> Prop :=
| threads_none : threads_run [] []
| threads_more l ss l' ls ls' :
    l =[ loop_step | ss ]=> l' -> threads_run ls ls' -> threads_run (l :: ls) (l' :: ls').

(** A loop told to quit after it had begun can stop, wherever its thread has got to. *)
Lemma told_stops ss l ss1 l1 :
  EventLoop_new =[ loop_step | ss ]=> l -> at_ l <> Idle ->
  set_owed (S (owed l)) (set_quit l) =[ loop_step | ss1 ]=> l1 ->
  exists ss' l', l1 =[ loop_step | ss' ]=> l' /\ at_ l' = Stopped.
Proof.
  intros Hrun Hidle Hrun1.
  assert (Hall : EventLoop_new =[ loop_step | ss ++ OtherQuit :: ss1 ]=> l1)
    by (apply steps_app; by exists l).
  assert (Hq : quit_ l1 = true /\ at_ l1 <> Idle).
  { refine (steps_inv _ (fun l => quit_ l = true /\ at_ l <> Idle) _ ss1 l1 _ _ Hrun1); [|by split].
    intros l2 s l3 [H1 H2] H3. by eapply step_quit_stays. }
  destruct (loop_stops l1) as (ss' & l' & Hr & Hst & _);
    [apply (run_announced _ _ Hall)|by eapply run_quit_announced|apply Hq|apply Hq|].
  by exists ss', l'.
Qed.

(** A loop that has not begun, or has begun since it was told, keeps running without a [quit()]. *)
Lemma idle_never_stops l ss l' :
  at_ l = Idle -> forallb (fun s => negb (quits s)) ss = true -> l =[ loop_step | ss ]=> l' ->
  at_ l' <> Stopped.
Proof.
  intros Hidle Hno Hrun.
  assert (Hend : at_ l' = Idle \/ (quit_ l' = false /\ at_ l' <> Stopped)).
  { refine (steps_inv_labels _ (fun s => quits s = false)
              (fun l => at_ l = Idle \/ (quit_ l = false /\ at_ l <> Stopped)) l ss l' _ _ _ Hrun).
    - intros l1 s l2 Hqs [Hi|[Hq Hs]] Hstep; [|right; by eapply step_no_quit].
      revert Hstep. unfold_step. destruct l1 as [lo qu pe wa ow ph ex].
      cbn [at_] in Hi. subst ph. destruct s; cbn; try done; repeat case_match; try done;
        intros [= <-]; cbn; auto.
    - by apply forallb_quits.
    - by left. }
  destruct Hend as [->|[_ Hs]]; [discriminate|done].
Qed.

(** C33. The pool's destructor can finish exactly when no loop is told to quit before it begins:
    if every loop of the pool has entered [loop()], then after [quit()] on each, wherever their
    threads have got to meanwhile, they can reach the state in which every [join] returns; a loop
    not yet in [loop()] loses its [quit()], and its thread never ends. *)
Theorem pool_destructor_joins (ls : list EventLoop)
  (Hreach : Forall (fun l => exists ss, EventLoop_new =[ loop_step | ss ]=> l) ls) :
  (Forall (fun l => at_ l <> Idle) ls ->
   forall ls1, threads_run (quit_all ls) ls1 -> exists ls', threads_run ls1 ls' /\ joined ls') /\
  (forall l ss l', l ∈ quit_all ls -> at_ l = Idle ->
     forallb (fun s => negb (quits s)) ss = true -> l =[ loop_step | ss ]=> l' -> at_ l' <> Stopped).
Proof.
  split; [|intros l ss l' _; apply idle_never_stops].
  intros Hst. induction Hreach as [|l ls (ss & Hrun) _ IH]; intros ls1 Hls1; cbn in Hls1;
    inversion Hls1 as [|? ss1 l1 ? ls2 Hl1 Hls2]; subst; [by exists []; split; constructor|].
  apply Forall_cons_1 in Hst as [Hl Hst]. destruct (IH Hst ls2 Hls2) as (ls' & Hls & Hj).
  destruct (told_stops ss l ss1 l1 Hrun Hl Hl1) as (ss' & l' & Hr & Hstop).
  exists (l' :: ls'). split; [by econstructor|by constructor].
Qed.

(** ** Witnesses *)

Definition posted : list step_label :=
  [LoopStart; LoopTest; OtherPush 1; OtherPush 2; OtherWakeup].
Definition posted_loop : EventLoop :=
  mkLoop true false [mkFunctor 1 true; mkFunctor 2 true] 1 1 Polling [].

Lemma functors_fifo_witness :
  executed posted_loop ++ taken (at_ posted_loop) ++ pendingFunctors_ posted_loop = queued posted.
Proof. apply (functors_fifo posted posted_loop). reflexivity. Defined.

Lemma posted_functor_runs_witness :
  0 < wakeups posted_loop + owed posted_loop.
Proof.
  apply (posted_functor_runs posted posted_loop (mkFunctor 2 true)).
  - reflexivity.
  - reflexivity.
  - apply list_elem_of_In. cbn. auto.
  - reflexivity.
Defined.

Lemma early_quit_lost_witness :
  exists l, EventLoop_new =[ loop_step | [OtherQuit; OtherWakeup; LoopStart] ++
      [LoopTest; LoopPollReturns true; LoopHandleWakeup; LoopDispatched; LoopRunFunctor; LoopTest]
    ]=> l /\ at_ l <> Stopped.
Proof.
  eexists. split; [reflexivity|].
  apply (early_quit_lost
           [LoopTest; LoopPollReturns true; LoopHandleWakeup; LoopDispatched; LoopRunFunctor; LoopTest]);
    reflexivity.
Defined.

Definition quitting : list step_label := [LoopStart; LoopTest; OtherPush 1; OtherQuit].
Definition quitting_loop : EventLoop := mkLoop true true [mkFunctor 1 true] 0 2 Polling [].

Lemma quit_stops_witness :
  0 < wakeups quitting_loop + owed quitting_loop /\
  exists ss' l', quitting_loop =[ loop_step | ss' ]=> l' /\ at_ l' = Stopped.
Proof.
  destruct (quit_stops quitting quitting_loop eq_refl eq_refl ltac:(discriminate))
    as (_ & Hw & ss' & l' & Hrun & Hst & _).
  split; [exact (Hw eq_refl)|]. exists ss', l'. split; [exact Hrun|exact Hst].
Defined.

Lemma pool_destructor_joins_witness :
  exists ls', threads_run (quit_all [posted_loop]) ls' /\ joined ls'.
Proof.
  apply (pool_destructor_joins [posted_loop]).
  - constructor; [exists posted; reflexivity|constructor].
  - constructor; [discriminate|constructor].
  - apply (threads_more _ []); [reflexivity|constructor].
Defined.
