(* ===== verification/ThreadPool.v ===== *)
(** [minirpc::ThreadPool] (include/minirpc/thread/ThreadPool.h, src/thread/ThreadPool.cpp) as a
    step system: submitters, workers and the destructor interleave at the acquisitions of
    [taskQueueMutex_], at the waits on [notEmpty_], and at the accesses of the atomic flag. *)
From stdpp Require Import base list gmap strings numbers sorting.
From Stdlib Require Import ZArith Lia.
From S2P Require Import Prelude RpcServer.

Inductive PoolMode := kFixed | kCached.
#[export] Instance PoolMode_eq_dec : EqDecision PoolMode.
Proof. solve_decision. Defined.

(** [TaskPriority]: the smaller, the sooner. *)
Definition kHigh : Z := 0.
Definition kNormal : Z := 1.
Definition kLow : Z := 2.

Section ThreadPool.
Context {Task : Type}.

Record PrioritizedTask := mkTask { priority : Z; func : Task }.

(** A worker's position in [WorkerThread]: at the top of its loop, waiting for the mutex (first or
    after a wait), inside the wait on [notEmpty_] with the mutex held and the predicate found
    false, blocked ([timed]: for at most sixty seconds), running a task, leaving, gone. *)
Inductive worker :=
| WTop
| WWantLock
| WAboutToBlock (timed : bool)
| WBlocked (timed : bool)
| WRunning (t : PrioritizedTask)
| WExiting
| WGone.

Record ThreadPool := mkPool {
  mode_ : PoolMode;
  initThreadSize_ : nat;
  maxThreadCount_ : nat;
  maxTaskQueueSize_ : nat;
  isRunning_ : bool;
  currentThreadCount_ : nat;
  idleThreadCount_ : Z;
  taskQueueSize_ : nat;
  taskQueue_ : list PrioritizedTask;
  threads_ : gset nat;
  lock_ : option nat;
  workers : gmap nat worker;
  executed : list PrioritizedTask;
}.

Record ThreadPoolConfig := mkConfig {
  cf_mode : PoolMode;
  initThreadCount : nat;
  maxThreadCount : nat;
  maxQueueSize : nat;
}.

(** The default constructor. *)
Definition ThreadPool_new : ThreadPool :=
  mkPool kFixed 0 8 1024 false 0 0 0 [] ∅ None ∅ [].

(** [Start(config)] up to its calls of [CreateThread]. *)
Definition Start (p : ThreadPool) (c : ThreadPoolConfig) : ThreadPool :=
  mkPool (cf_mode c) (initThreadCount c) (maxThreadCount c) (maxQueueSize c) true
    (currentThreadCount_ p) (idleThreadCount_ p) (taskQueueSize_ p) (taskQueue_ p) (threads_ p)
    (lock_ p) (workers p) (executed p).

Definition SetMode (p : ThreadPool) (m : PoolMode) : ThreadPool :=
  if isRunning_ p then p
  else mkPool m (initThreadSize_ p) (maxThreadCount_ p) (maxTaskQueueSize_ p) false
         (currentThreadCount_ p) (idleThreadCount_ p) (taskQueueSize_ p) (taskQueue_ p)
         (threads_ p) (lock_ p) (workers p) (executed p).
Definition SetTaskQueueMaxSize (p : ThreadPool) (n : nat) : ThreadPool :=
  if isRunning_ p then p
  else mkPool (mode_ p) (initThreadSize_ p) (maxThreadCount_ p) n false
         (currentThreadCount_ p) (idleThreadCount_ p) (taskQueueSize_ p) (taskQueue_ p)
         (threads_ p) (lock_ p) (workers p) (executed p).
Definition SetMaxThreadCount (p : ThreadPool) (n : nat) : ThreadPool :=
  if isRunning_ p || negb (bool_decide (mode_ p = kCached)) then p
  else mkPool (mode_ p) (initThreadSize_ p) n (maxTaskQueueSize_ p) false
         (currentThreadCount_ p) (idleThreadCount_ p) (taskQueueSize_ p) (taskQueue_ p)
         (threads_ p) (lock_ p) (workers p) (executed p).

Definition set_worker (p : ThreadPool) (w : nat) (s : worker) : ThreadPool :=
  mkPool (mode_ p) (initThreadSize_ p) (maxThreadCount_ p) (maxTaskQueueSize_ p) (isRunning_ p)
    (currentThreadCount_ p) (idleThreadCount_ p) (taskQueueSize_ p) (taskQueue_ p) (threads_ p)
    (lock_ p) (<[w := s]> (workers p)) (executed p).
Definition set_lock (p : ThreadPool) (o : option nat) : ThreadPool :=
  mkPool (mode_ p) (initThreadSize_ p) (maxThreadCount_ p) (maxTaskQueueSize_ p) (isRunning_ p)
    (currentThreadCount_ p) (idleThreadCount_ p) (taskQueueSize_ p) (taskQueue_ p) (threads_ p) o
    (workers p) (executed p).
Definition set_queue (p : ThreadPool) (idle : Z) (size : nat) (q : list PrioritizedTask) : ThreadPool :=
  mkPool (mode_ p) (initThreadSize_ p) (maxThreadCount_ p) (maxTaskQueueSize_ p) (isRunning_ p)
    (currentThreadCount_ p) idle size q (threads_ p) (lock_ p) (workers p) (executed p).
Definition set_threads (p : ThreadPool) (current : nat) (idle : Z) (ts : gset nat) : ThreadPool :=
  mkPool (mode_ p) (initThreadSize_ p) (maxThreadCount_ p) (maxTaskQueueSize_ p) (isRunning_ p)
    current idle (taskQueueSize_ p) (taskQueue_ p) ts (lock_ p) (workers p) (executed p).

(** [notEmpty_.notify_all()] *)
Definition notify_all (p : ThreadPool) : ThreadPool :=
  mkPool (mode_ p) (initThreadSize_ p) (maxThreadCount_ p) (maxTaskQueueSize_ p) (isRunning_ p)
    (currentThreadCount_ p) (idleThreadCount_ p) (taskQueueSize_ p) (taskQueue_ p) (threads_ p)
    (lock_ p) ((fun s => match s with WBlocked _ => WWantLock | _ => s end) <$> workers p)
    (executed p).

(** [enqueueTask], once it has the mutex and its wait on [notFull_] is over: the wait's result is
    its predicate. A submitter that finds the queue full and waits, at most 60 s, is one whose step
    comes later, or is refused: the runs allowed here include those of the code. *)
Definition enqueueTask (p : ThreadPool) (t : PrioritizedTask) : bool * ThreadPool :=
  if negb ((taskQueueSize_ p <? maxTaskQueueSize_ p) || negb (isRunning_ p)) then (false, p)
  else if negb (isRunning_ p) then (false, p)
  else (true, notify_all (set_queue p (idleThreadCount_ p) (S (taskQueueSize_ p))
                                    (taskQueue_ p ++ [t]))).

(** The test after the push: whether [enqueueTask] calls [CreateThread]. *)
Definition wants_thread (p : ThreadPool) : bool :=
  bool_decide (mode_ p = kCached) && (idleThreadCount_ p <? Z.of_nat (taskQueueSize_ p))%Z &&
  (currentThreadCount_ p <? maxThreadCount_ p).

(** [CreateThread] up to the start of the thread [w]. *)
Definition CreateThread (p : ThreadPool) (w : nat) : ThreadPool :=
  if maxThreadCount_ p <=? currentThreadCount_ p then p
  else set_worker (set_threads p (S (currentThreadCount_ p)) (idleThreadCount_ p + 1) (threads_ p))
                  w WTop.

(** ... and its registration. *)
Definition register_thread (p : ThreadPool) (w : nat) : ThreadPool :=
  set_threads p (currentThreadCount_ p) (idleThreadCount_ p) ({[w]} ∪ threads_ p).

Definition threadExit (p : ThreadPool) (w : nat) : ThreadPool :=
  if bool_decide (w ∈ threads_ p)
  then set_threads p (Nat.pred (currentThreadCount_ p)) (idleThreadCount_ p - 1) (threads_ p ∖ {[w]})
  else p.

(** The choice of [waitForWork]: wait with a timeout, or without. *)
Definition timed_wait (p : ThreadPool) : bool :=
  bool_decide (mode_ p = kCached) && (initThreadSize_ p <? currentThreadCount_ p).

(** [priority_queue::top] may be any task no other precedes. *)
Definition is_top (q : list PrioritizedTask) (t : PrioritizedTask) : bool :=
  forallb (fun u => (priority t <=? priority u)%Z) q.

(** ** Steps *)

Inductive pool_step :=
| SubmitTask (t : PrioritizedTask)
| CreateWorker (w : nat)
| RegisterWorker (w : nat)
| WorkerTop (w : nat)
| WorkerTest (w : nat)
| WorkerBlock (w : nat)
| WorkerTake (w i : nat)
| WorkerWake (w : nat)
| WorkerTimeout (w : nat)
| WorkerFinish (w : nat)
| WorkerExit (w : nat)
| DtorStop
| DtorNotify.

(** [None]: not possible now. *)
Definition step (p : ThreadPool) (s : pool_step) : option ThreadPool :=
  match s with
  | SubmitTask t =>
      match lock_ p with
      | Some _ => None
      | None => match enqueueTask p t with (true, p) => Some p | (false, _) => None end
      end
  | CreateWorker w =>
      match workers p !! w with
      | None => if maxThreadCount_ p <=? currentThreadCount_ p then None else Some (CreateThread p w)
      | Some _ => None
      end
  | RegisterWorker w =>
      match workers p !! w with
      | Some _ => Some (register_thread p w)
      | None => None
      end
  (* if (!isRunning_) break; *)
  | WorkerTop w =>
      match workers p !! w with
      | Some WTop => Some (set_worker p w (if isRunning_ p then WWantLock else WExiting))
      | _ => None
      end
  (* under the mutex: the queue is empty, the predicate is tested *)
  | WorkerTest w =>
      match workers p !! w, lock_ p with
      | Some WWantLock, None =>
          if isRunning_ p then
            if taskQueueSize_ p =? 0
            then Some (set_lock (set_worker p w (WAboutToBlock (timed_wait p))) (Some w))
            else None
          else Some (set_worker p w WExiting)
      | _, _ => None
      end
  (* the wait releases the mutex and blocks *)
  | WorkerBlock w =>
      match workers p !! w with
      | Some (WAboutToBlock timed) => Some (set_lock (set_worker p w (WBlocked timed)) None)
      | _ => None
      end
  (* under the mutex: the top of the queue is taken *)
  | WorkerTake w i =>
      match workers p !! w, lock_ p, taskQueue_ p !! i with
      | Some WWantLock, None, Some t =>
          if isRunning_ p && negb (taskQueueSize_ p =? 0) && is_top (taskQueue_ p) t
          then Some (set_worker (set_queue p (idleThreadCount_ p - 1) (Nat.pred (taskQueueSize_ p))
                                           (delete i (taskQueue_ p))) w (WRunning t))
          else None
      | _, _, _ => None
      end
  (* a spurious wakeup *)
  | WorkerWake w =>
      match workers p !! w with
      | Some (WBlocked _) => Some (set_worker p w WWantLock)
      | _ => None
      end
  (* sixty seconds without work: waitForWork returns false, the thread leaves under the mutex *)
  | WorkerTimeout w =>
      match workers p !! w, lock_ p with
      | Some (WBlocked true), None =>
          if isRunning_ p && (taskQueueSize_ p =? 0) then Some (set_worker (threadExit p w) w WGone)
          else Some (set_worker p w WWantLock)
      | _, _ => None
      end
  | WorkerFinish w =>
      match workers p !! w with
      | Some (WRunning t) =>
          let p := set_worker p w WTop in
          Some (mkPool (mode_ p) (initThreadSize_ p) (maxThreadCount_ p) (maxTaskQueueSize_ p)
                  (isRunning_ p) (currentThreadCount_ p) (idleThreadCount_ p + 1)
                  (taskQueueSize_ p) (taskQueue_ p) (threads_ p) (lock_ p) (workers p)
                  (executed p ++ [t]))
      | _ => None
      end
  | WorkerExit w =>
      match workers p !! w with
      | Some WExiting => Some (set_worker (threadExit p w) w WGone)
      | _ => None
      end
  (* ~ThreadPool: isRunning_ = false, without the mutex; then notify_all *)
  | DtorStop =>
      Some (mkPool (mode_ p) (initThreadSize_ p) (maxThreadCount_ p) (maxTaskQueueSize_ p) false
              (currentThreadCount_ p) (idleThreadCount_ p) (taskQueueSize_ p) (taskQueue_ p)
              (threads_ p) (lock_ p) (workers p) (executed p))
  | DtorNotify => Some (notify_all p)
  end.

(** ** Invariant *)

(** The tasks workers are running. *)
Definition running_of (s : worker) : list PrioritizedTask :=
  match s with WRunning t => [t] | _ => [] end.
Definition running (ws : gmap nat worker) : list PrioritizedTask :=
  map_to_list ws ≫= (fun kv => running_of kv.2).

(** The tasks accepted by a sequence of steps. *)
Definition submitted (ss : list pool_step) : list PrioritizedTask :=
  ss ≫= (fun s => match s with SubmitTask t => [t] | _ => [] end).

Lemma running_insert ws w s :
  running (<[w := s]> ws) ≡ₚ running_of s ++ running (delete w ws).
Proof.
  unfold running. rewrite <- insert_delete_eq.
  rewrite map_to_list_insert by by rewrite lookup_delete, decide_True. done.
Qed.

Lemma running_lookup ws w s :
  ws !! w = Some s -> running ws ≡ₚ running_of s ++ running (delete w ws).
Proof.
  intros Hw. rewrite <- (insert_delete_id ws w s Hw) at 1. rewrite running_insert.
  by rewrite delete_delete_eq.
Qed.

Lemma running_replace ws w s s' :
  ws !! w = Some s -> running_of s = running_of s' -> running (<[w := s']> ws) ≡ₚ running ws.
Proof. intros Hw Hs. by rewrite running_insert, (running_lookup ws w s Hw), Hs. Qed.

Lemma running_fmap ws (f : worker -> worker) :
  (forall s, running_of (f s) = running_of s) -> running (f <$> ws) ≡ₚ running ws.
Proof.
  intros Hf. unfold running. induction ws as [|w s ws Hw IH] using map_ind; [done|].
  rewrite fmap_insert, !map_to_list_insert by by rewrite ?lookup_fmap, ?Hw.
  cbn. by rewrite Hf, IH.
Qed.

(** All the tasks the pool has accepted. *)
Definition tasks (p : ThreadPool) : list PrioritizedTask :=
  executed p ++ running (workers p) ++ taskQueue_ p.

(** The counter agrees with the queue, which is within its bound, and so are the threads. *)
Definition pool_inv (p : ThreadPool) : Prop :=
  taskQueueSize_ p = length (taskQueue_ p) /\ taskQueueSize_ p <= maxTaskQueueSize_ p /\
  currentThreadCount_ p <= maxThreadCount_ p.

(** A step that changes one worker's position, and no task. *)
Lemma tasks_set_worker p w s s' :
  workers p !! w = Some s -> running_of s = running_of s' -> tasks (set_worker p w s') ≡ₚ tasks p.
Proof. intros Hw Hs. unfold tasks. cbn. by rewrite (running_replace _ w s s' Hw Hs). Qed.

Lemma running_notify ws :
  running ((fun s => match s with WBlocked _ => WWantLock | _ => s end) <$> ws) ≡ₚ running ws.
Proof. apply running_fmap. by intros []. Qed.

Lemma is_top_delete (q : list PrioritizedTask) i t : q !! i = Some t -> q ≡ₚ t :: delete i q.
Proof. apply delete_Permutation. Qed.

Lemma submit_spec p t p' :
  pool_inv p -> enqueueTask p t = (true, p') -> pool_inv p' /\ tasks p' ≡ₚ tasks p ++ [t].
Proof.
  intros (Hsz & Hmax & Hth). unfold enqueueTask.
  destruct (taskQueueSize_ p <? maxTaskQueueSize_ p) eqn:Hlt, (isRunning_ p); cbn [orb negb];
    try discriminate. apply Nat.ltb_lt in Hlt. intros [= <-]. split.
  - split; [|split; [|done]]; cbn; [rewrite length_app; cbn|]; lia.
  - unfold tasks. cbn [executed workers taskQueue_ notify_all set_queue].
    by rewrite running_notify, <- !app_assoc.
Qed.

Lemma take_spec p w i t :
  pool_inv p -> workers p !! w = Some WWantLock -> taskQueue_ p !! i = Some t ->
  let p' := set_worker (set_queue p (idleThreadCount_ p - 1) (Nat.pred (taskQueueSize_ p))
                                  (delete i (taskQueue_ p))) w (WRunning t) in
  pool_inv p' /\ tasks p' ≡ₚ tasks p.
Proof.
  intros (Hsz & Hmax & Hth) Hw Hi. pose proof (is_top_delete _ _ _ Hi) as Hp.
  pose proof (Permutation_length Hp) as Hlen. cbn [length] in Hlen. split.
  - split; [|split; [|done]]; cbn; lia.
  - unfold tasks. cbn [executed workers taskQueue_ set_queue set_worker].
    revert Hp. generalize (delete i (taskQueue_ p)). intros q' Hp.
    rewrite running_insert, (running_lookup _ _ _ Hw), Hp. cbn [running_of app].
    by rewrite Permutation_middle.
Qed.

Lemma finish_spec p w t :
  workers p !! w = Some (WRunning t) ->
  (executed p ++ [t]) ++ running (<[w := WTop]> (workers p)) ++ taskQueue_ p ≡ₚ tasks p.
Proof.
  intros Hw. unfold tasks. rewrite running_insert, (running_lookup _ _ _ Hw). cbn [running_of app].
  by rewrite <- !app_assoc.
Qed.

Lemma exit_spec p w s :
  pool_inv p -> workers p !! w = Some s -> running_of s = [] ->
  pool_inv (set_worker (threadExit p w) w WGone) /\
  tasks (set_worker (threadExit p w) w WGone) ≡ₚ tasks p.
Proof.
  intros (? & ? & ?) Hw Hs. unfold threadExit.
  case_bool_decide; (split; [split; [done|split; [done|cbn; lia]]|]);
    by apply (tasks_set_worker p w s).
Qed.

(** Every step keeps the invariant, and the tasks but for the one it accepts. *)
Lemma step_spec p s p' :
  pool_inv p -> step p s = Some p' -> pool_inv p' /\ tasks p' ≡ₚ tasks p ++ submitted [s].
Proof.
  intros Hi. unfold submitted.
  destruct s as [t|w|w|w|w|w|w i|w|w|w|w| |]; cbn [step mbind list_bind]; rewrite ?app_nil_r.
  - destruct (lock_ p); [done|]. destruct (enqueueTask p t) as [[] p1] eqn:He; [|done].
    intros [= <-]. by apply submit_spec.
  - destruct (workers p !! w) eqn:Hw; [done|]. unfold CreateThread.
    destruct (Nat.leb_spec (maxThreadCount_ p) (currentThreadCount_ p)); [done|]. intros [= <-].
    destruct Hi as (? & ? & ?). split; [by split|]. unfold tasks. cbn.
    by rewrite running_insert, delete_id.
  - destruct (workers p !! w); [|done]. by intros [= <-].
  - destruct (workers p !! w) as [[]|] eqn:Hw; try done. intros [= <-]. split; [exact Hi|].
    apply (tasks_set_worker p w WTop); [done|by destruct (isRunning_ p)].
  - destruct (workers p !! w) as [[]|] eqn:Hw; try done. destruct (lock_ p); [done|].
    destruct (isRunning_ p); [destruct (taskQueueSize_ p =? 0); [|done]|]; intros [= <-];
      (split; [exact Hi|]); by apply (tasks_set_worker p w WWantLock).
  - destruct (workers p !! w) as [[]|] eqn:Hw; try done. intros [= <-]. split; [exact Hi|].
    by eapply (tasks_set_worker p w).
  - destruct (workers p !! w) as [[]|] eqn:Hw; try done. destruct (lock_ p); [done|].
    destruct (taskQueue_ p !! i) as [t|] eqn:Hq; [|done].
    destruct (_ && _); [|done]. intros [= <-]. by apply take_spec.
  - destruct (workers p !! w) as [[]|] eqn:Hw; try done. intros [= <-]. split; [exact Hi|].
    by eapply (tasks_set_worker p w).
  - destruct (workers p !! w) as [[| | |[]| | |]|] eqn:Hw; try done. destruct (lock_ p); [done|].
    destruct (isRunning_ p && _); intros [= <-]; [by eapply exit_spec|].
    split; [exact Hi|]. by eapply (tasks_set_worker p w).
  - destruct (workers p !! w) as [[]|] eqn:Hw; try done. intros [= <-]. split; [exact Hi|].
    exact (finish_spec p w t Hw).
  - destruct (workers p !! w) as [[]|] eqn:Hw; try done. intros [= <-].
    by eapply exit_spec.
  - by intros [= <-].
  - intros [= <-]. split; [exact Hi|]. unfold tasks. cbn. by rewrite running_notify.
Qed.

(** *** The tasks the pool holds *)

(** Being run, or waiting. *)
Definition live_tasks (p : ThreadPool) : list PrioritizedTask := running (workers p) ++ taskQueue_ p.

(** The pool's own steps: not a submission, nor the end of a task. *)
Definition internal (s : pool_step) : bool :=
  match s with SubmitTask _ | WorkerFinish _ => false | _ => true end.

(** The task the worker is running. *)
Definition running_at (p : ThreadPool) (w : nat) : option PrioritizedTask :=
  match workers p !! w with Some (WRunning t) => Some t | _ => None end.

Lemma step_internal p s p' :
  pool_inv p -> internal s = true -> step p s = Some p' ->
  pool_inv p' /\ live_tasks p' ≡ₚ live_tasks p.
Proof.
  intros Hi Hs Hst. destruct (step_spec p s p' Hi Hst) as [Hi' Ht]. split; [done|].
  assert (He : executed p' = executed p /\ submitted [s] = []).
  { clear Ht Hi'. revert Hst. destruct s; try done; cbn [step];
      unfold CreateThread, threadExit; repeat case_match; try done; by intros [= <-]. }
  destruct He as [He Hsub]. rewrite Hsub, app_nil_r in Ht. unfold tasks in Ht. rewrite He in Ht.
  by apply Permutation_app_inv_l in Ht.
Qed.

Lemma enqueue_live p t :
  pool_inv p ->
  match enqueueTask p t with
  | (true, p') => pool_inv p' /\ live_tasks p' ≡ₚ t :: live_tasks p
  | (false, p') => p' = p
  end.
Proof.
  intros Hi. destruct (enqueueTask p t) as [[] p'] eqn:He.
  - destruct (submit_spec _ _ _ Hi He) as [Hi' Ht]. split; [done|].
    assert (Hex : executed p' = executed p).
    { revert He. unfold enqueueTask. repeat case_match; by intros [= <-]. }
    unfold tasks in Ht. rewrite Hex, <- app_assoc in Ht. apply Permutation_app_inv_l in Ht.
    unfold live_tasks. rewrite Ht. solve_Permutation.
  - revert He. unfold enqueueTask. by repeat case_match; intros [= <-].
Qed.

(** The queue under the pool's own steps: tasks only leave it, and once the pool is stopped none
    does. *)
Lemma step_queue p s p' :
  internal s = true -> step p s = Some p' ->
  taskQueue_ p' ⊆ taskQueue_ p /\
  (isRunning_ p = false -> taskQueue_ p' = taskQueue_ p /\ isRunning_ p' = false).
Proof.
  intros Hs. destruct s; try done; cbn [step]; unfold CreateThread, threadExit;
    repeat case_match; try done; intros [= <-]; cbn [taskQueue_ isRunning_ set_worker set_queue
      set_lock set_threads register_thread notify_all]; try done.
  split; [by apply list_subseteq_delete|]. intros Hr. by rewrite Hr in *.
Qed.

Lemma enqueue_queue p t p' :
  enqueueTask p t = (true, p') -> taskQueue_ p' = taskQueue_ p ++ [t] /\ isRunning_ p = true /\ isRunning_ p' = true.
Proof.
  unfold enqueueTask. destruct (isRunning_ p) eqn:Hr; cbn [negb]; [|by rewrite orb_true_r].
  case_match; intros [= <-]. by repeat split.
Qed.

(** The task of a running worker, and the others. *)
Lemma live_running p w t :
  running_at p w = Some t ->
  exists rest, live_tasks p ≡ₚ t :: rest /\
    (forall t', live_tasks (set_worker p w (WRunning t')) ≡ₚ t' :: rest) /\
    (forall p', step p (WorkerFinish w) = Some p' -> live_tasks p' ≡ₚ rest).
Proof.
  unfold running_at. destruct (workers p !! w) as [[]|] eqn:Hw; try done. intros [= ->].
  exists (running (delete w (workers p)) ++ taskQueue_ p). unfold live_tasks. split; [|split].
  - by rewrite (running_lookup _ _ _ Hw).
  - intros t'. cbn [workers taskQueue_ set_worker]. by rewrite running_insert.
  - intros p'. cbn [step]. rewrite Hw. intros [= <-]. cbn [workers taskQueue_ set_worker].
    by rewrite running_insert.
Qed.

Lemma pool_run_spec p ss p' :
  pool_inv p -> p =[ step | ss ]=> p' -> pool_inv p' /\ tasks p' ≡ₚ tasks p ++ submitted ss.
Proof.
  intros Hi. apply (steps_history _ (fun ss p' => pool_inv p' /\ tasks p' ≡ₚ tasks p ++ submitted ss)).
  - intros ss1 p1 s p2 [Hi1 Ht1] Hs. destruct (step_spec _ _ _ Hi1 Hs) as [Hi2 Ht2].
    split; [done|]. unfold submitted. by rewrite Ht2, Ht1, bind_app, app_assoc.
  - split; [done|]. cbn. by rewrite app_nil_r.
Qed.

(** *** Priorities *)

(** The tasks the workers take in a run, in order. *)
Fixpoint takes (p : ThreadPool) (ss : list pool_step) : list PrioritizedTask :=
  match ss with
  | [] => []
  | s :: ss =>
      match s with
      | WorkerTake _ i => match taskQueue_ p !! i with Some t => [t] | None => [] end
      | _ => []
      end ++ match step p s with Some p' => takes p' ss | None => [] end
  end.

Definition is_submit (s : pool_step) : bool := match s with SubmitTask _ => true | _ => false end.

(** A step takes the first of the waiting tasks, or none. *)
Lemma step_takes p s p' :
  is_submit s = false -> step p s = Some p' ->
  (taskQueue_ p' = taskQueue_ p /\ takes p [s] = []) \/
  exists t, takes p [s] = [t] /\ taskQueue_ p ≡ₚ t :: taskQueue_ p' /\
    Forall (fun u => priority t <= priority u)%Z (taskQueue_ p).
Proof.
  intros Hs. cbn [takes].
  destruct s as [t|w|w|w|w|w|w i|w|w|w|w| |]; try done; cbn [step]; unfold CreateThread, threadExit.
  6: { destruct (workers p !! w) as [[]|]; try done. destruct (lock_ p); [done|].
       destruct (taskQueue_ p !! i) as [t|] eqn:Hi; [|done].
       destruct (_ && _) eqn:Hc; [|done]. intros [= <-]. right. exists t. split; [done|].
       split; [by apply delete_Permutation|]. apply andb_true_iff in Hc as [_ Htop].
       unfold is_top in Htop. apply list.Forall_forall. intros u Hu.
       apply Z.leb_le. rewrite forallb_forall in Htop. by apply Htop, list_elem_of_In. }
  all: repeat case_match; try done; intros [= <-]; left; done.
Qed.

Lemma takes_cons p s ss p' : step p s = Some p' -> takes p (s :: ss) = takes p [s] ++ takes p' ss.
Proof. intros Hs. cbn [takes]. rewrite Hs. by rewrite app_nil_r. Qed.

Lemma takes_sorted p ss p' :
  Forall (fun s => is_submit s = false) ss -> p =[ step | ss ]=> p' ->
  StronglySorted (fun t u => priority t <= priority u)%Z (takes p ss) /\
  takes p ss ++ taskQueue_ p' ≡ₚ taskQueue_ p.
Proof.
  intros Hss. revert p. induction Hss as [|s ss Hs _ IH]; intros p; cbn [steps].
  { intros [= <-]. by split; [constructor|]. }
  destruct (step p s) as [p1|] eqn:H1; [|done]. intros Hrun. destruct (IH p1 Hrun) as [Hsort Hperm].
  rewrite (takes_cons _ _ _ _ H1).
  destruct (step_takes p s p1 Hs H1) as [[Hq ->]|(t & -> & Hq & Hmin)]; cbn [app].
  - split; [done|]. by rewrite Hperm, Hq.
  - split; [|by rewrite Hperm, Hq]. constructor; [done|]. apply list.Forall_forall. intros u Hu.
    rewrite list.Forall_forall in Hmin. apply Hmin. rewrite Hq, <- Hperm.
    apply elem_of_cons. right. apply elem_of_app. by left.
Qed.

End ThreadPool.
Arguments PrioritizedTask : clear implicits.
Arguments ThreadPool : clear implicits.
Arguments worker : clear implicits.
Arguments pool_step : clear implicits.

(** ** The pool behind the server *)

(** [submit]: a refused task throws. *)
#[export] Instance ThreadPool_pool {Task} : TaskPool (ThreadPool Task) Task := fun p t =>
  match enqueueTask p (mkTask kNormal t) with
  | (true, p) => (p, Ok tt)
  | (false, p) => (p, Throw (std_exception (lit "ThreadPool: queue full, timed out")))
  end.

(** ** Theorems *)

(** C24. Every accepted task is run at most once and none is lost: from [Start], over any
    interleaving of submitters, workers, new threads and the destructor, the tasks run, being run
    and waiting are, counted with multiplicity, exactly those accepted; the size counter is the
    queue's length and neither the queue nor the threads exceed their configured bounds. *)
Theorem pool_conserves_tasks {Task : Type} (cfg : ThreadPoolConfig) (ss : list (pool_step Task))
  (p : ThreadPool Task)
  (Hrun : Start ThreadPool_new cfg =[ step | ss ]=> p) :
  executed p ++ running (workers p) ++ taskQueue_ p ≡ₚ submitted ss /\
  taskQueueSize_ p = length (taskQueue_ p) /\ taskQueueSize_ p <= maxTaskQueueSize_ p /\
  currentThreadCount_ p <= maxThreadCount_ p.
Proof.
  apply pool_run_spec in Hrun as [Hi Ht]; [by split|]. split; cbn; lia.
Qed.

(** Priorities order what waits together: over any run without a new submission, whatever the
    number of workers and their interleaving, the tasks are taken in order of priority, and those
    taken and those left are exactly the ones that waited at its start. *)
Theorem priority_order {Task : Type} (ss : list (pool_step Task)) (p p' : ThreadPool Task)
  (Hnone : Forall (fun s => is_submit s = false) ss)
  (Hrun : p =[ step | ss ]=> p') :
  StronglySorted (fun t u => priority t <= priority u)%Z (takes p ss) /\
  takes p ss ++ taskQueue_ p' ≡ₚ taskQueue_ p.
Proof. by apply takes_sorted. Qed.

(** The destructor has run and notified; one worker, blocked without a timeout, is left. *)
Definition hung {Task} (p : ThreadPool Task) : Prop :=
  isRunning_ p = false /\ workers p = {[0 := WBlocked false]} /\ threads_ p = {[0]} /\
  maxThreadCount_ p <= currentThreadCount_ p.

Lemma hung_step {Task} (p : ThreadPool Task) s p' :
  hung p -> s <> DtorNotify -> (forall w, s <> WorkerWake w) -> step p s = Some p' -> hung p'.
Proof.
  intros (Hr & Hw & Ht & Hc) Hn Hwk.
  assert (Hlk : forall w x, workers p !! w = Some x -> w = 0 /\ x = WBlocked false).
  { intros w x. rewrite Hw, lookup_singleton. by case_decide; intros [= <-]. }
  destruct s as [t|w|w|w|w|w|w i|w|w|w|w| |]; cbn [step]; try done.
  - destruct (lock_ p); [done|]. unfold enqueueTask. rewrite Hr. cbn [negb].
    by rewrite orb_true_r.
  - destruct (workers p !! w); [done|].
    by destruct (Nat.leb_spec (maxThreadCount_ p) (currentThreadCount_ p)); [|lia].
  - destruct (workers p !! w) as [x|] eqn:Hx; [|done]. apply Hlk in Hx as [-> ->].
    intros [= <-]. split; [done|]. split; [done|]. split; [|done]. cbn. rewrite Ht. set_solver.
  - destruct (workers p !! w) as [x|] eqn:Hx; [|done]. by apply Hlk in Hx as [-> ->].
  - destruct (workers p !! w) as [x|] eqn:Hx; [|done]. by apply Hlk in Hx as [-> ->].
  - destruct (workers p !! w) as [x|] eqn:Hx; [|done]. by apply Hlk in Hx as [-> ->].
  - destruct (workers p !! w) as [x|] eqn:Hx; [|done]. by apply Hlk in Hx as [-> ->].
  - by destruct (Hwk w).
  - destruct (workers p !! w) as [x|] eqn:Hx; [|done]. by apply Hlk in Hx as [-> ->].
  - destruct (workers p !! w) as [x|] eqn:Hx; [|done]. by apply Hlk in Hx as [-> ->].
  - destruct (workers p !! w) as [x|] eqn:Hx; [|done]. by apply Hlk in Hx as [-> ->].
  - by intros [= <-].
Qed.

(** The interleaving: the worker finds the queue empty and the pool running, and is about to
    block; the destructor clears the flag and notifies; the worker blocks. *)
Definition hang : list (pool_step nat) :=
  [CreateWorker 0; RegisterWorker 0; WorkerTop 0; WorkerTest 0; DtorStop; DtorNotify; WorkerBlock 0].

Lemma hung_run {Task} (p : ThreadPool Task) ss p' :
  hung p -> Forall (fun s => s <> DtorNotify /\ forall w, s <> WorkerWake w) ss ->
  p =[ step | ss ]=> p' -> hung p'.
Proof.
  intros Hp Hss. eapply steps_inv_labels; [|exact Hss|exact Hp].
  intros p1 s p2 [Hn Hw] H1. by apply (hung_step p1 s).
Qed.

(** Where it ends. *)
Definition hung_pool : ThreadPool nat :=
  mkPool kFixed 1 1 8 false 1 1 0 [] {[0]} None {[0 := WBlocked false]} [].

Lemma hung_pool_hung : hung hung_pool.
Proof. repeat split. apply Nat.le_refl. Qed.

(** C40. The destructor can wait forever: there is an interleaving after which no step, short of a
    spurious wakeup of the worker, ever empties [threads_], the set the destructor waits on;
    the flag is cleared without [taskQueueMutex_], between the worker's test and its wait. *)
Theorem destructor_can_hang :
  exists p, Start ThreadPool_new (mkConfig kFixed 1 1 8) =[ step | hang ]=> p /\
    forall ss p', p =[ step | ss ]=> p' ->
      Forall (fun s => s <> DtorNotify /\ forall w, s <> WorkerWake w) ss -> threads_ p' = {[0]}.
Proof.
  exists hung_pool. split; [vm_compute; reflexivity|]. intros ss p' Hrun Hss.
  by apply (hung_run _ _ _ hung_pool_hung Hss Hrun).
Qed.

(** Two tasks make a cached pool of one initial thread grow to two; then both threads find the
    queue empty, wait with the timeout, and leave. *)
Definition grow : list (pool_step nat) :=
  [CreateWorker 0; RegisterWorker 0; SubmitTask (mkTask kNormal 1); SubmitTask (mkTask kNormal 2)].
Definition serve (w : nat) : list (pool_step nat) := [WorkerTop w; WorkerTake w 0; WorkerFinish w].
Definition idle_out (w : nat) : list (pool_step nat) := [WorkerTop w; WorkerTest w; WorkerBlock w].
Definition leave (w : nat) : list (pool_step nat) := [WorkerTimeout w].

(** A cached pool can lose its initial threads: after a burst of work the pool can be left
    running with no thread at all, below its configured initial count, because every thread that
    waits while there are extra ones, not only the extra ones, waits with the timeout. *)
Theorem cached_pool_empties :
  exists p1 p2,
    Start ThreadPool_new (mkConfig kCached 1 4 8) =[ step | grow ]=> p1 /\
    wants_thread p1 = true /\
    p1 =[ step | [CreateWorker 1; RegisterWorker 1] ++ serve 0 ++ serve 1 ++ idle_out 0 ++
                 idle_out 1 ++ leave 0 ++ leave 1 ]=> p2 /\
    isRunning_ p2 = true /\ threads_ p2 = ∅ /\ initThreadSize_ p2 = 1 /\
    map func (executed p2) = [1; 2].
Proof.
  exists (mkPool kCached 1 4 8 true 1 1 2 [mkTask kNormal 1; mkTask kNormal 2] {[0]} None
            {[0 := WTop]} []),
    (mkPool kCached 1 4 8 true 0 0 0 [] ∅ None {[0 := WGone; 1 := WGone]}
       [mkTask kNormal 1; mkTask kNormal 2]).
  split; [vm_compute; reflexivity|]. split; [reflexivity|].
  split; [vm_compute; reflexivity|]. by repeat split.
Qed.

(** ** Witnesses *)

Lemma pool_conserves_tasks_witness :
  let ss := grow ++ [WorkerTop 0; WorkerTake 0 0] in
  let p := mkPool kCached 1 4 8 true 1 0 1 [mkTask kNormal 2] {[0]} None
             {[0 := WRunning (mkTask kNormal 1)]} [] in
  Start ThreadPool_new (mkConfig kCached 1 4 8) =[ step | ss ]=> p /\
  executed p ++ running (workers p) ++ taskQueue_ p ≡ₚ submitted ss.
Proof.
  intros ss p.
  assert (H : Start ThreadPool_new (mkConfig kCached 1 4 8) =[ step | ss ]=> p)
    by (vm_compute; reflexivity).
  exact (conj H (proj1 (pool_conserves_tasks (mkConfig kCached 1 4 8) ss p H))).
Defined.

(** Three tasks of different priority, queued before the one worker starts. *)
Definition three : list (pool_step nat) :=
  [CreateWorker 0; RegisterWorker 0; SubmitTask (mkTask kLow 2); SubmitTask (mkTask kHigh 0);
   SubmitTask (mkTask kNormal 1)].
Definition drain : list (pool_step nat) :=
  [WorkerTop 0; WorkerTake 0 1; WorkerFinish 0; WorkerTop 0; WorkerTake 0 1; WorkerFinish 0;
   WorkerTop 0; WorkerTake 0 0].
Definition three_pool : ThreadPool nat :=
  default ThreadPool_new (steps step (Start ThreadPool_new (mkConfig kFixed 1 8 1024)) three).
Definition drained_pool : ThreadPool nat := default ThreadPool_new (steps step three_pool drain).

Lemma priority_order_witness :
  map func (takes three_pool drain) = [0; 1; 2] /\
  StronglySorted (fun t u => priority t <= priority u)%Z (takes three_pool drain).
Proof.
  assert (H2 : three_pool =[ step | drain ]=> drained_pool)
    by (apply steps_default; vm_compute; reflexivity).
  split; [vm_compute; reflexivity|].
  apply (priority_order drain three_pool drained_pool); [|exact H2].
  repeat constructor.
Defined.

(** The same submissions, with the worker taking the first task before the others are queued: a
    task of low priority runs first. *)
Example low_priority_first :
  exists p, Start ThreadPool_new (mkConfig kFixed 1 8 1024) =[ step |
    [CreateWorker 0; RegisterWorker 0; SubmitTask (mkTask kLow 2); WorkerTop 0; WorkerTake 0 0;
     SubmitTask (mkTask kHigh 0); SubmitTask (mkTask kNormal 1); WorkerFinish 0;
     WorkerTop 0; WorkerTake 0 0; WorkerFinish 0; WorkerTop 0; WorkerTake 0 0; WorkerFinish 0] ]=> p /\
    map func (executed p) = [2; 0; 1].
Proof.
  exists (mkPool kFixed 1 8 1024 true 1 1 0 [] {[0]} None {[0 := WTop]}
            [mkTask kLow 2; mkTask kHigh 0; mkTask kNormal 1]).
  split; [vm_compute; reflexivity|reflexivity].
Qed.
