(* ===== verification/Futures.v ===== *)
(** The submission interface of [minirpc::ThreadPool] (include/minirpc/thread/ThreadPool.h 69-157,
    src/thread/ThreadPool.cpp): futures, callbacks, logging and the end of the pool. *)
From stdpp Require Import base list gmap strings numbers sorting.
From Stdlib Require Import Ascii ZArith Lia.
From S2P Require Import Prelude Bytes Common ThreadPool.

(** ** Logging *)

Definition LogLevelToString (l : Logger.LogLevel) : bytes :=
  match l with
  | Logger.kTrace => lit "TRACE" | Logger.kDebug => lit "DEBUG" | Logger.kInfo => lit "INFO"
  | Logger.kWarn => lit "WARN" | Logger.kError => lit "ERROR" | Logger.kFatal => lit "FATAL"
  end.

(** The records [Log] passes to the logger. *)
Definition Log (logEnabled : bool) (l : Logger.LogLevel) (msg : bytes) :
    list (Logger.LogLevel * bytes) :=
  if negb logEnabled then []
  else match l with
       | Logger.kDebug | Logger.kInfo | Logger.kWarn | Logger.kError => [(l, msg)]
       | _ => []
       end.

(** What [Start] logs. *)
Definition Start_log (logEnabled : bool) (c : ThreadPoolConfig) : list (Logger.LogLevel * bytes) :=
  Log logEnabled Logger.kInfo (lit "===== ThreadPool Started =====") ++
  Log logEnabled Logger.kInfo
    (lit "Mode: " ++ (if bool_decide (cf_mode c = kFixed) then lit "FIXED" else lit "CACHED")) ++
  Log logEnabled Logger.kInfo (lit "Initial thread count: " ++ to_string (Z.of_nat (initThreadCount c))) ++
  Log logEnabled Logger.kInfo (lit "Max thread count: " ++ to_string (Z.of_nat (maxThreadCount c))) ++
  Log logEnabled Logger.kInfo (lit "Max task queue size: " ++ to_string (Z.of_nat (maxQueueSize c))) ++
  Log logEnabled Logger.kInfo (lit "=============================").

(** [Start(size_t)]: the mode and the bounds set before. *)
Definition Start_size {Task} (p : ThreadPool Task) (n : nat) : ThreadPool Task :=
  Start p (mkConfig (mode_ p) n (maxThreadCount_ p) (maxTaskQueueSize_ p)).

Section Futures.
(** The user's functions, callbacks and results, and the state they work on; a function returns
    or throws, and so does a callback. *)
Context {U F C R : Type}.
Context (run : F -> U -> U * result R) (call : C -> R -> U -> U * result unit).

(** ** Closures in the queue *)

(** The closure that calls [*taskPtr], with the slot of the future it shares, and the closure of
    [submitWithCallback]. *)
Inductive closure_kind :=
| Packaged (slot : nat) (f : F)
| WithCallback (f : F) (cb : C).

(** [ran]: the worker running it is past the call. *)
Record Work := mkWork { kind : closure_kind; ran : bool }.

(** The shared state of a future. *)
Inductive future_state :=
| Pending
| Ready (r : result R)
| BrokenPromise.

(** The pool's life: in use; the destructor has seen [threads_] empty and runs the last
    callbacks; destroyed; or ended by an exception that leaves the destructor. *)
Inductive phase := Alive | Joined | Destroyed | Terminated.

(** The pool with what its clients see. [pending] is the local queue of [runPendingCallbacks];
    [handled] records the callbacks taken, with whether they were called, and [pushed] all that
    workers pushed. A future is listed with the function it is for.
    [log_] holds what the pool logs, except the lines about its threads. *)
Record Client := mkClient {
  tp : ThreadPool Work;
  futures : list (F * future_state);
  callbackQueue_ : list (C * R);
  pending : list (C * R);
  handled : list (C * R * bool);
  pushed : list (C * R);
  user : U;
  logEnabled_ : bool;
  log_ : list (Logger.LogLevel * bytes);
  phase_ : phase;
}.

Definition Client_new (cfg : ThreadPoolConfig) (u : U) : Client :=
  mkClient (Start ThreadPool_new cfg) [] [] [] [] [] u true (Start_log true cfg) Alive.

Section Updates.
Context (s : Client).
Definition SetLogEnabled (b : bool) : Client :=
  mkClient (tp s) (futures s) (callbackQueue_ s) (pending s) (handled s) (pushed s) (user s) b
    (log_ s) (phase_ s).
Definition set_tp (p : ThreadPool Work) : Client :=
  mkClient p (futures s) (callbackQueue_ s) (pending s) (handled s) (pushed s) (user s)
    (logEnabled_ s) (log_ s) (phase_ s).
Definition set_futures (fs : list (F * future_state)) : Client :=
  mkClient (tp s) fs (callbackQueue_ s) (pending s) (handled s) (pushed s) (user s)
    (logEnabled_ s) (log_ s) (phase_ s).
Definition set_user (u : U) : Client :=
  mkClient (tp s) (futures s) (callbackQueue_ s) (pending s) (handled s) (pushed s) u
    (logEnabled_ s) (log_ s) (phase_ s).
Definition push_callback (x : C * R) : Client :=
  mkClient (tp s) (futures s) (callbackQueue_ s ++ [x]) (pending s) (handled s) (pushed s ++ [x])
    (user s) (logEnabled_ s) (log_ s) (phase_ s).
Definition set_callbacks (q p : list (C * R)) (h : list (C * R * bool)) : Client :=
  mkClient (tp s) (futures s) q p h (pushed s) (user s) (logEnabled_ s) (log_ s) (phase_ s).
Definition add_log (l : Logger.LogLevel) (msg : bytes) : Client :=
  mkClient (tp s) (futures s) (callbackQueue_ s) (pending s) (handled s) (pushed s) (user s)
    (logEnabled_ s) (log_ s ++ Log (logEnabled_ s) l msg) (phase_ s).
Definition set_phase (ph : phase) : Client :=
  mkClient (tp s) (futures s) (callbackQueue_ s) (pending s) (handled s) (pushed s) (user s)
    (logEnabled_ s) (log_ s) ph.
End Updates.

(** ** Submission *)

Definition queue_full : exn := std_exception (lit "ThreadPool: queue full, timed out").

(** The future's slot, or the exception; a future refused is destroyed with its task. *)
Definition submitWithPriority (s : Client) (priority : Z) (f : F) : result nat * Client :=
  let slot := length (futures s) in
  match enqueueTask (tp s) (mkTask priority (mkWork (Packaged slot f) false)) with
  | (true, p) => (Ok slot, set_futures (set_tp s p) (futures s ++ [(f, Pending)]))
  | (false, p) => (Throw queue_full, set_tp s p)
  end.

Definition submit (s : Client) (f : F) : result nat * Client := submitWithPriority s kNormal f.

(** The timeout bounds the wait, whose end is [enqueueTask]'s result. *)
Definition trySubmitFor (s : Client) (f : F) : option nat * Client :=
  let slot := length (futures s) in
  match enqueueTask (tp s) (mkTask kNormal (mkWork (Packaged slot f) false)) with
  | (true, p) => (Some slot, set_futures (set_tp s p) (futures s ++ [(f, Pending)]))
  | (false, p) => (None, set_tp s p)
  end.

Definition submitWithCallback (s : Client) (priority : Z) (f : F) (cb : C) : result unit * Client :=
  match enqueueTask (tp s) (mkTask priority (mkWork (WithCallback f cb) false)) with
  | (true, p) => (Ok tt, set_tp s p)
  | (false, p) => (Throw queue_full, set_tp s p)
  end.

(** ** Workers *)

(** [taskFn()] with the handlers around it: a packaged task stores what its function returns or
    throws; the other closure pushes its callback, or its exception is logged. *)
Definition run_work (s : Client) (k : closure_kind) : Client :=
  match k with
  | Packaged slot f =>
      let '(u, r) := run f (user s) in
      set_user (set_futures s (alter (fun x => (x.1, Ready r)) slot (futures s))) u
  | WithCallback f cb =>
      match run f (user s) with
      | (u, Ok r) => push_callback (set_user s u) (cb, r)
      | (u, Throw e) => add_log (set_user s u) Logger.kError (lit "Unhandled exception in task: " ++ what e)
      end
  end.

(** ** Callbacks *)

(** The swap of [runPendingCallbacks], and one turn of its loop: an exception leaves the loop and
    destroys [pending]. *)
Definition swap_callbacks (s : Client) : Client := set_callbacks s [] (callbackQueue_ s) (handled s).

Definition run_callback (s : Client) : option (result unit * Client) :=
  match pending s with
  | [] => None
  | x :: q =>
      match call x.1 x.2 (user s) with
      | (u, Ok _) => Some (Ok tt, set_user (set_callbacks s (callbackQueue_ s) q (handled s ++ [(x, true)])) u)
      | (u, Throw e) =>
          Some (Throw e,
                set_user (set_callbacks s (callbackQueue_ s) []
                            (handled s ++ (x, true) :: map (fun y => (y, false)) q)) u)
      end
  end.

(** ** Destruction *)

(** A packaged task destroyed before its call leaves its future broken. *)
Definition abandon (x : F * future_state) : F * future_state :=
  match x.2 with Pending => (x.1, BrokenPromise) | _ => x end.

Definition break_promise (fs : list (F * future_state)) (t : PrioritizedTask Work) :
    list (F * future_state) :=
  match kind (func t) with
  | Packaged slot _ => alter abandon slot fs
  | WithCallback _ _ => fs
  end.

Definition destroy (s : Client) : Client :=
  set_phase
    (set_futures (set_tp s (set_queue (tp s) (idleThreadCount_ (tp s)) 0 []))
       (fold_left break_promise (taskQueue_ (tp s)) (futures s)))
    Destroyed.

(** ** Steps *)

Inductive client_step :=
| FSubmit (priority : Z) (f : F)
| FTrySubmit (f : F)
| FSubmitCallback (priority : Z) (f : F) (cb : C)
| FSetLog (b : bool)
| FPool (ps : pool_step Work)
| FRun (w : nat)
| FReturn (w : nat)
| FSwap
| FCall
| FJoin
| FDestroy.

(** The destructor logs once the flag is cleared. *)
Definition log_step (ps : pool_step Work) (s : Client) : Client :=
  match ps with
  | DtorStop => add_log s Logger.kInfo (lit "===== ThreadPool Stopped =====")
  | _ => s
  end.

Definition is_alive (s : Client) : bool := match phase_ s with Alive => true | _ => false end.

(** The step of a worker in a task it has, or has not, called. *)
Definition worker_at (s : Client) (w : nat) (called : bool) : option (PrioritizedTask Work) :=
  match running_at (tp s) w with
  | Some t => if Bool.eqb (ran (func t)) called then Some t else None
  | None => None
  end.

(** [None]: not possible now. *)
Definition client_exec (s : Client) (st : client_step) : option Client :=
  match st with
  | FSubmit pr f =>
      if is_alive s && negb (bool_decide (is_Some (lock_ (tp s))))
      then Some (submitWithPriority s pr f).2 else None
  | FTrySubmit f =>
      if is_alive s && negb (bool_decide (is_Some (lock_ (tp s))))
      then Some (trySubmitFor s f).2 else None
  | FSubmitCallback pr f cb =>
      if is_alive s && negb (bool_decide (is_Some (lock_ (tp s))))
      then Some (submitWithCallback s pr f cb).2 else None
  | FSetLog b => if is_alive s then Some (SetLogEnabled s b) else None
  | FPool ps =>
      if is_alive s && internal ps then
        match step (tp s) ps with Some p => Some (log_step ps (set_tp s p)) | None => None end
      else None
  | FRun w =>
      match is_alive s, worker_at s w false with
      | true, Some t =>
          Some (run_work (set_tp s (set_worker (tp s) w
                                      (WRunning (mkTask (priority t) (mkWork (kind (func t)) true)))))
                  (kind (func t)))
      | _, _ => None
      end
  | FReturn w =>
      match is_alive s, worker_at s w true with
      | true, Some t =>
          match step (tp s) (WorkerFinish w) with Some p => Some (set_tp s p) | None => None end
      | _, _ => None
      end
  | FSwap =>
      match phase_ s, pending s with
      | Alive, [] => Some (swap_callbacks s)
      | _, _ => None
      end
  | FCall =>
      match phase_ s, run_callback s with
      | Alive, Some (_, s') => Some s'
      | Joined, Some (Ok _, s') => Some s'
      | Joined, Some (Throw _, s') => Some (set_phase s' Terminated)
      | _, _ => None
      end
  (* ~ThreadPool, past its wait: the flag is cleared and no thread is left *)
  | FJoin =>
      match phase_ s, pending s with
      | Alive, [] =>
          if negb (isRunning_ (tp s)) && bool_decide (threads_ (tp s) = ∅)
          then Some (set_phase (swap_callbacks s) Joined) else None
      | _, _ => None
      end
  | FDestroy =>
      match phase_ s, pending s with
      | Joined, [] => Some (destroy s)
      | _, _ => None
      end
  end.

(** ** Invariant *)

(** The futures whose task has not been called. *)
Definition slot_of (t : PrioritizedTask Work) : list nat :=
  if ran (func t) then []
  else match kind (func t) with Packaged i _ => [i] | WithCallback _ _ => [] end.

(** Futures and tasks match: each pending future has exactly one task that will complete it. *)
Definition matched (ts : list (PrioritizedTask Work)) (fs : list (F * future_state)) : Prop :=
  NoDup (ts ≫= slot_of) /\
  (forall i, i ∈ ts ≫= slot_of <-> exists f, fs !! i = Some (f, Pending)) /\
  (forall t i f, t ∈ ts -> kind (func t) = Packaged i f -> exists x, fs !! i = Some (f, x)).

Record client_inv (s : Client) : Prop := {
  ci_pool : pool_inv (tp s);
  ci_fresh : forall t, t ∈ taskQueue_ (tp s) -> ran (func t) = false;
  ci_matched : matched (live_tasks (tp s)) (futures s);
  ci_ready : forall i f r, futures s !! i = Some (f, Ready r) -> exists u, r = (run f u).2;
  ci_broken : forall i f, futures s !! i = Some (f, BrokenPromise) -> phase_ s = Destroyed;
  ci_callbacks : pushed s = map fst (handled s) ++ pending s ++ callbackQueue_ s;
}.

(** ** Lemmas *)

Lemma matched_perm ts ts' fs : ts' ≡ₚ ts -> matched ts fs -> matched ts' fs.
Proof.
  intros Hp (Hn & Hw & Hf). split; [by rewrite Hp|]. split; [intros i; by rewrite Hp|].
  intros t i f. rewrite Hp. apply Hf.
Qed.

(** A new task with its future. *)
Lemma matched_submit pr f ts fs :
  matched ts fs ->
  matched (mkTask pr (mkWork (Packaged (length fs) f) false) :: ts) (fs ++ [(f, Pending)]).
Proof.
  intros (Hn & Hw & Hf). unfold matched. cbn [mbind list_bind]. unfold slot_of at 1 3.
  cbn [func ran kind app]. fold (ts ≫= slot_of).
  assert (Hnew : (fs ++ [(f, Pending)]) !! length fs = Some (f, Pending))
    by (rewrite lookup_app_r, Nat.sub_diag by lia; done).
  assert (Hold : forall i x, fs !! i = Some x -> (fs ++ [(f, Pending)]) !! i = Some x)
    by (intros i x Hi; by apply lookup_app_l_Some).
  split; [|split].
  - apply list.NoDup_cons. split; [|done]. intros (g & Hg)%Hw. apply lookup_lt_Some in Hg. lia.
  - intros i. rewrite elem_of_cons, Hw. split.
    + intros [->|(g & Hg)]; eauto.
    + intros (g & Hg). apply lookup_app_Some in Hg as [Hg|[Hge Hg]]; [right; eauto|left].
      apply list_lookup_singleton_Some in Hg as [Hz _]. lia.
  - intros t i g. rewrite elem_of_cons. intros [->|Ht] Hk.
    + cbn in Hk. injection Hk as <- <-. eauto.
    + destruct (Hf t i g Ht Hk) as [x Hx]. eauto.
Qed.

(** A task without a future, or past its call. *)
Lemma matched_cons t ts fs :
  slot_of t = [] -> (forall i f, kind (func t) = Packaged i f -> exists x, fs !! i = Some (f, x)) ->
  matched ts fs -> matched (t :: ts) fs.
Proof.
  intros Ht Hk (Hn & Hw & Hf). unfold matched. cbn [mbind list_bind]. rewrite Ht. cbn [app].
  split; [done|]. split; [done|]. intros t' i f. rewrite elem_of_cons. intros [->|Hin]; eauto.
Qed.

Lemma matched_tail t ts fs : slot_of t = [] -> matched (t :: ts) fs -> matched ts fs.
Proof.
  intros Ht (Hn & Hw & Hf). cbn [mbind list_bind] in Hn, Hw. rewrite Ht in Hn, Hw.
  split; [done|]. split; [done|]. intros t' i f Hin. apply Hf. apply elem_of_cons. by right.
Qed.

(** A task completes its future, one way or the other. *)
Lemma matched_settle t ts fs i f (g : F * future_state -> F * future_state) :
  ran (func t) = false -> kind (func t) = Packaged i f ->
  (g (f, Pending)).1 = f -> (g (f, Pending)).2 <> Pending ->
  matched (t :: ts) fs ->
  matched ts (alter g i fs) /\ alter g i fs !! i = Some (g (f, Pending)).
Proof.
  intros Hr Hk Hg1 Hg2 (Hn & Hw & Hf). cbn [mbind list_bind] in Hn, Hw. unfold slot_of at 1 in Hn.
  setoid_rewrite elem_of_app in Hw. unfold slot_of at 1 in Hw. rewrite Hr, Hk in Hn, Hw.
  cbn [app] in Hn. apply list.NoDup_cons in Hn as [Hni Hn]. fold (ts ≫= slot_of) in Hn, Hni, Hw.
  assert (Hi : fs !! i = Some (f, Pending)).
  { destruct (proj1 (Hw i)) as [h Hh]; [left; by apply list_elem_of_singleton|].
    destruct (Hf t i f) as [x Hx]; [by apply elem_of_cons; left|done|]. congruence. }
  assert (Hat : alter g i fs !! i = Some (g (f, Pending))) by (by rewrite list_lookup_alter_eq, Hi).
  split; [|done]. split; [done|]. split.
  - intros j. destruct (decide (j = i)) as [->|Hne].
    + split; [done|]. intros [h Hh]. rewrite Hat in Hh. injection Hh as Hh. by rewrite Hh in Hg2.
    + rewrite list_lookup_alter_ne by done. rewrite <- Hw, list_elem_of_singleton. naive_solver.
  - intros t' j h Ht' Hk'. destruct (Hf t' j h) as [x Hx]; [by apply elem_of_cons; right|done|].
    destruct (decide (j = i)) as [->|Hne].
    + rewrite Hi in Hx. injection Hx as <- <-. exists (g (f, Pending)).2. rewrite Hat.
      rewrite <- Hg1 at 2. by destruct (g (f, Pending)).
    + exists x. by rewrite list_lookup_alter_ne.
Qed.

Lemma matched_break ts q fs :
  Forall (fun t => ran (func t) = false) q -> matched (ts ++ q) fs ->
  matched ts (fold_left break_promise q fs).
Proof.
  intros Hq. revert fs. induction Hq as [|t q Ht Hq IH]; intros fs; cbn [fold_left].
  { by rewrite app_nil_r. }
  intros Hm. apply IH. apply (matched_perm _ (t :: ts ++ q)) in Hm; [|solve_Permutation].
  unfold break_promise. destruct (kind (func t)) as [i f|f cb] eqn:Hk.
  - by destruct (matched_settle t _ fs i f abandon Ht Hk eq_refl ltac:(done) Hm).
  - apply (matched_tail t); [|done]. unfold slot_of. by rewrite Ht, Hk.
Qed.
(** Destruction breaks the futures of the waiting tasks, and no other. *)
Lemma break_promise_at t fs i x :
  fs !! i = Some x -> break_promise fs t !! i = Some x \/ break_promise fs t !! i = Some (abandon x).
Proof.
  intros Hx. unfold break_promise. destruct (kind (func t)) as [j f|]; [|by left].
  destruct (decide (i = j)) as [->|Hne]; [right; by rewrite list_lookup_alter_eq, Hx|left].
  by rewrite list_lookup_alter_ne.
Qed.

Lemma break_all_at q fs i x :
  fs !! i = Some x ->
  fold_left break_promise q fs !! i = Some x \/ fold_left break_promise q fs !! i = Some (abandon x).
Proof.
  revert fs x. induction q as [|t q IH]; intros fs x Hx; cbn [fold_left]; [by left|].
  destruct (break_promise_at t fs i x Hx) as [H1|H1]; destruct (IH _ _ H1) as [H2|H2]; try tauto.
  right. rewrite H2. by destruct x as [f []].
Qed.

Lemma break_all_hit q fs t i f :
  t ∈ q -> kind (func t) = Packaged i f -> fs !! i = Some (f, Pending) ->
  fold_left break_promise q fs !! i = Some (f, BrokenPromise).
Proof.
  intros Ht Hk. revert fs. induction q as [|t' q IH]; intros fs Hi; [by apply elem_of_nil in Ht|].
  cbn [fold_left]. apply elem_of_cons in Ht as [->|Ht].
  - assert (H1 : break_promise fs t' !! i = Some (f, BrokenPromise)).
    { unfold break_promise. by rewrite Hk, list_lookup_alter_eq, Hi. }
    by destruct (break_all_at q _ _ _ H1).
  - destruct (break_promise_at t' fs i _ Hi) as [H1|H1]; [by apply IH|].
    by destruct (break_all_at q _ _ _ H1).
Qed.

(** The parts of the state the invariant reads. *)
Lemma client_inv_frame s s' :
  client_inv s -> tp s' = tp s -> futures s' = futures s -> phase_ s' = phase_ s ->
  pushed s' = map fst (handled s') ++ pending s' ++ callbackQueue_ s' -> client_inv s'.
Proof.
  intros [H1 H2 H3 H4 H5 H6] Ht Hf Hp Hc. split; rewrite ?Ht, ?Hf, ?Hp; done.
Qed.

Lemma client_inv_tp s p :
  client_inv s -> pool_inv p -> (forall t, t ∈ taskQueue_ p -> ran (func t) = false) ->
  matched (live_tasks p) (futures s) -> client_inv (set_tp s p).
Proof. intros [H1 H2 H3 H4 H5 H6] Hp Hq Hm. by split. Qed.

Lemma enqueue_inv s p t :
  client_inv s -> ran (func t) = false -> enqueueTask (tp s) t = (true, p) ->
  pool_inv p /\ live_tasks p ≡ₚ t :: live_tasks (tp s) /\
  (forall t', t' ∈ taskQueue_ p -> ran (func t') = false).
Proof.
  intros Hi Hr He. pose proof (enqueue_live (tp s) t (ci_pool s Hi)) as Hl. rewrite He in Hl.
  destruct Hl as [Hp Hl]. split; [done|]. split; [done|].
  destruct (enqueue_queue _ _ _ He) as [-> _]. intros t' [Ht|Ht%list_elem_of_singleton]%elem_of_app.
  - by apply (ci_fresh s Hi).
  - by subst.
Qed.

(** A submission with a future: both forms make the same state. *)
Lemma submit_inv s pr f : client_inv s -> client_inv (submitWithPriority s pr f).2.
Proof.
  intros Hi. unfold submitWithPriority. set (t := mkTask pr _).
  destruct (enqueueTask (tp s) t) as [[] p] eqn:He; cbn [snd].
  - destruct (enqueue_inv s p t Hi eq_refl He) as (Hp & Hl & Hq). destruct Hi as [H1 H2 H3 H4 H5 H6].
    split; cbn [tp futures phase_ pushed handled pending callbackQueue_ set_tp set_futures]; try done.
    + eapply matched_perm; [exact Hl|]. by apply matched_submit.
    + intros i g r [Hg|[_ Hg]]%lookup_app_Some; [eauto|].
      by apply list_lookup_singleton_Some in Hg as [_ Hg].
    + intros i g [Hg|[_ Hg]]%lookup_app_Some; [eauto|].
      by apply list_lookup_singleton_Some in Hg as [_ Hg].
  - pose proof (enqueue_live (tp s) t (ci_pool s Hi)) as Hl. rewrite He in Hl. subst p.
    by eapply client_inv_frame; [exact Hi|..|apply Hi].
Qed.

Lemma trySubmitFor_same s f : (trySubmitFor s f).2 = (submitWithPriority s kNormal f).2.
Proof. unfold trySubmitFor, submitWithPriority. by destruct (enqueueTask _ _) as [[] p]. Qed.

Lemma submitWithCallback_inv s pr f cb : client_inv s -> client_inv (submitWithCallback s pr f cb).2.
Proof.
  intros Hi. unfold submitWithCallback. set (t := mkTask pr _).
  destruct (enqueueTask (tp s) t) as [[] p] eqn:He; cbn [snd].
  - destruct (enqueue_inv s p t Hi eq_refl He) as (Hp & Hl & Hq). apply client_inv_tp; try done.
    eapply matched_perm; [exact Hl|]. apply matched_cons; [done|done|apply Hi].
  - pose proof (enqueue_live (tp s) t (ci_pool s Hi)) as Hl. rewrite He in Hl. subst p.
    by eapply client_inv_frame; [exact Hi|..|apply Hi].
Qed.

(** The call of a task. *)
Lemma run_work_inv s w t :
  client_inv s -> worker_at s w false = Some t ->
  client_inv (run_work (set_tp s (set_worker (tp s) w
    (WRunning (mkTask (priority t) (mkWork (kind (func t)) true))))) (kind (func t))).
Proof.
  intros Hi Hw. unfold worker_at in Hw. destruct (running_at (tp s) w) as [t'|] eqn:Hr; [|done].
  destruct (ran (func t')) eqn:Hran; [done|]. injection Hw as ->.
  destruct (live_running _ _ _ Hr) as (rest & Hp & Hp' & _).
  set (t1 := mkTask (priority t) _) in *. specialize (Hp' t1).
  set (p1 := set_worker (tp s) w (WRunning t1)) in *.
  pose proof (ci_matched s Hi) as Hm. apply (matched_perm _ (t :: rest)) in Hm; [|done].
  assert (Hp1 : pool_inv p1) by apply (ci_pool s Hi).
  assert (Hq1 : forall t', t' ∈ taskQueue_ p1 -> ran (func t') = false) by apply (ci_fresh s Hi).
  destruct (kind (func t)) as [i f|f cb] eqn:Hk; cbn [run_work].
  - destruct (run f (user (set_tp s p1))) as [u r] eqn:Hrun.
    destruct (matched_settle t rest (futures s) i f (fun x => (x.1, Ready r)) Hran Hk eq_refl
                ltac:(done) Hm) as [Hm1 Hat].
    destruct Hi as [H1 H2 H3 H4 H5 H6].
    split; cbn [tp futures phase_ pushed handled pending callbackQueue_ set_tp set_futures set_user]; try done.
    + eapply matched_perm; [exact Hp'|]. apply matched_cons; [done| |done].
      intros j g Hj. cbn in Hj. injection Hj as <- <-. eauto.
    + intros j g r' Hg. destruct (decide (j = i)) as [->|Hne].
      * rewrite Hat in Hg. injection Hg as <- <-. exists (user s). cbn in Hrun. by rewrite Hrun.
      * rewrite list_lookup_alter_ne in Hg by done. eauto.
    + intros j g Hg. destruct (decide (j = i)) as [->|Hne]; [by rewrite Hat in Hg|].
      rewrite list_lookup_alter_ne in Hg by done. eauto.
  - assert (Hm1 : matched (live_tasks p1) (futures s)).
    { eapply matched_perm; [exact Hp'|]. apply matched_cons; [done|done|].
      apply (matched_tail t); [|done]. unfold slot_of. by rewrite Hran, Hk. }
    pose proof (client_inv_tp s p1 Hi Hp1 Hq1 Hm1) as Hi1.
    destruct (run f (user (set_tp s p1))) as [u [r|e]];
      (eapply client_inv_frame; [exact Hi1|done..|]); cbn; rewrite (ci_callbacks s Hi); [|done].
    by rewrite !app_assoc.
Qed.

(** The end of a task. *)
Lemma return_inv s w t p :
  client_inv s -> worker_at s w true = Some t -> step (tp s) (WorkerFinish w) = Some p ->
  client_inv (set_tp s p).
Proof.
  intros Hi Hw Hst. unfold worker_at in Hw. destruct (running_at (tp s) w) as [t'|] eqn:Hr; [|done].
  destruct (ran (func t')) eqn:Hran; [|done]. injection Hw as ->.
  destruct (live_running _ _ _ Hr) as (rest & Hp & _ & Hf). specialize (Hf p Hst).
  destruct (step_spec _ _ _ (ci_pool s Hi) Hst) as [Hpi _].
  apply client_inv_tp; [done|done| |].
  - intros t' Ht. apply (ci_fresh s Hi). revert Hst. cbn [step].
    destruct (workers (tp s) !! w) as [[]|]; try done. intros [= <-]. exact Ht.
  - eapply matched_perm; [exact Hf|]. apply (matched_tail t); [unfold slot_of; by rewrite Hran|].
    eapply matched_perm; [symmetry; exact Hp|apply Hi].
Qed.
(** One callback. *)
Lemma run_callback_inv s r s' : client_inv s -> run_callback s = Some (r, s') -> client_inv s'.
Proof.
  intros Hi. unfold run_callback. destruct (pending s) as [|x q] eqn:Hp; [done|].
  pose proof (ci_callbacks s Hi) as Hc. rewrite Hp in Hc.
  destruct (call x.1 x.2 (user s)) as [u [[]|e]]; intros [= <- <-];
    (eapply client_inv_frame; [exact Hi|done..|]); cbn; rewrite Hc, map_app; cbn [map fst].
  - by rewrite <- app_assoc.
  - rewrite map_map. cbn [fst]. by rewrite map_id, <- app_assoc.
Qed.

Lemma swap_inv s : client_inv s -> pending s = [] -> client_inv (swap_callbacks s).
Proof.
  intros Hi Hp. eapply client_inv_frame; [exact Hi|done..|]. cbn.
  by rewrite (ci_callbacks s Hi), Hp, app_nil_r.
Qed.

Lemma destroy_inv s : client_inv s -> client_inv (destroy s).
Proof.
  intros [H1 H2 H3 H4 H5 H6].
  split; cbn [tp futures phase_ pushed handled pending callbackQueue_ destroy set_phase set_tp set_futures];
    try done.
  - destruct H1 as (_ & _ & Hc). split; [done|]. split; [cbn; lia|done].
  - by intros t ?%elem_of_nil.
  - change (live_tasks (set_queue (tp s) (idleThreadCount_ (tp s)) 0 []))
      with (running (workers (tp s)) ++ []). rewrite app_nil_r.
    apply matched_break; [|done]. by apply list.Forall_forall.
  - intros i f r Hr. destruct (futures s !! i) as [[g x]|] eqn:Hx.
    + destruct (break_all_at (taskQueue_ (tp s)) _ _ _ Hx) as [Hb|Hb]; rewrite Hb in Hr;
        destruct x; try done; injection Hr as -> ->; eauto.
    + exfalso. assert (Hlen : length (fold_left break_promise (taskQueue_ (tp s)) (futures s)) = length (futures s)).
      { clear. generalize (futures s). induction (taskQueue_ (tp s)) as [|t q IH]; intros fs; [done|].
        cbn [fold_left]. rewrite IH. unfold break_promise. destruct (kind (func t)); [apply length_alter|done]. }
      apply lookup_lt_Some in Hr. apply lookup_ge_None in Hx. lia.
Qed.

Lemma set_phase_inv s ph :
  client_inv s -> phase_ s <> Destroyed -> client_inv (set_phase s ph).
Proof.
  intros [H1 H2 H3 H4 H5 H6] Hph. split; try done. intros i f Hb. exfalso. eauto.
Qed.

Lemma client_exec_inv s st s' : client_inv s -> client_exec s st = Some s' -> client_inv s'.
Proof.
  intros Hi. destruct st as [pr f|f|pr f cb|b|ps|w|w| | | |]; cbn [client_exec].
  - destruct (_ && _); [|done]. intros [= <-]. by apply submit_inv.
  - destruct (_ && _); [|done]. intros [= <-]. rewrite trySubmitFor_same. by apply submit_inv.
  - destruct (_ && _); [|done]. intros [= <-]. by apply submitWithCallback_inv.
  - destruct (is_alive s); [|done]. intros [= <-].
    by eapply client_inv_frame; [exact Hi|done..|apply Hi].
  - destruct (is_alive s); [|done]. destruct (internal ps) eqn:Hps; [|done]. cbn [andb].
    destruct (step (tp s) ps) as [p|] eqn:Hst; [|done]. intros [= <-].
    destruct (step_internal _ _ _ (ci_pool s Hi) Hps Hst) as [Hp Hl].
    assert (Hi1 : client_inv (set_tp s p)).
    { apply client_inv_tp; [done|done| |].
      - intros t Ht. apply (ci_fresh s Hi). by apply (step_queue _ _ _ Hps Hst).
      - eapply matched_perm; [exact Hl|apply Hi]. }
    destruct ps; try exact Hi1. by eapply client_inv_frame; [exact Hi1|done..|apply Hi1].
  - destruct (is_alive s); [|done]. destruct (worker_at s w false) as [t|] eqn:Hw; [|done].
    intros [= <-]. by apply run_work_inv.
  - destruct (is_alive s); [|done]. destruct (worker_at s w true) as [t|] eqn:Hw; [|done].
    destruct (step (tp s) (WorkerFinish w)) as [p|] eqn:Hst; [|done]. intros [= <-].
    by eapply return_inv.
  - destruct (phase_ s), (pending s) eqn:Hp; try done. intros [= <-]. by apply swap_inv.
  - destruct (phase_ s) eqn:Hph, (run_callback s) as [[[[]|e] s1]|] eqn:Hr; try done;
      intros [= <-]; pose proof (run_callback_inv _ _ _ Hi Hr) as Hi1; try exact Hi1.
    apply set_phase_inv; [done|]. revert Hr. unfold run_callback. repeat case_match; try done.
    intros [= <- <-]. cbn. by rewrite Hph.
  - destruct (phase_ s) eqn:Hph, (pending s) eqn:Hp; try done. destruct (_ && _); [|done].
    intros [= <-]. apply set_phase_inv; [by apply swap_inv|]. cbn. by rewrite Hph.
  - destruct (phase_ s), (pending s) eqn:Hp; try done. intros [= <-]. by apply destroy_inv.
Qed.

Lemma client_new_inv cfg u : client_inv (Client_new cfg u).
Proof.
  split; cbn [tp futures phase_ pushed handled pending callbackQueue_ Client_new]; try done.
  - split; [done|]. split; cbn; lia.
  - by intros t ?%elem_of_nil.
  - split; [apply NoDup_nil_2|]. split; [|by intros t i f ?%elem_of_nil].
    intros i. split; [by intros ?%elem_of_nil|]. by intros [f Hf].
Qed.

(** A completed future is never touched again. *)
Lemma future_kept s st s' i f x :
  client_inv s -> client_exec s st = Some s' -> futures s !! i = Some (f, x) -> x <> Pending ->
  futures s' !! i = Some (f, x).
Proof.
  intros Hi Hst Hx Hne.
  assert (Hsub : forall pr g, futures (submitWithPriority s pr g).2 !! i = Some (f, x)).
  { intros pr g. unfold submitWithPriority. destruct (enqueueTask _ _) as [[] p]; [|done].
    cbn. by apply lookup_app_l_Some. }
  revert Hst. destruct st as [pr g|g|pr g cb|b|ps|w|w| | | |]; cbn [client_exec].
  - destruct (_ && _); [|done]. by intros [= <-].
  - destruct (_ && _); [|done]. intros [= <-]. by rewrite trySubmitFor_same.
  - destruct (_ && _); [|done]. intros [= <-]. unfold submitWithCallback. by repeat case_match.
  - destruct (is_alive s); [|done]. by intros [= <-].
  - destruct (_ && _); [|done]. destruct (step (tp s) ps); [|done]. intros [= <-]. by destruct ps.
  - destruct (is_alive s); [|done]. destruct (worker_at s w false) as [t|] eqn:Hw; [|done].
    intros [= <-]. unfold worker_at in Hw. destruct (running_at (tp s) w) as [t'|] eqn:Hr; [|done].
    destruct (ran (func t')) eqn:Hran; [done|]. injection Hw as ->.
    destruct (live_running _ _ _ Hr) as (rest & Hp & _ & _).
    destruct (kind (func t)) as [j g|g cb] eqn:Hk; cbn [run_work].
    + destruct (run g _) as [u r]. cbn [futures set_user set_futures set_tp].
      rewrite list_lookup_alter_ne; [done|]. intros ->.
      destruct (proj1 (proj1 (proj2 (ci_matched s Hi)) i)) as [h Hh]; [|congruence].
      rewrite Hp. cbn [mbind list_bind]. apply elem_of_app. left. unfold slot_of. rewrite Hran, Hk.
      by apply list_elem_of_singleton.
    + by destruct (run g _) as [u [r|e]].
  - destruct (is_alive s); [|done]. destruct (worker_at s w true); [|done].
    destruct (step _ _); [|done]. by intros [= <-].
  - destruct (phase_ s), (pending s); try done. by intros [= <-].
  - unfold run_callback. destruct (phase_ s), (pending s); try done;
      destruct (call _ _ _) as [u [[]|e]]; by intros [= <-].
  - destruct (phase_ s), (pending s); try done. destruct (_ && _); [|done]. by intros [= <-].
  - destruct (phase_ s), (pending s); try done. intros [= <-].
    cbn [futures destroy set_phase set_futures].
    destruct (break_all_at (taskQueue_ (tp s)) _ _ _ Hx) as [->| ->]; [done|]. by destruct x.
Qed.
(** A stopped pool with the task [t] waiting, until its end. *)
Definition stopped_with (t : PrioritizedTask Work) (i : nat) (f : F) (s : Client) : Prop :=
  client_inv s /\ isRunning_ (tp s) = false /\ kind (func t) = Packaged i f /\
  ((phase_ s <> Destroyed /\ t ∈ taskQueue_ (tp s)) \/
   (phase_ s = Destroyed /\ futures s !! i = Some (f, BrokenPromise))).

Lemma waiting_pending s t i f :
  client_inv s -> t ∈ taskQueue_ (tp s) -> kind (func t) = Packaged i f ->
  futures s !! i = Some (f, Pending).
Proof.
  intros Hi Ht Hk. assert (Hl : t ∈ live_tasks (tp s)) by (apply elem_of_app; by right).
  destruct (ci_matched s Hi) as (_ & Hw & Hf). destruct (Hf t i f Hl Hk) as [x Hx].
  destruct (proj1 (Hw i)) as [g Hg]; [|congruence]. apply list_elem_of_bind. exists t.
  split; [|done]. unfold slot_of. rewrite (ci_fresh s Hi t Ht), Hk. by apply list_elem_of_singleton.
Qed.

Lemma stopped_step t i f s st s' :
  stopped_with t i f s -> client_exec s st = Some s' -> stopped_with t i f s'.
Proof.
  intros (Hi & Hr & Hk & Ht) Hst. pose proof (client_exec_inv s st s' Hi Hst) as Hi'.
  assert (Hd : phase_ s <> Destroyed).
  { intros Hd. revert Hst. destruct st; cbn [client_exec]; unfold is_alive; rewrite Hd; done. }
  destruct Ht as [[_ Ht]|[Hd' _]]; [|done].
  assert (Hsame : taskQueue_ (tp s') = taskQueue_ (tp s) -> isRunning_ (tp s') = false ->
    phase_ s' <> Destroyed -> stopped_with t i f s').
  { intros Hq Hr' Hph. split; [done|]. split; [done|]. split; [done|]. left. by rewrite Hq. }
  assert (Henq : forall u, enqueueTask (tp s) u = (false, tp s)).
  { intros u. unfold enqueueTask. rewrite Hr. cbn [negb]. by rewrite orb_true_r. }
  revert Hst. destruct st as [pr g|g|pr g cb|b|ps|w|w| | | |]; cbn [client_exec].
  - destruct (_ && _); [|done]. unfold submitWithPriority. rewrite Henq. intros [= <-]. by apply Hsame.
  - destruct (_ && _); [|done]. unfold trySubmitFor. rewrite Henq. intros [= <-]. by apply Hsame.
  - destruct (_ && _); [|done]. unfold submitWithCallback. rewrite Henq. intros [= <-]. by apply Hsame.
  - destruct (is_alive s); [|done]. intros [= <-]. by apply Hsame.
  - destruct (is_alive s); [|done]. destruct (internal ps) eqn:Hps; [|done]. cbn [andb].
    destruct (step (tp s) ps) as [p|] eqn:Hp; [|done]. intros [= <-].
    destruct (step_queue _ _ _ Hps Hp) as [_ Hq]. destruct (Hq Hr) as [Hq1 Hq2].
    by destruct ps; apply Hsame.
  - destruct (is_alive s); [|done]. destruct (worker_at s w false) as [u|]; [|done]. intros [= <-].
    by apply Hsame; destruct (kind (func u)); cbn [run_work]; destruct (run _ _) as [? [|]].
  - destruct (is_alive s); [|done]. destruct (worker_at s w true) as [u|]; [|done].
    cbn [step]. destruct (workers (tp s) !! w) as [[]|]; try done. intros [= <-]. by apply Hsame.
  - destruct (phase_ s) eqn:Hph, (pending s); try done. intros [= <-].
    apply Hsame; [done|done|]. cbn. by rewrite Hph.
  - unfold run_callback. destruct (phase_ s) eqn:Hph, (pending s); try done;
      destruct (call _ _ _) as [u [[]|e]]; intros [= <-]; apply Hsame; try done; cbn; by rewrite Hph.
  - destruct (phase_ s), (pending s); try done. destruct (_ && _); [|done]. intros [= <-].
    by apply Hsame.
  - destruct (phase_ s) eqn:Hph, (pending s); try done. intros [= <-].
    split; [done|]. split; [done|]. split; [done|]. right. split; [done|].
    apply (break_all_hit _ _ t); [done|done|]. by apply (waiting_pending s t).
Qed.

(** The callbacks handled are called, as long as none throws. *)
Lemma handled_called s st s' :
  (forall c r u, exists u', call c r u = (u', Ok tt)) -> Forall (fun x => x.2 = true) (handled s) ->
  client_exec s st = Some s' -> Forall (fun x => x.2 = true) (handled s').
Proof.
  intros Hok Hs. destruct st as [pr g|g|pr g cb|b|ps|w|w| | | |]; cbn [client_exec].
  - destruct (_ && _); [|done]. unfold submitWithPriority. destruct (enqueueTask _ _) as [[] ?]; by intros [= <-].
  - destruct (_ && _); [|done]. unfold trySubmitFor. destruct (enqueueTask _ _) as [[] ?]; by intros [= <-].
  - destruct (_ && _); [|done]. unfold submitWithCallback. destruct (enqueueTask _ _) as [[] ?]; by intros [= <-].
  - destruct (is_alive s); [|done]. by intros [= <-].
  - destruct (_ && _); [|done]. destruct (step (tp s) ps); [|done]. intros [= <-]. by destruct ps.
  - destruct (is_alive s), (worker_at s w false) as [u|]; try done. intros [= <-].
    by destruct (kind (func u)); cbn [run_work]; destruct (run _ _) as [? [|]].
  - destruct (is_alive s), (worker_at s w true); try done. destruct (step _ _); [|done]. by intros [= <-].
  - destruct (phase_ s), (pending s); try done. by intros [= <-].
  - unfold run_callback. destruct (phase_ s), (pending s) as [|x q]; try done;
      destruct (Hok x.1 x.2 (user s)) as [u' ->]; intros [= <-]; apply Forall_app; split;
      [done|by constructor|done|by constructor].
  - destruct (phase_ s), (pending s); try done. destruct (_ && _); [|done]. by intros [= <-].
  - destruct (phase_ s), (pending s); try done. by intros [= <-].
Qed.

(** ** Theorems *)

(** C31. Every future is completed exactly once, by its own task: from [Start], over any
    interleaving of submitters, workers, the callbacks' thread and the destructor, a future is
    pending exactly when one task that has not been called will complete it, a completed one
    holds what its function returned or threw, and it keeps that value for good. *)
Theorem future_completed_once (cfg : ThreadPoolConfig) (u0 : U) (ss ss' : list client_step)
  (s s' : Client)
  (Hrun : Client_new cfg u0 =[ client_exec | ss ]=> s)
  (Hlater : s =[ client_exec | ss' ]=> s') :
  NoDup (live_tasks (tp s) ≫= slot_of) /\
  (forall i, i ∈ live_tasks (tp s) ≫= slot_of <-> exists f, futures s !! i = Some (f, Pending)) /\
  (forall i f r, futures s !! i = Some (f, Ready r) ->
     (exists u, r = (run f u).2) /\ futures s' !! i = Some (f, Ready r)).
Proof.
  assert (Hi : client_inv s)
    by (revert Hrun; apply steps_inv; [apply client_exec_inv|apply client_new_inv]).
  destruct (ci_matched s Hi) as (Hn & Hw & _). split; [done|]. split; [done|]. intros i f r Hr.
  split; [by eapply ci_ready|].
  refine (proj2 (steps_inv _ (fun s => client_inv s /\ futures s !! i = Some (f, Ready r))
                   s ss' s' _ (conj Hi Hr) Hlater)).
  intros s1 st s2 [H1 Hf1] H2. split; [by eapply client_exec_inv|by eapply future_kept].
Qed.

(** Tasks still waiting when the pool is stopped are never run: once the flag is cleared, the
    future of a waiting task is never completed with a result, and it is broken when the pool has
    been destroyed. *)
Theorem stopped_promises_broken (cfg : ThreadPoolConfig) (u0 : U) (ss ss' : list client_step)
  (s s' : Client) (t : PrioritizedTask Work) (i : nat) (f : F)
  (Hrun : Client_new cfg u0 =[ client_exec | ss ]=> s)
  (Hstop : isRunning_ (tp s) = false) (Hlive : phase_ s <> Destroyed)
  (Hwait : t ∈ taskQueue_ (tp s)) (Hfut : kind (func t) = Packaged i f)
  (Hlater : s =[ client_exec | ss' ]=> s') :
  (phase_ s' <> Destroyed -> futures s' !! i = Some (f, Pending)) /\
  (phase_ s' = Destroyed -> futures s' !! i = Some (f, BrokenPromise)).
Proof.
  assert (Hi : client_inv s)
    by (revert Hrun; apply steps_inv; [apply client_exec_inv|apply client_new_inv]).
  assert (Hs : stopped_with t i f s') by (revert Hlater; apply steps_inv;
    [intros ???; apply stopped_step|split; [done|]; split; [done|]; split; [done|]; by left]).
  destruct Hs as (Hi' & Hr' & _ & [[Hph Ht]|[Hph Hb]]); split; try done.
  intros _. by apply (waiting_pending s' t).
Qed.

(** Callbacks are taken once each, in the order in which the workers pushed them: over any
    interleaving, those pushed are those taken so far, those swapped out by
    [runPendingCallbacks] and those in the queue, in this order; and if no callback throws, every
    one taken was called. *)
Theorem callbacks_in_order (cfg : ThreadPoolConfig) (u0 : U) (ss : list client_step) (s : Client)
  (Hrun : Client_new cfg u0 =[ client_exec | ss ]=> s) :
  pushed s = map fst (handled s) ++ pending s ++ callbackQueue_ s /\
  ((forall c r u, exists u', call c r u = (u', Ok tt)) ->
   Forall (fun x => x.2 = true) (handled s)).
Proof.
  split.
  - apply ci_callbacks. revert Hrun. apply steps_inv; [apply client_exec_inv|apply client_new_inv].
  - intros Hok. apply (steps_inv _ (fun s => Forall (fun x => x.2 = true) (handled s)) _ ss s) in Hrun;
      [done| |done]. intros s1 st s2. by apply handled_called.
Qed.

End Futures.
Arguments Client : clear implicits.
Arguments Work : clear implicits.
Arguments client_step : clear implicits.

(** ** Witnesses *)

Module FutureSamples.

(** Functions add to a number, or throw; callbacks add too. *)
Definition sample_run (f u : nat) : nat * result nat :=
  if f =? 0 then (u, Throw (std_exception (lit "boom"))) else (u + f, Ok (u + f)).
Definition sample_call (c r u : nat) : nat * result unit := (u + c * r, Ok tt).
Abbreviation exec := (client_exec sample_run sample_call).
Definition cfg : ThreadPoolConfig := mkConfig kFixed 1 1 8.
Definition new : Client nat nat nat nat := Client_new cfg 0.

(** One of two tasks is run; then the pool is stopped and destroyed. *)
Definition first : list (client_step nat nat) :=
  [FPool (CreateWorker 0); FPool (RegisterWorker 0); FSubmit kNormal 5; FSubmit kLow 0;
   FPool (WorkerTop 0); FPool (WorkerTake 0 0); FRun 0; FReturn 0; FPool DtorStop].
Definition rest : list (client_step nat nat) :=
  [FPool DtorNotify; FPool (WorkerTop 0); FPool (WorkerExit 0); FJoin; FDestroy].
Definition s1 : Client nat nat nat nat := default new (steps exec new first).
Definition s2 : Client nat nat nat nat := default s1 (steps exec s1 rest).

Lemma future_completed_once_witness :
  futures s1 = [(5, Ready (Ok 5)); (0, Pending)] /\
  futures s2 !! 0 = Some (5, Ready (Ok 5)).
Proof.
  assert (H1 : new =[ exec | first ]=> s1) by (apply steps_default; vm_compute; reflexivity).
  assert (H2 : s1 =[ exec | rest ]=> s2) by (apply steps_default; vm_compute; reflexivity).
  split; [vm_compute; reflexivity|].
  apply (future_completed_once sample_run sample_call cfg 0 first rest s1 s2 H1 H2).
  vm_compute. reflexivity.
Defined.

Lemma stopped_promises_broken_witness :
  phase_ s2 = Destroyed /\ futures s2 !! 1 = Some (0, BrokenPromise).
Proof.
  assert (H1 : new =[ exec | first ]=> s1) by (apply steps_default; vm_compute; reflexivity).
  assert (H2 : s1 =[ exec | rest ]=> s2) by (apply steps_default; vm_compute; reflexivity).
  assert (Hd : phase_ s2 = Destroyed) by (vm_compute; reflexivity).
  split; [exact Hd|].
  apply (stopped_promises_broken sample_run sample_call cfg 0 first rest s1 s2
           (mkTask kLow (mkWork (Packaged 1 0) false)) 1 0 H1);
    [vm_compute; reflexivity|vm_compute; discriminate| |reflexivity|exact H2|exact Hd].
  assert (Hq : taskQueue_ (tp s1) = [mkTask kLow (mkWork (Packaged 1 0) false)])
    by (vm_compute; reflexivity).
  rewrite Hq. by apply list_elem_of_singleton.
Defined.

(** Two callbacks pushed, the first of them called. *)
Definition callbacks : list (client_step nat nat) :=
  [FPool (CreateWorker 0); FPool (RegisterWorker 0); FSubmitCallback kNormal 7 10;
   FSubmitCallback kNormal 1 20;
   FPool (WorkerTop 0); FPool (WorkerTake 0 0); FRun 0; FReturn 0; FSwap;
   FPool (WorkerTop 0); FPool (WorkerTake 0 0); FRun 0; FCall].
Definition s3 : Client nat nat nat nat := default new (steps exec new callbacks).

Lemma callbacks_in_order_witness :
  pushed s3 = [(10, 7); (20, 8)] /\ user s3 = 78 /\
  pushed s3 = map fst (handled s3) ++ pending s3 ++ callbackQueue_ s3.
Proof.
  assert (H : new =[ exec | callbacks ]=> s3) by (apply steps_default; vm_compute; reflexivity).
  split; [vm_compute; reflexivity|]. split; [vm_compute; reflexivity|].
  exact (proj1 (callbacks_in_order sample_run sample_call cfg 0 callbacks s3 H)).
Defined.

End FutureSamples.
