(* ===== verification/Lifetime.v ===== *)
(** Who keeps a [TcpConnection] alive while its loop handles an event: the shared pointers of
    src/net/TcpServer.cpp (the table), src/net/TcpConnection.cpp ([shared_from_this]) and
    src/rpc/RpcServer.cpp (the tasks), and the accesses of src/net/Channel.cpp, whose [Channel]
    belongs to the connection and is destroyed with it. *)
From stdpp Require Import base list strings numbers.
From Stdlib Require Import Ascii ZArith Lia.
From S2P Require Import Prelude Buffer Poller TcpConnection.

(** ** References *)

(** A [TcpConnectionPtr]: the table's, the temporary of [shared_from_this()], the copy captured
    by the closure of [removeConnection], and the one captured by a task of the pool. *)
Inductive holder :=
| Table
| Temporary
| Closure
| Task (i : nat).
#[export] Instance holder_eq_dec : EqDecision holder.
Proof. solve_decision. Defined.

(** What running code does to the connection: it reads or writes a member of the connection or of
    its channel, copies a reference, or drops one. *)
Inductive access :=
| Touch
| Acquire (h : holder)
| Release (h : holder).

Fixpoint drop_one (h : holder) (hs : list holder) : list holder :=
  match hs with
  | [] => []
  | x :: hs => if decide (x = h) then hs else x :: drop_one h hs
  end.

(** The references after a sequence of accesses; [None]: a member was accessed after the last
    reference was dropped, which destroys the connection. *)
Fixpoint accesses (hs : list holder) (p : list access) : option (list holder) :=
  match p with
  | [] => Some hs
  | Touch :: p => match hs with [] => None | _ => accesses hs p end
  | Acquire h :: p => match hs with [] => None | _ => accesses (h :: hs) p end
  | Release h :: p => if decide (h ∈ hs) then accesses (drop_one h hs) p else None
  end.

(** ** The code *)

(** [runInLoop] on the connection's own loop calls the closure at once. *)
Definition removeConnection_accesses : list access :=
  [Touch (* conn->loop() *); Acquire Closure;
   Touch (* conn->loop()->assertInLoopThread(), conn->name() *);
   Release Table (* connections_.erase *); Touch (* conn->connectDestroyed() *); Release Closure].

Definition handleClose_accesses : list access :=
  [Touch (* channel_->disableAll() *); Touch (* setState *); Touch (* closeCallback_ *);
   Acquire Temporary] ++ removeConnection_accesses ++ [Release Temporary].

(** [tasks] are the tasks [onMessage] submits. *)
Definition handleRead_accesses (o : read_outcome) (tasks : list nat) : list access :=
  Touch (* inputBuffer_.readFd *) ::
  match o with
  | ReadOk (_ :: _) =>
      [Touch (* messageCallback_ *); Acquire Temporary] ++
      map (fun i => Acquire (Task i)) tasks ++ [Release Temporary]
  | ReadOk [] => handleClose_accesses
  | ReadErr e => if (e =? EAGAIN)%Z then [] else handleClose_accesses
  end.

Definition handleWrite_accesses : list access := [Touch].
Definition handleError_accesses : list access := [Touch].

(** [Channel::handleEvent]: each test reads [revents_]. *)
Definition handleEvent_accesses (r : Z) (o : read_outcome) (tasks : list nat) : list access :=
  Touch ::
  (if has r EPOLLHUP && negb (has r EPOLLIN) then handleClose_accesses
   else
     [Touch] ++ (if has r EPOLLERR then handleError_accesses else []) ++
     [Touch] ++ (if has r (Z.lor (Z.lor EPOLLIN EPOLLPRI) EPOLLRDHUP)
                 then handleRead_accesses o tasks else []) ++
     [Touch] ++ (if has r EPOLLOUT then handleWrite_accesses else [])).

(** ** Other threads *)

(** The accesses of the loop thread [p] with those of the others [q], as scheduled. *)
Fixpoint weave (sched : list bool) (p q : list access) : list access :=
  match sched, p, q with
  | true :: sched, _, y :: q => y :: weave sched p q
  | false :: sched, x :: p, _ => x :: weave sched p q
  | _ :: sched, _, _ => weave sched p q
  | [], _, _ => p ++ q
  end.

(** The pool's tasks that hold the connection end in this order. *)
Definition tasks_end (ts : list nat) : list access := map (fun i => Release (Task i)) ts.

(** ** Lemmas *)

Lemma drop_one_perm h hs : h ∈ hs -> hs ≡ₚ h :: drop_one h hs.
Proof.
  induction hs as [|x hs IH]; [by intros ?%elem_of_nil|]. cbn [drop_one].
  case_decide as Hx; [by subst|]. intros [->|Hh]%elem_of_cons; [done|].
  rewrite (IH Hh) at 1. apply Permutation_swap.
Qed.

Lemma drop_one_proper h hs hs' : hs ≡ₚ hs' -> h ∈ hs -> drop_one h hs ≡ₚ drop_one h hs'.
Proof.
  intros Hp Hh. apply (Permutation_cons_inv (a := h)).
  rewrite <- !drop_one_perm; [done|by rewrite <- Hp|done].
Qed.

Lemma nonempty_perm {A} (x : A) l l' : l ≡ₚ x :: l' -> l <> [].
Proof. intros Hp ->. by apply Permutation_nil_cons in Hp. Qed.

(** Another thread's reference among those held. *)
Lemma other_held hs i others cur :
  cur ≡ₚ hs ++ map Task (i :: others) ->
  Task i ∈ cur /\ drop_one (Task i) cur ≡ₚ hs ++ map Task others.
Proof.
  intros Hc.
  assert (Hin : Task i ∈ cur) by (rewrite Hc; apply elem_of_app; right; apply elem_of_cons; by left).
  split; [done|]. apply (Permutation_cons_inv (a := Task i)). rewrite <- drop_one_perm by done.
  rewrite Hc. cbn [map]. solve_Permutation.
Qed.

(** One access, with more references held. *)
Lemma access_step x p hs others cur :
  accesses hs (x :: p) <> None -> cur ≡ₚ hs ++ map Task others ->
  exists hs' cur', accesses hs' p <> None /\ cur' ≡ₚ hs' ++ map Task others /\
    forall r, accesses cur' r <> None -> accesses cur (x :: r) <> None.
Proof.
  intros Hp Hc. destruct x as [|h|h]; cbn [accesses] in *.
  - destruct hs as [|h hs]; [done|]. exists (h :: hs), cur. split; [done|]. split; [done|].
    intros r Hr. pose proof (nonempty_perm _ _ _ Hc). by destruct cur.
  - destruct hs as [|h' hs]; [done|]. exists (h :: h' :: hs), (h :: cur). split; [done|].
    split; [by rewrite Hc|]. intros r Hr. pose proof (nonempty_perm _ _ _ Hc). by destruct cur.
  - case_decide as Hh; [|done]. assert (Hin : h ∈ cur) by (rewrite Hc; apply elem_of_app; by left).
    exists (drop_one h hs), (drop_one h cur). split; [done|]. split.
    + apply (Permutation_cons_inv (a := h)). rewrite <- drop_one_perm by done.
      by rewrite Hc, (drop_one_perm h hs Hh) at 1.
    + intros r Hr. by rewrite decide_True.
Qed.

Lemma accesses_end others p hs cur :
  accesses hs p <> None -> cur ≡ₚ hs ++ map Task others ->
  accesses cur (p ++ tasks_end others) <> None.
Proof.
  revert hs cur. induction p as [|x p IH]; intros hs cur Hp Hc; cbn [app].
  - clear Hp. revert cur Hc. induction others as [|i others IH]; intros cur Hc; [done|].
    destruct (other_held hs i others cur Hc) as [Hin Hc']. cbn [tasks_end map accesses].
    rewrite decide_True by done. by apply IH.
  - destruct (access_step x p hs others cur Hp Hc) as (hs' & cur' & Hp' & Hc' & Hr). by eapply Hr, IH.
Qed.

(** What is safe without the others is safe with them, whatever the schedule, as they only drop
    their own references. *)
Lemma accesses_others hs others cur p sched :
  accesses hs p <> None -> cur ≡ₚ hs ++ map Task others ->
  accesses cur (weave sched p (tasks_end others)) <> None.
Proof.
  revert hs others cur p. induction sched as [|b sched IH]; intros hs others cur p Hp Hc; cbn [weave].
  { by apply (accesses_end others p hs). }
  destruct b.
  - destruct others as [|i others]; [cbn [tasks_end map]; destruct p; by apply (IH hs [])|].
    destruct (other_held hs i others cur Hc) as [Hin Hc']. cbn [tasks_end map accesses].
    rewrite decide_True by done. by apply (IH hs others).
  - destruct p as [|x p]; [by apply (IH hs others)|].
    destruct (access_step x p hs others cur Hp Hc) as (hs' & cur' & Hp' & Hc' & Hr).
    apply Hr. by apply (IH hs' others).
Qed.

(** The tasks can all end first. *)
Lemma weave_first p q : weave (replicate (length q) true) p q = q ++ p.
Proof. induction q as [|y q IH]; cbn; [apply app_nil_r|]. by rewrite IH. Qed.

Lemma accesses_tasks_end ts p :
  accesses (Table :: map Task ts) (tasks_end ts ++ p) = accesses [Table] p.
Proof.
  induction ts as [|i ts IH]; [done|]. cbn [tasks_end map app accesses].
  rewrite decide_True by (apply elem_of_cons; right; apply elem_of_cons; by left).
  cbn [drop_one]. rewrite decide_False, decide_True by done. exact IH.
Qed.

(** The submission of tasks. *)
Lemma accesses_acquire h hs ts p :
  accesses (h :: hs) (map (fun i => Acquire (Task i)) ts ++ p)
  = accesses (rev (map Task ts) ++ h :: hs) p.
Proof.
  revert h hs. induction ts as [|i ts IH]; intros h hs; [done|]. cbn [map app accesses rev].
  rewrite IH, <- app_assoc. done.
Qed.

(** ** Theorems *)

(** The read callback runs, and closes the connection. *)
Definition reads (r : Z) : bool :=
  negb (has r EPOLLHUP && negb (has r EPOLLIN)) &&
  has r (Z.lor (Z.lor EPOLLIN EPOLLPRI) EPOLLRDHUP).
Definition read_closes (o : read_outcome) : bool :=
  match o with
  | ReadOk (_ :: _) => false
  | ReadOk [] => true
  | ReadErr e => negb (e =? EAGAIN)%Z
  end.

(** The loop thread alone, with the table's reference. *)
Lemma handleEvent_alone r o tasks :
  accesses [Table] (handleEvent_accesses r o tasks) = None <-> reads r && read_closes o = true.
Proof.
  unfold handleEvent_accesses, reads. cbn [accesses].
  destruct (has r EPOLLHUP && negb (has r EPOLLIN)); cbn [negb andb]; [by vm_compute|].
  destruct (has r (Z.lor _ _)); cbn [andb].
  - unfold handleRead_accesses, read_closes.
    destruct o as [e|[|a d]]; [destruct (e =? EAGAIN)%Z| |]; cbn [negb];
      destruct (has r EPOLLERR), (has r EPOLLOUT); try (by vm_compute);
      (split; [|done]); cbn [app accesses handleError_accesses handleWrite_accesses];
      rewrite <- !app_assoc, accesses_acquire; cbn [app accesses];
      (rewrite decide_True by (apply elem_of_app; right; apply elem_of_cons; by left));
      destruct (drop_one _ _) eqn:Hd; try done; exfalso; revert Hd;
      apply (nonempty_perm Table (drop_one Temporary (rev (map Task tasks) ++ [Temporary; Table]))
               (rev (map Task tasks)));
      apply (Permutation_cons_inv (a := Temporary));
      (rewrite <- drop_one_perm by (apply elem_of_app; right; apply elem_of_cons; by left));
      solve_Permutation.
  - by destruct (has r EPOLLERR), (has r EPOLLOUT).
Qed.

(** C32. A connection outlives the handling of its event exactly when the read callback does not
    close it: held by the server's table and any tasks of the pool, [handleEvent] accesses no
    destroyed connection under any schedule of the tasks' ends, unless the read callback finds
    the peer gone; then some schedule destroys the connection inside the callback, and
    [handleEvent] goes on to read the channel. *)
Theorem handleEvent_lifetime (r : Z) (o : read_outcome) (tasks others : list nat) :
  (forall sched, accesses (Table :: map Task others)
     (weave sched (handleEvent_accesses r o tasks) (tasks_end others)) <> None)
  <-> reads r && read_closes o = false.
Proof.
  rewrite <- not_true_iff_false, <- (handleEvent_alone r o tasks). split.
  - intros Hall Hnone. apply (Hall (replicate (length (tasks_end others)) true)).
    by rewrite weave_first, accesses_tasks_end.
  - intros Hsafe sched. by apply (accesses_others [Table] others).
Qed.

(** The peer closes an idle connection: [EPOLLIN] and a read of no bytes. *)
Example peer_close_faults :
  accesses [Table] (handleEvent_accesses EPOLLIN (ReadOk []) []) = None /\
  accesses [Table] (handleEvent_accesses EPOLLHUP (ReadOk []) []) = Some [].
Proof. split; vm_compute; reflexivity. Qed.
