(* ===== verification/TcpServer.v ===== *)
(** [minirpc::EventLoopPool] (include/minirpc/net/EventLoopPool.h, src/net/EventLoopPool.cpp) and
    [minirpc::TcpServer] (include/minirpc/net/TcpServer.h, src/net/TcpServer.cpp): the accept loop,
    the distribution of connections over the event loops, and the table that keeps them alive. *)
From stdpp Require Import base list gmap strings numbers.
From Stdlib Require Import Ascii ZArith Lia.
From S2P Require Import Prelude Bytes Buffer Poller TcpConnection.

(** An event loop, by its identity. *)
Abbreviation loop_id := nat.

(** ** EventLoopPool *)

Module EventLoopPool.

Record EventLoopPool := mkEventLoopPool {
  threadCount_ : nat;
  loops_ : list loop_id;
  next_ : Z;
  started_ : bool;
}.

Definition EventLoopPool_new (threadCount : nat) : EventLoopPool :=
  mkEventLoopPool (if threadCount =? 0 then 1 else threadCount) [] 0 false.

(** [start]; [spawn i] is the loop the [i]-th thread makes and hands back. *)
Definition start (spawn : nat -> loop_id) (p : EventLoopPool) : EventLoopPool :=
  if started_ p then p
  else mkEventLoopPool (threadCount_ p) (loops_ p ++ map spawn (seq 0 (threadCount_ p))) (next_ p) true.

Definition getNext (p : EventLoopPool) : option loop_id * EventLoopPool :=
  match loops_ p with
  | [] => (None, p)
  | _ =>
      (loops_ p !! Z.to_nat (next_ p mod Z.of_nat (length (loops_ p))),
       mkEventLoopPool (threadCount_ p) (loops_ p) (u64 (next_ p + 1)) (started_ p))
  end.

Definition size (p : EventLoopPool) : nat := length (loops_ p).
Definition loops (p : EventLoopPool) : list loop_id := loops_ p.

End EventLoopPool.

(** ** TcpServer *)

(** A [TcpConnection] object with the fields the server gives it. Objects are named by their
    address, the position in the list of all objects made. *)
Record conn_object := mkObject {
  co_name : bytes;
  co_loop : loop_id;
  co_conn : TcpConnection;
}.

(** The server and its surroundings: every connection object made, and the functors
    [[conn] { conn->connectEstablished(); }] queued in each loop. *)
Record TcpServer := mkServer {
  loop_ : loop_id;
  name_ : bytes;
  started_ : bool;
  nextConnId_ : Z;
  connections_ : gmap bytes nat;
  ioLoops_ : list loop_id;
  nextIo_ : Z;
  objects : list conn_object;
  queues : gmap loop_id (list nat);
}.

Definition TcpServer_new (loop : loop_id) (name : bytes) : TcpServer :=
  mkServer loop name false 1 ∅ [] 0 [] ∅.

Definition setConnectionLoops (s : TcpServer) (loops : list loop_id) : TcpServer :=
  mkServer (loop_ s) (name_ s) (started_ s) (nextConnId_ s) (connections_ s) loops (nextIo_ s)
    (objects s) (queues s).

(** [start]: besides the flag, it binds, listens and enables the accept channel. *)
Definition start (s : TcpServer) : TcpServer :=
  if started_ s then s
  else mkServer (loop_ s) (name_ s) true (nextConnId_ s) (connections_ s) (ioLoops_ s) (nextIo_ s)
         (objects s) (queues s).

Definition set_objects (s : TcpServer) (os : list conn_object) : TcpServer :=
  mkServer (loop_ s) (name_ s) (started_ s) (nextConnId_ s) (connections_ s) (ioLoops_ s)
    (nextIo_ s) os (queues s).
Definition set_connections (s : TcpServer) (m : gmap bytes nat) : TcpServer :=
  mkServer (loop_ s) (name_ s) (started_ s) (nextConnId_ s) m (ioLoops_ s) (nextIo_ s) (objects s)
    (queues s).
Definition set_queues (s : TcpServer) (q : gmap loop_id (list nat)) : TcpServer :=
  mkServer (loop_ s) (name_ s) (started_ s) (nextConnId_ s) (connections_ s) (ioLoops_ s)
    (nextIo_ s) (objects s) q.

Definition update_conn (f : TcpConnection -> TcpConnection) (o : conn_object) : conn_object :=
  mkObject (co_name o) (co_loop o) (f (co_conn o)).

(** A change of the connection at [p]. *)
Definition on_conn (f : TcpConnection -> TcpConnection) (p : nat) (s : TcpServer) : TcpServer :=
  set_objects s (alter (update_conn f) p (objects s)).

Definition queue (s : TcpServer) (l : loop_id) : list nat := default [] (queues s !! l).

(** [ioLoop->runInLoop([conn] { conn->connectEstablished(); })] on the main loop's thread. *)
Definition post_established (l : loop_id) (p : nat) (s : TcpServer) : TcpServer :=
  if l =? loop_ s then on_conn connectEstablished p s
  else set_queues s (<[l := queue s l ++ [p]]> (queues s)).

(** [name_ + "-" + std::to_string(nextConnId_)]; [nextConnId_] is an [int], whose overflow the
    theorems exclude. *)
Definition conn_name (name : bytes) (id : Z) : bytes := name ++ lit "-" ++ to_string id.

(** The choice of the loop. *)
Definition choose_loop (s : TcpServer) : loop_id * Z :=
  match ioLoops_ s with
  | [] => (loop_ s, nextIo_ s)
  | ls => (default 0 (ls !! Z.to_nat (nextIo_ s mod Z.of_nat (length ls))), u64 (nextIo_ s + 1))
  end.

(** One turn of the accept loop, for the accepted descriptor [connfd]. *)
Definition accept_one (s : TcpServer) (connfd : Z) : TcpServer :=
  let connName := conn_name (name_ s) (nextConnId_ s) in
  let '(ioLoop, nextIo) := choose_loop s in
  let p := length (objects s) in
  post_established ioLoop p
    (mkServer (loop_ s) (name_ s) (started_ s) (i32 (nextConnId_ s + 1))
       (<[connName := p]> (connections_ s)) (ioLoops_ s) nextIo
       (objects s ++ [mkObject connName ioLoop (TcpConnection_new connfd)]) (queues s)).

(** [handleNewConnection]: [fds] are what [accept] returns until it fails. *)
Definition handleNewConnection (s : TcpServer) (fds : list Z) : TcpServer := fold_left accept_one fds s.

(** [removeConnectionInLoop]; [removeConnection], called on the connection's own loop, calls it at
    once. *)
Definition removeConnectionInLoop (p : nat) (s : TcpServer) : TcpServer :=
  match objects s !! p with
  | Some o => on_conn connectDestroyed p (set_connections s (delete (co_name o) (connections_ s)))
  | None => s
  end.
Definition removeConnection (p : nat) (s : TcpServer) : TcpServer := removeConnectionInLoop p s.

(** ** Steps *)

(** What a loop may do with a connection it serves: run a functor of [send] or [shutdown], which
    were called on an established connection, or an event callback. [handleRead] and
    [handleClose] are called only while the channel is registered; [handleWrite] also after a
    [handleRead] of the same [handleEvent]. *)
Definition possible (c : TcpConnection) (k : conn_call) : bool :=
  match k with
  | CallReadNothing _ | CallHandleClose => negb (isNoneEvent (channel_ c))
  | CallDestroyed => false
  | _ => negb (bool_decide (state_ c = kConnecting))
  end.

(** A call on the connection at [p]; [closeCallback_], when it runs, runs last. *)
Definition call_conn (p : nat) (o : conn_object) (k : conn_call) (s : TcpServer) : TcpServer :=
  let c := conn_exec (co_conn o) k in
  let s := on_conn (fun _ => c) p s in
  if closes (co_conn o) <? closes c then removeConnection p s else s.

Inductive server_step :=
| Accept (fds : list Z)
| RunQueued (l : loop_id)
| ConnCall (p : nat) (k : conn_call).

(** [None]: not possible now. *)
Definition server_exec (s : TcpServer) (st : server_step) : option TcpServer :=
  match st with
  | Accept fds => if started_ s then Some (handleNewConnection s fds) else None
  | RunQueued l =>
      match queue s l with
      | [] => None
      | p :: q => Some (on_conn connectEstablished p (set_queues s (<[l := q]> (queues s))))
      end
  | ConnCall p k =>
      match objects s !! p with
      | Some o => if possible (co_conn o) k then Some (call_conn p o k s) else None
      | None => None
      end
  end.

(** The number of connections accepted by a sequence of steps. *)
Definition accepts (ss : list server_step) : nat :=
  list_sum (map (fun st => match st with Accept fds => length fds | _ => 0 end) ss).

(** ** Invariant *)

Definition closed (c : TcpConnection) : Prop := state_ c = kDisconnected.
#[export] Instance closed_dec c : Decision (closed c).
Proof. unfold closed. apply _. Defined.

(** A connection's [closeCallback_] has run once if it is closed, and not otherwise; its channel
    is registered only in between. *)
Definition conn_life (c : TcpConnection) : Prop :=
  closes c = (if decide (closed c) then 1 else 0) /\
  (closed c \/ state_ c = kConnecting -> events_ (channel_ c) = 0%Z).

(** The loop of the [p]-th connection: round robin over the I/O loops, or the main loop. *)
Definition home (s : TcpServer) (p : nat) : loop_id :=
  match ioLoops_ s with [] => loop_ s | ls => default 0 (ls !! (p mod length ls)) end.

Record server_inv (s : TcpServer) : Prop := mkInv {
  inv_id : nextConnId_ s = Z.of_nat (S (length (objects s)));
  inv_io : ioLoops_ s <> [] -> nextIo_ s = Z.of_nat (length (objects s));
  inv_object : forall p o, objects s !! p = Some o ->
    co_name o = conn_name (name_ s) (Z.of_nat (S p)) /\ co_loop o = home s p /\ conn_life (co_conn o);
  inv_table : forall n p, connections_ s !! n = Some p <->
    exists o, objects s !! p = Some o /\ co_name o = n /\ ~ closed (co_conn o);
  inv_queue : forall l, NoDup (queue s l) /\ forall p, p ∈ queue s l <->
    exists o, objects s !! p = Some o /\ co_loop o = l /\ state_ (co_conn o) = kConnecting;
}.

(** ** Lemmas *)

Lemma conn_name_inj name i j :
  (0 <= i)%Z -> (0 <= j)%Z -> conn_name name i = conn_name name j -> i = j.
Proof. unfold conn_name. intros Hi Hj H%app_inv_head%app_inv_head. by apply to_string_inj. Qed.

Lemma object_on_conn f p s q o :
  objects (on_conn f p s) !! q = Some o <->
  exists o0, objects s !! q = Some o0 /\ o = (if decide (q = p) then update_conn f o0 else o0).
Proof.
  unfold on_conn. cbn [objects set_objects]. destruct (decide (q = p)) as [->|Hne].
  - rewrite list_lookup_alter_eq. destruct (objects s !! p); cbn; naive_solver.
  - rewrite list_lookup_alter_ne by done. naive_solver.
Qed.


(** A call that neither opens nor closes the connection, nor touches a closed one's channel. *)
Definition quiet (c c' : TcpConnection) : Prop :=
  closes c' = closes c /\ (closed c' <-> closed c) /\ state_ c' <> kConnecting /\
  (closed c -> events_ (channel_ c') = events_ (channel_ c)).

Lemma quiet_life c c' : quiet c c' -> conn_life c -> conn_life c'.
Proof.
  intros (Hc & Hcl & Hn & Hev) [Hl Hz]. split.
  - rewrite Hc, Hl. by destruct (decide (closed c)), (decide (closed c')); tauto.
  - intros [Hd|Hd]; [|done]. rewrite Hev; [apply Hz; left|]; tauto.
Qed.

Lemma quiet_same c c' :
  state_ c <> kConnecting -> state_ c' = state_ c -> closes c' = closes c ->
  (closed c -> events_ (channel_ c') = events_ (channel_ c)) -> quiet c c'.
Proof. intros Hn Hs Hc He. unfold quiet, closed. by rewrite Hs, Hc. Qed.

Lemma sendInLoop_quiet c m o : state_ c <> kConnecting -> quiet c (sendInLoop c m o).
Proof.
  intros Hn. unfold sendInLoop. case_bool_decide as Hd; [by apply quiet_same|].
  destruct (_ && _); [destruct o|]; repeat case_match; simplify_eq; by apply quiet_same.
Qed.

Lemma handleWrite_quiet c o :
  state_ c <> kConnecting -> conn_life c -> quiet c (handleWrite c o).
Proof.
  intros Hn [_ Hz]. unfold handleWrite. destruct (isWriting (channel_ c)) eqn:Hw; cbn [negb];
    [|by apply quiet_same].
  assert (Hnc : ~ closed c).
  { intros Hd. unfold isWriting in Hw. by rewrite Hz in Hw by tauto. }
  repeat case_match; by apply quiet_same.
Qed.

Lemma shutdown_quiet c k :
  In k [CallShutdown; CallShutdownBegin; CallShutdownInLoop] -> state_ c <> kConnecting ->
  quiet c (conn_exec c k).
Proof.
  intros Hk Hn. repeat destruct Hk as [<-|Hk]; try done;
    cbn [conn_exec]; unfold shutdown, shutdown_begin, shutdownInLoop;
    try case_bool_decide as Hd; try destruct (negb _); try (by apply quiet_same);
    unfold quiet, closed; cbn; rewrite Hd; naive_solver.
Qed.

Lemma handleClose_life c :
  conn_life c -> ~ closed c -> conn_life (handleClose c) /\ closed (handleClose c).
Proof.
  intros [Hl _] Hn. rewrite decide_False in Hl by done. split; [|done]. split; [|done].
  cbn. by rewrite decide_True, Hl.
Qed.

Lemma exec_life c k :
  conn_life c -> possible c k = true ->
  state_ c <> kConnecting /\ conn_life (conn_exec c k) /\ state_ (conn_exec c k) <> kConnecting /\
  (closed c -> closed (conn_exec c k)).
Proof.
  intros Hl Hp.
  assert (Hq : state_ c <> kConnecting -> quiet c (conn_exec c k) ->
    state_ c <> kConnecting /\ conn_life (conn_exec c k) /\ state_ (conn_exec c k) <> kConnecting /\
    (closed c -> closed (conn_exec c k))).
  { intros Hn Hq. split; [done|]. split; [by eapply quiet_life|]. destruct Hq as (_ & ? & ? & _). tauto. }
  assert (Hr : isNoneEvent (channel_ c) = false -> state_ c <> kConnecting /\ ~ closed c).
  { unfold isNoneEvent. intros He%Z.eqb_neq. split; intros Hd; apply He, Hl; tauto. }
  destruct k as [m o| | | |o|o| |]; cbn [possible] in Hp;
    try (apply negb_true_iff, bool_decide_eq_false in Hp; apply Hq; [done|]);
    try (by apply shutdown_quiet; [cbn; tauto|]).
  - by apply sendInLoop_quiet.
  - by apply handleWrite_quiet.
  - apply negb_true_iff, Hr in Hp as [Hn Hc]. cbn [conn_exec]. unfold handleRead.
    destruct (readFd (inputBuffer_ c) o) as [[n en] b].
    destruct (handleClose_life (set_input c b) Hl Hc) as [Hlc Hcc].
    repeat case_match; (split; [done|]); try done; (split; [done|]); by rewrite ?Hcc.
  - apply negb_true_iff, Hr in Hp as [Hn Hc]. cbn [conn_exec].
    destruct (handleClose_life c Hl Hc) as [Hlc Hcc]. split; [done|]. split; [done|]. by rewrite Hcc.
  - done.
Qed.

(** The connection at [p] becomes [c']; the table and the queues become [tbl] and [qs]. *)
Definition replace (p : nat) (c' : TcpConnection) (tbl : gmap bytes nat)
    (qs : gmap loop_id (list nat)) (s : TcpServer) : TcpServer :=
  set_queues (set_connections (on_conn (fun _ => c') p s) tbl) qs.

Lemma names_differ s p q o o' :
  server_inv s -> objects s !! p = Some o -> objects s !! q = Some o' -> co_name o = co_name o' -> p = q.
Proof.
  intros Hi Hp Hq Hn. destruct (inv_object s Hi p o Hp) as [Hp1 _].
  destruct (inv_object s Hi q o' Hq) as [Hq1 _]. rewrite Hp1, Hq1 in Hn.
  apply conn_name_inj in Hn; lia.
Qed.

(** A served connection changes; it leaves the table when it closes. *)
Lemma inv_replace s p o c' qs :
  server_inv s -> objects s !! p = Some o -> conn_life c' -> state_ c' <> kConnecting ->
  (closed (co_conn o) -> closed c') ->
  (forall l, NoDup (default [] (qs !! l)) /\
             forall q, q ∈ default [] (qs !! l) <-> q ∈ queue s l /\ q <> p) ->
  server_inv (replace p c' (if decide (closed c') then delete (co_name o) (connections_ s)
                            else connections_ s) qs s).
Proof.
  intros Hi Hp Hl Hn Hcl Hqs.
  assert (Ho : forall q o', objects (on_conn (fun _ => c') p s) !! q = Some o' <->
    (q = p /\ o' = mkObject (co_name o) (co_loop o) c') \/ (q <> p /\ objects s !! q = Some o')).
  { intros q o'. rewrite object_on_conn. destruct (decide (q = p)) as [->|Hne]; [|naive_solver].
    rewrite Hp. unfold update_conn. naive_solver. }
  split.
  - unfold replace. cbn. rewrite length_alter. apply Hi.
  - unfold replace. cbn. rewrite length_alter. apply Hi.
  - intros q o' [[-> ->]|[Hne Hq]]%Ho; [|by apply (inv_object s Hi)].
    destruct (inv_object s Hi p o Hp) as (? & ? & _). by split.
  - intros n q. trans (connections_ s !! n = Some q /\ ~ (q = p /\ closed c')).
    + cbn [replace connections_ set_queues set_connections]. destruct (decide (closed c')) as [Hc|Hc];
        [|naive_solver].
      rewrite lookup_delete_Some. split; intros [H1 H2].
      * split; [done|]. intros [-> _]. apply (inv_table s Hi) in H2 as (o' & Ho' & Hn' & _). congruence.
      * split; [|done]. intros <-. apply (inv_table s Hi) in H1 as (o' & Ho' & Hn' & _).
        apply H2. split; [|done]. by eapply names_differ.
    + rewrite (inv_table s Hi). unfold replace. cbn [set_queues set_connections objects].
      split.
      * intros [(o' & Hq & Hn' & Hc') Hx]. destruct (decide (q = p)) as [->|Hne].
        -- rewrite Hp in Hq. injection Hq as <-. eexists. rewrite Ho. split; [by left|].
           split; [done|]. tauto.
        -- exists o'. rewrite Ho. tauto.
      * intros (o' & [[-> ->]|[Hne Hq]]%Ho & Hn' & Hc'); [|split; [by exists o'|tauto]].
        split; [exists o; tauto|tauto].
  - intros l. destruct (Hqs l) as [Hnd Hin]. split; [done|]. intros q. unfold queue, replace.
    cbn [set_queues set_connections objects queues]. rewrite Hin.
    destruct (inv_queue s Hi l) as [_ Hq]. rewrite Hq. split.
    + intros [(o' & Ho' & ? & ?) Hne]. exists o'. rewrite Ho. tauto.
    + intros (o' & [[-> ->]|[Hne Hq']]%Ho & Hlo & Hst); [done|]. split; [by exists o'|done].
Qed.

Lemma inv_call s p o k :
  server_inv s -> objects s !! p = Some o -> possible (co_conn o) k = true ->
  server_inv (call_conn p o k s).
Proof.
  intros Hi Hp Hk. destruct (inv_object s Hi p o Hp) as (_ & _ & Hl).
  destruct (exec_life _ _ Hl Hk) as (Hn & Hl' & Hn' & Hcl). unfold call_conn.
  set (c := conn_exec (co_conn o) k) in *.
  assert (Hi' : server_inv (replace p c (if decide (closed c) then delete (co_name o) (connections_ s)
                                         else connections_ s) (queues s) s)).
  { apply inv_replace; try done. intros l. destruct (inv_queue s Hi l) as [Hnd Hq].
    split; [done|]. intros q. fold (queue s l). split; [|tauto]. intros Hin. split; [done|].
    intros ->. apply Hq in Hin as (o' & Ho' & _ & Hst). congruence. }
  destruct Hl as [Hc _], Hl' as [Hc' _]. rewrite Hc, Hc'.
  destruct (decide (closed c)) as [Hd|Hd]; [|by rewrite decide_False by tauto].
  destruct (decide (closed (co_conn o))) as [Hd0|Hd0]; cbn [Nat.ltb Nat.leb].
  - replace (delete (co_name o) (connections_ s)) with (connections_ s) in Hi'; [exact Hi'|].
    symmetry. apply delete_id, eq_None_not_Some. intros [q Hq].
    apply (inv_table s Hi) in Hq as (o' & Ho' & Hn1 & Hnc).
    assert (q = p) as -> by by eapply (names_differ s q p o' o). congruence.
  - unfold removeConnection, removeConnectionInLoop, on_conn. cbn [objects set_objects].
    rewrite list_lookup_alter_eq, Hp. cbn [fmap option_map option_fmap update_conn co_name].
    cbn [set_connections objects set_objects connections_].
    rewrite list_alter_alter_eq. revert Hi'. unfold replace, on_conn, set_objects, set_connections,
      set_queues. cbn [loop_ name_ started_ nextConnId_ connections_ ioLoops_ nextIo_ objects queues].
    rewrite (alter_agree (update_conn connectDestroyed ∘ update_conn (fun _ => c))
               (update_conn (fun _ => c))); [done|].
    intros x _. unfold update_conn, compose, connectDestroyed. cbn.
    rewrite bool_decide_eq_false_2; [done|]. by rewrite Hd.
Qed.

Lemma inv_run_queued s l p q :
  server_inv s -> queue s l = p :: q ->
  server_inv (on_conn connectEstablished p (set_queues s (<[l := q]> (queues s)))).
Proof.
  intros Hi Hq. destruct (inv_queue s Hi l) as [Hnd Hin].
  destruct (proj1 (Hin p)) as (o & Ho & Hlo & Hst); [rewrite Hq; set_solver|].
  destruct (inv_object s Hi p o Ho) as (_ & _ & Hl).
  assert (Hnc : ~ closed (co_conn o)) by (unfold closed; by rewrite Hst).
  set (c := connectEstablished (co_conn o)).
  assert (Hi' : server_inv (replace p c (if decide (closed c) then delete (co_name o) (connections_ s)
                                         else connections_ s) (<[l := q]> (queues s)) s)).
  { apply inv_replace; try done.
    - destruct Hl as [Hc _]. rewrite decide_False in Hc by done. split; [|by intros [?|?]].
      rewrite decide_False by done. exact Hc.
    - intros l'. destruct (decide (l' = l)) as [->|Hne].
      + rewrite lookup_insert_eq. cbn [default]. rewrite Hq in *. apply list.NoDup_cons in Hnd as [Hp Hnd].
        split; [exact Hnd|]. intros x. cbn [default id]. rewrite elem_of_cons. naive_solver.
      + rewrite lookup_insert_ne by done. fold (queue s l'). destruct (inv_queue s Hi l') as [Hnd' Hin'].
        split; [done|]. intros x. split; [|tauto]. intros Hx. split; [done|]. intros ->.
        apply Hin' in Hx as (o' & Ho' & Hlo' & _). congruence. }
  rewrite decide_False in Hi' by done. revert Hi'.
  unfold replace, on_conn, set_objects, set_connections, set_queues.
  cbn [loop_ name_ started_ nextConnId_ connections_ ioLoops_ nextIo_ objects queues].
  rewrite (alter_agree (update_conn (fun _ => c)) (update_conn connectEstablished)); [done|].
  intros x Hx. rewrite Ho in Hx. by injection Hx as <-.
Qed.

(** A new connection enters the table. *)
Lemma inv_push s c qs :
  server_inv s -> (Z.of_nat (S (S (length (objects s)))) < 2 ^ 31)%Z -> conn_life c -> ~ closed c ->
  let p := length (objects s) in
  (forall l, NoDup (default [] (qs !! l)) /\
             forall q, q ∈ default [] (qs !! l) <->
                       q ∈ queue s l \/ (q = p /\ l = home s p /\ state_ c = kConnecting)) ->
  server_inv
    (mkServer (loop_ s) (name_ s) (started_ s) (i32 (nextConnId_ s + 1))
       (<[conn_name (name_ s) (nextConnId_ s) := p]> (connections_ s)) (ioLoops_ s) (choose_loop s).2
       (objects s ++ [mkObject (conn_name (name_ s) (nextConnId_ s)) (home s p) c]) qs).
Proof.
  intros Hi Hb Hl Hc p Hqs.
  assert (Hid : nextConnId_ s = Z.of_nat (S p)) by apply Hi.
  assert (Ho : forall q o, (objects s ++ [mkObject (conn_name (name_ s) (nextConnId_ s)) (home s p) c])
      !! q = Some o <->
    objects s !! q = Some o \/ (q = p /\ o = mkObject (conn_name (name_ s) (Z.of_nat (S p))) (home s p) c)).
  { intros q o. rewrite lookup_snoc_Some, Hid. split; [naive_solver|].
    intros [Hq|[-> ->]]; [left|by right]. split; [by eapply lookup_lt_Some|done]. }
  split; cbn [nextConnId_ objects ioLoops_ nextIo_ name_ connections_].
  - rewrite length_app. cbn [length]. rewrite Hid, i32_small by lia. lia.
  - intros Hne. unfold choose_loop. pose proof (inv_io s Hi Hne) as Hio.
    destruct (ioLoops_ s); [done|]. cbn [snd]. rewrite length_app, Hio. cbn [length].
    unfold u64. rewrite wrap_small; unfold fits; lia.
  - intros q o [Hq|[-> ->]]%Ho; [by apply (inv_object s Hi)|]. done.
  - intros n q. setoid_rewrite Ho. rewrite lookup_insert_Some, (inv_table s Hi), Hid. split.
    + intros [[<- <-]|[Hn (o & ? & ? & ?)]]; [|exists o; tauto].
      eexists. split; [by right|]. by split.
    + intros (o & [Hq|[-> ->]] & Hn & Hnc); [|by left].
      right. split; [|by exists o]. intros Heq. destruct (inv_object s Hi q o Hq) as [Hno _].
      rewrite Hno, <- Heq in Hn. apply conn_name_inj in Hn; [|lia..].
      apply lookup_lt_Some in Hq. lia.
  - intros l. destruct (Hqs l) as [Hnd Hin]. split; [done|]. intros q.
    unfold queue. cbn [queues]. setoid_rewrite Ho. rewrite Hin.
    destruct (inv_queue s Hi l) as [_ ->]. split.
    + intros [(o & ? & ? & ?)|(-> & -> & Hst)]; [exists o; tauto|]. eexists.
      split; [by right|]. done.
    + intros (o & [Hq|[-> ->]] & Hlo & Hst); [left; by exists o|by right].
Qed.

Lemma choose_home s : server_inv s -> (choose_loop s).1 = home s (length (objects s)).
Proof.
  intros Hi. unfold choose_loop, home. pose proof (inv_io s Hi) as Hio.
  destruct (ioLoops_ s) as [|l ls]; [done|]. cbn [fst]. rewrite Hio by done.
  by rewrite <- Nat2Z.inj_mod, Nat2Z.id.
Qed.

Lemma new_life fd : conn_life (TcpConnection_new fd) /\ ~ closed (TcpConnection_new fd).
Proof. by split. Qed.

Lemma inv_accept_one s fd :
  server_inv s -> (Z.of_nat (S (S (length (objects s)))) < 2 ^ 31)%Z ->
  server_inv (accept_one s fd) /\ length (objects (accept_one s fd)) = S (length (objects s)) /\
  started_ (accept_one s fd) = started_ s.
Proof.
  intros Hi Hb. pose proof (choose_home s Hi) as Hh. unfold accept_one.
  pose proof (inv_push s) as Hpush. destruct (choose_loop s) as [l io]. cbn [fst snd] in *. subst l.
  set (p := length (objects s)) in *. unfold post_established. cbn [loop_].
  assert (Hnot : forall l, p ∉ queue s l).
  { intros l. destruct (inv_queue s Hi l) as [_ ->]. intros (o & Ho%lookup_lt_Some & _). unfold p in Ho. lia. }
  destruct (Nat.eqb_spec (home s p) (loop_ s)) as [He|He].
  - unfold on_conn, set_objects. cbn [objects loop_ name_ started_ nextConnId_ connections_ ioLoops_
      nextIo_ queues]. rewrite alter_app_r_alt, Nat.sub_diag by done.
    split; [|split; [rewrite length_app; cbn; unfold p; lia|done]].
    apply (Hpush (connectEstablished (TcpConnection_new fd))); try done.
    + split; [done|]. by intros [?|?].
    + intros l. fold (queue s l). destruct (inv_queue s Hi l) as [Hnd _]. split; [done|].
      intros q. split; [by left|]. by intros [?|(_ & _ & ?)].
  - cbn [set_queues objects started_ loop_ name_ nextConnId_ connections_ ioLoops_ nextIo_].
    split; [|split; [rewrite length_app; cbn; unfold p; lia|done]].
    destruct (new_life fd) as [Hl Hc]. apply (Hpush (TcpConnection_new fd)); try done.
    intros l. unfold queue at 1 2. cbn [queues]. fold (queue s (home s p)).
    destruct (inv_queue s Hi l) as [Hnd Hin]. destruct (decide (l = home s p)) as [->|Hne].
    + rewrite lookup_insert_eq. cbn [default id]. split.
      * apply list.NoDup_app. split; [done|]. split; [|apply NoDup_singleton].
        intros x Hx ->%list_elem_of_singleton. by apply (Hnot (home s p)).
      * intros q. rewrite elem_of_app, list_elem_of_singleton. naive_solver.
    + rewrite lookup_insert_ne by done. fold (queue s l). split; [done|]. naive_solver.
Qed.

(** What a step leaves alone. *)
Definition same_server (s s' : TcpServer) : Prop :=
  loop_ s' = loop_ s /\ name_ s' = name_ s /\ ioLoops_ s' = ioLoops_ s /\ started_ s' = started_ s.

Lemma accept_one_same s fd : same_server s (accept_one s fd).
Proof.
  unfold accept_one. destruct (choose_loop s). unfold post_established. by case_match.
Qed.

Lemma inv_accept fds s :
  server_inv s -> (Z.of_nat (S (length (objects s) + length fds)) < 2 ^ 31)%Z ->
  server_inv (handleNewConnection s fds) /\
  length (objects (handleNewConnection s fds)) = length (objects s) + length fds /\
  same_server s (handleNewConnection s fds).
Proof.
  unfold handleNewConnection. revert s.
  induction fds as [|fd fds IH]; intros s Hi Hb; cbn [fold_left length] in *; [split; [done|split; [lia|done]]|].
  destruct (inv_accept_one s fd Hi) as (Hi1 & Hn1 & _); [lia|].
  destruct (IH (accept_one s fd) Hi1) as (Hi2 & Hn2 & Hs2); [lia|].
  split; [done|]. split; [lia|]. destruct (accept_one_same s fd) as (? & ? & ? & ?).
  destruct Hs2 as (? & ? & ? & ?). repeat split; congruence.
Qed.

Lemma call_conn_same p o k s :
  same_server s (call_conn p o k s) /\ length (objects (call_conn p o k s)) = length (objects s).
Proof.
  unfold call_conn, removeConnection, removeConnectionInLoop. repeat case_match; cbn;
    rewrite ?length_alter; done.
Qed.

Lemma accepts_app ss ss' : accepts (ss ++ ss') = accepts ss + accepts ss'.
Proof. unfold accepts. by rewrite map_app, list_sum_app. Qed.

Lemma server_run_inv s0 ss s :
  server_inv s0 -> objects s0 = [] -> (Z.of_nat (S (accepts ss)) < 2 ^ 31)%Z ->
  s0 =[ server_exec | ss ]=> s ->
  server_inv s /\ length (objects s) = accepts ss /\ same_server s0 s.
Proof.
  intros Hi0 H0 Hb Hrun. revert Hb.
  refine (steps_history _ (fun ss s => (Z.of_nat (S (accepts ss)) < 2 ^ 31)%Z ->
    server_inv s /\ length (objects s) = accepts ss /\ same_server s0 s) s0 ss s _ _ Hrun);
    [|by rewrite H0].
  clear Hrun. clear ss s. intros ss s st s' IH Hst Hb. rewrite accepts_app in *.
  destruct IH as (Hi & Hn & Hs); [lia|].
  assert (Hgoal : server_inv s' -> length (objects s') = length (objects s) + accepts [st] ->
    same_server s s' -> server_inv s' /\ length (objects s') = accepts ss + accepts [st] /\
    same_server s0 s').
  { intros Hi' Hn' (? & ? & ? & ?). split; [done|]. split; [lia|].
    destruct Hs as (? & ? & ? & ?). repeat split; congruence. }
  destruct st as [fds|l|p k]; cbn [server_exec] in Hst.
  - destruct (started_ s); [|done]. injection Hst as <-.
    unfold accepts in Hb |- *. cbn [map list_sum foldr] in *. fold (accepts ss) in *.
    destruct (inv_accept fds s Hi) as (? & ? & ?); [lia|]. apply Hgoal; [done| |done]. cbn. lia.
  - destruct (queue s l) as [|p q] eqn:Hq; [done|]. injection Hst as <-.
    apply Hgoal; [by apply inv_run_queued|cbn; rewrite length_alter; lia|done].
  - destruct (objects s !! p) as [o|] eqn:Ho; [|done]. destruct (possible (co_conn o) k) eqn:Hp; [|done].
    injection Hst as <-. destruct (call_conn_same p o k s) as [? Hlen].
    apply Hgoal; [by apply inv_call|cbn; lia|done].
Qed.

Lemma run_queue s l q :
  server_inv s -> queue s l = q ->
  exists s', s =[ server_exec | replicate (length q) (RunQueued l) ]=> s' /\
    server_inv s' /\ queue s' l = [].
Proof.
  revert s. induction q as [|p q IH]; intros s Hi Hq; cbn [length replicate steps].
  { by exists s. }
  cbn [server_exec]. rewrite Hq. apply IH; [by apply inv_run_queued|].
  unfold queue, on_conn. cbn. by rewrite lookup_insert_eq.
Qed.

(** A server as [RpcServer::start] leaves it. *)
Definition listening (main : loop_id) (name : bytes) (ls : list loop_id) : TcpServer :=
  start (setConnectionLoops (TcpServer_new main name) ls).

Lemma listening_inv main name ls : server_inv (listening main name ls).
Proof.
  split; try done.
  - intros n p. split; [done|]. by intros (o & ? & _).
  - intros l. split; [apply NoDup_nil_2|].
    intros p. split; [by intros ?%elem_of_nil|]. by intros (o & ? & _).
Qed.

(** ** Theorems *)

(** C25. The connection table: over any interleaving of accepts, of the loops' queued functors and
    of calls on connections, fewer than 2^31 accepts in all, the [p]-th connection accepted has a
    name of its own and is served by the I/O loops in turn, or by the main loop when there are
    none; its [closeCallback_] has run exactly once if it is closed and not otherwise; and the
    table holds exactly the connections that are not closed, each under its name. A connection is
    still [kConnecting] exactly when its functor waits in the queue of its loop, once. *)
Theorem connection_table (main : loop_id) (name : bytes) (ls : list loop_id)
  (ss : list server_step) (s : TcpServer)
  (Hrun : listening main name ls =[ server_exec | ss ]=> s)
  (Hbound : (Z.of_nat (S (accepts ss)) < 2 ^ 31)%Z) :
  length (objects s) = accepts ss /\
  (forall p o, objects s !! p = Some o ->
     co_name o = name ++ lit "-" ++ to_string (Z.of_nat (S p)) /\
     co_loop o = match ls with [] => main | _ => default 0 (ls !! (p mod length ls)) end /\
     closes (co_conn o) = (if decide (closed (co_conn o)) then 1 else 0)) /\
  (forall n p, connections_ s !! n = Some p <->
     exists o, objects s !! p = Some o /\ co_name o = n /\ ~ closed (co_conn o)) /\
  (forall l, NoDup (queue s l) /\ forall p, p ∈ queue s l <->
     exists o, objects s !! p = Some o /\ co_loop o = l /\ state_ (co_conn o) = kConnecting).
Proof.
  apply server_run_inv in Hrun as (Hi & Hn & Hm & Hna & Hio & _); [|apply listening_inv|done..].
  split; [done|]. split; [|split; apply Hi]. intros p o Ho.
  destruct (inv_object s Hi p o Ho) as (-> & -> & Hl & _).
  unfold home. rewrite Hm, Hna, Hio. by destruct ls.
Qed.

(** Every accepted connection is established: once its loop has run the functors queued in it,
    no connection of that loop is still [kConnecting]. *)
Theorem accepted_established (main : loop_id) (name : bytes) (ls : list loop_id)
  (ss : list server_step) (s : TcpServer) (l : loop_id)
  (Hrun : listening main name ls =[ server_exec | ss ]=> s)
  (Hbound : (Z.of_nat (S (accepts ss)) < 2 ^ 31)%Z) :
  exists s', s =[ server_exec | replicate (length (queue s l)) (RunQueued l) ]=> s' /\
    forall p o, objects s' !! p = Some o -> co_loop o = l -> state_ (co_conn o) <> kConnecting.
Proof.
  apply server_run_inv in Hrun as (Hi & _); [|apply listening_inv|done..].
  destruct (run_queue s l (queue s l) Hi eq_refl) as (s' & Hs' & Hi' & Hq). exists s'.
  split; [done|]. intros p o Ho Hlo Hst. destruct (inv_queue s' Hi' l) as [_ Hin].
  rewrite Hq in Hin. assert (p ∈ []) as ?%elem_of_nil by (apply Hin; by exists o). done.
Qed.

(** ** Witnesses *)

(** Two loops beside the main loop 0; three connections; the second is served by loop 8 and its
    peer closes it. *)
Definition traffic : list server_step :=
  [Accept [5; 6; 7]%Z; RunQueued 8; ConnCall 1 (CallSendInLoop (lit "hi") (WriteOk 2));
   ConnCall 1 (CallReadNothing (ReadOk []))].

Definition after_traffic : TcpServer :=
  default (TcpServer_new 0 []) (steps server_exec (listening 0 (lit "rpc") [7; 8]) traffic).

Lemma connection_table_witness :
  connections_ after_traffic !! lit "rpc-2" = None /\
  connections_ after_traffic !! lit "rpc-3" = Some 2 /\
  length (objects after_traffic) = 3.
Proof.
  assert (Hrun : listening 0 (lit "rpc") [7; 8] =[ server_exec | traffic ]=> after_traffic)
    by (vm_compute; reflexivity).
  assert (Hb : (Z.of_nat (S (accepts traffic)) < 2 ^ 31)%Z) by (vm_compute; reflexivity).
  assert (H2 : connections_ after_traffic !! lit "rpc-2" = None) by (vm_compute; reflexivity).
  assert (H3 : connections_ after_traffic !! lit "rpc-3" = Some 2) by (vm_compute; reflexivity).
  exact (conj H2 (conj H3 (proj1
    (connection_table 0 (lit "rpc") [7; 8] traffic after_traffic Hrun Hb)))).
Defined.

Lemma accepted_established_witness :
  exists s', after_traffic =[ server_exec | replicate (length (queue after_traffic 7)) (RunQueued 7) ]=> s' /\
    forall p o, objects s' !! p = Some o -> co_loop o = 7 -> state_ (co_conn o) <> kConnecting.
Proof.
  assert (Hrun : listening 0 (lit "rpc") [7; 8] =[ server_exec | traffic ]=> after_traffic)
    by (vm_compute; reflexivity).
  assert (Hb : (Z.of_nat (S (accepts traffic)) < 2 ^ 31)%Z) by (vm_compute; reflexivity).
  exact (accepted_established 0 (lit "rpc") [7; 8] traffic after_traffic 7 Hrun Hb).
Defined.
