(* ===== verification/Socket.v ===== *)
(** [minirpc::Socket] (include/minirpc/net/Socket.h, src/net/Socket.cpp) over the socket calls of
    the kernel, and the parts of [TcpServer] (src/net/TcpServer.cpp) that use it: the listening
    socket, [start] and the accept loop. *)
From stdpp Require Import base list gmap strings numbers.
From Stdlib Require Import Ascii ZArith Lia.
From S2P Require Import Prelude Bytes Inet Poller TcpConnection TcpServer.

(** ** The kernel *)

(** A call fails with an error number, or returns. *)
Inductive sysret (A : Type) :=
| Fail (errno : Z)
| Ret (a : A).
Arguments Fail {A} errno.
Arguments Ret {A} a.

Definition SOL_SOCKET : Z := 1.
Definition SO_REUSEADDR : Z := 2.
Definition SO_KEEPALIVE : Z := 9.
Definition SO_REUSEPORT : Z := 15.
Definition IPPROTO_TCP : Z := 6.
Definition TCP_NODELAY : Z := 1.
Definition SHUT_WR : Z := 1.

(** The calls, on the state [W] of the kernel. *)
Class Sockets (W : Type) := {
  sys_socket : W -> sysret Z * W;
  sys_bind : W -> Z -> sockaddr_in -> sysret unit * W;
  sys_listen : W -> Z -> sysret unit * W;
  sys_accept4 : W -> Z -> sysret (Z * sockaddr_in) * W;
  sys_shutdown : W -> Z -> Z -> sysret unit * W;
  sys_setsockopt : W -> Z -> Z -> Z -> Z -> sysret unit * W;
  sys_close : W -> Z -> W;
}.

(** accept(2): the connections waiting on a listening socket are taken in order; a failure takes
    none, and [EAGAIN] is for an empty queue. *)
Class AcceptLaws (W : Type) `{Sockets W} := {
  backlog : W -> Z -> list (Z * sockaddr_in);
  accept_ret : forall w fd x w', sys_accept4 w fd = (Ret x, w') -> backlog w fd = x :: backlog w' fd;
  accept_fail : forall w fd e w', sys_accept4 w fd = (Fail e, w') ->
    backlog w' fd = backlog w fd /\ (e = EAGAIN -> backlog w fd = []);
}.

(** A function that may call [abort]. *)
Inductive outcome (A : Type) :=
| Returns (a : A)
| Aborts.
Arguments Returns {A} a.
Arguments Aborts {A}.

(** ** Socket *)

Section Socket.
Context {W : Type} `{Sockets W}.

Record Socket := mkSocket { fd_ : Z }.

Definition Socket_destroy (s : Socket) (w : W) : W := if (0 <=? fd_ s)%Z then sys_close w (fd_ s) else w.

Definition bindAddress (s : Socket) (addr : sockaddr_in) (w : W) : outcome W :=
  match sys_bind w (fd_ s) addr with (Fail _, _) => Aborts | (Ret _, w) => Returns w end.

Definition listen (s : Socket) (w : W) : outcome W :=
  match sys_listen w (fd_ s) with (Fail _, _) => Aborts | (Ret _, w) => Returns w end.

(** The descriptor, or the error; [*peerAddr] is set on success. *)
Definition accept (s : Socket) (w : W) : sysret (Z * sockaddr_in) * W := sys_accept4 w (fd_ s).

(** A failure is logged. *)
Definition shutdownWrite (s : Socket) (w : W) : bool * W :=
  match sys_shutdown w (fd_ s) SHUT_WR with (Fail _, w) => (false, w) | (Ret _, w) => (true, w) end.

Definition opt (on : bool) : Z := if on then 1 else 0.
Definition setReuseAddr (s : Socket) (on : bool) (w : W) : W :=
  (sys_setsockopt w (fd_ s) SOL_SOCKET SO_REUSEADDR (opt on)).2.
Definition setReusePort (s : Socket) (on : bool) (w : W) : W :=
  (sys_setsockopt w (fd_ s) SOL_SOCKET SO_REUSEPORT (opt on)).2.
Definition setKeepAlive (s : Socket) (on : bool) (w : W) : W :=
  (sys_setsockopt w (fd_ s) SOL_SOCKET SO_KEEPALIVE (opt on)).2.
Definition setTcpNoDelay (s : Socket) (on : bool) (w : W) : W :=
  (sys_setsockopt w (fd_ s) IPPROTO_TCP TCP_NODELAY (opt on)).2.

(** ** TcpServer's listening socket *)

Definition createNonblockingSocket (w : W) : outcome (Z * W) :=
  match sys_socket w with (Fail _, _) => Aborts | (Ret fd, w) => Returns (fd, w) end.

(** A server with its listening socket and its accept channel. *)
Record Listener := mkListener {
  listenAddr_ : sockaddr_in;
  listenSocket_ : Socket;
  acceptChannel_ : Channel;
  core : TcpServer;
}.

Definition Listener_new (loop : loop_id) (listenAddr : sockaddr_in) (name : bytes) (w : W) :
    outcome (Listener * W) :=
  match createNonblockingSocket w with
  | Aborts => Aborts
  | Returns (fd, w) =>
      let s := mkSocket fd in
      let w := setReuseAddr s true w in
      let w := setReusePort s true w in
      Returns (mkListener listenAddr s (Channel_new fd) (TcpServer_new loop name), w)
  end.

(** [start]: bind, listen, then [acceptChannel_->enableReading()]. *)
Definition Listener_start (l : Listener) (w : W) : outcome (Listener * W) :=
  if started_ (core l) then Returns (l, w)
  else
    match bindAddress (listenSocket_ l) (listenAddr_ l) w with
    | Aborts => Aborts
    | Returns w =>
        match listen (listenSocket_ l) w with
        | Aborts => Aborts
        | Returns w =>
            let ch := acceptChannel_ l in
            Returns (mkListener (listenAddr_ l) (listenSocket_ l)
                       (set_events ch (new_events ch EnableReading)) (TcpServer.start (core l)), w)
        end
    end.

(** The loop of [handleNewConnection], with the error number that ends it. [None]: the fuel is
    used up. *)
Fixpoint accept_loop (fuel : nat) (l : Listener) (w : W) : option (Listener * W * Z) :=
  match fuel with
  | O => None
  | S fuel =>
      match accept (listenSocket_ l) w with
      | (Fail e, w) => Some (l, w, e)
      | (Ret (connfd, peerAddr), w) =>
          accept_loop fuel (mkListener (listenAddr_ l) (listenSocket_ l) (acceptChannel_ l)
                              (accept_one (core l) connfd)) w
      end
  end.

(** ** Theorems *)

(** The accept loop ends and takes the waiting connections in order: with as many turns as
    connections wait, and one more, it returns; the connections it took are the first of the
    queue, each now in the server's table as [handleNewConnection] adds them, and those it left
    are still queued; when it ended with [EAGAIN], none is left. *)
Theorem accept_loop_drains `{!AcceptLaws W} (l : Listener) (w : W) :
  let fd := fd_ (listenSocket_ l) in
  exists taken l' w' e,
    accept_loop (S (length (backlog w fd))) l w = Some (l', w', e) /\
    backlog w fd = taken ++ backlog w' fd /\
    core l' = handleNewConnection (core l) (map fst taken) /\
    (e = EAGAIN -> backlog w' fd = []).
Proof.
  cbn zeta. remember (backlog w (fd_ (listenSocket_ l))) as q eqn:Hq. revert l w Hq.
  induction q as [|x q IH]; intros l w Hq; cbn [length accept_loop]; unfold accept.
  - destruct (sys_accept4 w (fd_ (listenSocket_ l))) as [[e|x] w'] eqn:Ha.
    + destruct (accept_fail _ _ _ _ Ha) as [Hb He]. exists [], l, w', e.
      split; [done|]. split; [by rewrite Hb, <- Hq|]. split; [done|]. intros _. by rewrite Hb.
    + apply accept_ret in Ha. by rewrite Ha in Hq.
  - destruct (sys_accept4 w (fd_ (listenSocket_ l))) as [[e|[connfd peer]] w'] eqn:Ha.
    + destruct (accept_fail _ _ _ _ Ha) as [Hb He]. exists [], l, w', e.
      split; [done|]. split; [by rewrite Hb, <- Hq|]. split; [done|]. intros He'.
      by rewrite (He He') in Hq.
    + apply accept_ret in Ha. rewrite Ha in Hq. injection Hq as -> Hq.
      destruct (IH (mkListener (listenAddr_ l) (listenSocket_ l) (acceptChannel_ l)
                      (accept_one (core l) connfd)) w' Hq) as (taken & l' & w2 & e & Hl & Hb & Hc & He).
      exists ((connfd, peer) :: taken), l', w2, e. split; [exact Hl|].
      split; [cbn; by rewrite Hb|]. split; [exact Hc|exact He].
Qed.

(** A server that has started listens once: [start] returns only when the address was bound
    and the socket listens, with the accept channel waiting for [EPOLLIN]; a second [start]
    makes no system call and changes nothing. *)
Theorem start_listens (l l' : Listener) (w w' : W)
  (Hnew : started_ (core l) = false)
  (Hchan : acceptChannel_ l = Channel_new (fd_ (listenSocket_ l)))
  (Hstart : Listener_start l w = Returns (l', w')) :
  (exists w1, sys_bind w (fd_ (listenSocket_ l)) (listenAddr_ l) = (Ret tt, w1) /\
     sys_listen w1 (fd_ (listenSocket_ l)) = (Ret tt, w')) /\
  started_ (core l') = true /\ isReading (acceptChannel_ l') = true /\
  connections_ (core l') = connections_ (core l) /\
  forall w2, Listener_start l' w2 = Returns (l', w2).
Proof.
  unfold Listener_start, bindAddress, listen in Hstart. rewrite Hnew in Hstart.
  destruct (sys_bind w _ _) as [[e|[]] w1] eqn:Hb; [done|].
  destruct (sys_listen w1 _) as [[e|[]] w2] eqn:Hl; [done|]. injection Hstart as <- <-.
  split; [by exists w1|]. cbn [core acceptChannel_ TcpServer.start]. unfold TcpServer.start. rewrite Hnew.
  split; [done|]. split; [by rewrite Hchan|]. split; [done|]. intros w3. by unfold Listener_start.
Qed.

End Socket.

(** ** Witnesses *)

Module SocketSamples.

(** A kernel with one listening socket: the connections that wait, and the calls made. *)
Record kernel := mkKernel { queue : list (Z * sockaddr_in); calls : list Z }.

#[export] Instance kernel_sockets : Sockets kernel := {|
  sys_socket w := (Ret 3%Z, w);
  sys_bind w fd _ := (Ret tt, mkKernel (queue w) (calls w ++ [fd]));
  sys_listen w fd := (Ret tt, mkKernel (queue w) (calls w ++ [fd]));
  sys_accept4 w _ :=
    match queue w with
    | [] => (Fail EAGAIN, w)
    | x :: q => (Ret x, mkKernel q (calls w))
    end;
  sys_shutdown w _ _ := (Ret tt, w);
  sys_setsockopt w _ _ _ _ := (Ret tt, w);
  sys_close w _ := w;
|}.

#[export] Instance kernel_laws : AcceptLaws kernel.
Proof.
  refine {| backlog w _ := queue w |}.
  - intros [[|x q] c] fd y w' [= <- <-]. done.
  - intros [[|x q] c] fd e w' Hf; cbn in Hf; [|done]. injection Hf as <- <-. done.
Defined.

Definition addr : sockaddr_in := mkSockaddr AF_INET 0x901f 0.
Definition waiting_kernel : kernel := mkKernel [(7%Z, addr); (8%Z, addr)] [].
Definition listener : Listener := mkListener addr (mkSocket 3) (Channel_new 3) (TcpServer_new 0 (lit "s")).
Definition listening_ : Listener :=
  mkListener addr (mkSocket 3) (mkChannel_ 3 1 0) (TcpServer.start (TcpServer_new 0 (lit "s"))).

Lemma accept_loop_drains_witness :
  exists (taken : list (Z * sockaddr_in)) l' w' e,
    accept_loop 3 listening_ waiting_kernel = Some (l', w', e) /\
    map fst taken = [7%Z; 8%Z] /\ core l' = handleNewConnection (core listening_) (map fst taken).
Proof.
  destruct (accept_loop_drains listening_ waiting_kernel) as (taken & l' & w' & e & Hl & Hb & Hc & He).
  exists taken, l', w', e. split; [exact Hl|]. split; [|exact Hc].
  assert (He' : e = EAGAIN) by (vm_compute in Hl; injection Hl as _ _ <-; reflexivity).
  rewrite (He He') in Hb. rewrite app_nil_r in Hb. rewrite <- Hb. reflexivity.
Defined.

Lemma start_listens_witness :
  Listener_start listener waiting_kernel
  = Returns (listening_, mkKernel [(7%Z, addr); (8%Z, addr)] [3%Z; 3%Z]) /\
  isReading (acceptChannel_ listening_) = true.
Proof.
  assert (H : Listener_start listener waiting_kernel
    = Returns (listening_, mkKernel [(7%Z, addr); (8%Z, addr)] [3%Z; 3%Z])) by reflexivity.
  split; [exact H|].
  apply (start_listens listener listening_ waiting_kernel _ eq_refl eq_refl H).
Defined.

End SocketSamples.
