(* ===== verification/Pipeline.v ===== *)
(** [minirpc::RpcServer] at work (src/rpc/RpcServer.cpp over src/net/TcpConnection.cpp and
    src/thread/ThreadPool.cpp): its construction and start, and the path of a request from the
    bytes read on a loop thread, over the pool's queue and a worker, back through the functor that
    writes the reply. Loop threads, workers and the connections interleave freely. *)
From stdpp Require Import base list gmap strings numbers.
From Stdlib Require Import Ascii ZArith Lia.
From S2P Require Import Prelude Bytes Common Buffer Codec Controller Service RpcServer Inet.
From S2P Require Import RpcChannel System ThreadPool TcpServer Poller TcpConnection.

(** ** Requests in the pool *)

(** How far the task of a request is: not begun; in [conn->send] with the reply's frame, before
    the test of [state_]; past the test, about to queue the functor; returned. *)
Inductive progress :=
| Fresh
| Sending (frame : bytes)
| Queueing (frame : bytes)
| Returned.

(** The closure [[this, conn, msg] { handleRequest(conn, msg); }]. *)
Record Job := mkJob {
  job_conn : nat;
  job_msg : ProtocolMessage;
  job_at : progress;
}.

Definition advance (j : Job) (a : progress) : Job := mkJob (job_conn j) (job_msg j) a.

(** ** Construction and start *)

Section Start.
Context {SMsg St : Type}.

Record RpcServer := mkRpcServer {
  ioPool_ : option EventLoopPool.EventLoopPool;
  server_ : TcpServer.TcpServer;
  registry_ : ServiceRegistry SMsg St;
  pool_ : ThreadPool Job;
  poolThreads_ : nat;
}.

Definition RpcServer_new (loop : loop_id) (name : bytes) (ioThreads : nat) : RpcServer := {|
  ioPool_ := if 0 <? ioThreads then Some (EventLoopPool.EventLoopPool_new ioThreads) else None;
  server_ := TcpServer_new loop name;
  registry_ := ServiceRegistry_new;
  pool_ := ThreadPool_new;
  poolThreads_ := 4;
|}.

Definition setThreadPoolSize (s : RpcServer) (n : nat) : RpcServer :=
  mkRpcServer (ioPool_ s) (server_ s) (registry_ s) (pool_ s) n.

Definition addService_ (s : RpcServer) (service : option (Service SMsg St)) : result unit * RpcServer :=
  let '(r, reg) := registerService (registry_ s) service in
  (r, mkRpcServer (ioPool_ s) (server_ s) reg (pool_ s) (poolThreads_ s)).

(** [start]; [spawn i] is the loop of the [i]-th I/O thread. *)
Definition start (spawn : nat -> loop_id) (s : RpcServer) : RpcServer :=
  let '(io, srv) :=
    match ioPool_ s with
    | Some p =>
        let p := EventLoopPool.start spawn p in
        (Some p, setConnectionLoops (server_ s) (EventLoopPool.loops p))
    | None => (None, server_ s)
    end in
  let config := mkConfig kFixed (poolThreads_ s) (poolThreads_ s) 4096 in
  mkRpcServer io (TcpServer.start srv) (registry_ s) (ThreadPool.Start (pool_ s) config)
    (poolThreads_ s).

Lemma start_registry spawn s : registry_ (start spawn s) = registry_ s.
Proof. unfold start. by destruct (ioPool_ s). Qed.

(** A service is found when it is the one just registered, or was before. *)
Lemma registered_find s svc n :
  findService (registry_ s) (full_name svc) = None ->
  findService (registry_ (addService_ s (Some svc)).2) n =
  if decide (n = full_name svc) then Some svc else findService (registry_ s) n.
Proof.
  intros Hnew. unfold addService_, registerService, addService, findService in *. rewrite Hnew.
  cbn [snd registry_ services_]. rewrite lookup_insert.
  by case_decide; case_decide; subst.
Qed.
End Start.
Arguments RpcServer : clear implicits.

(** ** The running server *)

(** A connection and its loop's work for it: whether the loop is inside [onMessage], and the
    functors [send] queued, each with the request it answers. The rest records the past: the bytes
    read, the messages decoded, the replies [sendInLoop] accepted, the requests whose service
    method threw, and those whose reply came when the connection was no longer open. *)
Record Link := mkLink {
  tcp : TcpConnection;
  busy : bool;
  functors : list (ProtocolMessage * bytes);
  fed : bytes;
  seen : list ProtocolMessage;
  sent_ : list (ProtocolMessage * bytes);
  threw : list ProtocolMessage;
  late : list ProtocolMessage;
}.

Definition Link_new (fd : Z) : Link :=
  mkLink (connectEstablished (TcpConnection_new fd)) false [] [] [] [] [] [].

Definition set_tcp (l : Link) (c : TcpConnection) (b : bool) : Link :=
  mkLink c b (functors l) (fed l) (seen l) (sent_ l) (threw l) (late l).
Definition add_fed (l : Link) (d : bytes) : Link :=
  mkLink (tcp l) (busy l) (functors l) (fed l ++ d) (seen l) (sent_ l) (threw l) (late l).
Definition add_seen (l : Link) (m : ProtocolMessage) : Link :=
  mkLink (tcp l) (busy l) (functors l) (fed l) (seen l ++ [m]) (sent_ l) (threw l) (late l).
Definition add_sent (l : Link) (mf : ProtocolMessage * bytes) : Link :=
  mkLink (tcp l) (busy l) (functors l) (fed l) (seen l) (sent_ l ++ [mf]) (threw l) (late l).
Definition add_threw (l : Link) (m : ProtocolMessage) : Link :=
  mkLink (tcp l) (busy l) (functors l) (fed l) (seen l) (sent_ l) (threw l ++ [m]) (late l).
Definition add_late (l : Link) (m : ProtocolMessage) : Link :=
  mkLink (tcp l) (busy l) (functors l) (fed l) (seen l) (sent_ l) (threw l) (late l ++ [m]).
Definition set_functors (l : Link) (q : list (ProtocolMessage * bytes)) : Link :=
  mkLink (tcp l) (busy l) q (fed l) (seen l) (sent_ l) (threw l) (late l).

Section Pipeline.
Context (host : endian) `{Henv : EnvelopeLaws} {SMsg St : Type} (reg : ServiceRegistry SMsg St).

Record Server := mkServer {
  links : gmap nat Link;
  pool : ThreadPool Job;
  service : St;
}.

(** The server after [start], before any connection; the pool's [Start] goes on to create its
    threads. *)
Definition Server_start (s : RpcServer SMsg St) (st : St) : Server := mkServer ∅ (pool_ s) st.

Inductive server_step :=
| PAccept (c : nat) (fd : Z)
| PRead (c : nat) (o : read_outcome)
| PDecode (c : nat) (o : write_outcome)
| PPool (s : pool_step Job)
| PServe (w : nat)
| PTest (w : nat)
| PQueue (w : nat)
| PReturn (w : nat)
| PFunctor (c : nat) (o : write_outcome)
| PWritable (c : nat) (o : write_outcome)
| PClose (c : nat).

(** [handleRead]: the callback, [onMessage], follows when bytes were read. *)
Definition read_link (l : Link) (o : read_outcome) : Link :=
  let c := handleRead (tcp l) o id in
  match o with
  | ReadOk ((_ :: _) as d) => add_fed (set_tcp l c true) d
  | _ => set_tcp l c false
  end.

(** A reply [sendInLoop] gets on the loop thread. *)
Definition deliver (l : Link) (m : ProtocolMessage) (f : bytes) (o : write_outcome) : Link :=
  let l' := set_tcp l (sendInLoop (tcp l) f o) (busy l) in
  if bool_decide (state_ (tcp l) = kDisconnected) then add_late l' m else add_sent l' (m, f).

(** [sendError] on the loop thread, where [send] runs [sendInLoop] at once. *)
Definition refuse (l : Link) (m : ProtocolMessage) (e : exn) (o : write_outcome) : Link :=
  match sendError host [] (seq (header m)) kSystem (what e) with
  | f :: _ => if bool_decide (state_ (tcp l) = kConnected) then deliver l m f o else add_late l m
  | [] => l
  end.

(** One turn of the loop of [onMessage]. [submit] waits for the pool's mutex. *)
Definition decode_link (c : nat) (l : Link) (p : ThreadPool Job) (o : write_outcome) :
    option (Link * ThreadPool Job) :=
  match tryDecode host (inputBuffer_ (tcp l)) with
  | Throw _ => Some (set_tcp l (shutdown (tcp l)) false, p)
  | Ok (None, b) => Some (set_tcp l (set_input (tcp l) b) false, p)
  | Ok (Some m, b) =>
      let l := add_seen (set_tcp l (set_input (tcp l) b) true) m in
      if negb (is_request m) then Some (l, p)
      else match lock_ p with
           | Some _ => None
           | None => match submit p (mkJob c m Fresh) with
                     | (p, Ok _) => Some (l, p)
                     | (p, Throw e) => Some (refuse l m e o, p)
                     end
           end
  end.

(** The worker goes on within its task. *)
Definition progress_to (p : ThreadPool Job) (w : nat) (t : PrioritizedTask Job) (a : progress) :
    ThreadPool Job := set_worker p w (WRunning (mkTask (priority t) (advance (func t) a))).

(** The part of a task up to its call of [send]; the service method runs as one step. *)
Definition serve_job (s : Server) (w : nat) (t : PrioritizedTask Job) (l : Link) : Server :=
  let j := func t in
  match handleRequest host reg (service s) [] (job_msg j) with
  | (st, f :: _, Ok _) => mkServer (links s) (progress_to (pool s) w t (Sending f)) st
  | (st, _, _) =>
      mkServer (<[job_conn j := add_threw l (job_msg j)]> (links s))
        (progress_to (pool s) w t Returned) st
  end.

(** A step of the worker [w], inside its task. *)
Definition job_step (s : Server) (w : nat)
    (f : PrioritizedTask Job -> Link -> option Server) : option Server :=
  match running_at (pool s) w with
  | Some t => match links s !! job_conn (func t) with Some l => f t l | None => None end
  | None => None
  end.

(** A step of the loop of the connection [c], outside [onMessage]. *)
Definition loop_step (s : Server) (c : nat) (f : Link -> option Link) : option Server :=
  match links s !! c with
  | Some l =>
      if busy l then None
      else match f l with
           | Some l' => Some (mkServer (<[c := l']> (links s)) (pool s) (service s))
           | None => None
           end
  | None => None
  end.

(** [None]: not possible now. *)
Definition server_exec (s : Server) (st : server_step) : option Server :=
  match st with
  | PAccept c fd =>
      match links s !! c with
      | Some _ => None
      | None => Some (mkServer (<[c := Link_new fd]> (links s)) (pool s) (service s))
      end
  | PRead c o => loop_step s c (fun l => Some (read_link l o))
  | PDecode c o =>
      match links s !! c with
      | Some l =>
          if negb (busy l) then None
          else match decode_link c l (pool s) o with
               | Some (l', p') => Some (mkServer (<[c := l']> (links s)) p' (service s))
               | None => None
               end
      | None => None
      end
  | PPool ps =>
      if negb (internal ps) then None
      else match step (pool s) ps with
           | Some p => Some (mkServer (links s) p (service s))
           | None => None
           end
  | PServe w =>
      job_step s w (fun t l =>
        match job_at (func t) with Fresh => Some (serve_job s w t l) | _ => None end)
  | PTest w =>
      job_step s w (fun t l =>
        match job_at (func t) with
        | Sending f =>
            if bool_decide (state_ (tcp l) = kConnected)
            then Some (mkServer (links s) (progress_to (pool s) w t (Queueing f)) (service s))
            else Some (mkServer (<[job_conn (func t) := add_late l (job_msg (func t))]> (links s))
                         (progress_to (pool s) w t Returned) (service s))
        | _ => None
        end)
  | PQueue w =>
      job_step s w (fun t l =>
        match job_at (func t) with
        | Queueing f =>
            Some (mkServer (<[job_conn (func t) :=
                               set_functors l (functors l ++ [(job_msg (func t), f)])]> (links s))
                    (progress_to (pool s) w t Returned) (service s))
        | _ => None
        end)
  | PReturn w =>
      job_step s w (fun t l =>
        match job_at (func t) with
        | Returned =>
            match step (pool s) (WorkerFinish w) with
            | Some p => Some (mkServer (links s) p (service s))
            | None => None
            end
        | _ => None
        end)
  | PFunctor c o =>
      loop_step s c (fun l =>
        match functors l with
        | (m, f) :: q => Some (deliver (set_functors l q) m f o)
        | [] => None
        end)
  | PWritable c o => loop_step s c (fun l => Some (set_tcp l (handleWrite (tcp l) o) (busy l)))
  | PClose c => loop_step s c (fun l => Some (set_tcp l (handleClose (tcp l)) (busy l)))
  end.

(** ** Invariant *)

(** The requests of the connection [c] in the pool's hands whose outcome is still open. *)
Definition open_of (c : nat) (t : PrioritizedTask Job) : list ProtocolMessage :=
  if decide (job_conn (func t) = c) then
    match job_at (func t) with Returned => [] | _ => [job_msg (func t)] end
  else [].
Definition open (c : nat) (p : ThreadPool Job) : list ProtocolMessage := live_tasks p ≫= open_of c.

(** All the messages decoded, on any connection. *)
Definition all_seen (ls : gmap nat Link) : list ProtocolMessage :=
  map_to_list ls ≫= (fun kv => seen kv.2).

Context (st0 : St).

(** One connection: the messages decoded and those the buffer still holds are the frames of the
    bytes read; its output is the replies accepted; and every request decoded is in exactly one of
    the places a request can be, the last of which is [os]. *)
Record link_inv (all os : list ProtocolMessage) (l : Link) : Prop := {
  li_conn : conn_inv (tcp l);
  li_parse :
    parse_frames (fed l) =
    let '(ms, e, r) := parse_frames (contents (inputBuffer_ (tcp l))) in (seen l ++ ms, e, r);
  li_idle : busy l = false -> (parse_frames (contents (inputBuffer_ (tcp l)))).1.1 = [];
  li_stream : stream (tcp l) = concat (map snd (sent_ l));
  li_reply : Forall (fun mf => is_reply host reg st0 all mf.1 mf.2) (sent_ l ++ functors l);
  li_count :
    List.filter is_request (seen l) ≡ₚ
    map fst (sent_ l) ++ map fst (functors l) ++ threw l ++ late l ++ os;
  li_late : state_ (tcp l) = kConnected -> late l = [];
}.

(** A task of the pool answers a request decoded on its connection. *)
Definition job_ok (ls : gmap nat Link) (j : Job) : Prop :=
  (exists l, ls !! job_conn j = Some l /\ job_msg j ∈ seen l) /\ is_request (job_msg j) = true /\
  match job_at j with
  | Sending f | Queueing f => is_reply host reg st0 (all_seen ls) (job_msg j) f
  | _ => True
  end.

Record server_inv (s : Server) : Prop := {
  si_service : served host reg st0 (all_seen (links s)) (service s);
  si_link : forall c l, links s !! c = Some l -> link_inv (all_seen (links s)) (open c (pool s)) l;
  si_pool : pool_inv (pool s);
  si_job : forall t, t ∈ live_tasks (pool s) -> job_ok (links s) (func t);
}.

(** ** Lemmas *)

Lemma elem_all_seen ls m : m ∈ all_seen ls <-> exists c l, ls !! c = Some l /\ m ∈ seen l.
Proof.
  unfold all_seen. rewrite list_elem_of_bind. split.
  - intros ([c l] & Hm & Hl%elem_of_map_to_list). by exists c, l.
  - intros (c & l & Hl & Hm). exists (c, l). split; [done|]. by apply elem_of_map_to_list.
Qed.

Lemma all_seen_mono ls c l l' :
  ls !! c = Some l -> seen l ⊆ seen l' -> all_seen ls ⊆ all_seen (<[c := l']> ls).
Proof.
  intros Hl Hsub m (c1 & l1 & Hl1 & Hm)%elem_all_seen. apply elem_all_seen.
  destruct (decide (c1 = c)) as [->|Hne].
  - exists c, l'. rewrite lookup_insert_eq. split; [done|]. apply Hsub. by simplify_eq.
  - exists c1, l1. by rewrite lookup_insert_ne.
Qed.

Lemma all_seen_same ls c l l' :
  ls !! c = Some l -> seen l' = seen l -> all_seen ls ⊆ all_seen (<[c := l']> ls).
Proof. intros Hl Hs. eapply all_seen_mono; [exact Hl|by rewrite Hs]. Qed.

Lemma link_inv_mono all all' os os' l :
  all ⊆ all' -> os' ≡ₚ os -> link_inv all os l -> link_inv all' os' l.
Proof.
  intros Hsub Ho [H1 H2 Hd0 H3 H4 H5 H6]. split; try done.
  - eapply list.Forall_impl; [exact H4|]. intros mf. by apply is_reply_mono.
  - by rewrite Ho.
Qed.

Lemma job_ok_mono ls c l l' j :
  ls !! c = Some l -> seen l ⊆ seen l' -> job_ok ls j -> job_ok (<[c := l']> ls) j.
Proof.
  intros Hl Hsub ((l1 & Hl1 & Hm) & Hr & Ha). split; [|split; [done|]].
  - destruct (decide (job_conn j = c)) as [<-|Hne].
    + exists l'. rewrite lookup_insert_eq. split; [done|]. apply Hsub. by simplify_eq.
    + exists l1. by rewrite lookup_insert_ne.
  - destruct (job_at j); try done; (eapply is_reply_mono; [|exact Ha]); by eapply all_seen_mono.
Qed.

(** A step changes one connection, the pool's tasks of that connection, and the service. *)
Lemma inv_update s c l l' p' st' :
  server_inv s -> links s !! c = Some l -> seen l ⊆ seen l' ->
  let ls' := <[c := l']> (links s) in
  served host reg st0 (all_seen ls') st' -> link_inv (all_seen ls') (open c p') l' ->
  (forall c', c' <> c -> open c' p' ≡ₚ open c' (pool s)) -> pool_inv p' ->
  (forall t, t ∈ live_tasks p' -> t ∈ live_tasks (pool s) \/ job_ok ls' (func t)) ->
  server_inv (mkServer ls' p' st').
Proof.
  intros [Hsv Hli Hp Hj] Hl Hsub ls' Hsv' Hli' Ho Hp' Hj'. split; [done| |done|]; cbn [links pool].
  - intros c1 l1. unfold ls'. destruct (decide (c1 = c)) as [->|Hne].
    + rewrite lookup_insert_eq. by intros [= <-].
    + rewrite lookup_insert_ne by done. intros Hl1.
      eapply link_inv_mono; [by eapply all_seen_mono|by apply Ho|by apply Hli].
  - intros t Ht. destruct (Hj' t Ht) as [Hin|Hok]; [|done]. eapply job_ok_mono; eauto.
Qed.

(** The loop changes one connection, and nothing it decoded. *)
Lemma inv_link s c l l' :
  server_inv s -> links s !! c = Some l -> seen l' = seen l ->
  link_inv (all_seen (<[c := l']> (links s))) (open c (pool s)) l' ->
  server_inv (mkServer (<[c := l']> (links s)) (pool s) (service s)).
Proof.
  intros Hi Hl Hs Hli. eapply (inv_update s c l); try done; [by rewrite Hs| | |tauto].
  - eapply served_mono; [|apply Hi]. by eapply all_seen_same.
  - apply Hi.
Qed.

(** What a connection's calls do to its [link_inv]. *)
Lemma link_inv_exec all os l k b :
  link_inv all os l ->
  match k with CallSendInLoop _ _ | CallReadNothing _ => False | _ => True end ->
  (b = false -> (parse_frames (contents (inputBuffer_ (tcp l)))).1.1 = []) ->
  link_inv all os (set_tcp l (conn_exec (tcp l) k) b).
Proof.
  intros [H1 H2 Hd0 H3 H4 H5 H6] Hk Hb. destruct (conn_exec_spec (tcp l) k H1) as [Hi Hs].
  pose proof (exec_connected (tcp l) k H1) as Hst.
  assert (Hin : inputBuffer_ (conn_exec (tcp l) k) = inputBuffer_ (tcp l)).
  { destruct k; try done; cbn [conn_exec];
      unfold shutdown, shutdown_begin, shutdownInLoop, handleWrite, connectDestroyed;
      repeat case_match; done. }
  split; cbn [tcp busy fed seen sent_ functors threw late set_tcp]; try done.
  - by rewrite Hin.
  - by rewrite Hin.
  - rewrite Hs, H3. destruct k; try done; by rewrite app_nil_r.
  - auto.
Qed.
(** Bytes read. *)
Lemma link_inv_read all os l o :
  link_inv all os l -> busy l = false -> link_inv all os (read_link l o).
Proof.
  intros [H1 H2 Hd0 H3 H4 H5 H6] Hbusy. destruct (handleRead_spec (tcp l) o H1) as (Hi & Hs & _).
  pose proof (exec_connected (tcp l) (CallReadNothing o) H1) as Hst. cbn [conn_exec] in Hst.
  assert (Hin : contents (inputBuffer_ (handleRead (tcp l) o id)) =
    contents (inputBuffer_ (tcp l)) ++ match o with ReadOk d => d | _ => [] end).
  { unfold handleRead. destruct o as [en|d].
    - cbn [readFd]. rewrite app_nil_r. repeat case_match; done.
    - destruct (readFd_Ok_spec (inputBuffer_ (tcp l)) d (proj1 H1)) as [_ Hc].
      destruct (readFd (inputBuffer_ (tcp l)) (ReadOk d)) as [[n en] b]. cbn [snd] in Hc.
      repeat case_match; exact Hc. }
  unfold read_link. destruct o as [en|[|a d]].
  1, 2: rewrite app_nil_r in Hin; split; cbn [tcp busy fed seen sent_ functors threw late set_tcp];
    [done|by rewrite Hin|rewrite Hin; auto|by rewrite Hs|done|done|tauto].
  split; cbn [tcp busy fed seen sent_ functors threw late set_tcp add_fed];
    [done| |done|by rewrite Hs|done|done|tauto].
  rewrite Hin, (parse_frames_app (fed l)), H2, (parse_frames_app (contents _)).
  destruct (parse_frames (contents (inputBuffer_ (tcp l)))) as [[ms [e|]] r]; [done|].
  destruct (parse_frames (r ++ a :: d)) as [[ms' e'] r']. by rewrite <- app_assoc.
Qed.

(** A reply written or buffered, or dropped on a closed connection. *)
Lemma link_inv_deliver all os l m f o :
  link_inv all (m :: os) l -> is_reply host reg st0 all m f -> link_inv all os (deliver l m f o).
Proof.
  intros [H1 H2 Hd0 H3 H4 H5 H6] Hf. destruct (sendInLoop_spec (tcp l) f o H1) as (Hi & Hst & _ & Hs).
  assert (Hin : inputBuffer_ (sendInLoop (tcp l) f o) = inputBuffer_ (tcp l)).
  { unfold sendInLoop. repeat case_match; simplify_eq; done. }
  unfold deliver. destruct (bool_decide (state_ (tcp l) = kDisconnected)) eqn:Hd;
    split; cbn [tcp busy fed seen sent_ functors threw late set_tcp add_late add_sent];
    rewrite ?Hin, ?Hst; try assumption.
  - by rewrite Hs, H3, app_nil_r.
  - rewrite H5. solve_Permutation.
  - apply bool_decide_eq_true in Hd. congruence.
  - rewrite Hs, H3, map_app, concat_app. cbn. by rewrite app_nil_r.
  - apply Forall_app in H4 as [Ha Hb]. repeat (apply Forall_app; split); try done.
    by apply Forall_singleton.
  - rewrite H5, map_app. cbn [map fst]. solve_Permutation.
Qed.
(** The other places an open request moves to. *)
Lemma link_inv_late all os l m :
  link_inv all (m :: os) l -> state_ (tcp l) <> kConnected -> link_inv all os (add_late l m).
Proof.
  intros [H1 H2 Hd0 H3 H4 H5 H6] Hst. split; cbn [tcp busy fed seen sent_ functors threw late add_late]; try done.
  rewrite H5. solve_Permutation.
Qed.

Lemma link_inv_threw all os l m : link_inv all (m :: os) l -> link_inv all os (add_threw l m).
Proof.
  intros [H1 H2 Hd0 H3 H4 H5 H6]. split; cbn [tcp busy fed seen sent_ functors threw late add_threw]; try done.
  rewrite H5. solve_Permutation.
Qed.

Lemma link_inv_queue all os l m f :
  link_inv all (m :: os) l -> is_reply host reg st0 all m f ->
  link_inv all os (set_functors l (functors l ++ [(m, f)])).
Proof.
  intros [H1 H2 Hd0 H3 H4 H5 H6] Hf.
  split; cbn [tcp busy fed seen sent_ functors threw late set_functors]; try done.
  - rewrite app_assoc. apply Forall_app. split; [done|]. by apply Forall_singleton.
  - rewrite H5, map_app. cbn [map fst]. solve_Permutation.
Qed.

Lemma link_inv_unqueue all os l m f q :
  link_inv all os l -> functors l = (m, f) :: q ->
  link_inv all (m :: os) (set_functors l q) /\ is_reply host reg st0 all m f.
Proof.
  intros [H1 H2 Hd0 H3 H4 H5 H6] Hq. rewrite Hq in H4, H5. apply Forall_app in H4 as [Ha [Hf Hb]%Forall_cons_1].
  split; [|done]. split; cbn [tcp busy fed seen sent_ functors threw late set_functors]; try done.
  - by apply Forall_app.
  - rewrite H5. cbn [map fst]. solve_Permutation.
Qed.

(** A message decoded, or none. *)
Lemma link_inv_seen all os l m b :
  link_inv all os l -> wf b ->
  decode_spec (contents (inputBuffer_ (tcp l))) = Ok (Some m, contents b) ->
  link_inv all (if is_request m then m :: os else os)
    (add_seen (set_tcp l (set_input (tcp l) b) true) m).
Proof.
  intros [H1 H2 Hd0 H3 H4 H5 H6] Hw Hd.
  split; cbn [tcp busy fed seen sent_ functors threw late set_tcp add_seen set_input inputBuffer_]; try done.
  - destruct H1 as (_ & H1). by split.
  - rewrite H2, parse_frames_unfold, Hd. destruct (parse_frames (contents b)) as [[ms e] r].
    by rewrite <- app_assoc.
  - rewrite List.filter_app, H5. cbn [List.filter]. destruct (is_request m); [solve_Permutation|].
    by rewrite app_nil_r.
Qed.

Lemma link_inv_undecoded all os l b :
  link_inv all os l -> wf b -> contents b = contents (inputBuffer_ (tcp l)) ->
  (parse_frames (contents b)).1.1 = [] ->
  link_inv all os (set_tcp l (set_input (tcp l) b) false).
Proof.
  intros [H1 H2 Hd0 H3 H4 H5 H6] Hw Hc Hnone.
  split; cbn [tcp busy fed seen sent_ functors threw late set_tcp set_input inputBuffer_]; try done.
  - destruct H1 as (_ & H1). by split.
  - by rewrite Hc.
Qed.

Lemma link_inv_refuse all os l m e o :
  mkRpcResponse kSystem (what e) [] = refusal ->
  link_inv all (m :: os) l -> link_inv all os (refuse l m e o).
Proof.
  intros He Hl. unfold refuse. rewrite sendError_wire. cbn [app].
  case_bool_decide as Hst; [|by apply link_inv_late]. apply link_inv_deliver; [done|].
  eexists (mkRpcResponse kSystem (what e) []). split; [done|]. by right.
Qed.

(** *** The pool *)

(** A running task goes on. *)
Lemma inv_job s w t l l' a st' :
  server_inv s -> running_at (pool s) w = Some t -> links s !! job_conn (func t) = Some l ->
  seen l' = seen l -> served host reg st0 (all_seen (links s)) st' ->
  match a with
  | Sending f | Queueing f => is_reply host reg st0 (all_seen (links s)) (job_msg (func t)) f
  | _ => True
  end ->
  (forall os, link_inv (all_seen (links s)) (open_of (job_conn (func t)) t ++ os) l ->
    link_inv (all_seen (links s))
      (open_of (job_conn (func t)) (mkTask (priority t) (advance (func t) a)) ++ os) l') ->
  server_inv (mkServer (<[job_conn (func t) := l']> (links s)) (progress_to (pool s) w t a) st').
Proof.
  intros Hi Hw Hl Hs Hsv Ha Hos. destruct (live_running _ _ _ Hw) as (rest & Hp & Hp' & _).
  specialize (Hp' (mkTask (priority t) (advance (func t) a))).
  assert (Hmono := all_seen_mono (links s) _ l l' Hl ltac:(by rewrite Hs)).
  apply (inv_update s (job_conn (func t)) l); try done; [by rewrite Hs|by eapply served_mono| | | |].
  - eapply link_inv_mono; [exact Hmono| |apply (Hos (rest ≫= open_of (job_conn (func t))))].
    + unfold open. by rewrite Hp'.
    + eapply link_inv_mono; [done| |by apply (si_link s Hi)]. unfold open. by rewrite Hp.
  - intros c' Hne. unfold open. rewrite Hp, Hp'. cbn [mbind list_bind]. unfold open_of at 1 3.
    cbn [func advance job_conn]. by rewrite !decide_False by done.
  - apply (si_pool s Hi).
  - intros t'. rewrite Hp', Hp, !elem_of_cons. intros [->|Hin]; [right|by left; right].
    assert (Hj : job_ok (links s) (func t)) by (apply (si_job s Hi); rewrite Hp; apply elem_of_cons; by left).
    eapply job_ok_mono; [exact Hl|by rewrite Hs|]. destruct Hj as (Hseen & Hr & _). split; [done|].
    by split.
Qed.
Lemma pool_submit (p : ThreadPool Job) (j : Job) :
  pool_inv p ->
  match submit p j with
  | (p', Ok _) => pool_inv p' /\ live_tasks p' ≡ₚ mkTask kNormal j :: live_tasks p
  | (p', Throw e) => p' = p /\ mkRpcResponse kSystem (what e) [] = refusal
  end.
Proof.
  intros Hi. unfold submit, ThreadPool_pool. pose proof (enqueue_live p (mkTask kNormal j) Hi) as He.
  by destruct (enqueueTask p (mkTask kNormal j)) as [[] p'].
Qed.

(** *** The steps *)

(** One turn of [onMessage]. *)
Lemma decode_inv s c l l' p' o :
  server_inv s -> links s !! c = Some l -> decode_link c l (pool s) o = Some (l', p') ->
  server_inv (mkServer (<[c := l']> (links s)) p' (service s)).
Proof.
  intros Hi Hl. pose proof (si_link s Hi c l Hl) as Hli. unfold decode_link.
  pose proof (tryDecode_buffer host (inputBuffer_ (tcp l)) (proj1 (li_conn _ _ _ Hli))) as Hd.
  destruct (tryDecode host (inputBuffer_ (tcp l))) as [[[m|] b]|e].
  3: { intros [= <- <-]. eapply inv_link; try done. eapply link_inv_mono; [|done|].
       { by eapply all_seen_same. } apply (link_inv_exec _ _ l CallShutdown false); [done|done|].
       intros _. by rewrite parse_frames_unfold, Hd. }
  2: { destruct Hd as (Hd & Hw & Hb). intros [= <- <-]. eapply inv_link; try done.
       eapply link_inv_mono; [by eapply all_seen_same|done|]. apply link_inv_undecoded; [done|done|by rewrite Hb|].
       rewrite Hb by done. by rewrite parse_frames_unfold, Hd. }
  destruct Hd as (Hd & Hw & _). pose proof (link_inv_seen _ _ l m b Hli Hw Hd) as Hs.
  set (l1 := add_seen _ _) in *.
  assert (Hsub : seen l ⊆ seen l1) by (intros x Hx; apply elem_of_app; by left).
  assert (Hm : m ∈ seen l1) by (apply elem_of_app; right; by apply list_elem_of_singleton).
  assert (Hmono : forall l2, seen l2 = seen l1 -> all_seen (links s) ⊆ all_seen (<[c := l2]> (links s))).
  { intros l2 H2. eapply all_seen_mono; [done|by rewrite H2]. }
  assert (Hsame : forall l2, seen l2 = seen l1 ->
    link_inv (all_seen (links s)) (open c (pool s)) l2 ->
    server_inv (mkServer (<[c := l2]> (links s)) (pool s) (service s))).
  { intros l2 H2 Hl2. apply (inv_update s c l); try done; [by rewrite H2| | |apply Hi|tauto].
    - eapply served_mono; [by apply Hmono|apply Hi].
    - eapply link_inv_mono; [by apply Hmono|done|done]. }
  destruct (is_request m) eqn:Hr; cbn [negb]; [|by intros [= <- <-]; apply Hsame].
  destruct (lock_ (pool s)); [done|].
  pose proof (pool_submit (pool s) (mkJob c m Fresh) (si_pool s Hi)) as Hsub'.
  destruct (submit (pool s) (mkJob c m Fresh)) as [p1 [[]|e]].
  2: { destruct Hsub' as [-> He]. intros [= <- <-]. apply Hsame; [|by apply link_inv_refuse].
       unfold refuse, deliver. rewrite sendError_wire. cbn [app]. by repeat case_bool_decide. }
  destruct Hsub' as [Hi1 Hp1]. intros [= <- <-]. apply (inv_update s c l); try done.
  - eapply served_mono; [by apply Hmono|apply Hi].
  - eapply link_inv_mono; [by apply Hmono| |exact Hs]. unfold open. rewrite Hp1.
    cbn [mbind list_bind]. unfold open_of at 1. cbn [func job_conn job_at job_msg].
    by rewrite decide_True.
  - intros c' Hne. unfold open. rewrite Hp1. cbn [mbind list_bind]. unfold open_of at 1.
    cbn [func job_conn]. by rewrite decide_False by congruence.
  - intros t. rewrite Hp1, elem_of_cons. intros [->|Ht]; [right|by left]. split; [|done].
    exists l1. by rewrite lookup_insert_eq.
Qed.

(** A step of a loop. *)
Lemma loop_step_inv s c f s' :
  server_inv s -> loop_step s c f = Some s' ->
  (forall l l', links s !! c = Some l -> busy l = false -> f l = Some l' -> seen l' = seen l /\
     link_inv (all_seen (links s)) (open c (pool s)) l') ->
  server_inv s'.
Proof.
  intros Hi. unfold loop_step. destruct (links s !! c) as [l|] eqn:Hl; [|done].
  destruct (busy l) eqn:Hb; [done|]. destruct (f l) as [l'|] eqn:Hf; [|done]. intros [= <-] Hl'.
  destruct (Hl' l l' eq_refl Hb Hf) as [Hs Hli]. eapply inv_link; try done.
  eapply link_inv_mono; [|done|exact Hli]. by eapply all_seen_same.
Qed.

Lemma serve_inv s w t l :
  server_inv s -> running_at (pool s) w = Some t -> links s !! job_conn (func t) = Some l ->
  job_at (func t) = Fresh -> server_inv (serve_job s w t l).
Proof.
  intros Hi Hw Hl Ha. destruct (live_running _ _ _ Hw) as (rest & Hp & _ & _).
  assert (Hj : job_ok (links s) (func t)) by (apply (si_job s Hi); rewrite Hp; apply elem_of_cons; by left).
  destruct Hj as ((l0 & Hl0 & Hm) & Hr & _).
  assert (Hall : job_msg (func t) ∈ all_seen (links s)) by (apply elem_all_seen; eauto).
  unfold serve_job. pose proof (handleRequest_reply host reg (service s) [] (job_msg (func t))) as Hh.
  destruct (handleRequest host reg (service s) [] (job_msg (func t))) as [[st out] r] eqn:He.
  assert (Hsv : served host reg st0 (all_seen (links s)) st)
    by (eapply served_call; [apply Hi|exact Hall|exact Hr|exact He]).
  destruct r as [[]|e].
  - destruct Hh as (r & -> & Hrep). cbn [app].
    rewrite <- (insert_id (links s) _ _ Hl). cbn [links pool].
    apply (inv_job s w t l); try done.
    + exists r. split; [done|]. left. exists (service s), st. split; [apply Hi|done].
    + intros os. unfold open_of. cbn [func advance job_conn job_at job_msg]. by rewrite Ha.
  - subst out. apply (inv_job s w t l); try done. intros os. unfold open_of.
    cbn [func advance job_conn job_at job_msg]. rewrite !decide_True, Ha by done. apply link_inv_threw.
Qed.

(** The frame a running task is sending is its reply. *)
Lemma job_reply s w t f :
  server_inv s -> running_at (pool s) w = Some t ->
  job_at (func t) = Sending f \/ job_at (func t) = Queueing f ->
  is_reply host reg st0 (all_seen (links s)) (job_msg (func t)) f.
Proof.
  intros Hi Hw Ha. destruct (live_running _ _ _ Hw) as (rest & Hp & _ & _).
  destruct (si_job s Hi t) as (_ & _ & Hf); [rewrite Hp; apply elem_of_cons; by left|].
  by destruct Ha as [Ha|Ha]; rewrite Ha in Hf.
Qed.

(** The test of [send], and the functor it queues. *)
Lemma test_inv s w t l f s' :
  server_inv s -> running_at (pool s) w = Some t -> links s !! job_conn (func t) = Some l ->
  job_at (func t) = Sending f ->
  (if bool_decide (state_ (tcp l) = kConnected)
   then Some (mkServer (links s) (progress_to (pool s) w t (Queueing f)) (service s))
   else Some (mkServer (<[job_conn (func t) := add_late l (job_msg (func t))]> (links s))
                (progress_to (pool s) w t Returned) (service s))) = Some s' ->
  server_inv s'.
Proof.
  intros Hi Hw Hl Ha. pose proof (job_reply s w t f Hi Hw ltac:(by left)) as Hf.
  case_bool_decide as Hst; intros [= <-].
  - rewrite <- (insert_id (links s) _ _ Hl). cbn [links pool].
    apply (inv_job s w t l); try done; [apply Hi|]. intros os. unfold open_of.
    cbn [func advance job_conn job_at job_msg]. by rewrite Ha.
  - apply (inv_job s w t l); try done; [apply Hi|]. intros os. unfold open_of.
    cbn [func advance job_conn job_at job_msg]. rewrite !decide_True, Ha by done. intros Hos.
    by apply link_inv_late.
Qed.

Lemma queue_inv s w t l f :
  server_inv s -> running_at (pool s) w = Some t -> links s !! job_conn (func t) = Some l ->
  job_at (func t) = Queueing f ->
  server_inv (mkServer (<[job_conn (func t) :=
                           set_functors l (functors l ++ [(job_msg (func t), f)])]> (links s))
                (progress_to (pool s) w t Returned) (service s)).
Proof.
  intros Hi Hw Hl Ha. pose proof (job_reply s w t f Hi Hw ltac:(by right)) as Hf.
  apply (inv_job s w t l); try done; [apply Hi|]. intros os. unfold open_of.
  cbn [func advance job_conn job_at job_msg]. rewrite !decide_True, Ha by done. intros Hos.
  by apply link_inv_queue.
Qed.

(** Steps that leave the connections alone and, of the pool's tasks, only those whose request
    has its outcome. *)
Lemma pool_inv_tasks s p :
  server_inv s -> pool_inv p ->
  (exists gone, live_tasks (pool s) ≡ₚ gone ++ live_tasks p /\
     Forall (fun t => job_at (func t) = Returned) gone) ->
  server_inv (mkServer (links s) p (service s)).
Proof.
  intros Hi Hp (gone & Hg & Hret). split; cbn [links pool service]; [apply Hi| |done|].
  - intros c l Hl. eapply link_inv_mono; [done| |by apply (si_link s Hi)]. unfold open.
    assert (Hnil : gone ≫= open_of c = []).
    { clear Hg. induction Hret as [|t gone Ht _ IH]; [done|]. cbn [mbind list_bind]. unfold open_of at 1.
      rewrite Ht. change (list_bind _ _ (open_of c) gone) with (gone ≫= open_of c). rewrite IH.
      by destruct (decide _). }
    by rewrite Hg, bind_app, Hnil.
  - intros t Ht. apply (si_job s Hi). rewrite Hg. apply elem_of_app. by right.
Qed.

Lemma finish_inv s w t p :
  server_inv s -> running_at (pool s) w = Some t -> job_at (func t) = Returned ->
  step (pool s) (WorkerFinish w) = Some p -> server_inv (mkServer (links s) p (service s)).
Proof.
  intros Hi Hw Ha Hst. destruct (step_spec _ _ _ (si_pool s Hi) Hst) as [Hp _].
  apply pool_inv_tasks; [done|done|]. exists [t]. split; [|by constructor].
  destruct (live_running _ _ _ Hw) as (rest & Hr & _ & Hf). by rewrite Hr, (Hf p Hst).
Qed.

(** A new connection. *)
Lemma accept_inv s c fd :
  server_inv s -> links s !! c = None ->
  server_inv (mkServer (<[c := Link_new fd]> (links s)) (pool s) (service s)).
Proof.
  intros Hi Hn. assert (Hall : all_seen (<[c := Link_new fd]> (links s)) ≡ₚ all_seen (links s)).
  { unfold all_seen. by rewrite map_to_list_insert. }
  assert (Hsub : all_seen (links s) ⊆ all_seen (<[c := Link_new fd]> (links s)))
    by (intros m Hm; by rewrite Hall).
  assert (Hfresh : open c (pool s) = []).
  { apply elem_of_nil_inv. intros m (t & Hm & Ht)%list_elem_of_bind.
    destruct (si_job s Hi t Ht) as ((l & Hl & _) & _). unfold open_of in Hm.
    case_decide as Hc; [|by apply elem_of_nil in Hm]. rewrite Hc in Hl. congruence. }
  split; cbn [links pool service]; [|intros c' l|apply Hi|].
  - eapply served_mono; [exact Hsub|apply Hi].
  - destruct (decide (c' = c)) as [->|Hne].
    + rewrite lookup_insert_eq, Hfresh. intros [= <-]. split; try done. apply conn_inv_new.
    + rewrite lookup_insert_ne by done. intros Hl.
      eapply link_inv_mono; [exact Hsub|done|by apply (si_link s Hi)].
  - intros t Ht. destruct (si_job s Hi t Ht) as ((l & Hl & Hm) & Hr & Ha). split; [|split; [done|]].
    + exists l. rewrite lookup_insert_ne by congruence. done.
    + destruct (job_at (func t)); try done; by eapply is_reply_mono.
Qed.

Lemma server_exec_inv s st s' : server_inv s -> server_exec s st = Some s' -> server_inv s'.
Proof.
  intros Hi. destruct st as [c fd|c o|c o|ps|w|w|w|w|c o|c o|c]; cbn [server_exec].
  - destruct (links s !! c) as [|] eqn:Hl; [done|]. intros [= <-]. by apply accept_inv.
  - intros Hs. eapply loop_step_inv; [done|exact Hs|]. intros l l' Hl Hb [= <-]. split.
    + unfold read_link. by repeat case_match.
    + apply link_inv_read; [by apply Hi|done].
  - destruct (links s !! c) as [l|] eqn:Hl; [|done]. destruct (negb (busy l)); [done|].
    destruct (decode_link c l (pool s) o) as [[l' p']|] eqn:Hd; [|done]. intros [= <-].
    by eapply decode_inv.
  - destruct (internal ps) eqn:Hps; cbn [negb]; [|done].
    destruct (step (pool s) ps) as [p|] eqn:Hst; [|done]. intros [= <-].
    destruct (step_internal _ _ _ (si_pool s Hi) Hps Hst) as [Hp Ht].
    apply pool_inv_tasks; [done|done|]. exists []. by rewrite Ht.
  - unfold job_step. destruct (running_at (pool s) w) as [t|] eqn:Hw; [|done].
    destruct (links s !! job_conn (func t)) as [l|] eqn:Hl; [|done].
    destruct (job_at (func t)) eqn:Ha; try done. intros [= <-]. by apply serve_inv.
  - unfold job_step. destruct (running_at (pool s) w) as [t|] eqn:Hw; [|done].
    destruct (links s !! job_conn (func t)) as [l|] eqn:Hl; [|done].
    destruct (job_at (func t)) as [|f| |] eqn:Ha; try done. by apply test_inv.
  - unfold job_step. destruct (running_at (pool s) w) as [t|] eqn:Hw; [|done].
    destruct (links s !! job_conn (func t)) as [l|] eqn:Hl; [|done].
    destruct (job_at (func t)) as [| |f|] eqn:Ha; try done. intros [= <-]. by apply queue_inv.
  - unfold job_step. destruct (running_at (pool s) w) as [t|] eqn:Hw; [|done].
    destruct (links s !! job_conn (func t)) as [l|] eqn:Hl; [|done].
    destruct (job_at (func t)) as [| | |] eqn:Ha; try done.
    destruct (step (pool s) (WorkerFinish w)) as [p|] eqn:Hst; [|done]. intros [= <-].
    by eapply finish_inv.
  - intros Hs. eapply loop_step_inv; [done|exact Hs|]. intros l l' Hl Hb. cbn beta.
    destruct (functors l) as [|[m f] q] eqn:Hq; [done|]. intros [= <-]. split.
    + unfold deliver. by case_bool_decide.
    + destruct (link_inv_unqueue _ _ l m f q (si_link s Hi c l Hl) Hq). by apply link_inv_deliver.
  - intros Hs. eapply loop_step_inv; [done|exact Hs|]. intros l l' Hl Hb [= <-]. split; [done|].
    apply (link_inv_exec _ _ l (CallHandleWrite o)); [by apply Hi|done|].
    intros _. by apply (si_link s Hi c l Hl).
  - intros Hs. eapply loop_step_inv; [done|exact Hs|]. intros l l' Hl Hb [= <-]. split; [done|].
    apply (link_inv_exec _ _ l CallHandleClose); [by apply Hi|done|]. intros _. by apply (si_link s Hi c l Hl).
Qed.
Lemma server_start_inv p :
  pool_inv p -> live_tasks p = [] -> server_inv (mkServer ∅ p st0).
Proof.
  intros Hp Hl. split; cbn [links pool service]; [constructor| |done|].
  - intros c l. by rewrite lookup_empty.
  - rewrite Hl. by intros t ?%elem_of_nil.
Qed.

(** What the invariant says of one connection. *)
Lemma link_outcome s c l :
  server_inv s -> links s !! c = Some l ->
  stream (tcp l) = concat (map snd (sent_ l)) /\
  map fst (sent_ l) ⊆+ List.filter is_request (parse_frames (fed l)).1.1 /\
  replies host reg st0 (all_seen (links s)) (parse_frames (fed l)).1.1 (map snd (sent_ l)) /\
  (busy l = false -> functors l = [] -> live_tasks (pool s) = [] -> threw l = [] ->
   state_ (tcp l) = kConnected ->
   map fst (sent_ l) ≡ₚ List.filter is_request (parse_frames (fed l)).1.1).
Proof.
  intros Hi Hl. destruct (si_link s Hi c l Hl) as [H1 H2 Hd H3 H4 H5 H6]. split; [exact H3|].
  assert (Hpre : seen l `prefix_of` (parse_frames (fed l)).1.1).
  { rewrite H2. destruct (parse_frames (contents _)) as [[ms e] r]. by exists ms. }
  assert (Hsub : map fst (sent_ l) ⊆+ List.filter is_request (seen l)).
  { rewrite H5. by apply submseteq_inserts_r. }
  split; [|split].
  - destruct Hpre as [z ->]. rewrite List.filter_app. by apply submseteq_inserts_r.
  - apply Forall_app in H4 as [Ha _]. unfold replies. apply Forall_map.
    apply list.Forall_forall. intros [m f] Hin. rewrite list.Forall_forall in Ha.
    exists m. split; [|exact (Ha _ Hin)].
    assert (Hm : m ∈ List.filter is_request (seen l)).
    { eapply elem_of_submseteq; [|exact Hsub]. by apply (list_elem_of_fmap_2' fst _ (m, f)). }
    apply list_elem_of_In, filter_In in Hm as [Hm _]. apply list_elem_of_In in Hm.
    destruct Hpre as [z ->]. apply elem_of_app. by left.
  - intros Hb Hf Ht Hth Hst. rewrite H2. specialize (Hd Hb).
    destruct (parse_frames (contents _)) as [[ms e] r]. cbn [fst] in *. subst ms.
    unfold open in H5. rewrite app_nil_r, H5, Hf, Ht, Hth, (H6 Hst). cbn. by rewrite app_nil_r.
Qed.

End Pipeline.
Arguments Server : clear implicits.

(** ** Theorems *)

Section Theorems.
Context (client host : endian) `{EnvelopeLaws} {SMsg St : Type}.

(** A server constructed, given its services and the size of its pool. *)
Definition configured (loop : loop_id) (name : bytes) (ioThreads n : nat)
    (services : list (Service SMsg St)) : RpcServer SMsg St :=
  setThreadPoolSize
    (fold_left (fun s svc => (addService_ s (Some svc)).2) services (RpcServer_new loop name ioThreads)) n.

Lemma configured_pool loop name ioThreads n services :
  pool_ (configured loop name ioThreads n services) = ThreadPool_new.
Proof.
  unfold configured. cbn [pool_ setThreadPoolSize].
  assert (Hn : pool_ (RpcServer_new (SMsg := SMsg) (St := St) loop name ioThreads) = ThreadPool_new)
    by done.
  revert Hn. generalize (RpcServer_new (SMsg := SMsg) (St := St) loop name ioThreads).
  induction services as [|svc services IH]; intros s Hs; [done|]. cbn [fold_left]. apply IH.
  unfold addService_. by destruct (registerService (registry_ s) (Some svc)).
Qed.

(** The server of the theorems: configured, started, and run. *)
Context (loop : loop_id) (name : bytes) (ioThreads n : nat) (services : list (Service SMsg St)).
Context (spawn : nat -> loop_id) (st0 : St).
Abbreviation the_server := (configured loop name ioThreads n services).
Abbreviation the_registry := (registry_ the_server).
Abbreviation booted := (Server_start (start spawn the_server) st0).
Abbreviation run_server ss s := (booted =[ server_exec host the_registry | ss ]=> s).

Lemma run_server_inv ss s : run_server ss s -> server_inv host the_registry st0 s.
Proof.
  apply steps_inv; [apply server_exec_inv|]. apply server_start_inv.
  - unfold start. destruct (ioPool_ the_server); cbn [pool_]; rewrite configured_pool;
      (split; [done|]); split; cbn; lia.
  - unfold start. by destruct (ioPool_ the_server); cbn [pool_]; rewrite configured_pool.
Qed.

(** C4. Every request is answered at most once, on its own connection, and exactly once when the
    server is at rest: over any interleaving of the loop threads, the workers and the pool's own
    steps, with any number of connections and any segmentation and partial writes, what a
    connection has written and buffered is a sequence of reply frames, each the reply the
    specification defines for a request decoded on that connection, no request answered twice;
    and once nothing is left to decode, run or queue, no service method has thrown and the
    connection is still open, every request has its reply. *)
Theorem one_reply_per_request (ss : list server_step) (s : Server St) (c : nat) (l : Link)
  (Hrun : run_server ss s) (Hl : links s !! c = Some l) :
  written (tcp l) ++ contents (outputBuffer_ (tcp l)) = concat (map snd (sent_ l)) /\
  map fst (sent_ l) ⊆+ List.filter is_request (parse_frames (fed l)).1.1 /\
  replies host the_registry st0 (all_seen (links s)) (parse_frames (fed l)).1.1
    (map snd (sent_ l)) /\
  (busy l = false -> functors l = [] -> live_tasks (pool s) = [] -> threw l = [] ->
   state_ (tcp l) = kConnected ->
   map fst (sent_ l) ≡ₚ List.filter is_request (parse_frames (fed l)).1.1).
Proof. apply link_outcome with (c := c); [by apply (run_server_inv ss)|done]. Qed.

(** ** Calls against this server *)

Context {W : Type} `{Kernel W} `{!KernelTrace} {Msg : Type} (ParseFromString : bytes -> bool * Msg).

(** What the server wrote is what it accepted, as far as the kernel took it. *)
Lemma written_prefix s c l :
  server_inv host the_registry st0 s -> links s !! c = Some l ->
  written (tcp l) `prefix_of` concat (map snd (sent_ l)).
Proof. intros Hi Hl. destruct (link_outcome _ _ _ s c l Hi Hl) as [<- _]. by eexists. Qed.

(** C3. End to end: a client's call on an open session returns, and its controller has not
    failed; the server, after any interleaving of its threads and of its clients, has read a
    part of what this client sent, and the client a part of what the server wrote. Then the
    caller's response is parsed from the payload of the reply the specification [reply_for]
    defines for this method and these request bytes, in a state the services were in, with code
    [kOk]. No reply to another call, attempt or client is taken. *)
Theorem end_to_end (fuel : nat) (mname req : bytes) (d : option closure)
  (k k' : CallState (W := W) (Msg := Msg)) (ran : list closure)
  (ss : list server_step) (s : Server St) (c : nat) (l : Link)
  (Hses : session k)
  (Hmax : (0 <= maxRetries_ (chan k))%Z)
  (Hseq : (nextSeq_ (chan k) + maxRetries_ (chan k) < 2 ^ 64)%Z)
  (Hctrl : ctrl k <> NullController)
  (Hsize : (Z.of_nat (length (serializeRequest (mkRpcRequest mname req))) <= kMaxBodySize)%Z)
  (Hret : RpcChannel.CallMethod client ParseFromString fuel mname req d k = Some (ran, k'))
  (Hok : controllerFailed (ctrl k') = false)
  (Hrun : run_server ss s) (Hl : links s !! c = Some l)
  (Hfed : fed l `prefix_of` tx (world k'))
  (Hlimit : Forall (fun f => Z.of_nat (length f) <= Z.of_nat kHeaderSize + kMaxBodySize)%Z
              (map snd (sent_ l)))
  (Hgot : rx (world k') `prefix_of` written (tcp l)) :
  exists st1 st2 r, served host the_registry st0 (all_seen (links s)) st1 /\
    reply_for the_registry st1 (serializeRequest (mkRpcRequest mname req)) st2 r /\
    error_code r = kOk /\ ParseFromString (response r) = (true, resp k').
Proof.
  pose proof (run_server_inv ss s Hrun) as Hi. destruct (link_outcome _ _ _ s c l Hi Hl) as (_ & _ & Hrep & _).
  eapply (call_success_served client host ParseFromString the_registry fuel mname req d k k' ran);
    eauto. etrans; [exact Hgot|by apply (written_prefix s c)].
Qed.

(** C17. Errors reach the caller: under the same conditions, when the controller has failed with a
    code that no failure of the client itself has, the code is that of the reply the
    specification defines for this method and these request bytes, in a state the services were
    in, and the text is the reply's, or a fixed one when that is empty. *)
Theorem error_end_to_end (fuel : nat) (mname req : bytes) (d : option closure)
  (k k' : CallState (W := W) (Msg := Msg)) (ran : list closure) (e e' : RpcController)
  (ss : list server_step) (s : Server St) (c : nat) (l : Link)
  (Hses : session k)
  (Hmax : (0 <= maxRetries_ (chan k))%Z)
  (Hseq : (nextSeq_ (chan k) + maxRetries_ (chan k) < 2 ^ 64)%Z)
  (Hctrl : ctrl k = Mini e)
  (Hsize : (Z.of_nat (length (serializeRequest (mkRpcRequest mname req))) <= kMaxBodySize)%Z)
  (Hret : RpcChannel.CallMethod client ParseFromString fuel mname req d k = Some (ran, k'))
  (Hctrl' : ctrl k' = Mini e') (Hfail : Failed e' = true)
  (Hcode : errorCode e' ∉ [kTimeout; kClosed; kSystem; kUnknown])
  (Hrun : run_server ss s) (Hl : links s !! c = Some l)
  (Hfed : fed l `prefix_of` tx (world k'))
  (Hlimit : Forall (fun f => Z.of_nat (length f) <= Z.of_nat kHeaderSize + kMaxBodySize)%Z
              (map snd (sent_ l)))
  (Hgot : rx (world k') `prefix_of` written (tcp l)) :
  exists st1 st2 r, served host the_registry st0 (all_seen (links s)) st1 /\
    reply_for the_registry st1 (serializeRequest (mkRpcRequest mname req)) st2 r /\
    error_code r = errorCode e' /\ error_code r <> kOk /\
    ErrorText e' = (if decide (error_message r = []) then lit "rpc call failed"
                    else error_message r).
Proof.
  pose proof (run_server_inv ss s Hrun) as Hi. destruct (link_outcome _ _ _ s c l Hi Hl) as (_ & _ & Hrep & _).
  eapply (call_error_served client host ParseFromString the_registry fuel mname req d k k' ran);
    eauto. etrans; [exact Hgot|by apply (written_prefix s c)].
Qed.

End Theorems.

(** ** A call, end to end *)

Module Loop.
Import SampleEnvelope RpcServer.Samples.

(** A server with one service, no I/O loops and one worker. *)
Abbreviation sample_server := (configured 0 (lit "echo") 0 1 [sample_service]).
Definition sample_booted : Server nat := Server_start (start (fun i => i) sample_server) 0.

Import RpcChannel.Script.

(** The client's request arrives in two pieces; the reply leaves in two. *)
Definition request_bytes (req : bytes) : bytes :=
  wire (request_message 1 (serializeRequest (mkRpcRequest (lit "pkg.Echo.Echo") req))).
Definition exchange (req : bytes) : list server_step :=
  let q := request_bytes req in
  [PPool (CreateWorker 0); PPool (RegisterWorker 0); PAccept 5 9;
   PRead 5 (ReadOk (take 30 q)); PDecode 5 (WriteOk 0);
   PRead 5 (ReadOk (drop 30 q)); PDecode 5 (WriteOk 0); PDecode 5 (WriteOk 0);
   PPool (WorkerTop 0); PPool (WorkerTake 0 0); PServe 0; PTest 0; PQueue 0; PReturn 0;
   PFunctor 5 (WriteOk 10); PWritable 5 (WriteOk 1000)].

Definition server_after (req : bytes) : option (Server nat) :=
  steps (server_exec BigEndian (registry_ sample_server)) sample_booted (exchange req).
Definition final (req : bytes) : Server nat := default sample_booted (server_after req).
Definition link (req : bytes) : Link := default (Link_new 0) (links (final req) !! 5).
Definition out (req : bytes) : bytes := written (tcp (link req)).

Definition before (req : bytes) : state :=
  RpcChannel.Script.start [3%Z] [take 30 (out req); drop 30 (out req)].
Abbreviation call_with req s :=
  (RpcChannel.CallMethod LittleEndian raw 64 (lit "pkg.Echo.Echo") req (Some 7) s).
Definition after (req : bytes) : state := call_state (call_with req (before req)) (before req).

Lemma before_session req : session (before req).
Proof.
  split; [apply wf_new|]. split; [done|]. exists [], []. by repeat split.
Qed.

(** The run is one: it is enough to evaluate whether it gets through. *)
Lemma run_final req :
  (if server_after req then true else false) = true ->
  sample_booted =[ server_exec BigEndian (registry_ sample_server) | exchange req ]=> final req.
Proof. apply steps_default. Qed.

Lemma link_final req :
  (if links (final req) !! 5 then true else false) = true ->
  links (final req) !! 5 = Some (link req).
Proof. unfold link. by destruct (links (final req) !! 5). Qed.

Lemma frames_small (fs : list bytes) :
  forallb (fun f => Z.leb (Z.of_nat (length f)) (Z.of_nat kHeaderSize + kMaxBodySize)) fs = true ->
  Forall (fun f => Z.of_nat (length f) <= Z.of_nat kHeaderSize + kMaxBodySize)%Z fs.
Proof.
  intros Hb. apply list.Forall_forall. intros f Hf. apply Z.leb_le.
  exact (proj1 (forallb_forall _ fs) Hb f (proj1 (list_elem_of_In fs f) Hf)).
Qed.

Lemma one_reply_per_request_witness :
  links (final (lit "hi")) !! 5 = Some (link (lit "hi")) /\
  out (lit "hi") = wire (reply_message 1 (mkRpcResponse kOk [] (lit "hi"))) /\
  map fst (sent_ (link (lit "hi"))) ≡ₚ
    List.filter is_request (parse_frames (fed (link (lit "hi")))).1.1.
Proof.
  assert (Hrun : sample_booted =[ server_exec BigEndian (registry_ sample_server)
                                | exchange (lit "hi") ]=> final (lit "hi"))
    by (apply run_final; vm_compute; reflexivity).
  assert (Hl : links (final (lit "hi")) !! 5 = Some (link (lit "hi")))
    by (apply link_final; vm_compute; reflexivity).
  split; [exact Hl|]. split; [vm_compute; reflexivity|].
  apply (one_reply_per_request BigEndian 0 (lit "echo") 0 1 [sample_service] (fun i => i) 0
           (exchange (lit "hi")) (final (lit "hi")) 5 (link (lit "hi")) Hrun Hl);
    vm_compute; reflexivity.
Defined.

Lemma end_to_end_witness :
  call_with (lit "hi") (before (lit "hi")) = Some ([7], after (lit "hi")) /\
  resp (after (lit "hi")) = lit "hi" /\
  exists st1 st2 r,
    served BigEndian (registry_ sample_server) 0 (all_seen (links (final (lit "hi")))) st1 /\
    reply_for (registry_ sample_server) st1
      (serializeRequest (mkRpcRequest (lit "pkg.Echo.Echo") (lit "hi"))) st2 r /\
    error_code r = kOk /\ raw (response r) = (true, resp (after (lit "hi"))).
Proof.
  assert (Hret : call_with (lit "hi") (before (lit "hi")) = Some (done_list (Some 7), after (lit "hi")))
    by (vm_compute; reflexivity).
  assert (Hok : controllerFailed (ctrl (after (lit "hi"))) = false) by (vm_compute; reflexivity).
  assert (Hrun : sample_booted =[ server_exec BigEndian (registry_ sample_server)
                                | exchange (lit "hi") ]=> final (lit "hi"))
    by (apply run_final; vm_compute; reflexivity).
  assert (Hl : links (final (lit "hi")) !! 5 = Some (link (lit "hi")))
    by (apply link_final; vm_compute; reflexivity).
  assert (Hfed : fed (link (lit "hi")) = tx (world (after (lit "hi")))) by (vm_compute; reflexivity).
  assert (Hrx : rx (world (after (lit "hi"))) = written (tcp (link (lit "hi"))))
    by (vm_compute; reflexivity).
  assert (Hlim : Forall (fun f => Z.of_nat (length f) <= Z.of_nat kHeaderSize + kMaxBodySize)%Z
                   (map snd (sent_ (link (lit "hi"))))) by (apply frames_small; vm_compute; reflexivity).
  assert (Hsize : (Z.of_nat (length (serializeRequest (mkRpcRequest (lit "pkg.Echo.Echo")
                     (lit "hi")))) <= kMaxBodySize)%Z) by (vm_compute; discriminate).
  assert (Hctrl : ctrl (before (lit "hi")) <> NullController) by discriminate.
  split; [exact Hret|]. split; [vm_compute; reflexivity|].
  apply (end_to_end LittleEndian BigEndian 0 (lit "echo") 0 1 [sample_service] (fun i => i) 0 raw 64
           (lit "pkg.Echo.Echo") (lit "hi") (Some 7) (before (lit "hi")) (after (lit "hi"))
           (done_list (Some 7)) (exchange (lit "hi")) (final (lit "hi")) 5 (link (lit "hi"))
           (before_session _) Z.le_0_1 eq_refl Hctrl Hsize Hret Hok Hrun Hl).
  - rewrite Hfed. reflexivity.
  - exact Hlim.
  - rewrite Hrx. reflexivity.
Defined.

(** The method refuses an empty request. *)
Lemma error_end_to_end_witness :
  call_with [] (before []) = Some ([7], after []) /\
  ctrl (after []) = Mini (SetFailedCode RpcController_new kInvalidArgument (lit "empty")) /\
  exists st1 st2 r,
    served BigEndian (registry_ sample_server) 0 (all_seen (links (final []))) st1 /\
    reply_for (registry_ sample_server) st1
      (serializeRequest (mkRpcRequest (lit "pkg.Echo.Echo") [])) st2 r /\
    error_code r = kInvalidArgument.
Proof.
  assert (Hret : call_with [] (before []) = Some (done_list (Some 7), after []))
    by (vm_compute; reflexivity).
  assert (Hc : ctrl (after []) = Mini (SetFailedCode RpcController_new kInvalidArgument (lit "empty")))
    by (vm_compute; reflexivity).
  assert (Hrun : sample_booted =[ server_exec BigEndian (registry_ sample_server)
                                | exchange [] ]=> final [])
    by (apply run_final; vm_compute; reflexivity).
  assert (Hl : links (final []) !! 5 = Some (link []))
    by (apply link_final; vm_compute; reflexivity).
  assert (Hfed : fed (link []) = tx (world (after []))) by (vm_compute; reflexivity).
  assert (Hrx : rx (world (after [])) = written (tcp (link []))) by (vm_compute; reflexivity).
  assert (Hlim : Forall (fun f => Z.of_nat (length f) <= Z.of_nat kHeaderSize + kMaxBodySize)%Z
                   (map snd (sent_ (link [])))) by (apply frames_small; vm_compute; reflexivity).
  assert (Hsize : (Z.of_nat (length (serializeRequest (mkRpcRequest (lit "pkg.Echo.Echo") [])))
                   <= kMaxBodySize)%Z) by (vm_compute; discriminate).
  assert (Hcode : errorCode (SetFailedCode RpcController_new kInvalidArgument (lit "empty"))
    ∉ [kTimeout; kClosed; kSystem; kUnknown])
    by (apply (bool_decide_unpack _); vm_compute; exact I).
  split; [exact Hret|]. split; [exact Hc|].
  destruct (error_end_to_end LittleEndian BigEndian 0 (lit "echo") 0 1 [sample_service] (fun i => i) 0
           raw 64 (lit "pkg.Echo.Echo") [] (Some 7) (before []) (after []) (done_list (Some 7))
           RpcController_new _ (exchange []) (final []) 5 (link []) (before_session _)
           Z.le_0_1 eq_refl eq_refl Hsize Hret Hc eq_refl Hcode Hrun Hl)
    as (st1 & st2 & r & Hs & Hr & He & _).
  - rewrite Hfed. reflexivity.
  - exact Hlim.
  - rewrite Hrx. reflexivity.
  - exists st1, st2, r. split; [exact Hs|]. split; [exact Hr|exact He].
Defined.

End Loop.
