(* ===== verification/Serial.v ===== *)
(** The concurrent server refines a sequential one: whatever the interleaving of its threads and
    connections ([Pipeline]), its services and its replies are those of a server that handles the
    requests one after the other, each at most once. *)
From stdpp Require Import base list gmap strings numbers.
From Stdlib Require Import Ascii ZArith Lia.
From S2P Require Import Prelude Bytes Common Buffer Codec Controller Service RpcServer Inet.
From S2P Require Import RpcChannel System ThreadPool TcpServer Poller TcpConnection Pipeline.

(** ** The sequential server *)

(** A request from the connection [c] handled by its service, or refused by the pool. *)
Inductive event :=
| Served (c : nat) (m : ProtocolMessage)
| Refused (c : nat) (m : ProtocolMessage).

(** The requests of a connection in a history. *)
Definition event_on (c : nat) (e : event) : list ProtocolMessage :=
  match e with Served c' m | Refused c' m => if decide (c' = c) then [m] else [] end.
Definition events_on (c : nat) (h : list event) : list ProtocolMessage := h ≫= event_on c.

(** The replies for a connection in an output. *)
Definition output_on (c : nat) (o : nat * (ProtocolMessage * bytes)) : list (ProtocolMessage * bytes) :=
  if decide (o.1 = c) then [o.2] else [].
Definition outputs_on (c : nat) (os : list (nat * (ProtocolMessage * bytes))) :
    list (ProtocolMessage * bytes) := os ≫= output_on c.

Lemma events_on_app c h h' : events_on c (h ++ h') = events_on c h ++ events_on c h'.
Proof. apply bind_app. Qed.
Lemma outputs_on_app c os os' : outputs_on c (os ++ os') = outputs_on c os ++ outputs_on c os'.
Proof. apply bind_app. Qed.

Section Serial.
Context (host : endian) `{Henv : EnvelopeLaws} {SMsg St : Type} (reg : ServiceRegistry SMsg St).
Abbreviation server_exec := (server_exec host reg).

(** One request: the state of the services, and the reply, if the method did not throw. *)
Definition seq_step (st : St) (e : event) : St * list (nat * (ProtocolMessage * bytes)) :=
  match e with
  | Served c m =>
      match handleRequest host reg st [] m with
      | (st', f :: _, Ok _) => (st', [(c, (m, f))])
      | (st', _, _) => (st', [])
      end
  | Refused c m => (st, [(c, (m, wire (reply_message (seq (header m)) refusal)))])
  end.

Fixpoint replay (st : St) (h : list event) : St * list (nat * (ProtocolMessage * bytes)) :=
  match h with
  | [] => (st, [])
  | e :: h =>
      let '(st, o) := seq_step st e in
      let '(st, os) := replay st h in (st, o ++ os)
  end.

Lemma replay_app st h h' :
  replay st (h ++ h') =
  ((replay (replay st h).1 h').1, (replay st h).2 ++ (replay (replay st h).1 h').2).
Proof.
  revert st. induction h as [|e h IH]; intros st; cbn [app replay fst snd].
  { by destruct (replay st h'). }
  destruct (seq_step st e) as [st1 o]. rewrite IH. destruct (replay st1 h) as [st2 os]. cbn [fst snd].
  by rewrite app_assoc.
Qed.

(** ** The history of a run *)

(** What a step of the server contributes. *)
Definition event_of (s : Server St) (st : server_step) : list event :=
  match st with
  | PServe w =>
      match running_at (pool s) w with
      | Some t => [Served (job_conn (func t)) (job_msg (func t))]
      | None => []
      end
  | PDecode c _ =>
      match links s !! c with
      | Some l =>
          match tryDecode host (inputBuffer_ (tcp l)) with
          | Ok (Some m, _) =>
              if is_request m then
                match submit (pool s) (mkJob c m Fresh) with
                | (_, Throw _) => [Refused c m]
                | _ => []
                end
              else []
          | _ => []
          end
      | None => []
      end
  | _ => []
  end.

Fixpoint history (s : Server St) (ss : list server_step) : list event :=
  match ss with
  | [] => []
  | st :: ss =>
      event_of s st ++ match server_exec s st with Some s' => history s' ss | None => [] end
  end.

(** ** The ledger *)

(** The requests of a connection the pool holds and has not handled, and the replies its workers
    hold. *)
Definition fresh_of (c : nat) (t : PrioritizedTask Job) : list ProtocolMessage :=
  if decide (job_conn (func t) = c) then
    match job_at (func t) with Fresh => [job_msg (func t)] | _ => [] end
  else [].
Definition flight_of (c : nat) (t : PrioritizedTask Job) : list (ProtocolMessage * bytes) :=
  if decide (job_conn (func t) = c) then
    match job_at (func t) with Sending f | Queueing f => [(job_msg (func t), f)] | _ => [] end
  else [].
Definition fresh_jobs (c : nat) (p : ThreadPool Job) : list ProtocolMessage := live_tasks p ≫= fresh_of c.
Definition flight (c : nat) (p : ThreadPool Job) : list (ProtocolMessage * bytes) := live_tasks p ≫= flight_of c.

Context (st0 : St).

(** One connection against the history: the requests decoded are those in the history and those
    waiting; every reply, sent or on its way, is one of the sequential server's. *)
Definition link_ledger (h : list event) (p : ThreadPool Job) (c : nat) (l : Link) : Prop :=
  List.filter is_request (seen l) ≡ₚ events_on c h ++ fresh_jobs c p /\
  sent_ l ++ functors l ++ flight c p ⊆+ outputs_on c (replay st0 h).2.

Record ledger (h : list event) (s : Server St) : Prop := {
  lg_service : service s = (replay st0 h).1;
  lg_none : forall c, links s !! c = None -> events_on c h = [];
  lg_link : forall c l, links s !! c = Some l -> link_ledger h (pool s) c l;
}.

(** ** Lemmas *)

(** A connection whose records and tasks did not change. *)
Lemma link_ledger_same h ev p p' c l l' :
  link_ledger h p c l -> List.filter is_request (seen l') = List.filter is_request (seen l) ->
  sent_ l' ++ functors l' ⊆+ sent_ l ++ functors l ->
  fresh_jobs c p' ≡ₚ fresh_jobs c p -> flight c p' ≡ₚ flight c p -> events_on c ev = [] ->
  link_ledger (h ++ ev) p' c l'.
Proof.
  intros [H1 H2] Hs Hso Hf Hfl He. unfold link_ledger.
  rewrite events_on_app, He, app_nil_r, Hs, Hf, H1, replay_app. cbn [fst snd].
  rewrite outputs_on_app. split; [done|].
  apply submseteq_inserts_r. etrans; [|exact H2]. rewrite Hfl, !app_assoc. by apply submseteq_skips_r.
Qed.

(** A step that changes one connection, the pool, and the services. *)
Lemma ledger_update h ev s c l l' p' st' :
  ledger h s -> links s !! c = Some l ->
  (forall c', c' <> c -> fresh_jobs c' p' ≡ₚ fresh_jobs c' (pool s) /\
     flight c' p' ≡ₚ flight c' (pool s) /\ events_on c' ev = []) ->
  st' = (replay (service s) ev).1 -> link_ledger (h ++ ev) p' c l' ->
  ledger (h ++ ev) (mkServer (<[c := l']> (links s)) p' st').
Proof.
  intros [H1 H2 H3] Hl Hother -> Hc. split; cbn [service links pool].
  - by rewrite replay_app, H1.
  - intros c' [Hc' Hne]%lookup_insert_None. rewrite events_on_app, (H2 c' Hc').
    by destruct (Hother c') as (_ & _ & ->).
  - intros c' l1 [[<- <-]|[Hne Hl1]]%lookup_insert_Some; [done|].
    destruct (Hother c') as (Hf & Hfl & He); [done|]. by eapply link_ledger_same; [by apply H3|..].
Qed.

(** ... and only what the ledger does not look at. *)
Lemma ledger_link h s c l l' :
  ledger h s -> links s !! c = Some l -> List.filter is_request (seen l') = List.filter is_request (seen l) ->
  sent_ l' ++ functors l' ⊆+ sent_ l ++ functors l ->
  ledger h (mkServer (<[c := l']> (links s)) (pool s) (service s)).
Proof.
  intros Hg Hl Hs Hso. rewrite <- (app_nil_r h). apply (ledger_update h [] s c l); try done.
  eapply link_ledger_same; try done. by apply (lg_link h s Hg).
Qed.

Lemma ledger_tasks h s p :
  ledger h s -> (forall c, fresh_jobs c p ≡ₚ fresh_jobs c (pool s) /\ flight c p ≡ₚ flight c (pool s)) ->
  ledger h (mkServer (links s) p (service s)).
Proof.
  intros [H1 H2 H3] Ht. split; [done|done|]. cbn [links pool]. intros c l Hl. rewrite <- (app_nil_r h).
  destruct (Ht c). by eapply link_ledger_same; [by apply H3|..].
Qed.

(** Tasks in another order. *)
Lemma jobs_perm c p p' :
  live_tasks p' ≡ₚ live_tasks p -> fresh_jobs c p' ≡ₚ fresh_jobs c p /\ flight c p' ≡ₚ flight c p.
Proof. intros Ht. unfold fresh_jobs, flight. by rewrite Ht. Qed.


(** A task that goes on. *)
Lemma ledger_job h ev s w t l l' a st' :
  let c := job_conn (func t) in
  let t' := mkTask (priority t) (advance (func t) a) in
  ledger h s -> running_at (pool s) w = Some t -> links s !! c = Some l ->
  (forall c', c' <> c -> events_on c' ev = []) -> st' = (replay (service s) ev).1 ->
  (forall fr fl,
     List.filter is_request (seen l) ≡ₚ events_on c h ++ fresh_of c t ++ fr ->
     sent_ l ++ functors l ++ flight_of c t ++ fl ⊆+ outputs_on c (replay st0 h).2 ->
     List.filter is_request (seen l') ≡ₚ events_on c (h ++ ev) ++ fresh_of c t' ++ fr /\
     sent_ l' ++ functors l' ++ flight_of c t' ++ fl ⊆+ outputs_on c (replay st0 (h ++ ev)).2) ->
  ledger (h ++ ev) (mkServer (<[c := l']> (links s)) (progress_to (pool s) w t a) st').
Proof.
  cbn zeta. intros Hg Hw Hl He Hst Hparts. destruct (live_running _ _ _ Hw) as (rest & Hp & Hp' & _).
  specialize (Hp' (mkTask (priority t) (advance (func t) a))).
  assert (Hfr : forall c, fresh_jobs c (pool s) ≡ₚ fresh_of c t ++ (rest ≫= fresh_of c))
    by (intros c; unfold fresh_jobs; by rewrite Hp).
  assert (Hfl : forall c, flight c (pool s) ≡ₚ flight_of c t ++ (rest ≫= flight_of c))
    by (intros c; unfold flight; by rewrite Hp).
  apply (ledger_update h ev s _ l); [done|done| |done|].
  - intros c' Hne. split; [|split; [|by apply He]].
    + rewrite Hfr. unfold fresh_jobs. rewrite Hp'. cbn [mbind list_bind]. unfold fresh_of at 1 3.
      cbn [func advance job_conn]. by rewrite !decide_False by done.
    + rewrite Hfl. unfold flight. rewrite Hp'. cbn [mbind list_bind]. unfold flight_of at 1 3.
      cbn [func advance job_conn]. by rewrite !decide_False by done.
  - destruct (lg_link h s Hg _ l Hl) as [H1 H2]. rewrite Hfr in H1. rewrite Hfl in H2.
    destruct (Hparts _ _ H1 H2) as [K1 K2]. unfold link_ledger, fresh_jobs, flight. rewrite Hp'.
    by split.
Qed.

(** The service runs. *)
Lemma ledger_serve h s w t l :
  ledger h s -> running_at (pool s) w = Some t -> links s !! job_conn (func t) = Some l ->
  job_at (func t) = Fresh ->
  ledger (h ++ [Served (job_conn (func t)) (job_msg (func t))]) (serve_job host reg s w t l).
Proof.
  intros Hg Hw Hl Ha. set (c := job_conn (func t)). set (m := job_msg (func t)).
  assert (Hev : forall c', c' <> c -> events_on c' [Served c m] = []).
  { intros c' Hne. unfold events_on. cbn. by rewrite decide_False by done. }
  assert (Hself : events_on c [Served c m] = [m]) by (unfold events_on; cbn; by rewrite decide_True).
  assert (Hgo : forall st' out l' a,
    replay (service s) [Served c m] = (st', out) -> seen l' = seen l -> sent_ l' = sent_ l ->
    functors l' = functors l -> a <> Fresh ->
    outputs_on c out = flight_of c (mkTask (priority t) (advance (func t) a)) ->
    ledger (h ++ [Served c m]) (mkServer (<[c := l']> (links s)) (progress_to (pool s) w t a) st')).
  { intros st' out l' a Hr E1 E2 E3 Hna Hout. apply (ledger_job h [Served c m] s w t l l' a st');
      [done|done|done|done|by rewrite Hr|]. intros fr fl F1 F2.
    fold c in F1, F2 |- *. rewrite replay_app, <- (lg_service h s Hg), Hr. cbn [fst snd].
    rewrite events_on_app, outputs_on_app, Hself, E1, E2, E3, F1, Hout.
    unfold fresh_of. cbn [func advance job_conn job_at job_msg]. rewrite !decide_True, Ha by done.
    split; [destruct a; try done; cbn [app]; by rewrite <- app_assoc|].
    revert F2. unfold flight_of at 1. rewrite decide_True, Ha by done. cbn [app].
    intros F2. etrans; [|apply submseteq_skips_r, F2]. apply Permutation_submseteq. solve_Permutation. }
  unfold serve_job. cbn [replay seq_step] in Hgo. revert Hgo.
  destruct (handleRequest host reg (service s) [] _) as [[st' [|f out]] [u|e]]; intros Hgo.
  3: { rewrite <- (insert_id (links s) _ _ Hl). cbn [links pool].
       apply (Hgo st' [(c, (m, f))]); try done.
       unfold outputs_on, flight_of. cbn. unfold output_on. cbn. by rewrite !decide_True by done. }
  all: apply (Hgo st' []); try done; unfold flight_of; cbn; by rewrite decide_True.
Qed.

(** The test of [send], and the functor it queues. *)
Lemma ledger_send h s w t l l' a :
  ledger h s -> running_at (pool s) w = Some t -> links s !! job_conn (func t) = Some l ->
  job_at (func t) <> Fresh -> a <> Fresh -> seen l' = seen l -> sent_ l' = sent_ l ->
  functors l' ++ flight_of (job_conn (func t)) (mkTask (priority t) (advance (func t) a))
    ⊆+ functors l ++ flight_of (job_conn (func t)) t ->
  ledger h (mkServer (<[job_conn (func t) := l']> (links s)) (progress_to (pool s) w t a) (service s)).
Proof.
  intros Hg Hw Hl Ha Ha' E1 E2 Hsub. rewrite <- (app_nil_r h).
  apply (ledger_job h [] s w t l l' a); try done. intros fr fl F1 F2. rewrite app_nil_r, E1, E2.
  split.
  - rewrite F1. unfold fresh_of. cbn [func advance job_conn job_at]. rewrite !decide_True by done.
    destruct (job_at (func t)), a; done.
  - etrans; [|exact F2]. apply submseteq_skips_l. rewrite !app_assoc. by apply submseteq_skips_r.
Qed.

(** A turn of [onMessage]. *)
Lemma ledger_decode h s c l o l' p' :
  server_inv host reg st0 s -> ledger h s -> links s !! c = Some l ->
  decode_link host c l (pool s) o = Some (l', p') ->
  ledger (h ++ event_of s (PDecode c o)) (mkServer (<[c := l']> (links s)) p' (service s)).
Proof.
  intros Hi Hg Hl. unfold decode_link, event_of. rewrite Hl.
  pose proof (tryDecode_buffer host (inputBuffer_ (tcp l))
                (proj1 (li_conn _ _ _ _ _ _ (si_link _ _ _ s Hi c l Hl)))) as Hd.
  destruct (tryDecode host (inputBuffer_ (tcp l))) as [[[m|] b]|e].
  2, 3: intros [= <- <-]; rewrite app_nil_r; by apply (ledger_link h s c l).
  set (l1 := add_seen (set_tcp l (set_input (tcp l) b) true) m).
  assert (Hseen : List.filter is_request (seen l1) =
                  List.filter is_request (seen l) ++ if is_request m then [m] else []).
  { cbn [l1 add_seen seen set_tcp]. rewrite List.filter_app. cbn. by destruct (is_request m). }
  destruct (is_request m) eqn:Hr; cbn [negb].
  2: { intros [= <- <-]. rewrite app_nil_r. apply (ledger_link h s c l); [done|done| |done].
       by rewrite Hseen, app_nil_r. }
  destruct (lock_ (pool s)); [done|].
  pose proof (pool_submit (pool s) (mkJob c m Fresh) (si_pool _ _ _ s Hi)) as Hsub.
  destruct (lg_link h s Hg c l Hl) as [G1 G2].
  destruct (submit (pool s) (mkJob c m Fresh)) as [p1 [u|e]]; intros [= <- <-].
  - destruct Hsub as [_ Hp]. rewrite app_nil_r.
    assert (Hfr : forall c', fresh_jobs c' p1 ≡ₚ (if decide (c = c') then [m] else []) ++ fresh_jobs c' (pool s)).
    { intros c'. unfold fresh_jobs. rewrite Hp. cbn [mbind list_bind]. unfold fresh_of at 1.
      cbn [func job_conn job_at job_msg]. by destruct (decide (c = c')). }
    assert (Hfl : forall c', flight c' p1 ≡ₚ flight c' (pool s)).
    { intros c'. unfold flight. rewrite Hp. cbn [mbind list_bind]. unfold flight_of at 1.
      cbn [func job_conn job_at]. by destruct (decide (c = c')). }
    rewrite <- (app_nil_r h). apply (ledger_update h [] s c l); [done|done| |done|].
    + intros c' Hne. rewrite Hfr, decide_False, Hfl by done. done.
    + unfold link_ledger. rewrite app_nil_r, Hseen, Hfr, Hfl, G1, decide_True by done.
      split; [solve_Permutation|exact G2].
  - destruct Hsub as [-> He].
    assert (Hev : events_on c [Refused c m] = [m]) by (unfold events_on; cbn; by rewrite decide_True).
    apply (ledger_update h [Refused c m] s c l); [done|done| |done|].
    + intros c' Hne. split; [done|]. split; [done|]. unfold events_on. cbn. by rewrite decide_False.
    + unfold link_ledger. rewrite events_on_app, Hev, replay_app. cbn [replay seq_step fst snd app].
      rewrite outputs_on_app. unfold outputs_on at 2. cbn [mbind list_bind]. unfold output_on at 1.
      cbn [fst snd]. rewrite decide_True by done. unfold refuse. rewrite sendError_wire, He. cbn [app].
      assert (Hs1 : List.filter is_request (seen l1) ≡ₚ (events_on c h ++ [m]) ++ fresh_jobs c (pool s)).
      { rewrite Hseen, G1. solve_Permutation. }
      fold l1. unfold deliver. repeat case_bool_decide; cbn [set_tcp add_late add_sent seen sent_ functors l1 add_seen];
        (split; [exact Hs1|]); [by apply submseteq_inserts_r| |by apply submseteq_inserts_r].
      etrans; [|apply submseteq_skips_r, G2]. apply Permutation_submseteq. solve_Permutation.
Qed.

(** A new connection. *)
Lemma ledger_accept h s c fd :
  server_inv host reg st0 s -> ledger h s -> links s !! c = None ->
  ledger h (mkServer (<[c := Link_new fd]> (links s)) (pool s) (service s)).
Proof.
  intros Hi [H1 H2 H3] Hc.
  assert (Hnone : forall t, t ∈ live_tasks (pool s) -> job_conn (func t) <> c).
  { intros t Ht Heq. destruct (si_job _ _ _ s Hi t Ht) as ((l & Hl & _) & _). congruence. }
  assert (Hfr : fresh_jobs c (pool s) = []).
  { apply elem_of_nil_inv. intros m (t & Hm & Ht)%list_elem_of_bind. unfold fresh_of in Hm.
    rewrite decide_False in Hm by (by apply Hnone). by apply elem_of_nil in Hm. }
  assert (Hfl : flight c (pool s) = []).
  { apply elem_of_nil_inv. intros m (t & Hm & Ht)%list_elem_of_bind. unfold flight_of in Hm.
    rewrite decide_False in Hm by (by apply Hnone). by apply elem_of_nil in Hm. }
  split; cbn [service links pool]; [done| |].
  - intros c' [Hc' _]%lookup_insert_None. by apply H2.
  - intros c' l [[<- <-]|[_ Hl]]%lookup_insert_Some; [|by apply H3]. unfold link_ledger.
    rewrite Hfr, Hfl, (H2 c Hc). split; [done|]. apply submseteq_nil_l.
Qed.

(** A step of a loop that leaves the ledger alone. *)
Lemma ledger_loop h s c f s' :
  ledger h s -> loop_step s c f = Some s' ->
  (forall l l', f l = Some l' -> seen l' = seen l /\ sent_ l' ++ functors l' ⊆+ sent_ l ++ functors l) ->
  ledger h s'.
Proof.
  intros Hg. unfold loop_step. destruct (links s !! c) as [l|] eqn:Hl; [|done].
  destruct (busy l); [done|]. destruct (f l) as [l'|] eqn:Hf; [|done]. intros [= <-] Hsame.
  destruct (Hsame l l' Hf) as [E1 E2]. apply (ledger_link h s c l); [done|done| |done]. by rewrite E1.
Qed.

(** A thread of the pool is done with a job whose reply is on its way. *)
Lemma ledger_finish h s w t p :
  ledger h s -> running_at (pool s) w = Some t -> job_at (func t) = Returned ->
  step (pool s) (WorkerFinish w) = Some p -> ledger h (mkServer (links s) p (service s)).
Proof.
  intros Hg Hw Ha Hst. destruct (live_running _ _ _ Hw) as (rest & Hr & _ & Hf). specialize (Hf p Hst).
  apply ledger_tasks; [done|]. intros c. unfold fresh_jobs, flight. rewrite Hf, Hr. cbn [mbind list_bind].
  unfold fresh_of at 2, flight_of at 2. rewrite Ha. by destruct (decide _).
Qed.

Lemma ledger_exec h s st s' :
  server_inv host reg st0 s -> ledger h s -> server_exec s st = Some s' -> ledger (h ++ event_of s st) s'.
Proof.
  intros Hi Hg. destruct st as [c fd|c o|c o|ps|w|w|w|w|c o|c o|c]; cbn [Pipeline.server_exec].
  3: { destruct (links s !! c) as [l|] eqn:Hl; [|done]. destruct (negb (busy l)); [done|].
       destruct (decode_link _ _ _ _ _) as [[l' p']|] eqn:Hd; [|done]. intros [= <-].
       by apply (ledger_decode h s c l o). }
  4: { unfold job_step, event_of. destruct (running_at (pool s) w) as [t|] eqn:Hw; [|done].
       destruct (links s !! job_conn (func t)) as [l|] eqn:Hl; [|done].
       destruct (job_at (func t)) eqn:Ha; try done. intros [= <-]. by apply ledger_serve. }
  all: cbn [event_of]; rewrite app_nil_r; unfold job_step.
  - destruct (links s !! c) eqn:Hl; [done|]. intros [= <-]. by apply ledger_accept.
  - intros Hs. eapply ledger_loop; [exact Hg|exact Hs|]. intros l l' [= <-].
    unfold read_link. by repeat case_match.
  - destruct (internal ps) eqn:Hps; cbn [negb]; [|done].
    destruct (step (pool s) ps) as [p|] eqn:Hst; [|done]. intros [= <-].
    destruct (step_internal _ _ _ (si_pool _ _ _ s Hi) Hps Hst) as [_ Ht].
    apply ledger_tasks; [done|]. intros c. by apply jobs_perm.
  - destruct (running_at (pool s) w) as [t|] eqn:Hw; [|done].
    destruct (links s !! job_conn (func t)) as [l|] eqn:Hl; [|done].
    destruct (job_at (func t)) as [|f| |] eqn:Ha; try done.
    case_bool_decide; intros [= <-]; [rewrite <- (insert_id (links s) _ _ Hl)|];
      (eapply ledger_send; try done; [by rewrite Ha|]); unfold flight_of;
      cbn [func advance job_conn job_at job_msg add_late functors]; rewrite !decide_True, Ha by done; [done|].
    by apply submseteq_app, submseteq_nil_l.
  - destruct (running_at (pool s) w) as [t|] eqn:Hw; [|done].
    destruct (links s !! job_conn (func t)) as [l|] eqn:Hl; [|done].
    destruct (job_at (func t)) as [| |f|] eqn:Ha; try done. intros [= <-].
    eapply ledger_send; try done; [by rewrite Ha|]. unfold flight_of.
    cbn [func advance job_conn job_at job_msg set_functors functors]. rewrite !decide_True, Ha by done.
    by rewrite app_nil_r.
  - destruct (running_at (pool s) w) as [t|] eqn:Hw; [|done].
    destruct (links s !! job_conn (func t)) as [l|] eqn:Hl; [|done].
    destruct (job_at (func t)) eqn:Ha; try done.
    destruct (step (pool s) (WorkerFinish w)) as [p|] eqn:Hst; [|done]. intros [= <-].
    by eapply ledger_finish.
  - intros Hs. eapply ledger_loop; [exact Hg|exact Hs|]. intros l l'. cbn beta.
    destruct (functors l) as [|[m f] q] eqn:Hq; [done|]. intros [= <-]. unfold deliver.
    case_bool_decide; cbn [set_tcp set_functors add_late add_sent seen sent_ functors]; (split; [done|]).
    + apply submseteq_skips_l. by apply submseteq_cons.
    + by rewrite <- app_assoc.
  - intros Hs. eapply ledger_loop; [exact Hg|exact Hs|]. by intros l l' [= <-].
  - intros Hs. eapply ledger_loop; [exact Hg|exact Hs|]. by intros l l' [= <-].
Qed.
End Serial.

(** ** Theorems *)

Section Theorems.
Context (host : endian) `{EnvelopeLaws} {SMsg St : Type}.
Context (loop : loop_id) (name : bytes) (ioThreads n : nat) (services : list (Service SMsg St)).
Context (spawn : nat -> loop_id) (st0 : St).
Abbreviation the_server := (configured loop name ioThreads n services).
Abbreviation the_registry := (registry_ the_server).
Abbreviation booted := (Server_start (start spawn the_server) st0).
Abbreviation exec := (server_exec host the_registry).
Abbreviation history := (history host the_registry).
Abbreviation replay := (replay host the_registry).

Lemma run_ledger h ss s s' :
  server_inv host the_registry st0 s -> ledger host the_registry st0 h s -> s =[ exec | ss ]=> s' ->
  ledger host the_registry st0 (h ++ history s ss) s'.
Proof.
  revert h s. induction ss as [|st ss IH]; intros h s Hi Hg; cbn [steps Serial.history].
  { intros [= <-]. by rewrite app_nil_r. }
  destruct (exec s st) as [s1|] eqn:Hs; [|done]. intros Hrun. rewrite app_assoc.
  apply IH; [by eapply server_exec_inv|by apply ledger_exec|done].
Qed.

Lemma booted_ledger : ledger host the_registry st0 [] booted.
Proof.
  split; [done|done|]. cbn [links Server_start]. intros c l. by rewrite lookup_empty.
Qed.

(** What a connection shows of a history. *)
Definition accounted (h : list event) (s : Server St) : Prop :=
  service s = (replay st0 h).1 /\
  forall c l, links s !! c = Some l ->
    events_on c h ⊆+ List.filter is_request (parse_frames (fed l)).1.1 /\
    sent_ l ⊆+ outputs_on c (replay st0 h).2 /\
    written (tcp l) `prefix_of` concat (map snd (sent_ l)) /\
    (busy l = false -> live_tasks (pool s) = [] ->
     events_on c h ≡ₚ List.filter is_request (parse_frames (fed l)).1.1).

Lemma ledger_accounted h s :
  server_inv host the_registry st0 s -> ledger host the_registry st0 h s -> accounted h s.
Proof.
  intros Hi Hg. split; [by apply lg_service|]. intros c l Hl.
  destruct (lg_link _ _ _ h s Hg c l Hl) as [G1 G2].
  destruct (si_link _ _ _ s Hi c l Hl) as [L1 L2 L3 L4 _ _ _].
  assert (Hpre : List.filter is_request (seen l) ⊆+ List.filter is_request (parse_frames (fed l)).1.1).
  { rewrite L2. destruct (parse_frames (contents _)) as [[ms e] r]. cbn [fst].
    rewrite List.filter_app. by apply submseteq_inserts_r. }
  split; [|split; [|split]].
  - etrans; [|exact Hpre]. rewrite G1. by apply submseteq_inserts_r.
  - etrans; [|exact G2]. by apply submseteq_inserts_r.
  - rewrite <- L4. unfold stream. by eexists.
  - intros Hb Ht. unfold fresh_jobs in G1. rewrite Ht, app_nil_r in G1. rewrite <- G1, L2.
    specialize (L3 Hb). destruct (parse_frames (contents _)) as [[ms e] r]. cbn [fst] in *. subst ms.
    by rewrite app_nil_r.
Qed.

(** C2. The server is linearizable: for any interleaving of its threads and connections there is
    one order of the requests, each of them at most once, such that the state of the services is
    that of a server that handles them one after the other in this order, and every reply sent is
    that server's reply to the request; the order at a later time extends the order at an earlier
    one; and when a connection's input is decoded and the pool is idle, all its requests are in
    it. *)
Theorem server_linearizes (ss1 ss2 : list server_step) (s1 s2 : Server St)
  (Hrun1 : booted =[ exec | ss1 ]=> s1) (Hrun2 : s1 =[ exec | ss2 ]=> s2) :
  accounted (history booted ss1) s1 /\
  accounted (history booted ss1 ++ history s1 ss2) s2.
Proof.
  pose proof (run_server_inv host loop name ioThreads n services spawn st0 ss1 s1 Hrun1) as Hi1.
  assert (Hi2 : server_inv host the_registry st0 s2).
  { refine (steps_inv exec (server_inv host the_registry st0) s1 ss2 s2 _ Hi1 Hrun2).
    intros a st b. apply server_exec_inv. }
  pose proof (run_ledger [] ss1 booted s1) as Hg1. cbn [app] in Hg1.
  assert (Hi0 : server_inv host the_registry st0 booted).
  { by apply (run_server_inv host loop name ioThreads n services spawn st0 []). }
  specialize (Hg1 Hi0 booted_ledger Hrun1). split; [by apply ledger_accounted|].
  apply ledger_accounted; [done|]. by apply run_ledger.
Qed.
End Theorems.

(** ** Witnesses *)

Module SerialSamples.
Import SampleEnvelope RpcServer.Samples Pipeline.Loop.

Lemma server_linearizes_witness :
  history BigEndian (registry_ sample_server) sample_booted (exchange (lit "hi"))
    = [Served 5 (received (request_message 1 (serializeRequest (mkRpcRequest (lit "pkg.Echo.Echo") (lit "hi")))))] /\
  service (final (lit "hi")) = 1 /\
  accounted BigEndian 0 (lit "echo") 0 1 [sample_service] 0
    (history BigEndian (registry_ sample_server) sample_booted (exchange (lit "hi"))) (final (lit "hi")).
Proof.
  assert (Hrun : sample_booted =[ server_exec BigEndian (registry_ sample_server)
                                | exchange (lit "hi") ]=> final (lit "hi"))
    by (apply run_final; vm_compute; reflexivity).
  split; [vm_compute; reflexivity|]. split; [vm_compute; reflexivity|].
  exact (proj1 (server_linearizes BigEndian 0 (lit "echo") 0 1 [sample_service] (fun i => i) 0
                  (exchange (lit "hi")) [] _ _ Hrun eq_refl)).
Defined.

End SerialSamples.
