(* ===== verification/Progress.v ===== *)
(** Progress of the running server: the pool does not sleep on work, the server's own steps come to
    an end, and where they end every request has its reply ([Pipeline] over [ThreadPool]). *)
From stdpp Require Import base list gmap strings numbers.
From Stdlib Require Import Ascii ZArith Lia.
From S2P Require Import Prelude Bytes Common Buffer Codec Controller Service RpcServer Inet.
From S2P Require Import RpcChannel System ThreadPool TcpServer Poller TcpConnection Pipeline.

(** ** Sums over maps *)

Section Weight.
Context {K A : Type} `{Countable K}.
Implicit Type m : gmap K A.

Definition weight (f : A -> nat) (m : gmap K A) : nat :=
  sum_list_with (fun kv => f kv.2) (map_to_list m).

Lemma weight_new (f : A -> nat) m k v :
  m !! k = None -> weight f (<[k := v]> m) = f v + weight f m.
Proof. intros Hk. unfold weight. by rewrite map_to_list_insert. Qed.

Lemma weight_delete (f : A -> nat) m k v :
  m !! k = Some v -> weight f m = f v + weight f (delete k m).
Proof.
  intros Hk. rewrite <- (insert_delete_id m k v Hk) at 1. apply weight_new.
  by rewrite lookup_delete_eq.
Qed.

Lemma weight_set (f : A -> nat) m k v v' :
  m !! k = Some v -> weight f (<[k := v']> m) + f v = weight f m + f v'.
Proof.
  intros Hk. rewrite (weight_delete f m k v Hk), <- insert_delete_eq, weight_new; [lia|].
  by rewrite lookup_delete_eq.
Qed.

Lemma weight_fmap (f : A -> nat) (g : A -> A) m n :
  (forall v, f (g v) <= f v + n) -> weight f (g <$> m) <= weight f m + n * size m.
Proof.
  intros Hg. unfold weight. rewrite map_to_list_fmap, <- length_map_to_list.
  induction (map_to_list m) as [|[k v] l IH]; cbn; [lia|]. specialize (Hg v). cbn in *. lia.
Qed.
End Weight.

(** ** The pool does not sleep on work *)

Section Pool.
Context {Task : Type}.
Implicit Type p : ThreadPool Task.

(** A fixed pool that has not been told to stop: its threads are those counted; the mutex is held
    only by a worker about to block; and a worker blocks, or is about to, only while nothing
    waits. *)
Record awake p : Prop := {
  aw_running : isRunning_ p = true;
  aw_fixed : mode_ p = kFixed;
  aw_size : taskQueueSize_ p = length (taskQueue_ p);
  aw_count : size (workers p) = currentThreadCount_ p;
  aw_bound : currentThreadCount_ p <= maxThreadCount_ p;
  aw_lock : forall w, lock_ p = Some w -> workers p !! w = Some (WAboutToBlock false);
  aw_held : forall w timed, workers p !! w = Some (WAboutToBlock timed) -> lock_ p = Some w;
  aw_asleep : forall w timed, workers p !! w = Some (WBlocked timed) \/
                workers p !! w = Some (WAboutToBlock timed) -> taskQueue_ p = [] /\ timed = false;
  aw_present : forall w s, workers p !! w = Some s -> s <> WExiting /\ s <> WGone;
}.

Definition stops (s : pool_step Task) : bool := match s with DtorStop => true | _ => false end.

(** One worker moves to a position in which it neither blocks nor leaves. *)
Definition busy_worker (s : worker Task) : Prop :=
  match s with WTop | WWantLock | WRunning _ => True | _ => False end.

Lemma awake_set_worker p w s s' :
  awake p -> workers p !! w = Some s -> s <> WAboutToBlock false -> busy_worker s' ->
  awake (set_worker p w s').
Proof.
  intros Ha Hw Hs Hs'. assert (Hne : forall t, s <> WAboutToBlock t).
  { intros t ->. apply Hs. f_equal. by destruct (aw_asleep p Ha w t (or_intror Hw)). }
  split; try apply Ha; cbn [workers set_worker lock_ taskQueue_ currentThreadCount_].
  - rewrite map_size_insert_Some by eauto. apply Ha.
  - intros w' Hl. pose proof (aw_lock p Ha w' Hl) as H'. destruct (decide (w' = w)) as [->|];
      [congruence|by rewrite lookup_insert_ne].
  - intros w' t. rewrite lookup_insert_Some. intros [[_ ->]|[_ H']]; [done|by eapply aw_held].
  - intros w' t. rewrite !lookup_insert_Some. intros [[[_ ->]|[_ H']]|[[_ ->]|[_ H']]]; try done;
      eapply aw_asleep; eauto.
  - intros w' s0. rewrite lookup_insert_Some. intros [[_ <-]|[_ H']]; [by destruct s'|].
    by eapply aw_present.
Qed.

(** The counters of idle threads, the registered threads and the past do not matter. *)
Lemma awake_same p p' :
  awake p -> isRunning_ p' = isRunning_ p -> mode_ p' = mode_ p ->
  taskQueueSize_ p' = taskQueueSize_ p -> taskQueue_ p' = taskQueue_ p ->
  currentThreadCount_ p' = currentThreadCount_ p -> maxThreadCount_ p' = maxThreadCount_ p ->
  lock_ p' = lock_ p -> workers p' = workers p -> awake p'.
Proof.
  intros [H1 H2 H3 H4 H5 H6 H7 H8 H9] E1 E2 E3 E4 E5 E6 E7 E8.
  split; rewrite ?E1, ?E2, ?E3, ?E4, ?E5, ?E6, ?E7, ?E8; done.
Qed.

Definition woken (s : worker Task) : worker Task :=
  match s with WBlocked _ => WWantLock | _ => s end.

Lemma woken_inv (ws : gmap nat (worker Task)) w s :
  (woken <$> ws) !! w = Some s ->
  (forall t, s <> WBlocked t) /\ (ws !! w = Some s \/ exists t, ws !! w = Some (WBlocked t) /\ s = WWantLock).
Proof.
  rewrite lookup_fmap. destruct (ws !! w) as [s0|]; [|done]. cbn. intros [= <-].
  destruct s0; cbn; split; try done; eauto.
Qed.

Lemma awake_notify p : awake p -> awake (notify_all p).
Proof.
  intros Ha. split; try apply Ha; cbn [workers notify_all lock_ taskQueue_ currentThreadCount_];
    fold woken.
  - rewrite map_size_fmap. apply Ha.
  - intros w Hl. rewrite lookup_fmap. by rewrite (aw_lock p Ha w Hl).
  - intros w t [_ [Hw|(t' & _ & [=])]]%woken_inv. by eapply aw_held.
  - intros w t [[Hno _]%woken_inv|[_ [Hw|(t' & _ & [=])]]%woken_inv]; [by destruct (Hno t)|].
    eapply aw_asleep; eauto.
  - intros w s [_ [Hw|(t' & _ & ->)]]%woken_inv; [by eapply aw_present|done].
Qed.

(** A task is queued while no worker sleeps or is about to. *)
Lemma awake_enqueue p t p' :
  awake p -> lock_ p = None -> enqueueTask p t = (true, p') -> awake p'.
Proof.
  intros Ha Hl. unfold enqueueTask. rewrite (aw_running p Ha). cbn [negb]. rewrite orb_false_r.
  destruct (Nat.ltb_spec (taskQueueSize_ p) (maxTaskQueueSize_ p)); [|done]. intros [= <-].
  pose proof (awake_notify p Ha) as Hn.
  assert (Hno : forall w s, (woken <$> workers p) !! w = Some s -> busy_worker s).
  { intros w s Hw. destruct (woken_inv _ _ _ Hw) as [Hnb [Hs|(t' & _ & ->)]]; [|done].
    pose proof (aw_present p Ha w s Hs) as [He Hg]. destruct s; try done; [|by destruct (Hnb timed)].
    apply (aw_held p Ha) in Hs. congruence. }
  split; try apply Hn; cbn [workers notify_all set_queue lock_ taskQueue_ taskQueueSize_
    currentThreadCount_]; fold woken.
  - rewrite length_app, (aw_size p Ha). cbn. lia.
  - intros w s [Hw|Hw]; by apply Hno in Hw.
Qed.

Lemma awake_take p w i t :
  awake p -> workers p !! w = Some WWantLock -> taskQueue_ p !! i = Some t ->
  awake (set_worker (set_queue p (idleThreadCount_ p - 1) (Nat.pred (taskQueueSize_ p))
                       (delete i (taskQueue_ p))) w (WRunning t)).
Proof.
  intros Ha Hw Hi. apply (awake_set_worker _ w WWantLock); [|done|done|done].
  split; try apply Ha; cbn [set_queue taskQueue_ taskQueueSize_ workers].
  - rewrite (aw_size p Ha), length_delete by eauto. apply lookup_lt_Some in Hi. lia.
  - intros w' tm H'. destruct (aw_asleep p Ha w' tm H') as [Hq ->]. by rewrite Hq in Hi.
Qed.

Lemma awake_block p w :
  awake p -> workers p !! w = Some (WAboutToBlock false) ->
  awake (set_lock (set_worker p w (WBlocked false)) None).
Proof.
  intros Ha Hw. assert (Hl : lock_ p = Some w) by (by eapply aw_held).
  assert (Hother : forall w' t, w' <> w -> workers p !! w' <> Some (WAboutToBlock t)).
  { intros w' t Hne H'. apply (aw_held p Ha) in H'. congruence. }
  split; try apply Ha; cbn [set_lock set_worker workers lock_ taskQueue_ currentThreadCount_].
  - rewrite map_size_insert_Some by eauto. apply Ha.
  - done.
  - intros w' t. rewrite lookup_insert_Some. intros [[_ [=]]|[Hne H']]. by destruct (Hother w' t).
  - intros w' t. rewrite !lookup_insert_Some.
    intros [[[<- [= <-]]|[_ H']]|[[_ [=]]|[Hne H']]]; [|by eapply aw_asleep; eauto|].
    + by apply (aw_asleep p Ha w); auto.
    + by destruct (Hother w' t).
  - intros w' s. rewrite lookup_insert_Some. intros [[_ <-]|[_ H']]; [done|by eapply aw_present].
Qed.

Lemma awake_test p w :
  awake p -> workers p !! w = Some WWantLock -> lock_ p = None -> taskQueueSize_ p = 0 ->
  awake (set_lock (set_worker p w (WAboutToBlock (timed_wait p))) (Some w)).
Proof.
  intros Ha Hw Hl Hz. assert (Ht : timed_wait p = false) by (unfold timed_wait; by rewrite (aw_fixed p Ha)).
  assert (Hq : taskQueue_ p = []) by (apply nil_length_inv; by rewrite <- (aw_size p Ha)).
  rewrite Ht. split; try apply Ha; cbn [set_lock set_worker workers lock_ taskQueue_ currentThreadCount_].
  - rewrite map_size_insert_Some by eauto. apply Ha.
  - intros w' [= <-]. by rewrite lookup_insert_eq.
  - intros w' t. rewrite lookup_insert_Some. intros [[-> _]|[_ H']]; [done|].
    apply (aw_held p Ha) in H'. congruence.
  - intros w' t. rewrite !lookup_insert_Some. rewrite Hq.
    intros [[[_ [=]]|[_ H']]|[[_ [= <-]]|[_ H']]]; split; try done; eapply aw_asleep; eauto.
  - intros w' s. rewrite lookup_insert_Some. intros [[_ <-]|[_ H']]; [done|by eapply aw_present].
Qed.

Lemma awake_create p w :
  awake p -> workers p !! w = None -> currentThreadCount_ p < maxThreadCount_ p ->
  awake (CreateThread p w).
Proof.
  intros Ha Hw Hlt. unfold CreateThread. destruct (Nat.leb_spec (maxThreadCount_ p) (currentThreadCount_ p));
    [lia|]. split; try apply Ha; cbn [set_worker set_threads workers lock_ taskQueue_ currentThreadCount_ maxThreadCount_].
  - rewrite map_size_insert_None by done. f_equal. apply Ha.
  - lia.
  - intros w' Hl. rewrite lookup_insert_ne; [by apply Ha|]. intros ->.
    apply (aw_lock p Ha) in Hl. congruence.
  - intros w' t. rewrite lookup_insert_Some. intros [[_ [=]]|[_ H']]. by eapply aw_held.
  - intros w' t. rewrite !lookup_insert_Some. intros [[[_ [=]]|[_ H']]|[[_ [=]]|[_ H']]];
      eapply aw_asleep; eauto.
  - intros w' s. rewrite lookup_insert_Some. intros [[_ <-]|[_ H']]; [done|by eapply aw_present].
Qed.

(** Every step but the destructor's keeps the pool awake. *)
Lemma awake_step p s p' : awake p -> stops s = false -> step p s = Some p' -> awake p'.
Proof.
  intros Ha. destruct s as [t|w|w|w|w|w|w i|w|w|w|w| |]; cbn [step stops]; intros Hs.
  - destruct (lock_ p) eqn:Hl; [done|]. destruct (enqueueTask p t) as [[] p1] eqn:He; [|done].
    intros [= <-]. by eapply awake_enqueue.
  - destruct (workers p !! w) eqn:Hw; [done|].
    destruct (Nat.leb_spec (maxThreadCount_ p) (currentThreadCount_ p)); [done|]. intros [= <-].
    by apply awake_create.
  - destruct (workers p !! w); [|done]. intros [= <-]. by apply (awake_same p).
  - destruct (workers p !! w) as [[]|] eqn:Hw; try done. intros [= <-]. rewrite (aw_running p Ha).
    by apply (awake_set_worker p w WTop).
  - destruct (workers p !! w) as [[]|] eqn:Hw; try done. destruct (lock_ p) eqn:Hl; [done|].
    rewrite (aw_running p Ha). destruct (Nat.eqb_spec (taskQueueSize_ p) 0); [|done]. intros [= <-].
    by apply awake_test.
  - destruct (workers p !! w) as [[]|] eqn:Hw; try done. intros [= <-].
    destruct (aw_asleep p Ha w timed (or_intror Hw)) as [_ ->]. by apply awake_block.
  - destruct (workers p !! w) as [[]|] eqn:Hw; try done. destruct (lock_ p); [done|].
    destruct (taskQueue_ p !! i) as [t|] eqn:Hq; [|done]. destruct (_ && _); [|done]. intros [= <-].
    by apply awake_take.
  - destruct (workers p !! w) as [[]|] eqn:Hw; try done. intros [= <-].
    by eapply (awake_set_worker p w).
  - destruct (workers p !! w) as [[| | |[]| | |]|] eqn:Hw; try done.
    by destruct (aw_asleep p Ha w true (or_introl Hw)).
  - destruct (workers p !! w) as [[]|] eqn:Hw; try done. intros [= <-].
    apply (awake_same (set_worker p w WTop)); try done. by eapply (awake_set_worker p w).
  - destruct (workers p !! w) as [[]|] eqn:Hw; try done. by destruct (aw_present p Ha w _ Hw).
  - done.
  - intros [= <-]. by apply awake_notify.
Qed.

Lemma awake_start n q : awake (Start ThreadPool_new (mkConfig kFixed n n q)).
Proof. split; cbn; try done; try lia; intros w s; rewrite lookup_empty; naive_solver. Qed.
End Pool.

(** ** The server's own steps *)

(** The steps of the server's threads towards a reply; the others are the peers' and the kernel's
    (new connections, bytes read, sockets writable or closed), spurious wakeups, and the
    destructor's. *)
Definition productive (st : server_step) : bool :=
  match st with
  | PDecode _ _ | PServe _ | PTest _ | PQueue _ | PReturn _ | PFunctor _ _ => true
  | PPool (CreateWorker _ | WorkerTop _ | WorkerTest _ | WorkerBlock _ | WorkerTake _ _) => true
  | _ => false
  end.

(** Steps that come to pass on their own when the sockets take what is written: the productive ones
    and the sending of buffered output, without a write error. *)
Definition calm (st : server_step) : bool :=
  match st with
  | PDecode _ (WriteOk _) | PFunctor _ (WriteOk _) | PWritable _ (WriteOk _) => true
  | PDecode _ _ | PFunctor _ _ => false
  | st => productive st
  end.

(** The server's destructor has not begun. *)
Definition destroys (st : server_step) : bool :=
  match st with PPool s => stops s | _ => false end.

Section Server.
Context (host : endian) `{Henv : EnvelopeLaws} {SMsg St : Type} (reg : ServiceRegistry SMsg St).
Abbreviation server_exec := (server_exec host reg).

Lemma awake_progress (p : ThreadPool Job) w t a :
  awake p -> running_at p w = Some t -> awake (progress_to p w t a).
Proof.
  intros Ha. unfold running_at. destruct (workers p !! w) as [[]|] eqn:Hw; try done.
  intros _. by eapply (awake_set_worker p w).
Qed.

Lemma awake_decode c l p o l' p' : awake p -> decode_link host c l p o = Some (l', p') -> awake p'.
Proof.
  intros Ha. unfold decode_link. destruct (tryDecode host _) as [[[m|] b]|e]; [|by intros [= _ <-]..].
  destruct (negb (is_request m)); [by intros [= _ <-]|]. destruct (lock_ p) eqn:Hl; [done|].
  unfold submit, ThreadPool_pool. destruct (enqueueTask p _) as [[] p1] eqn:He; intros [= _ <-].
  - by eapply awake_enqueue.
  - revert He. unfold enqueueTask. by repeat case_match; intros [= <-].
Qed.

Lemma awake_exec s st s' :
  awake (pool s) -> destroys st = false -> server_exec s st = Some s' -> awake (pool s').
Proof.
  intros Ha Hd. destruct st as [c fd|c o|c o|ps|w|w|w|w|c o|c o|c]; cbn [Pipeline.server_exec];
    unfold loop_step, job_step.
  all: try (destruct (links s !! c) as [l|]; [|by intros [= <-]]).
  all: try done.
  - destruct (busy l); [done|]. by intros [= <-].
  - destruct (negb (busy l)); [done|]. destruct (decode_link _ _ _ _ _) as [[l' p']|] eqn:He; [|done].
    intros [= <-]. by eapply awake_decode.
  - destruct (negb (internal ps)); [done|]. destruct (step (pool s) ps) as [p|] eqn:Hs; [|done].
    intros [= <-]. exact (awake_step _ ps _ Ha Hd Hs).
  - destruct (running_at (pool s) w) as [t|] eqn:Hw; [|done]. destruct (links s !! _) as [l|]; [|done].
    destruct (job_at (func t)); try done. intros [= <-]. unfold serve_job.
    destruct (handleRequest _ _ _ _ _) as [[st0 [|f out]] [u|e]]; by apply awake_progress.
  - destruct (running_at (pool s) w) as [t|] eqn:Hw; [|done]. destruct (links s !! _) as [l|]; [|done].
    destruct (job_at (func t)); try done. case_bool_decide; intros [= <-]; by apply awake_progress.
  - destruct (running_at (pool s) w) as [t|] eqn:Hw; [|done]. destruct (links s !! _) as [l|]; [|done].
    destruct (job_at (func t)); try done. intros [= <-]. by apply awake_progress.
  - destruct (running_at (pool s) w) as [t|] eqn:Hw; [|done]. destruct (links s !! _) as [l|]; [|done].
    destruct (job_at (func t)); try done. destruct (step (pool s) _) as [p|] eqn:Hs; [|done].
    intros [= <-]. exact (awake_step _ (WorkerFinish w) _ Ha eq_refl Hs).
  - destruct (busy l); [done|]. destruct (functors l) as [|[m f] q]; [done|]. by intros [= <-].
  - destruct (busy l); [done|]. by intros [= <-].
  - destruct (busy l); [done|]. by intros [= <-].
Qed.

(** ** The work left *)

(** For a task in a worker's hands, a worker, the pool, and a connection: the steps they may still
    take. A frame to decode may wake every worker, there or still to come ([capacity]). *)
Definition job_work (a : progress) : nat :=
  match a with Fresh => 8 | Sending _ => 7 | Queueing _ => 6 | Returned => 4 end.
Definition worker_work (s : worker Job) : nat :=
  match s with
  | WTop => 3 | WWantLock => 2 | WAboutToBlock _ => 1
  | WRunning t => job_work (job_at (func t))
  | WBlocked _ | WExiting | WGone => 0
  end.
Definition pool_work (p : ThreadPool Job) : nat :=
  weight worker_work (workers p) + 7 * length (taskQueue_ p) +
  4 * (maxThreadCount_ p - currentThreadCount_ p).
Definition capacity (p : ThreadPool Job) : nat :=
  size (workers p) + (maxThreadCount_ p - currentThreadCount_ p).
Definition undecoded (l : Link) : list ProtocolMessage :=
  (parse_frames (contents (inputBuffer_ (tcp l)))).1.1.
Definition link_work (k : nat) (l : Link) : nat :=
  (8 + 2 * k) * length (undecoded l) + (if busy l then 1 else 0) + length (functors l).
Definition server_work (s : Server St) : nat :=
  weight (link_work (capacity (pool s))) (links s) + pool_work (pool s).

Lemma work_set_worker (p : ThreadPool Job) (w : nat) s s' :
  workers p !! w = Some s ->
  pool_work (set_worker p w s') + worker_work s = pool_work p + worker_work s' /\
  capacity (set_worker p w s') = capacity p.
Proof.
  intros Hw. unfold pool_work, capacity. cbn [workers set_worker taskQueue_ maxThreadCount_ currentThreadCount_].
  pose proof (weight_set worker_work _ w s s' Hw). rewrite map_size_insert_Some by eauto.
  split; [lia|done].
Qed.

Lemma work_progress p (w : nat) t a :
  running_at p w = Some t -> job_work a < job_work (job_at (func t)) ->
  pool_work (progress_to p w t a) + job_work (job_at (func t)) = pool_work p + job_work a /\
  capacity (progress_to p w t a) = capacity p.
Proof.
  unfold running_at. destruct (workers p !! w) as [[]|] eqn:Hw; try done. intros [= ->] Hlt.
  destruct (work_set_worker p w _ (WRunning (mkTask (priority t) (advance (func t) a))) Hw) as [H1 H2].
  split; [|exact H2]. exact H1.
Qed.

(** A step of the pool towards a reply takes one of its steps. *)
Lemma pool_step_work p ps p' :
  awake p -> productive (PPool ps) = true -> step p ps = Some p' ->
  pool_work p' < pool_work p /\ capacity p' = capacity p.
Proof.
  intros Ha Hp. destruct ps as [t|w|w|w|w|w|w i|w|w|w|w| |]; try done; cbn [step].
  - destruct (workers p !! w) eqn:Hw; [done|]. unfold CreateThread.
    destruct (Nat.leb_spec (maxThreadCount_ p) (currentThreadCount_ p)); [done|]. intros [= <-].
    unfold pool_work, capacity. cbn. rewrite weight_new, map_size_insert_None by done. cbn. lia.
  - destruct (workers p !! w) as [[]|] eqn:Hw; try done. intros [= <-]. rewrite (aw_running p Ha).
    destruct (work_set_worker p w _ WWantLock Hw) as [H1 ->]. cbn in H1. lia.
  - destruct (workers p !! w) as [[]|] eqn:Hw; try done. destruct (lock_ p); [done|].
    rewrite (aw_running p Ha). destruct (_ =? 0); [|done]. intros [= <-].
    destruct (work_set_worker p w _ (WAboutToBlock (timed_wait p)) Hw) as [H1 H2]. cbn in H1.
    split; [|exact H2]. unfold pool_work in *. cbn in *. lia.
  - destruct (workers p !! w) as [[]|] eqn:Hw; try done. intros [= <-].
    destruct (work_set_worker p w _ (WBlocked timed) Hw) as [H1 H2]. cbn in H1.
    split; [|exact H2]. unfold pool_work in *. cbn in *. lia.
  - destruct (workers p !! w) as [[]|] eqn:Hw; try done. destruct (lock_ p); [done|].
    destruct (taskQueue_ p !! i) as [t|] eqn:Hi; [|done]. destruct (_ && _); [|done]. intros [= <-].
    destruct (work_set_worker p w _ (WRunning t) Hw) as [H1 H2]. cbn in H1.
    split; [|exact H2]. unfold pool_work in *.
    cbn [workers set_worker set_queue taskQueue_ maxThreadCount_ currentThreadCount_] in *.
    rewrite length_delete by eauto. apply lookup_lt_Some in Hi.
    assert (job_work (job_at (func t)) <= 8) by (destruct (job_at (func t)); cbn; lia). lia.
Qed.

Lemma enqueue_work p t p' :
  enqueueTask p t = (true, p') ->
  pool_work p' <= pool_work p + 7 + 2 * capacity p /\ capacity p' = capacity p.
Proof.
  unfold enqueueTask. repeat case_match; try done. intros [= <-]. unfold pool_work, capacity.
  cbn [notify_all set_queue workers taskQueue_ maxThreadCount_ currentThreadCount_].
  rewrite length_app, map_size_fmap. cbn [length]. split; [|done].
  pose proof (weight_fmap worker_work woken (workers p) 2 ltac:(intros []; cbn; lia)) as Hw.
  unfold woken in Hw. lia.
Qed.

Lemma sendInLoop_input c m o : inputBuffer_ (sendInLoop c m o) = inputBuffer_ c.
Proof. unfold sendInLoop. by repeat case_match; simplify_eq. Qed.

Lemma deliver_work k l m f o : link_work k (deliver l m f o) = link_work k l.
Proof.
  unfold deliver, link_work, undecoded. case_bool_decide; cbn [set_tcp add_late add_sent tcp busy functors];
    by rewrite sendInLoop_input.
Qed.

Lemma refuse_work k l m e o : link_work k (refuse host l m e o) = link_work k l.
Proof.
  unfold refuse. destruct (sendError _ _ _ _ _); [done|]. case_bool_decide; [apply deliver_work|done].
Qed.

(** A turn of [onMessage] takes a frame, or ends it. *)
Lemma decode_work c l p o l' p' :
  awake p -> wf (inputBuffer_ (tcp l)) -> busy l = true -> decode_link host c l p o = Some (l', p') ->
  link_work (capacity p) l' + pool_work p' < link_work (capacity p) l + pool_work p /\
  capacity p' = capacity p.
Proof.
  intros Ha Hw Hb. unfold decode_link. pose proof (tryDecode_buffer host _ Hw) as Hd.
  assert (Hl : link_work (capacity p) l = (8 + 2 * capacity p) * length (undecoded l) + 1 + length (functors l))
    by (unfold link_work; by rewrite Hb).
  destruct (tryDecode host (inputBuffer_ (tcp l))) as [[[m|] b]|e].
  - destruct Hd as (Hd & _ & _). set (l1 := add_seen _ _).
    assert (Hl1 : link_work (capacity p) l1 + (8 + 2 * capacity p) = link_work (capacity p) l).
    { rewrite Hl. unfold undecoded. rewrite (parse_frames_unfold (contents (inputBuffer_ (tcp l)))), Hd.
      unfold link_work, undecoded. cbn [l1 add_seen set_tcp set_input tcp inputBuffer_ busy functors].
      destruct (parse_frames (contents b)) as [[ms e] r]. cbn [fst length]. lia. }
    destruct (negb (is_request m)); [intros [= <- <-]; split; [lia|done]|].
    destruct (lock_ p); [done|]. unfold submit, ThreadPool_pool.
    destruct (enqueueTask p _) as [[] p1] eqn:He; intros [= <- <-].
    + apply enqueue_work in He as [Hp ->]. split; [lia|done].
    + assert (p1 = p) as -> by (revert He; unfold enqueueTask; by repeat case_match; intros [= <-]).
      rewrite refuse_work. split; [lia|done].
  - destruct Hd as (_ & _ & Hbb). rewrite Hbb by done. intros [= <- <-]. rewrite Hl. split; [|done].
    unfold link_work, undecoded. cbn [set_tcp set_input tcp inputBuffer_ busy functors]. lia.
  - intros [= <- <-]. rewrite Hl. split; [|done]. unfold link_work, undecoded.
    cbn [set_tcp tcp busy functors]. unfold shutdown, shutdownInLoop.
    repeat case_match; cbn [inputBuffer_ shutdownWrite setState]; lia.
Qed.

(** A change of one connection and of the pool. *)
Lemma server_work_set s c l l' p' st' :
  links s !! c = Some l -> capacity p' = capacity (pool s) ->
  link_work (capacity (pool s)) l' + pool_work p' < link_work (capacity (pool s)) l + pool_work (pool s) ->
  server_work (mkServer (<[c := l']> (links s)) p' st') < server_work s.
Proof.
  intros Hl Hc Hlt. unfold server_work. cbn [links pool]. rewrite Hc.
  pose proof (weight_set (link_work (capacity (pool s))) _ c l l' Hl). lia.
Qed.

Lemma server_work_pool s p' st' :
  capacity p' = capacity (pool s) -> pool_work p' < pool_work (pool s) ->
  server_work (mkServer (links s) p' st') < server_work s.
Proof. intros Hc Hlt. unfold server_work. cbn [links pool]. rewrite Hc. lia. Qed.

Lemma job_returns p w t p' :
  running_at p w = Some t -> job_at (func t) = Returned -> step p (WorkerFinish w) = Some p' ->
  pool_work p' < pool_work p /\ capacity p' = capacity p.
Proof.
  unfold running_at. cbn [step]. destruct (workers p !! w) as [[]|] eqn:Hw; try done.
  intros [= ->] Hr [= <-]. destruct (work_set_worker p w _ WTop Hw) as [H1 H2]. cbn in H1.
  rewrite Hr in H1. split; [|exact H2]. unfold pool_work in *. cbn in *. lia.
Qed.

(** A task that goes on, with or without a change of its connection. *)
Lemma advance_work s w t l l' a st' :
  running_at (pool s) w = Some t -> links s !! job_conn (func t) = Some l ->
  job_work a < job_work (job_at (func t)) ->
  link_work (capacity (pool s)) l' + job_work a < link_work (capacity (pool s)) l + job_work (job_at (func t)) ->
  server_work (mkServer (<[job_conn (func t) := l']> (links s)) (progress_to (pool s) w t a) st') < server_work s /\
  server_work (mkServer (links s) (progress_to (pool s) w t a) st') < server_work s.
Proof.
  intros Hw Hl Ha Hlt. destruct (work_progress (pool s) w t a Hw Ha) as [H1 H2].
  split; [apply (server_work_set s _ l); [done|done|lia]|apply server_work_pool; [done|lia]].
Qed.

(** Every productive step takes one of the steps left. *)
Lemma exec_work s st s' :
  awake (pool s) -> (forall c l, links s !! c = Some l -> wf (inputBuffer_ (tcp l))) ->
  productive st = true -> server_exec s st = Some s' -> server_work s' < server_work s.
Proof.
  intros Ha Hwf Hp. destruct st as [c fd|c o|c o|ps|w|w|w|w|c o|c o|c]; try done;
    cbn [Pipeline.server_exec]; unfold loop_step, job_step.
  2: { destruct (negb (internal ps)); [done|]. destruct (step (pool s) ps) as [p|] eqn:Hs; [|done].
       intros [= <-]. apply pool_step_work in Hs as [Hlt Hc]; [|done|done]. by apply server_work_pool. }
  2-5: destruct (running_at (pool s) w) as [t|] eqn:Hw; [|done];
    destruct (links s !! _) as [l|] eqn:Hl; [|done]; destruct (job_at (func t)) eqn:Hj; try done;
    pose proof (fun l' a st' => advance_work s w t l l' a st' Hw Hl) as Hadv; rewrite Hj in Hadv;
    unfold link_work, undecoded in Hadv.
  - destruct (links s !! c) as [l|] eqn:Hl; [|done]. destruct (busy l) eqn:Hb; [|done]. cbn [negb].
    destruct (decode_link _ _ _ _ _) as [[l' p']|] eqn:He; [|done]. intros [= <-].
    apply decode_work in He as [Hlt Hc]; [|done|by apply (Hwf c)|done]. by apply (server_work_set s c l).
  - intros [= <-]. unfold serve_job. destruct (handleRequest _ _ _ _ _) as [[st0 [|f out]] [u|e]];
      first [apply (Hadv (add_threw l _)) | apply (Hadv l)]; cbn; lia.
  - case_bool_decide; intros [= <-]; [apply (Hadv l)|apply (Hadv (add_late l _))]; cbn; lia.
  - intros [= <-]. apply (Hadv (set_functors l _)); cbn; rewrite ?length_app; cbn; lia.
  - destruct (step (pool s) _) as [p|] eqn:Hs; [|done].
    intros [= <-]. destruct (job_returns _ _ _ _ Hw Hj Hs) as [H1 H2]. by apply server_work_pool.
  - destruct (links s !! c) as [l|] eqn:Hl; [|done]. destruct (busy l) eqn:Hb; [done|].
    destruct (functors l) as [|[m f] q] eqn:Hq; [done|]. intros [= <-].
    apply (server_work_set s c l); [done|done|]. rewrite deliver_work. unfold link_work, undecoded.
    cbn. rewrite Hq. cbn. lia.
Qed.

(** ** No deadlock *)

(** Nothing is left for the server's threads to do. *)
Definition at_rest (s : Server St) : Prop :=
  (forall c l, links s !! c = Some l -> busy l = false /\ functors l = []) /\ live_tasks (pool s) = [].

(** The steps its threads may be able to take. *)
Definition worker_moves (p : ThreadPool Job) (w : nat) : list server_step :=
  [PPool (WorkerTop w); PPool (WorkerTest w); PServe w; PTest w; PQueue w; PReturn w] ++
  map (fun i => PPool (WorkerTake w i)) (List.seq 0 (length (taskQueue_ p))).
Definition link_moves (c : nat) : list server_step := [PDecode c (WriteOk 0); PFunctor c (WriteOk 0)].
Definition moves (s : Server St) : list server_step :=
  (match lock_ (pool s) with Some w => [PPool (WorkerBlock w)] | None => [] end) ++
  (map fst (map_to_list (links s)) ≫= link_moves) ++
  (map fst (map_to_list (workers (pool s))) ≫= worker_moves (pool s)) ++
  [PPool (CreateWorker (fresh (dom (workers (pool s)))))].

Lemma moves_link s c l st : links s !! c = Some l -> st ∈ link_moves c -> st ∈ moves s.
Proof.
  intros Hl Hst. unfold moves. apply elem_of_app. right. apply elem_of_app. left.
  apply list_elem_of_bind. exists c. split; [done|]. apply list_elem_of_fmap_2' with (c, l); [|done].
  by apply elem_of_map_to_list.
Qed.

Lemma moves_worker s w x st :
  workers (pool s) !! w = Some x -> st ∈ worker_moves (pool s) w -> st ∈ moves s.
Proof.
  intros Hw Hst. unfold moves. do 2 (apply elem_of_app; right). apply elem_of_app. left.
  apply list_elem_of_bind. exists w. split; [done|]. apply list_elem_of_fmap_2' with (w, x); [|done].
  by apply elem_of_map_to_list.
Qed.

Lemma moves_productive s : Forall (fun st => productive st = true /\ calm st = true) (moves s).
Proof.
  apply list.Forall_forall. intros st. unfold moves, worker_moves, link_moves.
  rewrite !elem_of_app, !list_elem_of_bind. intros [Hl|[(c & Hst & _)|[(w & Hst & _)|Hst]]].
  - destruct (lock_ (pool s)); [|by apply elem_of_nil in Hl]. by apply list_elem_of_singleton in Hl as ->.
  - rewrite !elem_of_cons, elem_of_nil in Hst. by destruct Hst as [->|[->|[]]].
  - rewrite elem_of_app, !elem_of_cons, elem_of_nil in Hst.
    destruct Hst as [[->|[->|[->|[->|[->|[->|[]]]]]]]|Hst]; try done.
    by apply list_elem_of_fmap in Hst as (i & -> & _).
  - by apply list_elem_of_singleton in Hst as ->.
Qed.

Abbreviation goes_on s := (exists st s', st ∈ moves s /\ server_exec s st = Some s').

(** A step of a worker or of a connection among the moves. *)
Ltac move_of L :=
  eapply L; [eassumption|]; unfold worker_moves, link_moves;
  rewrite ?elem_of_app, ?elem_of_cons; tauto.

Lemma is_top_spec (q : list (PrioritizedTask Job)) t :
  is_top q t = true <-> Forall (fun u => priority t <= priority u)%Z q.
Proof.
  unfold is_top. induction q as [|u q IH]; cbn [forallb]; [by split|].
  by rewrite list.Forall_cons, andb_true_iff, Z.leb_le, IH.
Qed.

(** Some task of a queue precedes all. *)
Lemma top_exists (q : list (PrioritizedTask Job)) :
  q <> [] -> exists i t, q !! i = Some t /\ is_top q t = true.
Proof.
  induction q as [|t q IH]; [done|]. intros _. destruct (decide (q = [])) as [->|Hq].
  { exists 0, t. split; [done|]. apply is_top_spec. by repeat constructor. }
  destruct (IH Hq) as (i & m & Hi & Hm%is_top_spec).
  destruct (Z.leb_spec (priority t) (priority m)) as [Hle|Hlt].
  - exists 0, t. split; [done|]. apply is_top_spec. constructor; [done|].
    eapply list.Forall_impl; [exact Hm|]. cbn. lia.
  - exists (S i), m. split; [done|]. apply is_top_spec. constructor; [lia|done].
Qed.

(** A worker that is not blocked can go on, unless another has the mutex. *)
Lemma worker_goes_on s w x :
  awake (pool s) -> (forall t, t ∈ live_tasks (pool s) -> is_Some (links s !! job_conn (func t))) ->
  lock_ (pool s) = None -> workers (pool s) !! w = Some x -> (forall b, x <> WBlocked b) -> goes_on s.
Proof.
  intros Ha Hjobs Hl Hw Hx. destruct x as [| |b|b|t| |].
  - exists (PPool (WorkerTop w)). eexists. split; [move_of moves_worker|]. cbn. by rewrite Hw.
  - destruct (taskQueue_ (pool s)) as [|t0 q0] eqn:Hq.
    + exists (PPool (WorkerTest w)). eexists. split; [move_of moves_worker|]. cbn.
      by rewrite Hw, Hl, (aw_running _ Ha), (aw_size _ Ha), Hq.
    + destruct (top_exists (taskQueue_ (pool s))) as (i & t & Hi & Ht); [by rewrite Hq|].
      exists (PPool (WorkerTake w i)). eexists. split.
      { eapply moves_worker; [eassumption|]. apply elem_of_app. right.
        apply list_elem_of_fmap. exists i. split; [done|]. apply elem_of_seq.
        apply lookup_lt_Some in Hi. lia. }
      cbn.
      by rewrite Hw, Hl, Hi, (aw_running _ Ha), (aw_size _ Ha), Ht, Hq.
  - apply (aw_held _ Ha) in Hw. congruence.
  - by destruct (Hx b).
  - assert (Hr : running_at (pool s) w = Some t) by (unfold running_at; by rewrite Hw).
    destruct (live_running _ _ _ Hr) as (rest & Hp & _).
    destruct (Hjobs t) as [l Hlk]; [rewrite Hp; apply elem_of_cons; by left|].
    destruct (job_at (func t)) eqn:Hj; [exists (PServe w)|exists (PTest w)|exists (PQueue w)|exists (PReturn w)];
      cbn; unfold job_step; rewrite Hr, Hlk, Hj; try (eexists; split; [move_of moves_worker|done]).
    + case_bool_decide; eexists; (split; [move_of moves_worker|done]).
    + rewrite Hw. eexists; split; [move_of moves_worker|done].
  - by destruct (aw_present _ Ha w _ Hw).
  - by destruct (aw_present _ Ha w _ Hw).
Qed.

(** A connection with something to do can go on. *)
Lemma link_goes_on s c l :
  lock_ (pool s) = None -> links s !! c = Some l -> busy l = true \/ functors l <> [] -> goes_on s.
Proof.
  intros Hlock Hl Hw. destruct (busy l) eqn:Hb.
  - assert (Hd : exists l' p', decode_link host c l (pool s) (WriteOk 0) = Some (l', p')).
    { unfold decode_link. destruct (tryDecode _ _) as [[[m|] b]|e]; eauto.
      destruct (negb _); eauto. rewrite Hlock. destruct (submit _ _) as [p' [u|e]]; eauto. }
    destruct Hd as (l' & p' & Hd). exists (PDecode c (WriteOk 0)). eexists. split; [move_of moves_link|].
    cbn. by rewrite Hl, Hb, Hd.
  - destruct Hw as [|Hf]; [done|]. exists (PFunctor c (WriteOk 0)). cbn. unfold loop_step.
    rewrite Hl, Hb. destruct (functors l) as [|[m f] q]; [done|]. eexists. split; [move_of moves_link|done].
Qed.

Lemma running_nil (p : ThreadPool Job) :
  (forall w x, workers p !! w = Some x -> running_of x = []) -> running (workers p) = [].
Proof.
  intros Hall. unfold running.
  assert (Hl : forall kv, kv ∈ map_to_list (workers p) -> running_of kv.2 = []).
  { intros [w x] Hin. apply elem_of_map_to_list in Hin. by eapply Hall. }
  induction (map_to_list (workers p)) as [|kv l IH]; [done|]. cbn.
  rewrite Hl by (apply elem_of_cons; by left). apply IH. intros kv' Hin. apply Hl, elem_of_cons. by right.
Qed.

Definition blocked (x : worker Job) : bool := match x with WBlocked _ => true | _ => false end.

(** The server is at rest, or one of its threads can go on. *)
Lemma server_progress s :
  awake (pool s) -> (forall t, t ∈ live_tasks (pool s) -> is_Some (links s !! job_conn (func t))) ->
  0 < maxThreadCount_ (pool s) -> at_rest s \/ goes_on s.
Proof.
  intros Ha Hjobs Hn. destruct (lock_ (pool s)) as [w|] eqn:Hlock.
  { right. exists (PPool (WorkerBlock w)). eexists. split.
    { unfold moves. rewrite Hlock. apply elem_of_app. left. by apply list_elem_of_singleton. }
    cbn. by rewrite (aw_lock _ Ha w Hlock). }
  destruct (decide (map_Exists (fun _ l => busy l = true \/ functors l <> []) (links s)))
    as [(c & l & Hl & Hw)|Hlinks]; [right; by eapply link_goes_on|].
  destruct (decide (map_Exists (fun _ x => blocked x = false) (workers (pool s))))
    as [(w & x & Hw & Hx)|Hwork].
  { right. eapply worker_goes_on; try done. by intros b ->. }
  destruct (decide (currentThreadCount_ (pool s) < maxThreadCount_ (pool s))) as [Hlt|Hfull].
  { right. exists (PPool (CreateWorker (fresh (dom (workers (pool s)))))). eexists. split.
    { unfold moves. do 3 (apply elem_of_app; right). by apply list_elem_of_singleton. }
    cbn. rewrite (not_elem_of_dom_1 (workers (pool s)) _ (is_fresh _)).
    by destruct (Nat.leb_spec (maxThreadCount_ (pool s)) (currentThreadCount_ (pool s))); [lia|]. }
  assert (Hb : forall w x, workers (pool s) !! w = Some x -> exists b, x = WBlocked b).
  { intros w x Hw. destruct (blocked x) eqn:Hx; [destruct x; try done; eauto|].
    destruct Hwork. by exists w, x. }
  left. split.
  - intros c l Hl. destruct (busy l) eqn:Hbusy, (functors l) eqn:Hf; try done; destruct Hlinks;
      exists c, l; (split; [done|]); rewrite ?Hf; auto.
  - unfold live_tasks. rewrite running_nil by (intros w x (b & ->)%Hb; done). cbn [app].
    assert (Hsz : size (workers (pool s)) <> 0) by (rewrite (aw_count _ Ha); lia).
    apply map_size_ne_0_lookup_1 in Hsz as (w & x & Hw). destruct (Hb w x Hw) as [b ->].
    by destruct (aw_asleep _ Ha w b (or_introl Hw)).
Qed.

(** The size of the pool does not change. *)
Lemma step_max {Task} (p : ThreadPool Task) ps p' :
  step p ps = Some p' -> maxThreadCount_ p' = maxThreadCount_ p.
Proof.
  destruct ps; cbn [step]; unfold CreateThread, threadExit, enqueueTask; repeat case_match; try done;
    intros [= <-]; simplify_eq; done.
Qed.

Lemma exec_max s st s' :
  server_exec s st = Some s' -> maxThreadCount_ (pool s') = maxThreadCount_ (pool s).
Proof.
  destruct st as [c fd|c o|c o|ps|w|w|w|w|c o|c o|c]; cbn [Pipeline.server_exec];
    unfold loop_step, job_step, serve_job, decode_link, submit, ThreadPool_pool, enqueueTask;
    repeat case_match; try done; intros [= <-]; simplify_eq; try done; by eapply step_max.
Qed.
End Server.

(** ** Theorems *)

Section Theorems.
Context (host : endian) `{EnvelopeLaws} {SMsg St : Type}.
Context (loop : loop_id) (name : bytes) (ioThreads n : nat) (services : list (Service SMsg St)).
Context (spawn : nat -> loop_id) (st0 : St).
Abbreviation the_server := (configured loop name ioThreads n services).
Abbreviation the_registry := (registry_ the_server).
Abbreviation booted := (Server_start (start spawn the_server) st0).
Abbreviation exec := (server_exec host the_registry).

(** A state of the server before its destructor: the invariant of [Pipeline], and the pool
    awake. *)
Definition working (s : Server St) : Prop :=
  server_inv host the_registry st0 s /\ awake (pool s) /\ maxThreadCount_ (pool s) = n.

Lemma working_run ss s :
  Forall (fun st => destroys st = false) ss -> booted =[ exec | ss ]=> s -> working s.
Proof.
  intros Hss Hrun. split; [by eapply run_server_inv|].
  refine (steps_inv_labels exec (fun st => destroys st = false)
            (fun s => awake (pool s) /\ maxThreadCount_ (pool s) = n) booted ss s _ Hss _ Hrun).
  - intros s1 st s2 Hd [Ha Hm] Hs. split; [by eapply awake_exec|]. by rewrite (exec_max _ _ _ _ _ Hs).
  - unfold Server_start, start. cbn [pool].
    destruct (ioPool_ the_server); cbn [pool_]; rewrite configured_pool; (split; [apply awake_start|done]).
Qed.

Lemma working_exec s st s' : working s -> productive st = true -> exec s st = Some s' -> working s'.
Proof.
  intros (Hi & Ha & Hm) Hp Hs. split; [by eapply server_exec_inv|].
  split; [|by rewrite (exec_max _ _ _ _ _ Hs)]. eapply awake_exec; [done| |done].
  destruct st as [| | |[]| | | | | | |]; done.
Qed.

Lemma working_work s st s' :
  working s -> productive st = true -> exec s st = Some s' -> server_work s' < server_work s.
Proof.
  intros (Hi & Ha & _) Hp Hs. eapply exec_work; try done. intros c l Hl.
  exact (proj1 (li_conn _ _ _ _ _ _ (si_link _ _ _ s Hi c l Hl))).
Qed.

Lemma working_progress s :
  working s -> 0 < n ->
  at_rest s \/ exists st s', st ∈ moves s /\ productive st = true /\ exec s st = Some s'.
Proof.
  intros (Hi & Ha & Hm) Hn. destruct (server_progress host the_registry s) as [Hr|(st & s' & Hst & Hs)].
  - done.
  - intros t Ht. destruct (si_job _ _ _ s Hi t Ht) as ((l & Hl & _) & _). by exists l.
  - by rewrite Hm.
  - by left.
  - right. exists st, s'. split; [done|]. split; [|done].
    exact (proj1 (proj1 (list.Forall_forall _ _) (moves_productive s) st Hst)).
Qed.

(** The server run by itself, taking the first of its moves that is possible. *)
Fixpoint first_move (s : Server St) (ms : list server_step) : option (server_step * Server St) :=
  match ms with
  | [] => None
  | st :: ms => match exec s st with Some s' => Some (st, s') | None => first_move s ms end
  end.
Fixpoint eager (fuel : nat) (s : Server St) : list server_step :=
  match fuel with
  | O => []
  | S fuel => match first_move s (moves s) with Some (st, s') => st :: eager fuel s' | None => [] end
  end.

Lemma first_move_spec s ms :
  match first_move s ms with
  | Some (st, s') => st ∈ ms /\ exec s st = Some s'
  | None => forall st, st ∈ ms -> exec s st = None
  end.
Proof.
  induction ms as [|st ms IH]; cbn [first_move]; [by intros st ?%elem_of_nil|].
  destruct (exec s st) as [s'|] eqn:Hs; [by rewrite elem_of_cons; auto|].
  destruct (first_move s ms) as [[st' s']|]; [rewrite elem_of_cons; naive_solver|].
  intros st' [->|Hst]%elem_of_cons; auto.
Qed.

Lemma eager_rests fuel s :
  working s -> 0 < n -> server_work s < fuel ->
  exists s', s =[ exec | eager fuel s ]=> s' /\ at_rest s' /\
    Forall (fun st => productive st = true /\ calm st = true) (eager fuel s).
Proof.
  revert s. induction fuel as [|fuel IH]; intros s Hw Hn Hf; [lia|]. cbn [eager].
  pose proof (first_move_spec s (moves s)) as Hm. destruct (first_move s (moves s)) as [[st s1]|].
  - destruct Hm as [Hst Hs]. pose proof (proj1 (list.Forall_forall _ _) (moves_productive s) st Hst) as Hp.
    destruct (IH s1) as (s' & Hrun & Hr & Hall).
    { eapply working_exec; [exact Hw|apply Hp|exact Hs]. }
    { done. }
    { pose proof (working_work s st s1 Hw (proj1 Hp) Hs). lia. }
    exists s'. cbn [steps]. rewrite Hs. split; [done|]. split; [done|]. by constructor.
  - exists s. split; [done|]. split; [|constructor].
    destruct (working_progress s Hw Hn) as [Hr|(st & s1 & Hst & _ & Hs)]; [done|].
    by rewrite (Hm st Hst) in Hs.
Qed.

(** Running on leads to rest. *)
Lemma working_settles s :
  working s -> 0 < n -> exists ss s', Forall (fun st => productive st = true) ss /\ s =[ exec | ss ]=> s' /\ at_rest s'.
Proof.
  intros Hw Hn. destruct (eager_rests (S (server_work s)) s Hw Hn ltac:(lia)) as (s' & Hrun & Hr & Hall).
  exists (eager (S (server_work s)) s), s'. split; [|done].
  eapply list.Forall_impl; [exact Hall|]. by intros st [? _].
Qed.

(** C6. The server answers: after any interleaving of a started server with at least one worker,
    before its destructor, its threads go on by themselves for at most [server_work] steps in any
    order; they never stop short of rest, where nothing is left to decode, run or queue; and at
    rest every connection still open on which no service method has thrown has, for each request
    read, its reply written or buffered. *)
Theorem server_answers (ss : list server_step) (s : Server St)
  (Hn : 0 < n)
  (Hlive : Forall (fun st => destroys st = false) ss)
  (Hrun : booted =[ exec | ss ]=> s) :
  (forall ss' s', Forall (fun st => productive st = true) ss' -> s =[ exec | ss' ]=> s' ->
     length ss' <= server_work s /\
     ((forall st, productive st = true -> exec s' st = None) -> at_rest s') /\
     (at_rest s' -> forall c l, links s' !! c = Some l -> threw l = [] -> state_ (tcp l) = kConnected ->
        map fst (sent_ l) ≡ₚ List.filter is_request (parse_frames (fed l)).1.1)) /\
  exists ss' s', Forall (fun st => productive st = true) ss' /\ s =[ exec | ss' ]=> s' /\ at_rest s'.
Proof.
  pose proof (working_run ss s Hlive Hrun) as Hw. split; [|by apply working_settles].
  intros ss' s' Hss Hrun'.
  assert (Hw' : working s' /\ length ss' + server_work s' <= server_work s).
  { clear Hrun. revert s Hw Hrun'. induction Hss as [|st ss' Hp _ IH]; intros s Hw; cbn [steps].
    { intros [= <-]. by split. }
    destruct (exec s st) as [s1|] eqn:Hs; [|done]. intros Hrun'.
    destruct (IH s1) as [H1 H2]; [by eapply working_exec|done|]. split; [done|].
    pose proof (working_work s st s1 Hw Hp Hs). cbn [length]. lia. }
  destruct Hw' as [Hw' Hlen]. split; [lia|]. split.
  - intros Hstuck. destruct (working_progress s' Hw' Hn) as [Hr|(st & s1 & _ & Hp & Hs)]; [done|].
    by rewrite (Hstuck st Hp) in Hs.
  - intros [Hlinks Htasks] c l Hl Hth Hst. destruct (Hlinks c l Hl) as [Hb Hf].
    by apply (link_outcome host the_registry st0 s' c l (proj1 Hw') Hl).
Qed.
End Theorems.

(** ** Witnesses *)

Module ProgressSamples.
Import SampleEnvelope RpcServer.Samples Pipeline.Loop.

(** The request has arrived; no worker has looked at it yet. *)
Definition arrived : list server_step := take 6 (exchange (lit "hi")).
Definition waiting : Server nat :=
  default sample_booted
    (steps (server_exec BigEndian (registry_ sample_server)) sample_booted arrived).

Lemma server_answers_witness :
  length (List.filter is_request (parse_frames (fed (default (Link_new 0) (links waiting !! 5)))).1.1) = 1 /\
  exists ss' s', Forall (fun st => productive st = true) ss' /\
    waiting =[ server_exec BigEndian (registry_ sample_server) | ss' ]=> s' /\ at_rest s'.
Proof.
  split; [vm_compute; reflexivity|].
  assert (Hrun : sample_booted =[ server_exec BigEndian (registry_ sample_server) | arrived ]=> waiting)
    by (apply steps_default; vm_compute; reflexivity).
  assert (Hlive : Forall (fun st => destroys st = false) arrived) by (vm_compute; repeat constructor).
  exact (proj2 (server_answers BigEndian 0 (lit "echo") 0 1 [sample_service] (fun i => i) 0
                  arrived waiting Nat.lt_0_1 Hlive Hrun)).
Defined.

End ProgressSamples.
