(* ===== verification/Reclaim.v ===== *)
(** When connections are destroyed: the [TcpConnectionPtr]s of src/net/TcpServer.cpp (the table),
    src/net/TcpConnection.cpp (the argument of the message callback) and src/rpc/RpcServer.cpp (the
    tasks of the pool), counted along the steps of [Pipeline]; the weak pointers of [send]; and the
    destructor of src/net/TcpConnection.cpp, which runs on the thread that drops the last one. *)
From stdpp Require Import base list gmap strings numbers.
From Stdlib Require Import Ascii ZArith Lia.
From S2P Require Import Prelude Bytes Common Buffer Codec Controller Service RpcServer Inet.
From S2P Require Import RpcChannel System ThreadPool TcpServer Poller TcpConnection Pipeline Progress.

(** ** References *)

Section Reclaim.
Context (host : endian) `{Henv : EnvelopeLaws} {SMsg St : Type} (reg : ServiceRegistry SMsg St).
Implicit Type s : Server St.
Abbreviation exec := (Pipeline.server_exec host reg).

(** The tasks of the pool that captured the connection [c]. *)
Definition captured (c : nat) (p : ThreadPool Job) : list (PrioritizedTask Job) :=
  filter (fun t => job_conn (func t) = c) (live_tasks p).

(** [use_count()] of the connection: the table holds it until it is closed, [handleRead] while the
    message callback runs, and each task of its own until the task ends. *)
Definition use_count s (c : nat) : nat :=
  match links s !! c with
  | None => 0
  | Some l =>
      (if decide (closed (tcp l)) then 0 else 1) + (if busy l then 1 else 0) +
      length (captured c (pool s))
  end.

(** The connection a step accesses through one of these pointers, or through the pointer to its
    channel that epoll returned. *)
Definition uses s (st : server_step) : option nat :=
  match st with
  | PRead c _ | PDecode c _ | PWritable c _ | PClose c => Some c
  | PServe w | PTest w | PQueue w | PReturn w => (fun t => job_conn (func t)) <$> running_at (pool s) w
  | PAccept _ _ | PPool _ | PFunctor _ _ => None
  end.

(** The connection a step is about. *)
Definition target s (st : server_step) : option nat :=
  match st with PAccept c _ | PFunctor c _ => Some c | _ => uses s st end.

(** epoll reports an event only of a channel that is registered. *)
Definition reported s (st : server_step) : bool :=
  match st with
  | PRead c _ | PWritable c _ | PClose c =>
      match links s !! c with Some l => negb (isNoneEvent (channel_ (tcp l))) | None => false end
  | _ => true
  end.

Inductive thread := LoopThread | PoolThread (w : nat).
Definition thread_of (st : server_step) : thread :=
  match st with PServe w | PTest w | PQueue w | PReturn w => PoolThread w | _ => LoopThread end.

(** The functor of [send] holds a [weak_ptr]: when the connection is destroyed, [lock()] fails and
    the reply is dropped. *)
Definition weak_exec s (st : server_step) : option (Server St) :=
  match st with
  | PFunctor c _ =>
      if use_count s c =? 0 then
        loop_step s c (fun l =>
          match functors l with
          | (m, _) :: q => Some (add_late (set_functors l q) m)
          | [] => None
          end)
      else exec s st
  | _ => exec s st
  end.

(** The server, and the connections destroyed so far, each with the thread that ran the
    destructor. *)
Record Heap := mkHeap { sys : Server St; freed : list (nat * thread) }.

(** The last reference is dropped in a step. *)
Definition destroyed s s' (st : server_step) : list (nat * thread) :=
  match target s st with
  | Some c => if (0 <? use_count s c) && (use_count s' c =? 0) then [(c, thread_of st)] else []
  | None => []
  end.

(** [None]: not possible now. *)
Definition heap_exec (h : Heap) (st : server_step) : option Heap :=
  if negb (reported (sys h) st) then None
  else match weak_exec (sys h) st with
       | Some s' => Some (mkHeap s' (freed h ++ destroyed (sys h) s' st))
       | None => None
       end.

(** ** Lemmas *)

(** *** The life of a connection *)

(** The loop is inside the message callback only while the connection is open. *)
Definition life (l : Link) : Prop :=
  conn_life (tcp l) /\ state_ (tcp l) <> kConnecting /\ (busy l = true -> ~ closed (tcp l)).
Definition lives s : Prop := forall c l, links s !! c = Some l -> life l.

Lemma life_same l l' : tcp l' = tcp l -> busy l' = busy l -> life l -> life l'.
Proof. unfold life. by intros -> ->. Qed.

Lemma life_new fd : life (Link_new fd).
Proof. split; [|done]. split; [done|]. by intros []. Qed.

(** A call that does not open or close the connection. *)
Lemma life_quiet l c b : quiet (tcp l) c -> (b = true -> ~ closed (tcp l)) -> life l -> life (set_tcp l c b).
Proof.
  intros Hq Hb (Hl & Hn & _). split; [by eapply quiet_life|]. destruct Hq as (_ & Hc & Hk & _).
  split; [done|]. cbn [set_tcp busy tcp]. tauto.
Qed.

(** A call of the loop outside the message callback. *)
Lemma life_exec l k :
  possible (tcp l) k = true -> life l -> life (set_tcp l (conn_exec (tcp l) k) false).
Proof. intros Hp (Hl & _). by destruct (exec_life _ _ Hl Hp) as (_ & ? & ? & _). Qed.

Lemma open_events l : life l -> isNoneEvent (channel_ (tcp l)) = false -> ~ closed (tcp l).
Proof. intros ((_ & He) & _) Hn Hc. unfold isNoneEvent in Hn. by rewrite He in Hn by tauto. Qed.

Lemma life_read l o : isNoneEvent (channel_ (tcp l)) = false -> life l -> life (read_link l o).
Proof.
  intros He Hl. pose proof (open_events l Hl He) as Hc.
  assert (Hr : life (set_tcp l (conn_exec (tcp l) (CallReadNothing o)) false))
    by (apply life_exec; [cbn [possible]; by rewrite He|done]).
  unfold read_link. destruct o as [e|[|a d]]; [exact Hr|exact Hr|].
  destruct Hr as (H1 & H2 & _). split; [exact H1|]. split; [exact H2|]. intros _. revert Hc.
  cbn [add_fed set_tcp tcp]. unfold handleRead, closed. by destruct (readFd _ _) as [[n e] b] eqn:Hr; inversion Hr.
Qed.

Lemma life_deliver l m f o : life l -> life (deliver l m f o).
Proof.
  intros Hl. assert (Hs : life (set_tcp l (sendInLoop (tcp l) f o) (busy l)))
    by (apply life_quiet; [apply sendInLoop_quiet|..]; apply Hl).
  unfold deliver. by case_bool_decide.
Qed.

Lemma life_input l b d : (d = true -> ~ closed (tcp l)) -> life l -> life (set_tcp l (set_input (tcp l) b) d).
Proof. intros Hd Hl. apply life_quiet; [apply quiet_same; [apply Hl|done..]|done|done]. Qed.

Lemma life_decode c l p o l' p' :
  busy l = true -> life l -> decode_link host c l p o = Some (l', p') -> life l'.
Proof.
  intros Hb Hl. assert (Hc : ~ closed (tcp l)) by (by apply Hl). unfold decode_link.
  destruct (tryDecode host _) as [[[m|] b]|e]; [|intros [= <- _]; by apply life_input|].
  2: { intros [= <- _]. apply (life_exec l CallShutdown); [|done]. cbn [possible].
       rewrite bool_decide_eq_false_2; [done|apply Hl]. }
  assert (Hm : life (add_seen (set_tcp l (set_input (tcp l) b) true) m)).
  { eapply life_same; [..|by apply (life_input l b true)]; done. }
  destruct (negb (is_request m)); [by intros [= <- _]|]. destruct (lock_ p); [done|].
  destruct (submit p _) as [p1 [[]|e]]; intros [= <- _]; [done|].
  unfold refuse. destruct (sendError _ _ _ _ _); [done|]. case_bool_decide; [by apply life_deliver|done].
Qed.

(** A step changes the connection it is about. *)
Lemma exec_lives s st s' : lives s -> reported s st = true -> exec s st = Some s' -> lives s'.
Proof.
  intros Hs Hr. assert (Hset : forall c l p q, life l -> lives (mkServer (<[c := l]> (links s)) p q)).
  { intros c l p q Hl c' l'. cbn [links]. intros [[_ <-]|[_ H']]%lookup_insert_Some; [done|by eapply Hs]. }
  destruct st as [c fd|c o|c o|ps|w|w|w|w|c o|c o|c]; cbn [Pipeline.server_exec reported] in *;
    unfold loop_step, job_step.
  1: { destruct (links s !! c); [done|]. intros [= <-]. apply Hset, life_new. }
  all: try (destruct (links s !! c) as [l|] eqn:Hl; [|done]; pose proof (Hs c l Hl) as Hlife;
            destruct (busy l) eqn:Hb; try done; cbn [negb]).
  all: try (destruct (running_at (pool s) w) as [t|]; [|done];
            destruct (links s !! job_conn (func t)) as [l|] eqn:Hl; [|done];
            pose proof (Hs _ l Hl) as Hlife; destruct (job_at (func t)); try done).
  - intros [= <-]. apply Hset, life_read; [by apply negb_true_iff|done].
  - destruct (decode_link _ _ _ _ _) as [[l' p']|] eqn:Hd; [|done]. intros [= <-].
    by eapply Hset, life_decode.
  - destruct (negb (internal ps)); [done|]. destruct (step (pool s) ps); [|done]. by intros [= <-].
  - intros [= <-]. unfold serve_job. destruct (handleRequest _ _ _ _ _) as [[st0 [|f out]] [u|e]];
      try (by intros c' l'; apply Hs); by apply Hset.
  - case_bool_decide; intros [= <-]; [exact Hs|by apply Hset].
  - intros [= <-]. by apply Hset.
  - destruct (step (pool s) _); [|done]. by intros [= <-].
  - destruct (functors l) as [|[m f] q]; [done|]. intros [= <-]. by apply Hset, life_deliver.
  - intros [= <-]. apply Hset, life_quiet; [apply handleWrite_quiet; apply Hlife|congruence|done].
  - intros [= <-]. apply Hset, (life_exec l CallHandleClose); [|done]. exact Hr.
Qed.

(** *** The count *)

Lemma captured_perm c (p p' : ThreadPool Job) :
  live_tasks p' ≡ₚ live_tasks p -> captured c p' ≡ₚ captured c p.
Proof. unfold captured. by intros ->. Qed.

Lemma captured_other c t (p p' : ThreadPool Job) rest :
  live_tasks p ≡ₚ t :: rest -> job_conn (func t) <> c ->
  live_tasks p' ≡ₚ rest \/ (exists a, live_tasks p' ≡ₚ mkTask (priority t) (advance (func t) a) :: rest) ->
  captured c p' ≡ₚ captured c p.
Proof.
  intros Hp Hc Hp'. unfold captured. rewrite Hp, filter_cons_False by done.
  destruct Hp' as [->|(a & ->)]; [done|]. by rewrite filter_cons_False.
Qed.

(** A step leaves the connections it is not about, and their tasks, as they are. *)
Lemma exec_frame st0 s st s' c :
  server_inv host reg st0 s -> exec s st = Some s' -> target s st <> Some c ->
  links s' !! c = links s !! c /\ captured c (pool s') ≡ₚ captured c (pool s).
Proof.
  intros Hi Hs Ht. destruct st as [c0 fd|c0 o|c0 o|ps|w|w|w|w|c0 o|c0 o|c0]; cbn [Pipeline.server_exec] in Hs;
    unfold loop_step, job_step in Hs; cbn [target uses] in Ht.
  1: { destruct (links s !! c0); [done|]. simplify_eq. by cbn; rewrite lookup_insert_ne by congruence. }
  all: try (destruct (links s !! c0) as [l|] eqn:Hl; [|done]; destruct (busy l) eqn:Hb; try done; cbn [negb] in Hs).
  all: try (destruct (running_at (pool s) w) as [t|] eqn:Hw; [|done];
            destruct (links s !! job_conn (func t)) as [l|] eqn:Hl; [|done];
            destruct (job_at (func t)); try done; cbn [fmap option_fmap option_map] in Ht;
            assert (Hne : job_conn (func t) <> c) by congruence;
            destruct (live_running _ _ _ Hw) as (rest & Hp & Hgo & Hend);
            assert (Hgo' : forall a, captured c (progress_to (pool s) w t a) ≡ₚ captured c (pool s))
              by (intros a; eapply captured_other; [exact Hp|done|right; eexists; apply Hgo])).
  - simplify_eq. cbn [links pool]. by rewrite lookup_insert_ne by congruence.
  - destruct (decode_link _ _ _ _ _) as [[l' p']|] eqn:Hd; [|done]. simplify_eq. cbn [links pool].
    rewrite lookup_insert_ne by congruence. split; [done|]. revert Hd. unfold decode_link.
    destruct (tryDecode host _) as [[[m|] b]|e]; [|by intros [= _ <-]..].
    destruct (negb (is_request m)); [by intros [= _ <-]|]. destruct (lock_ (pool s)); [done|].
    pose proof (pool_submit (pool s) (mkJob c0 m Fresh) (si_pool _ _ _ s Hi)) as Hsub.
    destruct (submit (pool s) _) as [p1 [[]|e]]; intros [= _ <-]; [|by destruct Hsub as [-> _]].
    destruct Hsub as [_ Hsub]. unfold captured. rewrite Hsub, filter_cons_False; [done|]. cbn. congruence.
  - destruct (internal ps) eqn:Hps; [|done]. destruct (step (pool s) ps) as [p|] eqn:Hst; [|done]. cbn [negb] in Hs.
    simplify_eq. split; [done|]. apply captured_perm. by apply (step_internal _ _ _ (si_pool _ _ _ s Hi) Hps).
  - unfold serve_job in Hs. destruct (handleRequest _ _ _ _ _) as [[st1 [|f out]] [u|e]]; simplify_eq; cbn;
      rewrite ?lookup_insert_ne by done; auto.
  - case_bool_decide; simplify_eq; cbn; rewrite ?lookup_insert_ne by done; auto.
  - simplify_eq. cbn. rewrite lookup_insert_ne by done. auto.
  - destruct (step (pool s) (WorkerFinish w)) as [p|] eqn:Hst; [|done]. simplify_eq. split; [done|].
    eapply captured_other; [exact Hp|done|left]. by apply Hend.
  - destruct (functors l) as [|[m f] q]; [done|]. simplify_eq. cbn. by rewrite lookup_insert_ne by congruence.
  - simplify_eq. cbn. by rewrite lookup_insert_ne by congruence.
  - simplify_eq. cbn. by rewrite lookup_insert_ne by congruence.
Qed.

Lemma use_count_frame st0 s st s' c :
  server_inv host reg st0 s -> exec s st = Some s' -> target s st <> Some c ->
  (is_Some (links s' !! c) <-> is_Some (links s !! c)) /\ use_count s' c = use_count s c.
Proof.
  intros Hi Hs Ht. destruct (exec_frame st0 s st s' c Hi Hs Ht) as [Hl Hc].
  unfold use_count. rewrite Hl. split; [done|]. destruct (links s !! c); [|done]. by rewrite (Permutation_length Hc).
Qed.

(** A step that accesses a connection does so while it is held. *)
Lemma uses_held st0 s st s' c :
  server_inv host reg st0 s -> lives s -> reported s st = true -> exec s st = Some s' -> uses s st = Some c ->
  0 < use_count s c.
Proof.
  intros Hi Hlv Hr Hs Hu. destruct st as [c0 fd|c0 o|c0 o|ps|w|w|w|w|c0 o|c0 o|c0]; cbn [uses] in Hu; try done;
    simplify_eq; unfold use_count.
  all: try (cbn [reported] in Hr; destruct (links s !! c) as [l|] eqn:Hl; [|done];
            apply negb_true_iff in Hr; rewrite decide_False by (by eapply open_events, Hr; eapply Hlv); lia).
  1: { cbn [Pipeline.server_exec] in Hs. destruct (links s !! c) as [l|]; [|done].
       destruct (busy l); [lia|done]. }
  all: destruct (running_at (pool s) w) as [t|] eqn:Hw; [|done]; cbn in Hu; simplify_eq;
    destruct (live_running _ _ _ Hw) as (rest & Hp & _);
    destruct (si_job _ _ _ s Hi t) as ((l & -> & _) & _); [rewrite Hp; apply elem_of_cons; by left|];
    unfold captured; rewrite Hp, filter_cons_True by done; cbn [length]; lia.
Qed.

(** A functor of [send] changes neither the count, nor a closed connection: with the weak pointer it
    does what it does on a connection that was never destroyed. *)
Lemma functor_count s c o s' :
  exec s (PFunctor c o) = Some s' -> (is_Some (links s' !! c) <-> is_Some (links s !! c)) /\ use_count s' c = use_count s c.
Proof.
  cbn [Pipeline.server_exec]. unfold loop_step. destruct (links s !! c) as [l|] eqn:Hl; [|done].
  destruct (busy l) eqn:Hb; [done|]. destruct (functors l) as [|[m f] q]; [done|]. intros [= <-].
  unfold use_count. cbn [links pool]. rewrite lookup_insert_eq, Hl. split; [naive_solver|].
  assert (Hst : state_ (tcp (deliver (set_functors l q) m f o)) = state_ (tcp l)).
  { unfold deliver. case_bool_decide; cbn [add_late add_sent set_tcp tcp set_functors]; unfold sendInLoop;
      repeat (case_match; simplify_eq; try done). }
  assert (Hbb : busy (deliver (set_functors l q) m f o) = busy l) by (unfold deliver; by case_bool_decide).
  rewrite Hbb. by destruct (decide (closed (tcp l))) as [Hd|Hd], (decide (closed (tcp (deliver _ _ _ _)))) as [Hd'|Hd'];
    unfold closed in *; congruence.
Qed.

Lemma weak_exec_same s st : lives s -> weak_exec s st = exec s st.
Proof.
  intros Hs. destruct st as [| | | | | | | |c o| |]; try done. cbn [weak_exec].
  destruct (Nat.eqb_spec (use_count s c) 0) as [Hc|_]; [|done]. cbn [Pipeline.server_exec].
  unfold loop_step. destruct (links s !! c) as [l|] eqn:Hl; [|done]. destruct (busy l); [done|].
  destruct (functors l) as [|[m f] q]; [done|]. do 4 f_equal.
  unfold use_count in Hc. rewrite Hl in Hc. destruct (decide (closed (tcp l))) as [Hd|]; [|lia].
  unfold deliver, sendInLoop. cbn [set_functors tcp busy]. rewrite !bool_decide_eq_true_2 by done. by destruct l.
Qed.

(** *** The invariant *)

Record heap_inv (st0 : St) (h : Heap) : Prop := {
  hp_server : server_inv host reg st0 (sys h);
  hp_lives : lives (sys h);
  hp_once : NoDup (map fst (freed h));
  hp_freed : forall c, c ∈ map fst (freed h) <-> is_Some (links (sys h) !! c) /\ use_count (sys h) c = 0;
}.

Lemma freed_target s s' st c :
  target s st = Some c -> c ∈ map fst (destroyed s s' st) <-> 0 < use_count s c /\ use_count s' c = 0.
Proof.
  intros Ht. unfold destroyed. rewrite Ht. destruct (Nat.ltb_spec 0 (use_count s c)), (Nat.eqb_spec (use_count s' c) 0);
    cbn; rewrite ?elem_of_cons, ?elem_of_nil; naive_solver lia.
Qed.

Lemma freed_other s s' st c : target s st <> Some c -> c ∉ map fst (destroyed s s' st).
Proof.
  unfold destroyed. destruct (target s st) as [c0|]; [|intros _ ?%elem_of_nil; done]. intros Hne.
  destruct (_ && _); cbn; rewrite ?elem_of_cons, ?elem_of_nil; naive_solver.
Qed.

(** A destroyed connection does not come back. *)
Lemma target_count st0 s st s' c :
  server_inv host reg st0 s -> lives s -> reported s st = true -> exec s st = Some s' -> target s st = Some c ->
  is_Some (links s' !! c) /\ (is_Some (links s !! c) -> use_count s c = 0 -> use_count s' c = 0) /\
  (links s !! c = None -> 0 < use_count s' c).
Proof.
  intros Hi Hlv Hr Hs Ht. destruct (uses s st) as [c1|] eqn:Hu.
  - assert (c1 = c) as -> by (destruct st; cbn [target uses] in *; congruence).
    pose proof (uses_held st0 s st s' c Hi Hlv Hr Hs Hu) as Hpos.
    assert (Hl : is_Some (links s !! c)) by (unfold use_count in Hpos; destruct (links s !! c); [done|lia]).
    split; [|split; [intros; lia|intros Hn; by rewrite Hn in Hl; destruct Hl]].
    destruct Hl as [l Hl]. destruct st; cbn [Pipeline.server_exec uses] in *; try done;
      unfold loop_step, job_step, serve_job in *; repeat (case_match; simplify_eq; try done);
      cbn [links]; rewrite ?lookup_insert_is_Some'; eauto.
  - destruct st as [c0 fd| | | | | | | |c0 o| |]; try (cbn [target] in Ht; congruence);
      cbn [target] in Ht; simplify_eq.
    + cbn [Pipeline.server_exec] in Hs. destruct (links s !! c) eqn:Hl; [done|]. simplify_eq.
      unfold use_count. cbn [links]. rewrite lookup_insert_eq. split; [eauto|]. split; [by intros [? [=]]|].
      intros _. rewrite decide_False by (unfold closed; done). lia.
    + destruct (functor_count s c o s' Hs) as [Hl Hc]. rewrite Hl, Hc.
      assert (Hsome : is_Some (links s !! c)).
      { cbn [Pipeline.server_exec] in Hs. unfold loop_step in Hs. by destruct (links s !! c). }
      split; [done|]. split; [done|]. intros Hn. rewrite Hn in Hsome. by destruct Hsome.
Qed.

Lemma heap_exec_inv st0 h st h' : heap_inv st0 h -> heap_exec h st = Some h' -> heap_inv st0 h'.
Proof.
  intros [Hi Hlv Hnd Hf]. unfold heap_exec. destruct (reported (sys h) st) eqn:Hr; [|done]. cbn [negb].
  rewrite weak_exec_same by done. destruct (exec (sys h) st) as [s'|] eqn:Hs; [|done]. intros [= <-].
  assert (Hsep : forall c, c ∈ map fst (freed h) -> c ∉ map fst (destroyed (sys h) s' st)).
  { intros c [_ Hc]%Hf Hd. destruct (decide (target (sys h) st = Some c)) as [Ht|Hne].
    - apply (freed_target _ _ _ _ Ht) in Hd. lia.
    - by eapply freed_other. }
  split; cbn [sys freed]; [by eapply server_exec_inv|by eapply exec_lives| |].
  - rewrite map_app. apply list.NoDup_app. split; [done|]. split; [done|]. unfold destroyed.
    repeat case_match; try apply base.NoDup_nil_2. apply NoDup_singleton.
  - intros c. rewrite map_app, elem_of_app, Hf. destruct (decide (target (sys h) st = Some c)) as [Ht|Hne].
    + rewrite (freed_target _ _ _ _ Ht).
      destruct (target_count st0 (sys h) st s' c Hi Hlv Hr Hs Ht) as (Hl & H0 & Hn).
      split; [naive_solver|]. intros [_ Hc]. destruct (links (sys h) !! c) eqn:Hl0; [|specialize (Hn eq_refl); lia].
      destruct (decide (use_count (sys h) c = 0)); [left; eauto|right; lia].
    + destruct (use_count_frame st0 (sys h) st s' c Hi Hs Hne) as [Hl Hc]. rewrite Hl, Hc.
      split; [|tauto]. intros [?|Hd]; [done|]. by apply freed_other in Hd.
Qed.

Lemma heap_run_same st0 h ss h' :
  heap_inv st0 h -> h =[ heap_exec | ss ]=> h' -> heap_inv st0 h' /\ sys h =[ exec | ss ]=> sys h'.
Proof.
  revert h. induction ss as [|st ss IH]; intros h Hh; cbn [steps]; [by intros [= <-]|].
  destruct (heap_exec h st) as [h1|] eqn:He; [|done]. intros Hrun.
  destruct (IH h1) as [Hh' Hrun']; [by eapply heap_exec_inv|done|]. split; [done|].
  revert He. unfold heap_exec. destruct (negb _); [done|]. rewrite weak_exec_same by apply Hh.
  destruct (exec (sys h) st) as [s1|]; [|done]. by intros [= <-].
Qed.

(** The destructor, when its channel waits for nothing. *)
Lemma destroy_silent nt p c :
  mirror nt -> chans nt !! p = Some c -> events_ c = 0%Z -> poller (TcpConnection_destroy nt p (ch_fd c)) = poller nt.
Proof.
  intros Hm Hp He. unfold TcpConnection_destroy, close_fd, destroy, change. rewrite Hp. cbn [poller].
  rewrite updateChannel_registered by done. destruct Hm as (_ & Hu & Hch & Hint). unfold registered.
  cbn [new_events kNoneEvent Z.eqb channels_ interest errors].
  assert (Hno : interest (poller nt) !! ch_fd c = None).
  { destruct (interest (poller nt) !! ch_fd c) as [[e q]|] eqn:Hi; [|done].
    apply Hint in Hi as (d & Hd & Hfd & Hev & Hne & _). assert (q = p) as -> by (by eapply Hu). congruence. }
  pose proof (Hch (ch_fd c)) as Hno'. rewrite Hno in Hno'. cbn in Hno'.
  rewrite (delete_id _ _ Hno'), !(delete_id _ _ Hno). by destruct (poller nt).
Qed.

(** The count of a connection, by what holds it. *)
Lemma use_count_zero s c :
  lives s ->
  is_Some (links s !! c) /\ use_count s c = 0 <->
  exists l, links s !! c = Some l /\ closed (tcp l) /\
    forall t, t ∈ live_tasks (pool s) -> job_conn (func t) <> c.
Proof.
  intros Hlv. unfold use_count, captured. destruct (links s !! c) as [l|] eqn:Hl; [|split; [by intros [[? [=]] _]|naive_solver]].
  destruct (Hlv c l Hl) as (_ & _ & Hb). split.
  - intros [_ Hc]. exists l. split; [done|]. destruct (decide (closed (tcp l))); [|lia]. split; [done|].
    intros t Ht Hj.
    assert (Hin : t ∈ filter (fun t => job_conn (func t) = c) (live_tasks (pool s))) by (by apply list_elem_of_filter).
    destruct (filter (fun t => job_conn (func t) = c) (live_tasks (pool s))); [by apply elem_of_nil in Hin|cbn in Hc; lia].
  - intros (l0 & [= <-] & Hc & Hno). split; [eauto|]. rewrite decide_True by done.
    destruct (busy l); [by destruct (Hb eq_refl)|]. 
    assert (Hnil : filter (fun t => job_conn (func t) = c) (live_tasks (pool s)) = []).
    { apply elem_of_nil_inv. intros t [Hj Ht]%list_elem_of_filter. by apply (Hno t). }
    by rewrite Hnil.
Qed.

End Reclaim.

(** ** Theorems *)

Section Theorems.
Context (host : endian) `{EnvelopeLaws} {SMsg St : Type}.
Context (loop : loop_id) (name : bytes) (ioThreads n : nat) (services : list (Service SMsg St)).
Context (spawn : nat -> loop_id) (st0 : St).
Abbreviation the_server := (configured loop name ioThreads n services).
Abbreviation the_registry := (registry_ the_server).
Abbreviation booted := (Server_start (start spawn the_server) st0).
Abbreviation exec := (Pipeline.server_exec host the_registry).
Abbreviation hexec := (heap_exec host the_registry).

Lemma booted_heap : heap_inv host the_registry st0 (mkHeap booted []).
Proof.
  split; cbn [sys freed map].
  - by eapply (run_server_inv host loop name ioThreads n services spawn st0 []).
  - intros c l. cbn. by rewrite lookup_empty.
  - apply base.NoDup_nil_2.
  - intros c. rewrite elem_of_nil. cbn. rewrite lookup_empty. split; [done|]. by intros [[? [=]] _].
Qed.

(** What the server's own threads do needs no event of epoll. *)
Lemma productive_reported (s : Server St) st : productive st = true -> reported s st = true.
Proof. by destruct st. Qed.

Lemma heap_follows h ss s' :
  heap_inv host the_registry st0 h -> Forall (fun st => productive st = true) ss -> sys h =[ exec | ss ]=> s' ->
  exists h', h =[ hexec | ss ]=> h' /\ sys h' = s' /\ heap_inv host the_registry st0 h'.
Proof.
  intros Hh Hss. revert h Hh. induction Hss as [|st ss Hp _ IH]; intros h Hh; cbn [steps].
  { intros [= <-]. by exists h. }
  destruct (exec (sys h) st) as [s1|] eqn:Hs; [|done]. intros Hrun.
  assert (He : hexec h st = Some (mkHeap s1 (freed h ++ destroyed (sys h) s1 st))).
  { unfold heap_exec. rewrite productive_reported by done. cbn [negb].
    rewrite weak_exec_same by apply Hh. by rewrite Hs. }
  rewrite He. apply IH; [|exact Hrun]. by eapply heap_exec_inv.
Qed.

(** C26. Connections are destroyed once, and not while they are used. In any interleaving of the
    started server, with [send]'s functors holding weak pointers, the server does what it does if
    no connection is ever destroyed; a connection is destroyed at most once, and has been exactly
    when it is closed and no task of the pool has captured it; no callback, decoding loop or task
    begins a step on a destroyed connection; and the destructor, on whichever thread it runs,
    finds nothing registered: its [disableAll()] and the close of the socket leave the poller and
    epoll's interest list as they are. (What [handleEvent] goes on to read after the callback is in [Lifetime].) *)
Theorem connections_destroyed_once (ss : list server_step) (h : Heap)
  (Hrun : mkHeap booted [] =[ hexec | ss ]=> h) :
  booted =[ exec | ss ]=> sys h /\
  NoDup (map fst (freed h)) /\
  (forall c, c ∈ map fst (freed h) <->
     exists l, links (sys h) !! c = Some l /\ closed (tcp l) /\
       forall t, t ∈ live_tasks (pool (sys h)) -> job_conn (func t) <> c) /\
  (forall st h' c, hexec h st = Some h' -> uses (sys h) st = Some c -> c ∉ map fst (freed h)) /\
  (forall c l nt p, c ∈ map fst (freed h) -> links (sys h) !! c = Some l ->
     mirror nt -> chans nt !! p = Some (channel_ (tcp l)) ->
     poller (TcpConnection_destroy nt p (ch_fd (channel_ (tcp l)))) = poller nt).
Proof.
  destruct (heap_run_same host the_registry st0 _ ss h booted_heap Hrun) as [[Hi Hlv Hnd Hf] Hrun'].
  split; [exact Hrun'|]. split; [done|]. split; [|split].
  - intros c. rewrite Hf. by apply use_count_zero.
  - intros st h' c He Hu [_ Hz]%Hf. revert He. unfold heap_exec. destruct (reported (sys h) st) eqn:Hr; [|done].
    cbn [negb]. rewrite weak_exec_same by done. destruct (exec (sys h) st) as [s'|] eqn:Hs; [|done]. intros _.
    pose proof (uses_held host the_registry st0 (sys h) st s' c Hi Hlv Hr Hs Hu). lia.
  - intros c l nt p Hc Hl Hm Hp. apply Hf, (use_count_zero (sys h) c Hlv) in Hc as (l0 & Hl0 & Hcl & _).
    destruct (Hlv c l0 Hl0) as ((_ & He) & _). rewrite Hl in Hl0. injection Hl0 as <-.
    apply destroy_silent; [done|done|]. apply He. by left.
Qed.

(** C27. No connection leaks: from every state a started server with at least one worker reaches
    before its destructor, its threads come to rest by their own steps, and there every connection
    closed is destroyed. *)
Theorem closed_connections_freed (ss : list server_step) (h : Heap)
  (Hn : 0 < n) (Hlive : Forall (fun st => destroys st = false) ss)
  (Hrun : mkHeap booted [] =[ hexec | ss ]=> h) :
  exists ss' h', Forall (fun st => productive st = true) ss' /\ h =[ hexec | ss' ]=> h' /\ at_rest (sys h') /\
    forall c l, links (sys h') !! c = Some l -> closed (tcp l) -> c ∈ map fst (freed h').
Proof.
  destruct (heap_run_same host the_registry st0 _ ss h booted_heap Hrun) as [Hh Hrun'].
  destruct (working_settles host loop name ioThreads n services spawn st0 (sys h)) as (ss' & s' & Hp & Hs & Hr).
  { by eapply working_run. }
  { done. }
  destruct (heap_follows h ss' s' Hh Hp Hs) as (h' & Hgo & <- & [Hi Hlv _ Hf]).
  exists ss', h'. split; [done|]. split; [done|]. split; [done|]. intros c l Hl Hc.
  apply Hf, (use_count_zero (sys h') c Hlv). exists l. split; [done|]. split; [done|].
  destruct Hr as [_ ->]. by intros t ?%elem_of_nil.
Qed.

End Theorems.

(** ** Witnesses *)

Module ReclaimSamples.
Import SampleEnvelope RpcServer.Samples Pipeline.Loop.

(** The client sends a request and goes; the task of the request ends after the connection is
    closed. *)
Definition hangup : list server_step :=
  take 10 (exchange (lit "hi")) ++ [PServe 0; PRead 5 (ReadOk []); PTest 0; PReturn 0].
Abbreviation hexec := (heap_exec BigEndian (registry_ sample_server)).
Definition hung_up : Heap :=
  default (mkHeap sample_booted []) (steps hexec (mkHeap sample_booted []) hangup).

Lemma hung_up_run : mkHeap sample_booted [] =[ hexec | hangup ]=> hung_up.
Proof. apply steps_default. vm_compute. reflexivity. Qed.

(** The destructor ran on the pool's thread, which then is the one that looks into the poller's
    table, without a lock. *)
Lemma destroyed_on_pool_thread : freed hung_up = [(5, PoolThread 0)].
Proof. vm_compute. reflexivity. Qed.

(** When the task ends first, it runs on the loop's. *)
Lemma destroyed_on_loop_thread :
  freed <$> steps hexec (mkHeap sample_booted []) (exchange (lit "hi") ++ [PClose 5]) = Some [(5, LoopThread)].
Proof. vm_compute. reflexivity. Qed.

Lemma connections_destroyed_once_witness :
  freed hung_up = [(5, PoolThread 0)] /\
  exists l, links (sys hung_up) !! 5 = Some l /\ closed (tcp l) /\
    forall t, t ∈ live_tasks (pool (sys hung_up)) -> job_conn (func t) <> 5.
Proof.
  split; [exact destroyed_on_pool_thread|].
  destruct (connections_destroyed_once BigEndian 0 (lit "echo") 0 1 [sample_service] (fun i => i) 0
              hangup hung_up hung_up_run) as (_ & _ & Hf & _).
  apply Hf. rewrite destroyed_on_pool_thread. by left.
Defined.

Lemma closed_connections_freed_witness :
  exists ss' h', Forall (fun st => productive st = true) ss' /\ hung_up =[ hexec | ss' ]=> h' /\ at_rest (sys h') /\
    forall c l, links (sys h') !! c = Some l -> closed (tcp l) -> c ∈ map fst (freed h').
Proof.
  apply (closed_connections_freed BigEndian 0 (lit "echo") 0 1 [sample_service] (fun i => i) 0 hangup hung_up).
  - apply Nat.lt_0_1.
  - vm_compute. repeat constructor.
  - exact hung_up_run.
Defined.

End ReclaimSamples.
