(* ===== verification/Reactor.v ===== *)
(** The server with its event loops: [Pipeline] leaves open when a loop serves which connection and
    keeps the functors of [send] per connection; here every loop is an [EventLoop]
    (src/net/EventLoop.cpp) that dispatches the events of its connections and runs its own queue of
    functors, those of [TcpConnection::send] (src/net/TcpConnection.cpp) and those of
    [TcpServer::handleNewConnection] (src/net/TcpServer.cpp). It refines [Pipeline]. *)
From stdpp Require Import base list gmap strings numbers functions.
From Stdlib Require Import Ascii ZArith Lia.
From S2P Require Import Prelude Bytes Common Buffer Codec Controller Service RpcServer Inet.
From S2P Require Import RpcChannel System ThreadPool TcpServer Poller TcpConnection Pipeline Reclaim EventLoop.

(** ** Functors *)

(** [[conn] { conn->connectEstablished(); }] and [[weak, msg] { ... conn->sendInLoop(msg); }]; what
    the second captured is in the [functors] of its connection. *)
Inductive closure_of :=
| Establish (c : nat)
| Reply (c : nat).

Definition identity (f : closure_of) : nat :=
  match f with Establish c => 2 * c | Reply c => 2 * c + 1 end.
Definition closure_at (k : nat) : closure_of :=
  if Nat.even k then Establish (Nat.div2 k) else Reply (Nat.div2 k).

Lemma closure_at_identity f : closure_at (identity f) = f.
Proof.
  unfold closure_at, identity. destruct f as [c|c].
  - by rewrite Nat.even_even, Nat.div2_double.
  - by rewrite Nat.even_odd, Nat.add_1_r, Nat.div2_succ_double.
Qed.

Lemma identity_closure_at k : identity (closure_at k) = k.
Proof.
  unfold closure_at, identity. pose proof (Nat.div2_odd k) as Hk. rewrite <- Nat.negb_even in Hk.
  destruct (Nat.even k); cbn in *; lia.
Qed.

Lemma identity_inj f g : identity f = identity g -> f = g.
Proof. intros He. by rewrite <- (closure_at_identity f), He, closure_at_identity. Qed.

#[export] Instance closure_of_eq_dec : EqDecision closure_of.
Proof. solve_decision. Defined.

(** The connection of a functor. *)
Definition conn_of (f : closure_of) : nat := match f with Establish c | Reply c => c end.

(** The functors a loop has still to run. *)
Definition left_to_run (l : EventLoop) : list Functor := taken (at_ l) ++ pendingFunctors_ l.
Definition count (f : closure_of) (fs : list Functor) : nat :=
  length (filter (fun g => fid g = identity f) fs).

(** What a loop does on its own (the end of [doPendingFunctors] included), and other threads' wakeups
    and [quit()]. *)
Definition control (l : EventLoop) (s : step_label) : bool :=
  match s with
  | LoopQueue _ | OtherPush _ => false
  | LoopRunFunctor => match at_ l with Running [] => true | _ => false end
  | _ => true
  end.
Definition own (s : step_label) : bool := match s with OtherQuit | OtherWakeup => false | _ => true end.
Definition dispatching (p : phase) : bool := match p with Dispatching _ => true | _ => false end.

(** ** The server *)

Section Reactor.
Context (host : endian) `{Henv : EnvelopeLaws} {SMsg St : Type} (reg : ServiceRegistry SMsg St).
Abbreviation exec := (Pipeline.server_exec host reg).

(** The loop the server listens in, and that of each connection ([TcpServer.home]). *)
Context (main : nat) (home : nat -> nat).

(** [accepted]: the descriptors of all connections, in the order of their numbers. *)
Record Reactor := mkReactor {
  sys : Server St;
  loop_at : nat -> EventLoop;
  accepted : list Z;
}.
Implicit Type r : Reactor.

(** The loop is in none of its connections' message callbacks. *)
Definition outside r (i : nat) : bool :=
  bool_decide (map_Forall (fun c l => home c = i -> busy l = false) (links (sys r))).

Inductive reactor_step :=
| RLoop (i : nat) (s : step_label)
| RAccept (fd : Z)
| REvent (c : nat) (st : server_step)
| RFunctor (i : nat) (o : write_outcome)
| RPool (st : server_step)
| RPush (w : nat).

(** The step of the server a loop makes for the connection [c] while it dispatches events. *)
Definition event_of (c : nat) (st : server_step) : bool :=
  match st with PRead c' _ | PDecode c' _ | PWritable c' _ | PClose c' => c' =? c | _ => false end.
Definition decodes (st : server_step) : bool := match st with PDecode _ _ => true | _ => false end.
Definition by_pool (st : server_step) : bool :=
  match st with PPool _ | PServe _ | PTest _ | PReturn _ => true | _ => false end.

Definition with_sys r (s : option (Server St)) (ls : nat -> EventLoop) : option Reactor :=
  match s with Some s => Some (mkReactor s ls (accepted r)) | None => None end.

(** [queueInLoop] of another thread: the push; the wakeup is [OtherWakeup]. *)
Definition post r (i : nat) (f : closure_of) : nat -> EventLoop :=
  <[i := set_owed (S (owed (loop_at r i))) (push_functor (mkFunctor (identity f) true) (loop_at r i))]> (loop_at r).

(** The server's part of a functor. *)
Definition run_closure r (f : closure_of) (o : write_outcome) : server_step :=
  match f with Establish c => PAccept c (nth c (accepted r) 0%Z) | Reply c => PFunctor c o end.

(** [None]: not possible now. *)
Definition reactor_exec r (st : reactor_step) : option Reactor :=
  match st with
  | RLoop i s =>
      let l := loop_at r i in
      if control l s && (negb (own s) || outside r i) then
        match loop_step l s with
        | Some l' => Some (mkReactor (sys r) (<[i := l']> (loop_at r)) (accepted r))
        | None => None
        end
      else None
  | RAccept fd =>
      if dispatching (at_ (loop_at r main)) && outside r main then
        let c := length (accepted r) in
        if decide (home c = main) then
          match exec (sys r) (PAccept c fd) with
          | Some s => Some (mkReactor s (loop_at r) (accepted r ++ [fd]))
          | None => None
          end
        else Some (mkReactor (sys r) (post r (home c) (Establish c)) (accepted r ++ [fd]))
      else None
  | REvent c st =>
      if event_of c st && dispatching (at_ (loop_at r (home c))) && (decodes st || outside r (home c))
      then with_sys r (exec (sys r) st) (loop_at r) else None
  | RFunctor i o =>
      match at_ (loop_at r i), loop_step (loop_at r i) LoopRunFunctor with
      | Running (f :: _), Some l' =>
          with_sys r (exec (sys r) (run_closure r (closure_at (fid f)) o)) (<[i := l']> (loop_at r))
      | _, _ => None
      end
  | RPool st => if by_pool st then with_sys r (exec (sys r) st) (loop_at r) else None
  | RPush w =>
      match running_at (pool (sys r)) w with
      | Some t =>
          let c := job_conn (func t) in
          with_sys r (exec (sys r) (PQueue w)) (post r (home c) (Reply c))
      | None => None
      end
  end.

(** The steps of [Pipeline] a step makes. *)
Definition pipeline_steps r (st : reactor_step) : list server_step :=
  match st with
  | RLoop _ _ => []
  | RAccept fd =>
      let c := length (accepted r) in if decide (home c = main) then [PAccept c fd] else []
  | REvent _ st | RPool st => [st]
  | RFunctor i o =>
      match at_ (loop_at r i) with
      | Running (f :: _) => [run_closure r (closure_at (fid f)) o]
      | _ => []
      end
  | RPush w => [PQueue w]
  end.

(** ** Lemmas *)

(** *** The loops *)

Lemma count_app f fs fs' : count f (fs ++ fs') = count f fs + count f fs'.
Proof. unfold count. by rewrite list.filter_app, length_app. Qed.

Lemma count_cons f g fs : count f (g :: fs) = (if decide (fid g = identity f) then 1 else 0) + count f fs.
Proof. unfold count. rewrite list.filter_cons. by case_decide. Qed.

Lemma control_spec l s l' :
  control l s = true -> loop_step l s = Some l' ->
  left_to_run l' = left_to_run l /\ (own s = false -> at_ l' = at_ l).
Proof.
  unfold_step. intros Hc Hs. destruct l as [lo qu pe wa ow ph ex]. unfold left_to_run.
  destruct s; try discriminate Hc; cbn [control at_ pendingFunctors_ wakeups owed executed looping_ quit_ set_phase taken] in *;
    step_cases; cbn [app own]; rewrite ?app_nil_r; by split.
Qed.

Lemma run_functor_spec l f fs l' :
  at_ l = Running (f :: fs) -> loop_step l LoopRunFunctor = Some l' ->
  at_ l' = Running fs /\ pendingFunctors_ l' = pendingFunctors_ l.
Proof. intros Ha. unfold loop_step. rewrite Ha. by intros [= <-]. Qed.

Lemma post_left r i f j :
  left_to_run (post r i f j) = left_to_run (loop_at r j) ++ (if decide (j = i) then [mkFunctor (identity f) true] else []).
Proof.
  unfold post. destruct (decide (j = i)) as [->|Hne].
  - rewrite fn_lookup_insert. unfold left_to_run. cbn. by rewrite app_assoc.
  - rewrite fn_lookup_insert_ne by done. by rewrite app_nil_r.
Qed.

Lemma post_at r i f j : at_ (post r i f j) = at_ (loop_at r j).
Proof.
  unfold post. destruct (decide (j = i)) as [->|Hne]; [by rewrite fn_lookup_insert|by rewrite fn_lookup_insert_ne].
Qed.

(** *** The connections *)

(** What the loops know of a connection. *)
Definition view (l : Link) : list (ProtocolMessage * bytes) * bool := (functors l, busy l).
Definition viewed (s : Server St) (c : nat) : option (list (ProtocolMessage * bytes) * bool) := view <$> links s !! c.

Lemma viewed_set s c l p q c' :
  viewed (mkServer (<[c := l]> (links s)) p q) c' = if decide (c = c') then Some (view l) else viewed s c'.
Proof. unfold viewed. cbn [links]. rewrite lookup_insert. by case_decide. Qed.

Lemma viewed_same s c l l' p q c' :
  links s !! c = Some l -> view l' = view l -> viewed (mkServer (<[c := l']> (links s)) p q) c' = viewed s c'.
Proof. intros Hl Hv. rewrite viewed_set. case_decide; [|done]. subst. unfold viewed. by rewrite Hl, Hv. Qed.

Lemma decode_functors c l p o l' p' : decode_link host c l p o = Some (l', p') -> functors l' = functors l.
Proof.
  unfold decode_link, refuse, deliver. intros Hd. by repeat (case_match; simplify_eq; try done).
Qed.

(** An event of the connection [c]. *)
Lemma event_view s c st s' c' :
  event_of c st = true -> exec s st = Some s' ->
  (c' <> c -> viewed s' c' = viewed s c') /\
  exists q b b', viewed s c = Some (q, b) /\ viewed s' c = Some (q, b') /\ (decodes st = true -> b = true).
Proof.
  intros He Hs. assert (Hset : forall l l' p q,
    links s !! c = Some l -> functors l' = functors l -> (decodes st = true -> busy l = true) ->
    let s1 := mkServer (<[c := l']> (links s)) p q in
    (c' <> c -> viewed s1 c' = viewed s c') /\
    exists q b b', viewed s c = Some (q, b) /\ viewed s1 c = Some (q, b') /\ (decodes st = true -> b = true)).
  { intros l l' p q Hl Hf Hd. cbn zeta. rewrite !viewed_set. split; [intros Hne; rewrite decide_False by congruence; done|].
    rewrite decide_True by done. exists (functors l), (busy l), (busy l'). unfold viewed, view. by rewrite Hl, Hf. }
  destruct st; try done; cbn [event_of] in He; apply Nat.eqb_eq in He as ->;
    cbn [Pipeline.server_exec] in Hs; unfold Pipeline.loop_step in Hs; destruct (links s !! c) as [l|] eqn:Hl; try done;
    destruct (busy l) eqn:Hb; try done; cbn [negb] in Hs.
  - simplify_eq. apply (Hset l); try done. unfold read_link. by repeat case_match.
  - destruct (decode_link _ _ _ _ _) as [[l' p']|] eqn:Hd; [|done]. simplify_eq. apply (Hset l); try done.
    by apply decode_functors in Hd.
  - simplify_eq. by apply (Hset l).
  - simplify_eq. by apply (Hset l).
Qed.

(** A step of the pool. *)
Lemma pool_view s st s' c : by_pool st = true -> exec s st = Some s' -> viewed s' c = viewed s c.
Proof.
  intros Hp Hs. destruct st; try done; cbn [Pipeline.server_exec] in Hs; unfold job_step, serve_job in Hs;
    repeat (case_match; simplify_eq; try done); by eapply viewed_same.
Qed.

Lemma queue_view s w t s' c :
  running_at (pool s) w = Some t -> exec s (PQueue w) = Some s' ->
  (c <> job_conn (func t) -> viewed s' c = viewed s c) /\
  exists q b mf, viewed s (job_conn (func t)) = Some (q, b) /\ viewed s' (job_conn (func t)) = Some (q ++ [mf], b).
Proof.
  intros Hw Hs. cbn [Pipeline.server_exec] in Hs. unfold job_step in Hs. rewrite Hw in Hs.
  destruct (links s !! job_conn (func t)) as [l|] eqn:Hl; [|done]. destruct (job_at (func t)); try done. simplify_eq.
  rewrite !viewed_set. split; [intros Hne; rewrite decide_False by congruence; done|]. rewrite decide_True by done.
  exists (functors l), (busy l). eexists. split; [unfold viewed; by rewrite Hl|reflexivity].
Qed.

(** A functor of [send] finds what it captured, when the loop is outside the callback. *)
Lemma functor_view s c o m f q :
  viewed s c = Some ((m, f) :: q, false) ->
  exists s', exec s (PFunctor c o) = Some s' /\ viewed s' c = Some (q, false) /\
    (forall c', c' <> c -> links s' !! c' = links s !! c') /\
    forall l, links s !! c = Some l -> exists l', links s' !! c = Some l' /\
      (closed (tcp l') <-> closed (tcp l)) /\ (~ closed (tcp l) -> sent_ l' = sent_ l ++ [(m, f)]).
Proof.
  unfold viewed, view. destruct (links s !! c) as [l|] eqn:Hl; [|done]. cbn. intros [= Hq Hb].
  unfold Pipeline.loop_step. rewrite Hl, Hb, Hq. eexists. split; [reflexivity|]. cbn [links].
  rewrite lookup_insert_eq. split; [unfold deliver; case_bool_decide; cbn; by rewrite Hb|].
  split; [intros c' Hne; by rewrite lookup_insert_ne|]. intros l0 [= <-]. eexists. split; [reflexivity|].
  assert (Hst : state_ (sendInLoop (tcp l) f o) = state_ (tcp l))
    by (unfold sendInLoop; repeat (case_match; simplify_eq; try done)).
  unfold deliver, closed. cbn [set_functors tcp busy]. case_bool_decide; cbn; by rewrite Hst.
Qed.

(** *** The invariant *)

(** How often a functor waits in the loop of its connection. *)
Definition due r (f : closure_of) : nat :=
  match viewed (sys r) (conn_of f) with
  | Some (q, _) => match f with Reply _ => length q | Establish _ => 0 end
  | None => match f with Reply _ => 0 | Establish c => if c <? length (accepted r) then 1 else 0 end
  end.

Record reactor_inv (st0 : St) r : Prop := {
  ri_server : server_inv host reg st0 (sys r);
  ri_loops : forall i, exists es, EventLoop_new =[ loop_step | es ]=> loop_at r i;
  ri_remote : forall i f, f ∈ left_to_run (loop_at r i) -> remote f = true;
  ri_due : forall i f, count f (left_to_run (loop_at r i)) = if decide (i = home (conn_of f)) then due r f else 0;
  ri_linked : forall c, is_Some (viewed (sys r) c) -> c < length (accepted r);
  ri_busy : forall c q, viewed (sys r) c = Some (q, true) -> dispatching (at_ (loop_at r (home c))) = true;
  ri_one : forall c c' q q', viewed (sys r) c = Some (q, true) -> viewed (sys r) c' = Some (q', true) ->
    home c = home c' -> c = c';
}.

Lemma outside_spec r i c q b :
  outside r i = true -> viewed (sys r) c = Some (q, b) -> home c = i -> b = false.
Proof.
  unfold outside, viewed, view. intros Ho%bool_decide_eq_true Hv Hi.
  destruct (links (sys r) !! c) as [l|] eqn:Hl; [|done]. cbn in Hv. injection Hv as _ <-. by apply (Ho c l).
Qed.

Lemma count_post r i g j f :
  count f (left_to_run (post r i g j)) =
  count f (left_to_run (loop_at r j)) + (if decide (j = i /\ g = f) then 1 else 0).
Proof.
  rewrite post_left, count_app. f_equal. destruct (decide (j = i)) as [->|Hne]; [|by rewrite decide_False by tauto].
  rewrite count_cons. cbn [fid]. unfold count. cbn [filter list_filter length]. rewrite Nat.add_0_r.
  destruct (decide (g = f)) as [->|Hg]; [by rewrite !decide_True|].
  rewrite !decide_False; [done|tauto|]. by intros ?%identity_inj.
Qed.

Lemma post_loops st0 r i f j :
  reactor_inv st0 r -> exists es, EventLoop_new =[ loop_step | es ]=> post r i f j.
Proof.
  intros Hi. destruct (ri_loops _ _ Hi j) as [es Hes]. unfold post. destruct (decide (j = i)) as [->|Hne].
  - exists (es ++ [OtherPush (identity f)]). rewrite fn_lookup_insert. apply steps_app. by exists (loop_at r i).
  - exists es. by rewrite fn_lookup_insert_ne.
Qed.

Lemma step_loops st0 r i s l' j :
  reactor_inv st0 r -> loop_step (loop_at r i) s = Some l' ->
  exists es, EventLoop_new =[ loop_step | es ]=> (<[i := l']> (loop_at r) : nat -> EventLoop) j.
Proof.
  intros Hi Hs. destruct (ri_loops _ _ Hi j) as [es Hes]. destruct (decide (j = i)) as [->|Hne].
  - exists (es ++ [s]). rewrite fn_lookup_insert. apply steps_app. exists (loop_at r i). split; [done|]. cbn. by rewrite Hs.
  - exists es. by rewrite fn_lookup_insert_ne.
Qed.

Lemma post_remote st0 r i f j g :
  reactor_inv st0 r -> g ∈ left_to_run (post r i f j) -> remote g = true.
Proof.
  intros Hi. rewrite post_left, elem_of_app. intros [Hg|Hg]; [by eapply ri_remote|].
  case_decide; [|by apply elem_of_nil in Hg]. by apply list_elem_of_singleton in Hg as ->.
Qed.

Lemma loop_inv st0 r i s l' :
  reactor_inv st0 r -> control (loop_at r i) s = true -> negb (own s) || outside r i = true ->
  loop_step (loop_at r i) s = Some l' ->
  reactor_inv st0 (mkReactor (sys r) (<[i := l']> (loop_at r)) (accepted r)).
Proof.
  intros Hi Hc Ho Hs. destruct (control_spec _ _ _ Hc Hs) as [Hleft Hat].
  assert (Hsame : forall j, left_to_run ((<[i := l']> (loop_at r) : nat -> EventLoop) j) = left_to_run (loop_at r j)).
  { intros j. destruct (decide (j = i)) as [->|]; [by rewrite fn_lookup_insert|by rewrite fn_lookup_insert_ne]. }
  split; cbn [sys loop_at accepted]; try apply Hi.
  - intros j. by eapply step_loops.
  - intros j f. rewrite Hsame. by eapply ri_remote.
  - intros j f. rewrite Hsame. by apply (ri_due _ _ Hi).
  - intros c q Hv. destruct (decide (home c = i)) as [Hh|Hne].
    + destruct (own s); [by pose proof (outside_spec _ _ _ _ _ Ho Hv Hh)|].
      rewrite Hh, fn_lookup_insert, Hat by done. rewrite <- Hh. by eapply ri_busy.
    + rewrite fn_lookup_insert_ne by done. by eapply ri_busy.
Qed.

(** The server moves, and what the loops know of the connections stays. *)
Lemma same_view_inv st0 r s' :
  reactor_inv st0 r -> server_inv host reg st0 s' -> (forall c, viewed s' c = viewed (sys r) c) ->
  reactor_inv st0 (mkReactor s' (loop_at r) (accepted r)).
Proof.
  intros Hi Hs Hv. split; cbn [sys loop_at accepted]; try apply Hi; [done|..]; intros *; rewrite ?Hv; try apply Hi.
  rewrite (ri_due _ _ Hi). unfold due. cbn [sys accepted]. by rewrite Hv.
Qed.

Lemma event_inv st0 r c st s' :
  reactor_inv st0 r -> server_inv host reg st0 s' -> event_of c st = true ->
  dispatching (at_ (loop_at r (home c))) = true -> decodes st || outside r (home c) = true ->
  exec (sys r) st = Some s' -> reactor_inv st0 (mkReactor s' (loop_at r) (accepted r)).
Proof.
  intros Hi Hs He Hd Ho Hx.
  assert (Hother : forall c', c' <> c -> viewed s' c' = viewed (sys r) c') by (intros c'; by eapply event_view).
  destruct (event_view _ _ _ _ c He Hx) as (_ & q & b & b' & Hv & Hv' & Hb).
  assert (Hone : forall c' q', viewed (sys r) c' = Some (q', true) -> home c = home c' -> c' <> c -> False).
  { intros c' q' Hc' Hh Hne. destruct (decodes st).
    - rewrite (Hb eq_refl) in Hv. by apply Hne, (ri_one _ _ Hi c' c q' q).
    - by pose proof (outside_spec _ _ _ _ _ Ho Hc' (eq_sym Hh)). }
  split; cbn [sys loop_at accepted]; try apply Hi; [done|..].
  - intros i f. rewrite (ri_due _ _ Hi). unfold due. cbn [sys accepted]. destruct (decide (conn_of f = c)) as [Hf|Hne].
    + rewrite Hf, Hv, Hv'. by destruct f.
    + by rewrite Hother.
  - intros c'. destruct (decide (c' = c)) as [->|Hne].
    + intros _. apply (ri_linked _ _ Hi). by rewrite Hv.
    + rewrite Hother by done. apply (ri_linked _ _ Hi).
  - intros c' q'. destruct (decide (c' = c)) as [->|Hne]; [done|]. rewrite Hother by done. apply (ri_busy _ _ Hi).
  - intros c1 c2 q1 q2. destruct (decide (c1 = c)) as [->|H1], (decide (c2 = c)) as [->|H2]; try done;
      rewrite ?(Hother c1), ?(Hother c2) by done.
    + intros _ H' Hh. by destruct (Hone c2 q2).
    + intros H' _ Hh. by destruct (Hone c1 q1).
    + apply (ri_one _ _ Hi).
Qed.

(** A connection is established. *)
Lemma accept_view s c fd :
  viewed s c = None ->
  exists s', exec s (PAccept c fd) = Some s' /\ viewed s' c = Some ([], false) /\
    forall c', c' <> c -> viewed s' c' = viewed s c' /\ links s' !! c' = links s !! c'.
Proof.
  unfold viewed at 1. destruct (links s !! c) as [l|] eqn:Hl; [done|]. intros _. cbn [Pipeline.server_exec].
  rewrite Hl. eexists. split; [reflexivity|]. rewrite viewed_set, decide_True by done. split; [done|].
  intros c' Hne. rewrite viewed_set, decide_False by congruence. cbn [links]. by rewrite lookup_insert_ne.
Qed.

(** A connection becomes known to its loop, with no functors and outside the callback. *)
Lemma opened_busy st0 r s' c ls :
  reactor_inv st0 r -> viewed s' c = Some ([], false) ->
  (forall c', c' <> c -> viewed s' c' = viewed (sys r) c') ->
  (forall c' q, viewed (sys r) c' = Some (q, true) -> at_ (ls (home c')) = at_ (loop_at r (home c'))) ->
  (forall c' q, viewed s' c' = Some (q, true) -> dispatching (at_ (ls (home c'))) = true) /\
  (forall c1 c2 q1 q2, viewed s' c1 = Some (q1, true) -> viewed s' c2 = Some (q2, true) -> home c1 = home c2 -> c1 = c2).
Proof.
  intros Hi Hc Hother Hat.
  assert (Hold : forall c' q, viewed s' c' = Some (q, true) -> viewed (sys r) c' = Some (q, true)).
  { intros c' q Hv. destruct (decide (c' = c)) as [->|Hne]; [congruence|by rewrite <- Hother]. }
  split.
  - intros c' q Hv%Hold. rewrite (Hat c' q Hv). by eapply ri_busy.
  - intros c1 c2 q1 q2 H1%Hold H2%Hold. by eapply ri_one.
Qed.

Lemma direct_accept_inv st0 r fd s' :
  reactor_inv st0 r -> server_inv host reg st0 s' -> exec (sys r) (PAccept (length (accepted r)) fd) = Some s' ->
  reactor_inv st0 (mkReactor s' (loop_at r) (accepted r ++ [fd])).
Proof.
  intros Hi Hs Hx. set (c := length (accepted r)) in *.
  assert (Hnew : viewed (sys r) c = None).
  { destruct (viewed (sys r) c) eqn:Hv; [|done]. pose proof (ri_linked _ _ Hi c ltac:(by rewrite Hv)). lia. }
  destruct (accept_view (sys r) c fd Hnew) as (s1 & Hx1 & Hc & Hother). assert (s1 = s') as -> by congruence.
  destruct (opened_busy st0 r s' c (loop_at r) Hi Hc) as [Hb Ho]; [by intros; apply Hother|done|].
  split; cbn [sys loop_at accepted]; try apply Hi; try done.
  - intros i f. rewrite (ri_due _ _ Hi). unfold due. cbn [sys accepted]. rewrite length_app. fold c.
    destruct (decide (conn_of f = c)) as [Hf|Hne].
    + rewrite Hf, Hnew, Hc. destruct f as [c'|]; [|done]. cbn in Hf. subst c'. by rewrite Nat.ltb_irrefl.
    + destruct (Hother _ Hne) as [-> _]. destruct f as [c'|]; [|done]. cbn [conn_of length] in *.
      destruct (Nat.ltb_spec c' c), (Nat.ltb_spec c' (c + 1)); try done; lia.
  - intros c'. rewrite length_app. cbn [length]. fold c. destruct (decide (c' = c)) as [->|Hne]; [lia|].
    destruct (Hother _ Hne) as [-> _]. intros Hv%(ri_linked _ _ Hi). fold c in Hv. lia.
Qed.

(** A functor for a connection just accepted is queued. *)
Lemma establish_inv st0 r fd :
  reactor_inv st0 r ->
  reactor_inv st0 (mkReactor (sys r) (post r (home (length (accepted r))) (Establish (length (accepted r)))) (accepted r ++ [fd])).
Proof.
  intros Hi. set (c := length (accepted r)).
  assert (Hnew : viewed (sys r) c = None).
  { destruct (viewed (sys r) c) eqn:Hv; [|done]. pose proof (ri_linked _ _ Hi c ltac:(by rewrite Hv)). lia. }
  split; cbn [sys loop_at accepted]; try apply Hi.
  - intros j. by eapply post_loops.
  - intros j f. by eapply post_remote.
  - intros i f. rewrite count_post, (ri_due _ _ Hi). unfold due. cbn [sys accepted]. rewrite length_app. fold c. cbn [length].
    destruct (decide (f = Establish c)) as [->|Hne].
    + cbn [conn_of]. rewrite Hnew, Nat.ltb_irrefl, (proj2 (Nat.ltb_lt c (c + 1))) by lia. repeat case_decide; try lia; tauto.
    + rewrite (decide_False (P := i = home c /\ Establish c = f)), Nat.add_0_r by (intros [_ ?]; congruence).
      case_decide; [|done]. destruct (viewed (sys r) (conn_of f)) as [[]|]; [done|]. destruct f as [c'|]; [|done].
      assert (c' <> c) by congruence. destruct (Nat.ltb_spec c' c), (Nat.ltb_spec c' (c + 1)); try done; lia.
  - intros c' Hv%(ri_linked _ _ Hi). rewrite length_app. lia.
  - intros c' q Hv. rewrite post_at. by eapply ri_busy.
Qed.

(** A worker queues the functor of a reply. *)
Lemma push_inv st0 r w t s' :
  reactor_inv st0 r -> server_inv host reg st0 s' -> running_at (pool (sys r)) w = Some t ->
  exec (sys r) (PQueue w) = Some s' ->
  reactor_inv st0 (mkReactor s' (post r (home (job_conn (func t))) (Reply (job_conn (func t)))) (accepted r)).
Proof.
  intros Hi Hs Hw Hx. set (c := job_conn (func t)).
  assert (Hother : forall c', c' <> c -> viewed s' c' = viewed (sys r) c') by (intros c'; by eapply queue_view).
  destruct (queue_view _ _ _ _ c Hw Hx) as (_ & q & b & mf & Hv & Hv'). fold c in Hv, Hv'.
  assert (Hold : forall c' q', viewed s' c' = Some (q', true) -> exists q0, viewed (sys r) c' = Some (q0, true)).
  { intros c' q' H'. destruct (decide (c' = c)) as [->|Hne]; [|exists q'; by rewrite <- Hother].
    rewrite Hv' in H'. injection H' as _ ->. by exists q. }
  split; cbn [sys loop_at accepted]; try done.
  - intros j. by eapply post_loops.
  - intros j f. by eapply post_remote.
  - intros i f. rewrite count_post, (ri_due _ _ Hi). unfold due. cbn [sys accepted].
    destruct (decide (conn_of f = c)) as [Hf|Hne].
    + rewrite Hf, Hv, Hv'. destruct f as [c'|c']; cbn in Hf; subst c'.
      * rewrite (decide_False (P := i = home c /\ Reply c = Establish c)) by (by intros [_ ?]). lia.
      * rewrite length_app. cbn [length]. repeat case_decide; try lia; tauto.
    + rewrite Hother by done. rewrite (decide_False (P := i = home c /\ Reply c = f)); [lia|]. intros [_ <-]. by apply Hne.
  - intros c'. destruct (decide (c' = c)) as [->|Hne].
    + intros _. apply (ri_linked _ _ Hi). by rewrite Hv.
    + rewrite Hother by done. apply (ri_linked _ _ Hi).
  - intros c' q' [q0 Hq0]%Hold. rewrite post_at. by eapply ri_busy.
  - intros c1 c2 q1 q2 [q3 H1]%Hold [q4 H2]%Hold. by eapply ri_one.
Qed.

(** The functor a loop is about to run is due in that loop. *)
Lemma head_due st0 r i f fs :
  reactor_inv st0 r -> at_ (loop_at r i) = Running (f :: fs) ->
  let g := closure_at (fid f) in i = home (conn_of g) /\ 0 < due r g.
Proof.
  intros Hi Ha. cbn zeta. pose proof (ri_due _ _ Hi i (closure_at (fid f))) as Hc. revert Hc. unfold left_to_run.
  rewrite Ha. cbn [taken app]. rewrite count_cons, identity_closure_at, decide_True by done. case_decide; lia.
Qed.

(** It finds its connection as it needs it, and the server takes its step. *)
Lemma functor_enabled st0 r i f fs o :
  reactor_inv st0 r -> at_ (loop_at r i) = Running (f :: fs) ->
  exists s', exec (sys r) (run_closure r (closure_at (fid f)) o) = Some s' /\
    (forall c, c <> conn_of (closure_at (fid f)) -> viewed s' c = viewed (sys r) c /\ links s' !! c = links (sys r) !! c) /\
    match closure_at (fid f) with
    | Establish c => viewed (sys r) c = None /\ viewed s' c = Some ([], false) /\ c < length (accepted r)
    | Reply c => exists mf q, viewed (sys r) c = Some (mf :: q, false) /\ viewed s' c = Some (q, false) /\
        forall l, links (sys r) !! c = Some l -> exists l', links s' !! c = Some l' /\
          (closed (tcp l') <-> closed (tcp l)) /\ (~ closed (tcp l) -> sent_ l' = sent_ l ++ [mf])
    end.
Proof.
  intros Hi Ha. destruct (head_due st0 r i f fs Hi Ha) as [Hh Hd]. unfold due in Hd.
  destruct (closure_at (fid f)) as [c|c]; cbn [conn_of run_closure] in *.
  - destruct (viewed (sys r) c) as [[]|] eqn:Hv; [lia|]. destruct (Nat.ltb_spec c (length (accepted r))); [|lia].
    destruct (accept_view (sys r) c (nth c (accepted r) 0%Z) Hv) as (s' & Hx & Hc & Hother). by exists s'.
  - destruct (viewed (sys r) c) as [[[|[m x] q] b]|] eqn:Hv; cbn in Hd; try lia.
    destruct b.
    { pose proof (ri_busy _ _ Hi c _ Hv) as Hb. rewrite <- Hh, Ha in Hb. done. }
    destruct (functor_view (sys r) c o m x q Hv) as (s' & Hx & Hc & Hother & Hsent). exists s'. split; [exact Hx|].
    split; [|by exists (m, x), q]. intros c' Hne. unfold viewed. by rewrite Hother.
Qed.

Lemma functor_inv st0 r i f fs o l' s' :
  reactor_inv st0 r -> server_inv host reg st0 s' -> at_ (loop_at r i) = Running (f :: fs) ->
  loop_step (loop_at r i) LoopRunFunctor = Some l' ->
  exec (sys r) (run_closure r (closure_at (fid f)) o) = Some s' ->
  reactor_inv st0 (mkReactor s' (<[i := l']> (loop_at r)) (accepted r)).
Proof.
  intros Hi Hs Ha Hl Hx. destruct (functor_enabled st0 r i f fs o Hi Ha) as (s1 & Hx1 & Hother & Hc).
  assert (s1 = s') as -> by congruence. clear Hx1. destruct (run_functor_spec _ _ _ _ Ha Hl) as [Ha' Hp'].
  destruct (head_due st0 r i f fs Hi Ha) as [Hh Hd]. set (g := closure_at (fid f)) in *.
  assert (Hold : forall c q, viewed s' c = Some (q, true) -> viewed (sys r) c = Some (q, true) /\ home c <> i).
  { intros c q Hv. assert (Hne : c <> conn_of g).
    { intros ->. destruct g as [c|c]; cbn [conn_of] in Hv; [destruct Hc as (_ & Hc & _)|destruct Hc as (mf & q0 & _ & Hc & _)];
        congruence. }
    rewrite (proj1 (Hother c Hne)) in Hv. split; [done|]. intros <-. pose proof (ri_busy _ _ Hi c q Hv) as Hb. by rewrite Ha in Hb. }
  assert (Hleft : forall j h, count h (left_to_run (loop_at r j)) =
    (if decide (j = i /\ g = h) then 1 else 0) + count h (left_to_run ((<[i := l']> (loop_at r) : nat -> EventLoop) j))).
  { intros j h. destruct (decide (j = i)) as [->|Hne].
    - rewrite fn_lookup_insert. unfold left_to_run. rewrite Ha, Ha', Hp'. cbn [taken app]. rewrite count_cons.
      rewrite <- (identity_closure_at (fid f)). fold g. f_equal.
      destruct (decide (g = h)) as [->|Hgh]; [by rewrite !decide_True|]. rewrite !decide_False; [done|tauto|].
      by intros ?%identity_inj.
    - rewrite fn_lookup_insert_ne by done. by rewrite decide_False by tauto. }
  split; cbn [sys loop_at accepted]; try done.
  - intros j. by eapply step_loops.
  - intros j h Hin. apply (ri_remote _ _ Hi j). revert Hin. destruct (decide (j = i)) as [->|Hne].
    + rewrite fn_lookup_insert. unfold left_to_run. rewrite Ha, Ha', Hp'. cbn [taken app]. rewrite elem_of_cons. auto.
    + by rewrite fn_lookup_insert_ne.
  - intros j h. pose proof (ri_due _ _ Hi j h) as Hcount. rewrite Hleft in Hcount.
    destruct (decide (conn_of h = conn_of g)) as [Hhg|Hne].
    + unfold due in *. cbn [sys accepted]. rewrite Hhg in *. destruct g as [c|c]; cbn [conn_of] in *; destruct Hc as (Hc0 & Hrest).
      * destruct Hrest as (Hc1 & Hlt). rewrite Hc0 in Hcount. rewrite Hc1. apply Nat.ltb_lt in Hlt.
        destruct h as [c'|c']; cbn in Hhg; subst c'; rewrite ?Hlt in Hcount; repeat case_decide; try lia; naive_solver.
      * destruct Hrest as (q & Hv & Hv' & _). rewrite Hv in Hcount. rewrite Hv'.
        destruct h as [c'|c']; cbn in Hhg; subst c'; cbn [length] in Hcount; repeat case_decide; try lia; naive_solver.
    + rewrite decide_False in Hcount by (intros [_ <-]; done). unfold due in *. cbn [sys accepted].
      by rewrite (proj1 (Hother _ Hne)).
  - intros c. destruct (decide (c = conn_of g)) as [->|Hne].
    + intros _. destruct g as [c|c]; cbn [conn_of]; [by apply Hc|]. destruct Hc as (mf & q & Hv & _).
      apply (ri_linked _ _ Hi). by rewrite Hv.
    + rewrite (proj1 (Hother c Hne)). apply (ri_linked _ _ Hi).
  - intros c q [Hv Hne]%Hold. rewrite fn_lookup_insert_ne by done. by eapply ri_busy.
  - intros c1 c2 q1 q2 [H1 _]%Hold [H2 _]%Hold. by eapply ri_one.
Qed.

Lemma exec_inv st0 r st s' :
  reactor_inv st0 r -> exec (sys r) st = Some s' -> server_inv host reg st0 s'.
Proof. intros Hi. apply server_exec_inv, Hi. Qed.

(** A step keeps the invariant, and is made of steps of [Pipeline]. *)
Lemma reactor_step_spec st0 r st r' :
  reactor_inv st0 r -> reactor_exec r st = Some r' ->
  reactor_inv st0 r' /\ sys r =[ exec | pipeline_steps r st ]=> sys r'.
Proof.
  intros Hi. destruct st as [i s|fd|c st|i o|st|w]; cbn [reactor_exec pipeline_steps]; unfold with_sys.
  - destruct (control (loop_at r i) s && (negb (own s) || outside r i)) eqn:Hc; [|done].
    apply andb_true_iff in Hc as [Hc Ho].
    destruct (loop_step _ s) as [l'|] eqn:Hs; [|done]. intros [= <-]. split; [by eapply loop_inv|done].
  - destruct (_ && _); [|done]. cbn zeta. destruct (decide _) as [Hm|_].
    + destruct (exec (sys r) _) as [s'|] eqn:Hs; [|done]. intros [= <-].
      split; [eapply direct_accept_inv; [done|by eapply exec_inv|done]|]. cbn [steps]. by rewrite Hs.
    + intros [= <-]. split; [by apply establish_inv|done].
  - destruct (event_of c st) eqn:He; [|done]. destruct (dispatching _) eqn:Hd; [|done]. cbn [andb].
    destruct (decodes st || outside r (home c)) eqn:Ho; [|done].
    destruct (exec (sys r) st) as [s'|] eqn:Hs; [|done]. intros [= <-].
    split; [eapply event_inv; try done; by eapply exec_inv|]. cbn [steps]. by rewrite Hs.
  - destruct (at_ (loop_at r i)) as [| | | |[|f fs]|] eqn:Ha; try done.
    destruct (loop_step _ LoopRunFunctor) as [l'|] eqn:Hl; [|done].
    destruct (exec (sys r) _) as [s'|] eqn:Hs; [|done]. intros [= <-].
    split; [eapply functor_inv; try done; by eapply exec_inv|]. cbn [steps]. by rewrite Hs.
  - destruct (by_pool st) eqn:Hp; [|done]. destruct (exec (sys r) st) as [s'|] eqn:Hs; [|done]. intros [= <-].
    split; [|cbn [steps]; by rewrite Hs]. apply same_view_inv; [done|by eapply exec_inv|]. intros c. by eapply pool_view.
  - destruct (running_at (pool (sys r)) w) as [t|] eqn:Hw; [|done]. cbn zeta.
    destruct (exec (sys r) (PQueue w)) as [s'|] eqn:Hs; [|done]. intros [= <-].
    split; [|cbn [steps]; by rewrite Hs]. eapply push_inv; try done. by eapply exec_inv.
Qed.

(** The steps of [Pipeline] a run is made of. *)
Fixpoint projected r (ss : list reactor_step) : list server_step :=
  match ss with
  | [] => []
  | st :: ss => pipeline_steps r st ++ match reactor_exec r st with Some r' => projected r' ss | None => [] end
  end.

Lemma reactor_run_spec st0 r ss r' :
  reactor_inv st0 r -> r =[ reactor_exec | ss ]=> r' ->
  reactor_inv st0 r' /\ sys r =[ exec | projected r ss ]=> sys r'.
Proof.
  revert r. induction ss as [|st ss IH]; intros r Hi; cbn [steps projected]; [by intros [= <-]|].
  destruct (reactor_exec r st) as [r1|] eqn:Hs; [|done]. intros Hrun.
  destruct (reactor_step_spec st0 r st r1 Hi Hs) as [Hi1 Hp]. destruct (IH r1 Hi1 Hrun) as [Hi' Hp']. split; [done|].
  apply steps_app. by exists (sys r1).
Qed.

(** The functors a loop has taken, run to the end. *)
Lemma functors_run st0 i fs os r c l :
  reactor_inv st0 r -> at_ (loop_at r i) = Running fs -> length os = length fs -> links (sys r) !! c = Some l ->
  exists r' l', r =[ reactor_exec | map (RFunctor i) os ]=> r' /\ links (sys r') !! c = Some l' /\
    functors l' = drop (count (Reply c) fs) (functors l) /\
    (~ closed (tcp l) -> sent_ l' = sent_ l ++ take (count (Reply c) fs) (functors l)).
Proof.
  revert os r l. induction fs as [|f fs IH]; intros os r l Hi Ha Hlen Hl.
  { destruct os; [|done]. exists r, l. cbn. by rewrite app_nil_r. }
  destruct os as [|o os]; [done|]. injection Hlen as Hlen.
  destruct (functor_enabled st0 r i f fs o Hi Ha) as (s' & Hx & Hother & Hc).
  destruct (loop_step (loop_at r i) LoopRunFunctor) as [li|] eqn:Hli; [|unfold loop_step in Hli; by rewrite Ha in Hli].
  destruct (run_functor_spec _ _ _ _ Ha Hli) as [Ha' _].
  set (r1 := mkReactor s' (<[i := li]> (loop_at r)) (accepted r)).
  assert (Hs : reactor_exec r (RFunctor i o) = Some r1) by (cbn [reactor_exec]; by rewrite Ha, Hli, Hx).
  destruct (reactor_step_spec st0 r _ r1 Hi Hs) as [Hi1 _].
  assert (Hat1 : at_ (loop_at r1 i) = Running fs) by (cbn; by rewrite fn_lookup_insert).
  assert (Hl1 : exists l1, links s' !! c = Some l1 /\ functors l = (if decide (fid f = identity (Reply c)) then
      take 1 (functors l) else []) ++ functors l1 /\ (fid f = identity (Reply c) -> functors l <> []) /\
      (closed (tcp l1) <-> closed (tcp l)) /\
      (~ closed (tcp l) -> sent_ l1 = sent_ l ++ if decide (fid f = identity (Reply c)) then take 1 (functors l) else [])).
  { rewrite <- (identity_closure_at (fid f)). destruct (decide (conn_of (closure_at (fid f)) = c)) as [Hg|Hg].
    - destruct (closure_at (fid f)) as [c'|c']; cbn in Hg; subst c'.
      + destruct Hc as (Hn & _). unfold viewed in Hn. by rewrite Hl in Hn.
      + destruct Hc as (mf & q & Hv & Hv' & Hsent). destruct (Hsent l Hl) as (l1 & Hl1 & Hcl & Hse). exists l1.
        unfold viewed, view in Hv, Hv'. rewrite Hl in Hv. rewrite Hl1 in Hv'. cbn in Hv, Hv'.
        injection Hv as -> _. injection Hv' as -> _. rewrite decide_True by done.
        split; [done|]. split; [done|]. split; [done|]. by split.
    - exists l. destruct (Hother c ltac:(congruence)) as [_ ->].
      assert (Hno : identity (closure_at (fid f)) <> identity (Reply c)) by (intros Hid%identity_inj; by rewrite Hid in Hg).
      rewrite decide_False by done. rewrite app_nil_r. by repeat split. }
  destruct Hl1 as (l1 & Hl1 & Hf1 & Hne & Hcl & Hs1).
  destruct (IH os r1 l1 Hi1 Hat1 Hlen Hl1) as (r' & l' & Hrun & Hl' & Hf' & Hs').
  exists r', l'. cbn [map steps]. rewrite Hs. split; [exact Hrun|]. split; [done|]. rewrite count_cons.
  destruct (decide (fid f = identity (Reply c))) as [Hf|Hf].
  - destruct (functors l) as [|mf q]; [by destruct (Hne Hf)|]. cbn in Hf1. injection Hf1 as ->. split; [done|].
    intros Hc'. rewrite Hs', Hs1 by tauto. cbn. by rewrite <- app_assoc.
  - cbn in Hf1. rewrite Hf1. split; [done|]. intros Hc'. rewrite Hs', Hs1 by tauto. by rewrite app_nil_r.
Qed.

End Reactor.

(** ** Theorems *)

Section Theorems.
Context (host : endian) `{EnvelopeLaws} {SMsg St : Type}.
Context (loop : loop_id) (name : bytes) (ioThreads n : nat) (services : list (Service SMsg St)).
Context (spawn : nat -> loop_id) (st0 : St) (main : nat) (home : nat -> nat).
Abbreviation the_server := (configured loop name ioThreads n services).
Abbreviation the_registry := (registry_ the_server).
Abbreviation booted := (Server_start (start spawn the_server) st0).
Abbreviation exec := (Pipeline.server_exec host the_registry).
Abbreviation rexec := (reactor_exec host the_registry main home).
(** The server started, no loop running yet. *)
Definition reactor_booted : Reactor := mkReactor booted (fun _ => EventLoop_new) [].

Lemma booted_reactor : reactor_inv host the_registry home st0 reactor_booted.
Proof.
  assert (Hv : forall c, viewed (sys reactor_booted) c = None) by done.
  split.
  - by eapply (run_server_inv host loop name ioThreads n services spawn st0 []).
  - intros i. by exists [].
  - intros i f Hf. by apply elem_of_nil in Hf.
  - intros i f. unfold due. rewrite Hv. by destruct f; cbn; case_decide.
  - intros c. rewrite Hv. by intros [? [=]].
  - intros c q. by rewrite Hv.
  - intros c c' q q'. by rewrite Hv.
Qed.

(** C5. The event loops implement the server of [Pipeline]. In any interleaving of the loops (each
    dispatching the events of its own connections one callback at a time and running its functors
    in the order they were queued), the workers and the acceptor, what the server does is a run of
    [Pipeline], and what each loop does a run of [EventLoop]. Every reply queued for a connection
    is one functor in the loop of that connection; the functor a loop comes to is never without
    its connection or its reply; and no two connections of a loop are in the message callback at
    once. *)
Theorem loops_refine_pipeline (ss : list reactor_step) (r : Reactor)
  (Hrun : reactor_booted =[ rexec | ss ]=> r) :
  booted =[ exec | projected host the_registry main home reactor_booted ss ]=> sys r /\
  (forall i, exists es, EventLoop_new =[ loop_step | es ]=> loop_at r i) /\
  (forall c l i, links (sys r) !! c = Some l ->
     count (Reply c) (left_to_run (loop_at r i)) = if decide (i = home c) then length (functors l) else 0) /\
  (forall i f fs o, at_ (loop_at r i) = Running (f :: fs) -> exists r', rexec r (RFunctor i o) = Some r') /\
  (forall c c' l l', links (sys r) !! c = Some l -> links (sys r) !! c' = Some l' ->
     busy l = true -> busy l' = true -> home c = home c' -> c = c').
Proof.
  destruct (reactor_run_spec host the_registry main home st0 _ ss r booted_reactor Hrun) as [Hi Hp].
  split; [exact Hp|]. split; [apply Hi|]. split; [|split].
  - intros c l i Hl. rewrite (ri_due _ _ _ _ _ Hi). cbn [conn_of]. unfold due, viewed. cbn [conn_of]. by rewrite Hl.
  - intros i f fs o Ha. destruct (functor_enabled host the_registry home st0 r i f fs o Hi Ha) as (s' & Hx & _).
    cbn [reactor_exec]. rewrite Ha. unfold loop_step. rewrite Ha, Hx. by eexists.
  - intros c c' l l' Hl Hl' Hb Hb'. apply (ri_one _ _ _ _ _ Hi c c' (functors l) (functors l')); unfold viewed, view.
    + by rewrite Hl, <- Hb.
    + by rewrite Hl', <- Hb'.
Qed.

(** C7. A reply that is queued is not slept on. Whenever the loop of a connection is blocked in
    [epoll_wait] with replies of workers waiting for the connection, its eventfd is readable or
    about to be written; and once it is readable, one turn of the loop, whatever the sockets take,
    hands every reply to the connection, in the order in which the workers queued them. *)
Theorem queued_replies_delivered (ss : list reactor_step) (r : Reactor) (c : nat) (l : Link) (os : list write_outcome)
  (Hrun : reactor_booted =[ rexec | ss ]=> r)
  (Hblocked : at_ (loop_at r (home c)) = Polling)
  (Hlink : links (sys r) !! c = Some l) (Hwaits : functors l <> [])
  (Hos : length os = length (pendingFunctors_ (loop_at r (home c)))) :
  let i := home c in
  0 < wakeups (loop_at r i) + owed (loop_at r i) /\
  (0 < wakeups (loop_at r i) -> exists r' l',
     r =[ rexec | [RLoop i (LoopPollReturns true); RLoop i LoopHandleWakeup; RLoop i LoopDispatched] ++
                  map (RFunctor i) os ]=> r' /\
     links (sys r') !! c = Some l' /\ functors l' = [] /\
     (~ closed (tcp l) -> sent_ l' = sent_ l ++ functors l)).
Proof.
  cbn zeta. destruct (reactor_run_spec host the_registry main home st0 _ ss r booted_reactor Hrun) as [Hi _].
  set (i := home c) in *. pose proof (ri_due _ _ _ _ _ Hi i (Reply c)) as Hdue. cbn [conn_of] in Hdue.
  rewrite decide_True in Hdue by done. unfold due, viewed in Hdue. cbn [conn_of] in Hdue. rewrite Hlink in Hdue.
  cbn [fmap option_fmap option_map view] in Hdue.
  assert (Hleft : left_to_run (loop_at r i) = pendingFunctors_ (loop_at r i)) by (unfold left_to_run; by rewrite Hblocked).
  rewrite Hleft in Hdue. split.
  - destruct (ri_loops _ _ _ _ _ Hi i) as [es Hes]. destruct (run_announced _ _ Hes) as [_ Hann].
    unfold announced in Hann. rewrite Hblocked in Hann. apply Hann.
    destruct (pendingFunctors_ (loop_at r i)) as [|f fs] eqn:Hp.
    { destruct (functors l); [done|]. cbn in Hdue. lia. }
    apply Exists_cons_hd. apply (ri_remote _ _ _ _ _ Hi i). rewrite Hleft. by left.
  - intros Hw. assert (Hout : forall r1, sys r1 = sys r -> outside home r1 i = true).
    { intros r1 Hs. unfold outside. rewrite Hs. apply bool_decide_eq_true. intros c' l' Hl' Hh.
      destruct (busy l') eqn:Hb; [|done]. exfalso.
      pose proof (ri_busy _ _ _ _ _ Hi c' (functors l')) as Hd. unfold viewed, view in Hd. rewrite Hl' in Hd.
      cbn in Hd. rewrite Hb, Hh, Hblocked in Hd. by discriminate Hd. }
    set (l1 := poll_returns true (loop_at r i)). set (l2 := set_phase (handleWakeup l1) (Dispatching false)).
    set (l3 := swap_functors l2).
    assert (H1 : at_ l1 = Dispatching true) by (unfold l1, poll_returns; cbn [at_ set_phase andb]; by rewrite (proj2 (Nat.ltb_lt _ _) Hw)).
    set (r3 := mkReactor (sys r) (<[i := l3]> (<[i := l2]> (<[i := l1]> (loop_at r)))) (accepted r)).
    assert (Hturn : r =[ rexec | [RLoop i (LoopPollReturns true); RLoop i LoopHandleWakeup; RLoop i LoopDispatched] ]=> r3).
    { cbn [steps reactor_exec control own negb andb orb]. rewrite Hout by done. cbn [loop_step]. rewrite Hblocked.
      cbn [steps reactor_exec control own negb andb orb loop_at]. fold l1. rewrite Hout, fn_lookup_insert by done.
      cbn [loop_step]. rewrite H1. fold l2. cbn [steps reactor_exec control own negb andb orb loop_at].
      by rewrite Hout, fn_lookup_insert by done. }
    destruct (reactor_run_spec host the_registry main home st0 _ _ r3 Hi Hturn) as [Hi3 _].
    destruct (functors_run host the_registry main home st0 i (pendingFunctors_ (loop_at r i)) os r3 c l Hi3)
      as (r' & l' & Hgo & Hl' & Hf & Hs); [cbn; by rewrite fn_lookup_insert|done|done|].
    exists r', l'. split; [apply steps_app; by exists r3|]. split; [done|]. rewrite Hdue in Hf, Hs.
    rewrite drop_ge in Hf by done. rewrite take_ge in Hs by done. done.
Qed.

End Theorems.

(** ** Witnesses *)

Module ReactorSamples.
Import SampleEnvelope RpcServer.Samples Pipeline.Loop.

(** Loop 0 accepts, loop 1 serves; a request arrives, and its reply is queued while loop 1 is back in
    [epoll_wait]. *)
Abbreviation home := (fun _ : nat => 1).
Abbreviation rexec := (reactor_exec BigEndian (registry_ sample_server) 0 home).
Definition conversation : list reactor_step :=
  let q := request_bytes (lit "hi") in
  [RPool (PPool (CreateWorker 0)); RPool (PPool (RegisterWorker 0));
   RLoop 0 LoopStart; RLoop 0 LoopTest; RLoop 1 LoopStart; RLoop 1 LoopTest;
   RLoop 0 (LoopPollReturns false); RAccept 9; RLoop 1 OtherWakeup;
   RLoop 1 (LoopPollReturns true); RLoop 1 LoopHandleWakeup; RLoop 1 LoopDispatched;
   RFunctor 1 (WriteOk 0); RLoop 1 LoopRunFunctor; RLoop 1 LoopTest;
   RLoop 1 (LoopPollReturns false); REvent 0 (PRead 0 (ReadOk q)); REvent 0 (PDecode 0 (WriteOk 0));
   REvent 0 (PDecode 0 (WriteOk 0)); RLoop 1 LoopDispatched; RLoop 1 LoopRunFunctor; RLoop 1 LoopTest;
   RPool (PPool (WorkerTop 0)); RPool (PPool (WorkerTake 0 0)); RPool (PServe 0); RPool (PTest 0); RPush 0;
   RLoop 1 OtherWakeup].
Abbreviation sample_reactor := (reactor_booted 0 (lit "echo") 0 1 [sample_service] (fun i => i) 0).
Definition talked : Reactor := default sample_reactor (steps rexec sample_reactor conversation).
Definition talked_link : Link := default (Link_new 0) (links (sys talked) !! 0).

Lemma talked_run : sample_reactor =[ rexec | conversation ]=> talked.
Proof. apply steps_default. vm_compute. reflexivity. Qed.

Lemma loops_refine_pipeline_witness :
  count (Reply 0) (left_to_run (loop_at talked 1)) = 1 /\ length (functors talked_link) = 1.
Proof.
  destruct (loops_refine_pipeline BigEndian 0 (lit "echo") 0 1 [sample_service] (fun i => i) 0 0 home
              conversation talked talked_run) as (_ & _ & Hc & _).
  assert (Hl : links (sys talked) !! 0 = Some talked_link) by (vm_compute; reflexivity).
  rewrite (Hc 0 talked_link 1 Hl). split; vm_compute; reflexivity.
Defined.

Lemma queued_replies_delivered_witness :
  exists r' l', talked =[ rexec | [RLoop 1 (LoopPollReturns true); RLoop 1 LoopHandleWakeup; RLoop 1 LoopDispatched] ++
                    [RFunctor 1 (WriteOk 5)] ]=> r' /\
    links (sys r') !! 0 = Some l' /\ functors l' = [] /\ sent_ l' = functors talked_link.
Proof.
  destruct (queued_replies_delivered BigEndian 0 (lit "echo") 0 1 [sample_service] (fun i => i) 0 0 home
              conversation talked 0 talked_link [WriteOk 5] talked_run) as (_ & Hgo).
  - vm_compute. reflexivity.
  - vm_compute. reflexivity.
  - vm_compute. discriminate.
  - vm_compute. reflexivity.
  - destruct Hgo as (r' & l' & Hrun & Hl & Hf & Hs); [vm_compute; lia|]. exists r', l'.
    split; [exact Hrun|]. split; [exact Hl|]. split; [exact Hf|]. rewrite Hs; [reflexivity|]. vm_compute. discriminate.
Defined.

End ReactorSamples.
