(* ===== verification/Feed.v ===== *)
(** The server between two rests: what a connection, the services and the pool have done when the
    server has read something and its threads have run until nothing is left to do. *)
From stdpp Require Import base list gmap strings numbers.
From Stdlib Require Import Ascii ZArith Lia.
From S2P Require Import Prelude Bytes Common Buffer Codec Controller Service RpcServer Inet.
From S2P Require Import RpcChannel System ThreadPool TcpServer Poller TcpConnection Pipeline Serial Progress.

(** ** A connection while the server runs by itself *)

(** What calm steps leave of a connection: the bytes read and its state; replies are added at the
    end. *)
Definition evolved (l l' : Link) : Prop :=
  fed l' = fed l /\ state_ (tcp l') = state_ (tcp l) /\ sent_ l `prefix_of` sent_ l' /\
  threw l' = threw l.

#[export] Instance evolved_preorder : PreOrder evolved.
Proof.
  split; [by intros l|]. intros l1 l2 l3 (H1 & H2 & H3 & H4) (K1 & K2 & K3 & K4).
  split; [congruence|]. split; [congruence|]. split; [by etrans|congruence].
Qed.

Section Calm.
Context (host : endian) `{Henv : EnvelopeLaws} {SMsg St : Type} (reg : ServiceRegistry SMsg St) (st0 : St).
Abbreviation server_exec := (server_exec host reg).

(** No service method throws. *)
Definition never_throws : Prop :=
  forall st m, is_request m = true -> (handleRequest host reg st [] m).2 = Ok tt.

(** A good connection: open, and the bytes read so far are the beginning of a stream of frames. *)
Definition sound_link (l : Link) : Prop :=
  state_ (tcp l) = kConnected /\ (parse_frames (fed l)).1.2 = None.

Lemma evolved_sound l l' : evolved l l' -> sound_link l -> sound_link l'.
Proof. intros (H1 & H2 & _) [H3 H4]. split; congruence. Qed.

Lemma evolved_deliver l m f o :
  conn_inv (tcp l) -> state_ (tcp l) = kConnected -> evolved l (deliver l m f o).
Proof.
  intros Hi Hst. destruct (sendInLoop_spec (tcp l) f o Hi) as (_ & Hs & _). unfold deliver.
  rewrite bool_decide_eq_false_2 by congruence. split; [done|]. split; [done|]. split; [|done].
  by eexists.
Qed.

Lemma evolved_decode all os c l p o l' p' :
  link_inv host reg st0 all os l -> sound_link l ->
  decode_link host c l p o = Some (l', p') -> evolved l l'.
Proof.
  intros Hli [Hst Hp]. unfold decode_link.
  pose proof (tryDecode_buffer host (inputBuffer_ (tcp l)) (proj1 (li_conn _ _ _ _ _ _ Hli))) as Hd.
  rewrite (li_parse _ _ _ _ _ _ Hli), parse_frames_unfold in Hp.
  destruct (tryDecode host (inputBuffer_ (tcp l))) as [[[m|] b]|e].
  - destruct Hd as (_ & Hw & _). destruct (negb (is_request m)); [by intros [= <- <-]|].
    destruct (lock_ p); [done|]. destruct (submit p _) as [p1 [u|e]]; intros [= <- <-]; [done|].
    unfold refuse. destruct (sendError _ _ _ _ _); [done|]. cbn [add_seen tcp set_tcp set_input state_].
    rewrite bool_decide_eq_true_2 by done.
    match goal with |- evolved l (deliver ?x ?m ?f ?o) => assert (He : evolved x (deliver x m f o)) end.
    { apply evolved_deliver; [|done]. destruct (li_conn _ _ _ _ _ _ Hli) as (_ & Hc). by split. }
    exact He.
  - by intros [= <- <-].
  - by rewrite Hd in Hp.
Qed.

(** A step that changes one connection. *)
Lemma evolved_insert (ls : gmap nat Link) c c' l l' :
  ls !! c = Some l -> (c' = c -> evolved l l') ->
  exists l1, <[c' := l']> ls !! c = Some l1 /\ evolved l l1.
Proof.
  intros Hl He. destruct (decide (c' = c)) as [->|Hne].
  - exists l'. rewrite lookup_insert_eq. auto.
  - exists l. by rewrite lookup_insert_ne.
Qed.

Lemma calm_link s st s' c l :
  never_throws -> server_inv host reg st0 s -> calm st = true -> server_exec s st = Some s' ->
  links s !! c = Some l -> sound_link l -> exists l', links s' !! c = Some l' /\ evolved l l'.
Proof.
  intros Hnt Hi Hc Hs Hl Hok.
  assert (Hsame : forall p st1, s' = mkServer (links s) p st1 -> exists l', links s' !! c = Some l' /\ evolved l l')
    by (intros p st1 ->; by exists l).
  destruct st as [c' fd|c' o|c' o|ps|w|w|w|w|c' o|c' o|c']; try done; revert Hs;
    cbn [Pipeline.server_exec]; unfold loop_step, job_step.
  - destruct (links s !! c') as [l0|] eqn:Hl0; [|done]. destruct (negb (busy l0)); [done|].
    destruct (decode_link _ _ _ _ _) as [[l1 p1]|] eqn:Hd; [|done]. intros [= <-].
    apply evolved_insert; [done|]. intros ->. rewrite Hl in Hl0. injection Hl0 as <-.
    eapply evolved_decode; [by eapply (si_link _ _ _ s Hi)|done|done].
  - destruct (negb (internal ps)); [done|]. destruct (step (pool s) ps) as [p|]; [|done].
    intros [= <-]. by eapply Hsame.
  - destruct (running_at (pool s) w) as [t|] eqn:Hw; [|done].
    destruct (links s !! job_conn (func t)) as [l0|] eqn:Hl0; [|done]. destruct (job_at (func t)); try done.
    intros [= <-]. unfold serve_job. destruct (live_running _ _ _ Hw) as (rest & Hp & _ & _).
    destruct (si_job _ _ _ s Hi t) as (_ & Hr & _); [rewrite Hp; apply elem_of_cons; by left|].
    pose proof (Hnt (service s) (job_msg (func t)) Hr) as Hok'.
    pose proof (handleRequest_reply host reg (service s) [] (job_msg (func t))) as Hrep.
    destruct (handleRequest _ _ _ _ _) as [[st1 out] r]. cbn [snd] in Hok'. subst r.
    destruct Hrep as (r & -> & _). by exists l.
  - destruct (running_at (pool s) w) as [t|] eqn:Hw; [|done].
    destruct (links s !! job_conn (func t)) as [l0|] eqn:Hl0; [|done]. destruct (job_at (func t)); try done.
    case_bool_decide as Hst; intros [= <-]; [by eapply Hsame|]. apply evolved_insert; [done|].
    intros Heq. destruct Hok as [Hst' _]. congruence.
  - destruct (running_at (pool s) w) as [t|] eqn:Hw; [|done].
    destruct (links s !! job_conn (func t)) as [l0|] eqn:Hl0; [|done]. destruct (job_at (func t)); try done.
    intros [= <-]. apply evolved_insert; [done|]. intros Heq. rewrite Heq, Hl in Hl0. by injection Hl0 as <-.
  - destruct (running_at (pool s) w) as [t|] eqn:Hw; [|done].
    destruct (links s !! job_conn (func t)) as [l0|] eqn:Hl0; [|done]. destruct (job_at (func t)); try done.
    destruct (step (pool s) _) as [p|]; [|done]. intros [= <-]. by eapply Hsame.
  - destruct (links s !! c') as [l0|] eqn:Hl0; [|done]. destruct (busy l0); [done|].
    destruct (functors l0) as [|[m f] q]; [done|]. intros [= <-]. apply evolved_insert; [done|].
    intros ->. rewrite Hl in Hl0. injection Hl0 as <-.
    assert (He : evolved (set_functors l q) (deliver (set_functors l q) m f o)); [|exact He].
    apply evolved_deliver; [apply (li_conn _ _ _ _ _ _ (si_link _ _ _ s Hi c l Hl))|apply Hok].
  - destruct (links s !! c') as [l0|] eqn:Hl0; [|done]. destruct (busy l0); [done|].
    intros [= <-]. apply evolved_insert; [done|]. intros ->. rewrite Hl in Hl0. injection Hl0 as <-.
    destruct (handleWrite_spec (tcp l) o (li_conn _ _ _ _ _ _ (si_link _ _ _ s Hi c l Hl))) as (_ & Hst & _).
    by split.
Qed.

(** A connection, once there, stays in the table; what it has decoded grows, and what it has read
    only by its own reads. *)
Definition grown (same : Prop) (l l' : Link) : Prop :=
  seen l `prefix_of` seen l' /\ (same -> fed l' = fed l).

Lemma grown_insert (ls : gmap nat Link) (same : Prop) c c' l l' :
  ls !! c = Some l -> (c' = c -> grown same l l') ->
  exists l1, <[c' := l']> ls !! c = Some l1 /\ grown same l l1.
Proof.
  intros Hl He. destruct (decide (c' = c)) as [->|Hne].
  - exists l'. rewrite lookup_insert_eq. auto.
  - exists l. by rewrite lookup_insert_ne.
Qed.

Lemma grown_decode c l p o l' p' : decode_link host c l p o = Some (l', p') -> grown True l l'.
Proof.
  unfold decode_link, refuse, deliver. repeat case_match; intros [= <- <-]; simplify_eq;
    (split; [|done]); cbn; first [done | by eexists].
Qed.

Lemma links_grow s st s' c l :
  server_exec s st = Some s' -> links s !! c = Some l ->
  exists l', links s' !! c = Some l' /\ grown (forall o, st <> PRead c o) l l'.
Proof.
  intros Hs Hl. revert Hs. destruct st as [c' fd|c' o|c' o|ps|w|w|w|w|c' o|c' o|c']; cbn [Pipeline.server_exec];
    unfold loop_step, job_step, serve_job.
  3: { destruct (links s !! c') as [l0|] eqn:Hl0; [|done]. destruct (negb (busy l0)); [done|].
       destruct (decode_link _ _ _ _ _) as [[l1 p1]|] eqn:Hd; [|done]. intros [= <-].
       apply grown_insert; [done|]. intros ->. rewrite Hl in Hl0. injection Hl0 as <-.
       destruct (grown_decode _ _ _ _ _ _ Hd) as [H1 H2]. split; auto. }
  all: repeat case_match; try done; intros [= <-]; simplify_eq; try (exists l; by repeat split).
  all: apply grown_insert; [done|]; intros Heq; subst; simplify_eq;
    unfold read_link, deliver; repeat case_match; (split; [done|]); try done.
  all: by intros Hne; destruct (Hne _ eq_refl).
Qed.

Lemma links_absent s st s' c :
  server_exec s st = Some s' -> (forall fd, st <> PAccept c fd) -> links s !! c = None -> links s' !! c = None.
Proof.
  intros Hs Hne Hc. assert (Hins : forall c' l', c' <> c -> <[c' := l']> (links s) !! c = None)
    by (intros; by rewrite lookup_insert_ne).
  revert Hs. destruct st as [c' fd|c' o|c' o|ps|w|w|w|w|c' o|c' o|c']; cbn [Pipeline.server_exec];
    unfold loop_step, job_step, serve_job; repeat case_match; try done; intros [= <-]; simplify_eq;
    first [exact Hc | apply Hins; intros Heq; subst; first [congruence | by destruct (Hne fd)]].
Qed.

(** The room of the pool's queue does not change. *)
Lemma room_step {Task} (p : ThreadPool Task) ps p' :
  step p ps = Some p' -> maxTaskQueueSize_ p' = maxTaskQueueSize_ p.
Proof.
  destruct ps; cbn [step]; unfold CreateThread, threadExit, enqueueTask; repeat case_match; try done;
    intros [= <-]; simplify_eq; done.
Qed.

Lemma room_exec s st s' :
  server_exec s st = Some s' -> maxTaskQueueSize_ (pool s') = maxTaskQueueSize_ (pool s).
Proof.
  destruct st as [c fd|c o|c o|ps|w|w|w|w|c o|c o|c]; cbn [Pipeline.server_exec];
    unfold loop_step, job_step, serve_job, decode_link, submit, ThreadPool_pool, enqueueTask;
    repeat case_match; try done; intros [= <-]; simplify_eq; try done; by eapply room_step.
Qed.
End Calm.

(** ** From rest to rest *)

Section Feed.
Context (host : endian) `{Henv : EnvelopeLaws} {SMsg St : Type}.
Context (loop : loop_id) (name : bytes) (ioThreads n : nat) (services : list (Service SMsg St)).
Context (st0 : St).
Abbreviation the_server := (configured loop name ioThreads n services).
Abbreviation the_registry := (registry_ the_server).
Abbreviation exec := (server_exec host the_registry).
Abbreviation working := (working host loop name ioThreads n services st0).

(** No output waits on an open connection. *)
Definition flushed (s : Server St) : Prop :=
  forall c l, links s !! c = Some l -> state_ (tcp l) = kConnected -> contents (outputBuffer_ (tcp l)) = [].

Lemma working_step s st s' : working s -> destroys st = false -> exec s st = Some s' -> working s'.
Proof.
  intros (Hi & Ha & Hm) Hd Hs. split; [by eapply server_exec_inv|].
  split; [by eapply awake_exec|by rewrite (exec_max _ _ _ _ _ Hs)].
Qed.

Lemma calm_lives st : calm st = true -> destroys st = false.
Proof. by destruct st as [| | |[]| | | | | | |]. Qed.

(** Every good connection evolves while the server runs by itself. *)
Lemma calm_run ss s s' c l :
  never_throws host the_registry -> Forall (fun st => calm st = true) ss -> working s ->
  s =[ exec | ss ]=> s' -> links s !! c = Some l -> sound_link l ->
  working s' /\ exists l', links s' !! c = Some l' /\ evolved l l'.
Proof.
  intros Hnt Hss. revert s l. induction Hss as [|st ss Hst _ IH]; intros s l Hw; cbn [steps].
  { intros [= <-] Hl _. split; [done|]. by exists l. }
  destruct (exec s st) as [s1|] eqn:Hs; [|done]. intros Hrun Hl Hok.
  destruct (calm_link host the_registry st0 s st s1 c l Hnt (proj1 Hw) Hst Hs Hl Hok) as (l1 & Hl1 & He1).
  destruct (IH s1 l1) as (Hw' & l' & Hl' & He'); try done.
  - eapply working_step; [done|by apply calm_lives|done].
  - by eapply evolved_sound.
  - split; [done|]. exists l'. split; [done|]. by etrans.
Qed.

Lemma calm_working ss s s' :
  Forall (fun st => calm st = true) ss -> working s -> s =[ exec | ss ]=> s' -> working s'.
Proof.
  intros Hss Hw Hrun. refine (steps_inv_labels exec (fun st => calm st = true) working s ss s' _ Hss Hw Hrun).
  intros s1 st s2 Hst Hw1 Hs. eapply working_step; [done|by apply calm_lives|done].
Qed.

(** At rest, an open connection has written a reply to each of its requests. *)
Lemma rest_sent s c l :
  working s -> at_rest s -> links s !! c = Some l -> state_ (tcp l) = kConnected -> threw l = [] ->
  map fst (sent_ l) ≡ₚ List.filter is_request (parse_frames (fed l)).1.1.
Proof.
  intros Hw [Hr Ht] Hl Hst Hth. destruct (Hr c l Hl) as [Hb Hf].
  by apply (link_outcome host the_registry st0 s c l (proj1 Hw) Hl).
Qed.

Lemma flushed_written s c l :
  working s -> flushed s -> links s !! c = Some l -> state_ (tcp l) = kConnected ->
  written (tcp l) = concat (map snd (sent_ l)).
Proof.
  intros Hw Hf Hl Hst. destruct (link_outcome host the_registry st0 s c l (proj1 Hw) Hl) as [<- _].
  unfold stream. by rewrite (Hf c l Hl Hst), app_nil_r.
Qed.

(** A connection that has read nothing new has written nothing new. *)
Lemma evolved_same s s' c l l' :
  working s -> at_rest s -> flushed s -> links s !! c = Some l ->
  working s' -> at_rest s' -> flushed s' -> links s' !! c = Some l' ->
  state_ (tcp l) = kConnected -> threw l = [] -> evolved l l' -> written (tcp l') = written (tcp l).
Proof.
  intros Hw Hr Hf Hl Hw' Hr' Hf' Hl' Hst Hth (E1 & E2 & [x Hx] & E4).
  pose proof (rest_sent s c l Hw Hr Hl Hst Hth) as H1.
  pose proof (rest_sent s' c l' Hw' Hr' Hl' ltac:(congruence) ltac:(congruence)) as H2.
  rewrite E1, <- H1, Hx, map_app in H2. apply Permutation_length in H2.
  rewrite length_app in H2. destruct x as [|y x]; [|cbn in H2; rewrite !length_map in H2; lia].
  rewrite (flushed_written s c l Hw Hf Hl Hst).
  by rewrite (flushed_written s' c l' Hw' Hf' Hl' ltac:(congruence)), Hx, app_nil_r.
Qed.

(** Bytes read from an open connection. *)
Lemma read_state l d : d <> [] -> fed (read_link l (ReadOk d)) = fed l ++ d /\
  state_ (tcp (read_link l (ReadOk d))) = state_ (tcp l) /\ sent_ (read_link l (ReadOk d)) = sent_ l /\
  threw (read_link l (ReadOk d)) = threw l.
Proof.
  intros Hd. unfold read_link. destruct d as [|a d]; [done|]. cbn [add_fed set_tcp fed tcp sent_ threw].
  split; [done|]. split; [|done]. unfold handleRead.
  by destruct (readFd (inputBuffer_ (tcp l)) (ReadOk (a :: d))) as [[k e] b] eqn:Hr; injection Hr as <- <- <-.
Qed.

Lemma parse_prefix q z : (parse_frames (q ++ z)).1.2 = None -> (parse_frames q).1.2 = None.
Proof. rewrite parse_frames_app. by destruct (parse_frames q) as [[ms [e|]] r]. Qed.

Lemma parse_wires ms : Forall sendable ms -> (parse_frames (concat (map wire ms))).1.2 = None.
Proof. intros Hs. by rewrite parse_frames_wires. Qed.

(** ** Exactly once *)

(** The steps of a server that reads from the connection [c] only. *)
Definition feeds (c : nat) (st : server_step) : Prop :=
  calm st = true \/ exists d, st = PRead c (ReadOk d).

Lemma feeds_lives c st : feeds c st -> destroys st = false.
Proof. intros [Hc|[d ->]]; [by apply calm_lives|done]. Qed.

Lemma feeds_run c ss s s' :
  Forall (feeds c) ss -> s =[ exec | ss ]=> s' ->
  (forall c' l, links s !! c' = Some l -> exists l', links s' !! c' = Some l' /\ grown (c' <> c) l l') /\
  (forall c', links s !! c' = None -> links s' !! c' = None) /\
  maxTaskQueueSize_ (pool s') = maxTaskQueueSize_ (pool s).
Proof.
  intros Hss. revert s. induction Hss as [|st ss Hst _ IH]; intros s; cbn [steps].
  { intros [= <-]. split; [|done]. intros c' l Hl. exists l. by repeat split. }
  destruct (exec s st) as [s1|] eqn:Hs; [|done]. intros Hrun.
  destruct (IH s1 Hrun) as (I1 & I2 & I3). split; [|split].
  - intros c' l Hl. destruct (links_grow _ _ s st s1 c' l Hs Hl) as (l1 & Hl1 & G1 & G2).
    destruct (I1 c' l1 Hl1) as (l2 & Hl2 & G3 & G4). exists l2. split; [done|]. split; [by etrans|].
    intros Hne. rewrite G4 by done. apply G2. intros o ->. by destruct Hst as [?|[d [= ? _]]].
  - intros c' Hc'. apply I2. eapply links_absent; [exact Hs| |done]. intros fd ->.
    by destruct Hst as [?|[d ?]].
  - by rewrite I3, (room_exec _ _ _ _ _ Hs).
Qed.

Lemma feeds_working c ss s s' : Forall (feeds c) ss -> working s -> s =[ exec | ss ]=> s' -> working s'.
Proof.
  intros Hss Hw Hrun. refine (steps_inv_labels exec (feeds c) working s ss s' _ Hss Hw Hrun).
  intros s1 st s2 Hst Hw1 Hs. eapply working_step; [done|by eapply feeds_lives|done].
Qed.

Abbreviation history := (history host the_registry).
Abbreviation ledger := (ledger host the_registry st0).

(** Until the first event, the tasks of the pool are those not begun. *)
Definition all_fresh (s : Server St) : Prop :=
  forall t, t ∈ live_tasks (pool s) -> job_at (func t) = Fresh.

Lemma all_fresh_exec s st s' :
  pool_inv (pool s) -> all_fresh s -> event_of host s st = [] -> exec s st = Some s' -> all_fresh s'.
Proof.
  intros Hi Hf He.
  assert (Hrun : forall w t, running_at (pool s) w = Some t -> job_at (func t) = Fresh).
  { intros w t Hw. destruct (live_running _ _ _ Hw) as (rest & Hp & _). apply Hf. rewrite Hp.
    apply elem_of_cons. by left. }
  destruct st as [c fd|c o|c o|ps|w|w|w|w|c o|c o|c]; cbn [Pipeline.server_exec]; unfold loop_step, job_step.
  4: { destruct (internal ps) eqn:Hps; cbn [negb]; [|done].
       destruct (step (pool s) ps) as [p|] eqn:Hst; [|done]. intros [= <-] t.
       cbn [pool]. rewrite (proj2 (step_internal _ _ _ Hi Hps Hst)). apply Hf. }
  4-7: destruct (running_at (pool s) w) as [t|] eqn:Hw; [|done]; destruct (links s !! _) as [l|]; [|done];
    rewrite (Hrun w t Hw); try done; cbn [event_of] in He; by rewrite Hw in He.
  3: { cbn [event_of] in He. destruct (links s !! c) as [l|]; [|done]. destruct (negb (busy l)); [done|].
       unfold decode_link. destruct (tryDecode host _) as [[[m|] b]|e]; [|intros [= <-]; exact Hf..].
       destruct (is_request m); cbn [negb]; [|intros [= <-]; exact Hf]. destruct (lock_ (pool s)); [done|].
       pose proof (pool_submit (pool s) (mkJob c m Fresh) Hi) as Hsub.
       destruct (submit (pool s) (mkJob c m Fresh)) as [p1 [u|e]]; [|done]. intros [= <-] t.
       destruct Hsub as [_ Hp]. cbn [pool]. rewrite Hp, elem_of_cons. intros [->|Ht]; [done|by apply Hf]. }
  all: repeat case_match; try done; intros [= <-]; exact Hf.
Qed.

Lemma all_fresh_run c ss s s' :
  Forall (feeds c) ss -> working s -> all_fresh s -> history s ss = [] -> s =[ exec | ss ]=> s' -> all_fresh s'.
Proof.
  intros Hss. revert s. induction Hss as [|st ss Hst _ IH]; intros s Hw Hf; cbn [steps Serial.history].
  { by intros _ [= <-]. }
  destruct (exec s st) as [s1|] eqn:Hs; [|done]. intros [He Hh]%app_eq_nil Hrun. apply (IH s1); try done.
  - eapply working_step; [done|by eapply feeds_lives|done].
  - eapply all_fresh_exec; [apply (si_pool _ _ _ s (proj1 Hw))|done|done|done].
Qed.

(** The step at which the only event of a run happened. *)
Lemma only_event c ss s s' e :
  Forall (feeds c) ss -> s =[ exec | ss ]=> s' -> history s ss = [e] ->
  exists ss1 st ss2 s1 s2, s =[ exec | ss1 ]=> s1 /\ history s ss1 = [] /\ exec s1 st = Some s2 /\
    event_of host s1 st = [e] /\ s2 =[ exec | ss2 ]=> s' /\ Forall (feeds c) ss1 /\ feeds c st /\ Forall (feeds c) ss2.
Proof.
  intros Hss. revert s. induction Hss as [|st ss Hst Hss IH]; intros s; cbn [steps Serial.history]; [done|].
  destruct (exec s st) as [s1|] eqn:Hs; [|done]. intros Hrun He. destruct (event_of host s st) as [|e' es] eqn:Hev.
  - destruct (IH s1 Hrun He) as (ss1 & st' & ss2 & a & b & H1 & H2 & H3 & H4 & H5 & H6 & H7 & H8).
    exists (st :: ss1), st', ss2, a, b. cbn [steps Serial.history]. rewrite Hs, Hev.
    do 6 (split; [try done; by constructor|]). done.
  - injection He as <- Hes. apply app_eq_nil in Hes as [-> _].
    exists [], st, ss, s, s1. by repeat split.
Qed.

(** A pool with room does not refuse. *)
Lemma submit_room (p : ThreadPool Job) j :
  awake p -> 0 < maxTaskQueueSize_ p -> live_tasks p = [] -> exists p', submit p j = (p', Ok tt).
Proof.
  intros Ha Hroom Hl. unfold submit, ThreadPool_pool, enqueueTask. unfold live_tasks in Hl.
  apply app_eq_nil in Hl as [_ Hq]. rewrite (aw_size p Ha), Hq, (aw_running p Ha). cbn [length negb].
  destruct (Nat.ltb_spec 0 (maxTaskQueueSize_ p)); [|lia]. cbn. by eexists.
Qed.

Lemma refused_step (s s' : Server St) c m st :
  pool_inv (pool s) -> event_of host s st = [Refused c m] -> exec s st = Some s' ->
  pool s' = pool s /\ forall p', submit (pool s) (mkJob c m Fresh) <> (p', Ok tt).
Proof.
  intros Hi. destruct st as [|?|c0 o|ps|w| | | | | |]; cbn [event_of Pipeline.server_exec]; try done.
  2: by destruct (running_at (pool s) w).
  destruct (links s !! c0) as [l|]; [|done]. unfold decode_link.
  destruct (tryDecode host (inputBuffer_ (tcp l))) as [[[m0|] b]|e]; try done.
  destruct (is_request m0); cbn [negb]; [|done].
  pose proof (pool_submit (pool s) (mkJob c0 m0 Fresh) Hi) as Hsub.
  destruct (submit (pool s) (mkJob c0 m0 Fresh)) as [p1 [u|e]] eqn:Hs; [done|]. intros [= <- <-].
  destruct (negb (busy l)); [done|]. destruct (lock_ (pool s)); [done|]. intros [= <-].
  destruct Hsub as [-> _]. split; [done|]. intros p'. by rewrite Hs.
Qed.

(** The history of a run with one request. *)
Lemma single_history hs c m :
  (forall c', c' <> c -> events_on c' hs = []) -> events_on c hs = [m] -> hs = [Served c m] \/ hs = [Refused c m].
Proof.
  intros Ho Hc. destruct hs as [|e hs]; [done|].
  assert (He : exists c0 m0, (e = Served c0 m0 \/ e = Refused c0 m0) /\
    forall c1, events_on c1 (e :: hs) = (if decide (c0 = c1) then [m0] else []) ++ events_on c1 hs).
  { destruct e as [c0 m0|c0 m0]; exists c0, m0; auto. }
  destruct He as (c0 & m0 & He & Hev). destruct (decide (c0 = c)) as [->|Hne].
  2: { specialize (Ho c0 Hne). by rewrite Hev, decide_True in Ho. }
  rewrite Hev, decide_True in Hc by done. injection Hc as -> Hnil.
  assert (hs = []) as ->; [|by destruct He as [-> | ->]; auto].
  destruct hs as [|e' hs]; [done|]. exfalso.
  assert (Hex : exists c1, events_on c1 (e' :: hs) <> []).
  { destruct e' as [c1 m1|c1 m1]; exists c1; unfold events_on; cbn; by rewrite decide_True. }
  destruct Hex as [c1 Hc1]. destruct (decide (c1 = c)) as [->|Hne1]; [done|].
  specialize (Ho c1 Hne1). rewrite Hev, decide_False in Ho by done. done.
Qed.

(** A request refused means that others waited. *)
Lemma refused_waiting h c m ss s s' :
  working s -> at_rest s -> 0 < maxTaskQueueSize_ (pool s) -> ledger h s -> Forall (feeds c) ss ->
  s =[ exec | ss ]=> s' -> at_rest s' -> history s ss = [Refused c m] -> False.
Proof.
  intros Hw Hr Hroom Hg Hss Hrun Hr' Hh.
  destruct (only_event c ss s s' _ Hss Hrun Hh)
    as (ss1 & st & ss2 & s1 & s2 & Hr1 & Hh1 & Hs & Hev & Hr2 & Hf1 & Hf & Hf2).
  pose proof (feeds_working c ss1 s s1 Hf1 Hw Hr1) as Hw1. pose proof (proj1 Hw1) as Hi1.
  assert (Hw2 : working s2) by (eapply working_step; [done|by eapply feeds_lives|done]).
  pose proof (run_ledger host loop name ioThreads n services st0 h ss1 s s1 (proj1 Hw) Hg Hr1) as Hg1.
  rewrite Hh1, app_nil_r in Hg1. pose proof (ledger_exec host the_registry st0 h s1 st s2 Hi1 Hg1 Hs) as Hg2.
  pose proof (run_ledger host loop name ioThreads n services st0 h ss s s' (proj1 Hw) Hg Hrun) as Hg'.
  rewrite Hev in Hg2. rewrite Hh in Hg'.
  destruct (refused_step s1 s2 c m st (si_pool _ _ _ s1 Hi1) Hev Hs) as [Hpool Hno].
  assert (Hall : all_fresh s1).
  { apply (all_fresh_run c ss1 s); try done. intros t. rewrite (proj2 Hr). by intros ?%elem_of_nil. }
  assert (Hlive : live_tasks (pool s1) = []).
  { apply elem_of_nil_inv. intros t Ht. destruct (si_job _ _ _ s1 Hi1 t Ht) as ((l1 & Hl1 & _) & _).
    destruct (links_grow _ _ s1 st s2 _ l1 Hs Hl1) as (l2 & Hl2 & _).
    destruct (proj1 (feeds_run c ss2 s2 s' Hf2 Hr2) _ l2 Hl2) as (l' & Hl' & [x Hx] & _).
    destruct (lg_link _ _ _ _ _ Hg2 _ l2 Hl2) as [G2 _]. destruct (lg_link _ _ _ _ _ Hg' _ l' Hl') as [G' _].
    unfold fresh_jobs in G' at 1. rewrite (proj2 Hr'), app_nil_r, Hx, List.filter_app, G2 in G'.
    apply Permutation_length in G'. rewrite !length_app in G'.
    assert (Hin : job_msg (func t) ∈ fresh_jobs (job_conn (func t)) (pool s2)).
    { rewrite Hpool. apply list_elem_of_bind. exists t. split; [|done]. unfold fresh_of.
      rewrite decide_True, (Hall t Ht) by done. by apply list_elem_of_singleton. }
    destruct (fresh_jobs _ _); [by apply elem_of_nil in Hin|]. cbn [length] in G'. lia. }
  destruct (submit_room (pool s1) (mkJob c m Fresh)) as [p' Hp']; [apply Hw1| |done|by apply (Hno p')].
  by rewrite (proj2 (proj2 (feeds_run c ss1 s s1 Hf1 Hr1))).
Qed.

(** From rest to rest with one more request read: the services ran on it, once. *)
Lemma one_request h c m ss s s' l l' :
  working s -> at_rest s -> 0 < maxTaskQueueSize_ (pool s) -> ledger h s -> Forall (feeds c) ss ->
  s =[ exec | ss ]=> s' -> at_rest s' -> links s !! c = Some l -> links s' !! c = Some l' ->
  List.filter is_request (parse_frames (fed l')).1.1 ≡ₚ List.filter is_request (parse_frames (fed l)).1.1 ++ [m] ->
  ledger (h ++ [Served c m]) s'.
Proof.
  intros Hw Hr Hroom Hg Hss Hrun Hr' Hl Hl' Hreq.
  pose proof (feeds_working c ss s s' Hss Hw Hrun) as Hw'.
  pose proof (run_ledger host loop name ioThreads n services st0 h ss s s' (proj1 Hw) Hg Hrun) as Hg'.
  destruct (ledger_accounted host loop name ioThreads n services st0 h s (proj1 Hw) Hg) as [_ Ha].
  destruct (ledger_accounted host loop name ioThreads n services st0 _ s' (proj1 Hw') Hg') as [_ Ha'].
  assert (Hat : forall c0 l0, links s !! c0 = Some l0 ->
    events_on c0 h ≡ₚ List.filter is_request (parse_frames (fed l0)).1.1).
  { intros c0 l0 Hl0. apply (Ha c0 l0 Hl0); [apply (proj1 Hr c0 l0 Hl0)|apply Hr]. }
  assert (Hat' : forall c0 l0, links s' !! c0 = Some l0 ->
    events_on c0 h ++ events_on c0 (history s ss) ≡ₚ List.filter is_request (parse_frames (fed l0)).1.1).
  { intros c0 l0 Hl0. rewrite <- events_on_app. apply (Ha' c0 l0 Hl0); [apply (proj1 Hr' c0 l0 Hl0)|apply Hr']. }
  destruct (feeds_run c ss s s' Hss Hrun) as (Hgrow & Habs & _).
  assert (Hhist : history s ss = [Served c m] \/ history s ss = [Refused c m]).
  { apply single_history.
    - intros c0 Hne. destruct (links s !! c0) as [l0|] eqn:Hl0.
      + destruct (Hgrow c0 l0 Hl0) as (l1 & Hl1 & _ & Hfed). specialize (Hat' c0 l1 Hl1).
        rewrite (Hfed Hne), <- (Hat c0 l0 Hl0) in Hat'. apply Permutation_length in Hat'.
        rewrite length_app in Hat'. apply nil_length_inv. lia.
      + pose proof (lg_none _ _ _ _ _ Hg' c0 (Habs c0 Hl0)) as Hn. rewrite events_on_app in Hn.
        by apply app_eq_nil in Hn as [_ ->].
    - specialize (Hat' c l' Hl'). rewrite Hreq, <- (Hat c l Hl) in Hat'.
      apply Permutation_app_inv_l in Hat'. by apply Permutation_singleton_r in Hat'. }
  destruct Hhist as [Hh|Hh]; [by rewrite Hh in Hg'|]. by destruct (refused_waiting h c m ss s s').
Qed.

(** The sequential server has at most one reply per request, so at rest its replies are those
    sent. *)
Lemma outputs_bound st h c :
  length (outputs_on c (replay host the_registry st h).2) <= length (events_on c h).
Proof.
  revert st. induction h as [|e h IH]; intros st; cbn [replay]; [done|].
  assert (Hone : length (outputs_on c (seq_step host the_registry st e).2) <= length (event_on c e)).
  { unfold outputs_on, event_on. destruct e as [c0 m|c0 m]; cbn [seq_step].
    - destruct (handleRequest _ _ _ _ _) as [[st' [|f out]] [u|x]]; cbn; try lia.
      rewrite app_nil_r. unfold output_on. cbn. by destruct (decide (c0 = c)).
    - cbn. rewrite app_nil_r. unfold output_on. cbn. by destruct (decide (c0 = c)). }
  destruct (seq_step host the_registry st e) as [st1 o]. specialize (IH st1).
  destruct (replay host the_registry st1 h) as [st2 os]. cbn [snd] in *.
  rewrite outputs_on_app, length_app. change (events_on c (e :: h)) with (event_on c e ++ events_on c h).
  rewrite length_app. lia.
Qed.

Lemma sent_outputs h s c l :
  working s -> at_rest s -> ledger h s -> links s !! c = Some l -> state_ (tcp l) = kConnected -> threw l = [] ->
  sent_ l ≡ₚ outputs_on c (replay host the_registry st0 h).2.
Proof.
  intros Hw Hr Hg Hl Hst Hth.
  destruct (ledger_accounted host loop name ioThreads n services st0 h s (proj1 Hw) Hg) as [_ Ha].
  destruct (Ha c l Hl) as (_ & Hsub & _ & Hev). destruct (proj1 Hr c l Hl) as [Hb _].
  specialize (Hev Hb (proj2 Hr)). pose proof (rest_sent s c l Hw Hr Hl Hst Hth) as Hs.
  apply submseteq_length_Permutation; [done|]. etrans; [apply outputs_bound|].
  apply Permutation_length in Hev, Hs. rewrite Hev, <- Hs, length_map. done.
Qed.

(** From rest to rest with one more request read on an open connection: one more reply, the one
    the specification defines in the state the services were in. *)
Lemma one_reply h c m ss s s' l l' :
  never_throws host the_registry -> working s -> at_rest s -> 0 < maxTaskQueueSize_ (pool s) ->
  ledger h s -> Forall (feeds c) ss -> s =[ exec | ss ]=> s' -> at_rest s' ->
  links s !! c = Some l -> state_ (tcp l) = kConnected -> threw l = [] ->
  links s' !! c = Some l' -> state_ (tcp l') = kConnected -> threw l' = [] -> is_request m = true ->
  List.filter is_request (parse_frames (fed l')).1.1 ≡ₚ List.filter is_request (parse_frames (fed l)).1.1 ++ [m] ->
  sent_ l `prefix_of` sent_ l' ->
  exists r, reply_for the_registry (service s) (body m) (service s') r /\
    sent_ l' = sent_ l ++ [(m, wire (reply_message (seq (header m)) r))] /\ ledger (h ++ [Served c m]) s'.
Proof.
  intros Hnt Hw Hr Hroom Hg Hss Hrun Hr' Hl Hst Hth Hl' Hst' Hth' Hm Hreq [x Hx].
  pose proof (feeds_working c ss s s' Hss Hw Hrun) as Hw'.
  pose proof (one_request h c m ss s s' l l' Hw Hr Hroom Hg Hss Hrun Hr' Hl Hl' Hreq) as Hg'.
  pose proof (sent_outputs h s c l Hw Hr Hg Hl Hst Hth) as H1.
  pose proof (sent_outputs _ s' c l' Hw' Hr' Hg' Hl' Hst' Hth') as H2.
  pose proof (lg_service _ _ _ _ _ Hg') as Hsv. rewrite replay_app in H2, Hsv. cbn [fst snd replay] in H2, Hsv.
  rewrite <- (lg_service _ _ _ _ _ Hg) in H2, Hsv. cbn [seq_step] in H2, Hsv.
  pose proof (Hnt (service s) m Hm) as Hok. pose proof (handleRequest_reply host the_registry (service s) [] m) as Hrep.
  destruct (handleRequest host the_registry (service s) [] m) as [[st' out] res]. cbn [snd] in Hok. subst res.
  destruct Hrep as (r & -> & Hrep). cbn [app fst snd] in H2, Hsv. subst st'. exists r. split; [done|]. split; [|done].
  rewrite Hx, H1, outputs_on_app in H2. apply Permutation_app_inv_l in H2. unfold outputs_on in H2.
  cbn [mbind list_bind app] in H2. unfold output_on in H2. cbn [fst snd] in H2. rewrite decide_True in H2 by done.
  symmetry in H2. apply Permutation_singleton_l in H2. by rewrite Hx, H2.
Qed.
End Feed.
