(* ===== verification/Loopback.v ===== *)
(** A client and a server on one machine: a [Kernel] whose sockets lead to the running server of
    [Pipeline], and the calls of [RpcChannel] over it, which return with the service's reply. *)
From stdpp Require Import base list gmap strings numbers.
From Stdlib Require Import Ascii ZArith Lia.
From S2P Require Import Prelude Bytes Common Buffer Codec Controller Service RpcServer Inet.
From S2P Require Import RpcChannel System ThreadPool TcpServer Poller TcpConnection Pipeline Serial Progress Feed.

(** ** The client's decoding loop on one frame *)

Section Frame.
Context (client : endian) `{Henv : EnvelopeLaws} {Msg : Type} (ParseFromString : bytes -> bool * Msg).

Lemma decode_whole sq b rsp k m :
  wf b -> contents b = wire m -> decoded m -> answers sq m ->
  exists r rsp' k' b',
    while_decode client (S (readableBytes b)) (response_body ParseFromString sq) (rsp, k) b
    = Some (LoopReturn r, (rsp', k'), b') /\
    wf b' /\ contents b' = [] /\ answered ParseFromString m k rsp r k' rsp'.
Proof.
  intros Hw Hb [Hs Hr] Ha. cbn [while_decode]. pose proof (tryDecode_buffer client b Hw) as Hd.
  pose proof (decode_spec_wire m [] Hs) as Hdw. rewrite app_nil_r, Hr in Hdw.
  rewrite Hb, Hdw in Hd. pose proof (response_body_spec ParseFromString sq rsp k m) as Hbody.
  destruct (tryDecode client b) as [[[m'|] b']|e]; [|by destruct Hd as [? _]|done].
  destruct Hd as ([= <- Hnil] & Hw' & _).
  destruct (response_body ParseFromString sq (rsp, k) m) as [[rsp' k'] [r|]]; [|by destruct Hbody].
  exists r, rsp', k', b'. by destruct Hbody.
Qed.

Lemma decode_part sq b rsp k m rest :
  wf b -> wire m = contents b ++ rest -> rest <> [] -> decoded m ->
  while_decode client (S (readableBytes b)) (response_body ParseFromString sq) (rsp, k) b
  = Some (LoopDone, (rsp, k), b).
Proof.
  intros Hw Hb Hne [Hs Hr]. cbn [while_decode].
  by rewrite (partial_frame_waits client m b rest Hs Hw Hne Hb).
Qed.
End Frame.

(** ** The kernel *)

Section Net.
Context (client host : endian) `{Henv : EnvelopeLaws} {SMsg St : Type}.
Context (loop : loop_id) (name : bytes) (ioThreads n : nat) (services : list (Service SMsg St)).
Context (st0 : St).
Abbreviation the_server := (configured loop name ioThreads n services).
Abbreviation the_registry := (registry_ the_server).
Abbreviation exec := (server_exec host the_registry).
Abbreviation working := (working host loop name ioThreads n services st0).
Abbreviation ledger := (ledger host the_registry st0).
Abbreviation working_step := (working_step host loop name ioThreads n services st0).
Abbreviation calm_run := (calm_run host loop name ioThreads n services st0).
Abbreviation calm_working := (calm_working host loop name ioThreads n services st0).
Abbreviation rest_sent := (rest_sent host loop name ioThreads n services st0).
Abbreviation flushed_written := (flushed_written host loop name ioThreads n services st0).
Abbreviation evolved_same := (evolved_same host loop name ioThreads n services st0).
Abbreviation run_ledger := (run_ledger host loop name ioThreads n services st0).
Abbreviation one_reply := (one_reply host loop name ioThreads n services st0).
Abbreviation feeds_run := (feeds_run host loop name ioThreads n services).

(** How the server's threads are run between two system calls of the client: any calm steps, as
    long as they bring the server to rest. *)
Class Schedule := {
  sched : nat -> Server St -> list server_step;
  sched_calm t s : Forall (fun st => calm st = true) (sched t s);
  sched_rests t s :
    working s -> exists s', s =[ exec | sched t s ]=> s' /\ at_rest s' /\ flushed s';
}.

(** The machine: the server, the client's descriptors (those connected with the server's
    connection and the number of bytes read), the next descriptor, the clock, and a count of the
    system calls that the choices below depend on. *)
Record Net := mkNet {
  srv : Server St;
  socks : gmap Z (option (nat * nat));
  next_fd : nat;
  time_ : Z;
  turn : nat;
}.

(** The choices of the machine: the address the server listens at, how many bytes (less one) a
    call moves at most, how much time has passed at a look at the clock, the text of errors. *)
Context (listen : sockaddr_in) (cut : nat -> nat) (tick : nat -> N) (error_text : Z -> bytes).
Context `{!Schedule}.

Definition run_sched (t : nat) (s : Server St) : Server St := default s (steps exec s (sched t s)).

Definition set_srv (w : Net) (s : Server St) : Net := mkNet s (socks w) (next_fd w) (time_ w) (S (turn w)).
Definition set_sock (w : Net) (fd : Z) (k : option (nat * nat)) : Net :=
  mkNet (srv w) (<[fd := k]> (socks w)) (next_fd w) (time_ w) (S (turn w)).

(** What a descriptor has to read. *)
Definition inbox (w : Net) (fd : Z) : bytes :=
  match socks w !! fd with
  | Some (Some (c, k)) =>
      match links (srv w) !! c with Some l => drop k (written (tcp l)) | None => [] end
  | _ => []
  end.

Definition net_connect (fd : Z) (a : sockaddr_in) (w : Net) : Z * Net :=
  match socks w !! fd with
  | Some None =>
      let c := fresh (dom (links (srv w))) in
      if bool_decide (a = listen) then
        match exec (srv w) (PAccept c fd) with
        | Some s => (0%Z, set_sock (set_srv w s) fd (Some (c, 0)))
        | None => ((-1)%Z, w)
        end
      else ((-1)%Z, w)
  | _ => ((-1)%Z, w)
  end.

(** The server reads the end of the stream and closes its side. *)
Definition net_close (fd : Z) (w : Net) : Net :=
  let s := match socks w !! fd with
           | Some (Some (c, _)) => default (srv w) (exec (srv w) (PRead c (ReadOk [])))
           | _ => srv w
           end in
  mkNet s (delete fd (socks w)) (next_fd w) (time_ w) (S (turn w)).

(** The server reads what is sent at once, and its threads run until they rest. *)
Definition net_send (fd : Z) (d : bytes) (w : Net) : Z * Net :=
  match socks w !! fd with
  | Some (Some (c, _)) =>
      match links (srv w) !! c with
      | Some l =>
          let k := length d `min` S (cut (turn w)) `min` readFd_capacity (inputBuffer_ (tcp l)) in
          match exec (srv w) (PRead c (ReadOk (take k d))) with
          | Some s => (Z.of_nat k, set_srv w (run_sched (turn w) s))
          | None => ((-1)%Z, w)
          end
      | None => ((-1)%Z, w)
      end
  | _ => ((-1)%Z, w)
  end.

Definition net_poll (fd ms : Z) (w : Net) : Z * Z * Net :=
  match inbox w fd with
  | [] => (0%Z, 0%Z, mkNet (srv w) (socks w) (next_fd w) (time_ w + ms * 1000000)%Z (S (turn w)))
  | _ => (1%Z, POLLIN, w)
  end.

Definition net_readv (fd : Z) (cap : nat) (w : Net) : read_outcome * Net :=
  match socks w !! fd, inbox w fd with
  | Some (Some (c, k)), (_ :: _) as d =>
      let j := length d `min` S (cut (turn w)) `min` cap in
      (ReadOk (take j d), set_sock w fd (Some (c, k + j)))
  | _, _ => (ReadErr EAGAIN, w)
  end.

#[export] Instance Net_kernel : Kernel Net := {
  steady_now w :=
    let t := (time_ w + Z.of_N (tick (turn w)))%Z in
    (t, mkNet (srv w) (socks w) (next_fd w) t (S (turn w)));
  sys_socket w :=
    let fd := Z.of_nat (next_fd w) in
    (fd, mkNet (srv w) (<[fd := None]> (socks w)) (S (next_fd w)) (time_ w) (S (turn w)));
  sys_connect := net_connect;
  sys_close := net_close;
  sys_send := net_send;
  sys_poll := net_poll;
  sys_readv := net_readv;
  errno _ := EAGAIN;
  strerror := error_text;
}.

(** ** Lemmas *)

Lemma run_sched_spec t s :
  working s -> s =[ exec | sched t s ]=> run_sched t s /\ working (run_sched t s) /\
    at_rest (run_sched t s) /\ flushed (run_sched t s).
Proof.
  intros Hw. destruct (sched_rests t s Hw) as (s' & Hrun & Hr & Hf). unfold run_sched. rewrite Hrun.
  split; [done|]. split; [|done]. eapply calm_working; [apply sched_calm|exact Hw|exact Hrun].
Qed.

(** ** Lines *)

(** Between two system calls: the server is at rest, its services are where a sequential server
    would have them, and each connected descriptor has its own connection. *)
Record net_ok (w : Net) : Prop := {
  ok_work : working (srv w);
  ok_rest : at_rest (srv w);
  ok_flush : flushed (srv w);
  ok_room : 0 < maxTaskQueueSize_ (pool (srv w));
  ok_ledger : exists h, ledger h (srv w);
  ok_fd : forall fd k, socks w !! fd = Some k -> (fd < Z.of_nat (next_fd w))%Z;
  ok_link : forall fd c k, socks w !! fd = Some (Some (c, k)) -> is_Some (links (srv w) !! c);
  ok_inj : forall fd fd' c k k', socks w !! fd = Some (Some (c, k)) ->
             socks w !! fd' = Some (Some (c, k')) -> fd = fd';
}.

(** The descriptor [fd] leads to the open connection [c], in the state [l], [k] bytes of whose
    output have been read; and no method has thrown there. *)
Record line (w : Net) (fd : Z) (c : nat) (l : Link) (k : nat) : Prop := {
  ln_sock : socks w !! fd = Some (Some (c, k));
  ln_link : links (srv w) !! c = Some l;
  ln_open : state_ (tcp l) = kConnected;
  ln_threw : threw l = [];
}.

(** A line on which the frames [old] were sent and all replies read. *)
Definition quiet_line (w : Net) (fd : Z) (old : list ProtocolMessage) : Prop :=
  exists c l, line w fd c l (length (written (tcp l))) /\ fed l = concat (map wire old) /\
    Forall sendable old.

(** Calls that leave the server and the other descriptors alone. *)
Lemma net_ok_world w w' :
  net_ok w -> srv w' = srv w -> socks w' = socks w -> next_fd w' = next_fd w -> net_ok w'.
Proof. intros [H1 H2 H3 H4 H5 H6 H7 H8] Hs Hk Hn. split; rewrite ?Hs, ?Hk, ?Hn; done. Qed.

Lemma line_world w w' fd c l k :
  line w fd c l k -> srv w' = srv w -> socks w' !! fd = socks w !! fd -> line w' fd c l k.
Proof. intros [H1 H2 H3 H4] Hs Hk. split; rewrite ?Hs, ?Hk; done. Qed.

Lemma quiet_line_world w w' fd old :
  quiet_line w fd old -> srv w' = srv w -> socks w' !! fd = socks w !! fd -> quiet_line w' fd old.
Proof. intros (c & l & Hl & Hf) Hs Hk. exists c, l. split; [by eapply line_world|done]. Qed.

(** The server's state after a read of [d] from [c] and the running of its threads. *)
Lemma feed_spec t s c l d :
  never_throws host the_registry -> working s -> at_rest s -> flushed s ->
  links s !! c = Some l -> state_ (tcp l) = kConnected -> threw l = [] -> d <> [] ->
  (parse_frames (fed l ++ d)).1.2 = None ->
  exists s1 l', exec s (PRead c (ReadOk d)) = Some s1 /\
    let s' := run_sched t s1 in
    s =[ exec | PRead c (ReadOk d) :: sched t s1 ]=> s' /\ working s' /\ at_rest s' /\ flushed s' /\ links s' !! c = Some l' /\
    fed l' = fed l ++ d /\ state_ (tcp l') = kConnected /\ threw l' = [] /\ sent_ l `prefix_of` sent_ l' /\
    forall c2 l2, c2 <> c -> links s !! c2 = Some l2 -> sound_link l2 -> threw l2 = [] ->
      exists l2', links s' !! c2 = Some l2' /\ evolved l2 l2' /\ written (tcp l2') = written (tcp l2).
Proof.
  intros Hnt Hw Hr Hf Hl Hst Hth Hd Hp. destruct (proj1 Hr c l Hl) as [Hb _].
  set (l1 := read_link l (ReadOk d)). set (s1 := mkServer (<[c := l1]> (links s)) (pool s) (service s)).
  assert (Hs1 : exec s (PRead c (ReadOk d)) = Some s1) by (cbn; unfold loop_step; by rewrite Hl, Hb).
  assert (Hw1 : working s1) by (by eapply (working_step s (PRead c (ReadOk d)))).
  destruct (run_sched_spec t s1 Hw1) as (Hrun & Hw' & Hr' & Hf').
  destruct (read_state l d Hd) as (R1 & R2 & R3 & R4). fold l1 in R1, R2, R3, R4.
  assert (Hl1 : links s1 !! c = Some l1) by (cbn; by rewrite lookup_insert_eq).
  destruct (calm_run (sched t s1) s1 _ c l1 Hnt (sched_calm _ _) Hw1 Hrun Hl1) as (_ & l' & Hl' & E1 & E2 & E3 & E4).
  { split; [by rewrite R2|by rewrite R1]. }
  exists s1, l'. split; [done|]. cbn zeta. split; [cbn [steps]; by rewrite Hs1|]. do 4 (split; [done|]).
  split; [by rewrite E1|]. split; [by rewrite E2, R2|]. split; [by rewrite E4, R4|].
  split; [by rewrite <- R3|]. intros c2 l2 Hne Hl2 Hok2 Hth2.
  assert (Hl2' : links s1 !! c2 = Some l2) by (cbn; by rewrite lookup_insert_ne).
  destruct (calm_run (sched t s1) s1 _ c2 l2 Hnt (sched_calm _ _) Hw1 Hrun Hl2' Hok2) as (_ & l2' & Hl2'' & He).
  exists l2'. split; [done|]. split; [done|].
  by apply (evolved_same s _ c2 l2 l2' Hw Hr Hf Hl2 Hw' Hr' Hf' Hl2'' (proj1 Hok2) Hth2).
Qed.

(** The other lines of the machine are as they were. *)
Definition others_kept (fd : Z) (w w' : Net) : Prop :=
  forall fd2 old2, fd2 <> fd -> quiet_line w fd2 old2 -> quiet_line w' fd2 old2.

#[local] Instance others_kept_preorder fd : PreOrder (others_kept fd).
Proof. split; [by intros w fd2 old2|]. intros w1 w2 w3 H1 H2 fd2 old2 Hne Hq. by apply H2, H1. Qed.

Lemma capacity_pos b : 0 < readFd_capacity b.
Proof. unfold readFd_capacity, extrabuf_size. case_match; reflect_tests; lia. Qed.

Lemma net_send_spec fd d w c l k :
  never_throws host the_registry -> net_ok w -> line w fd c l k -> d <> [] ->
  (parse_frames (fed l ++ d)).1.2 = None ->
  exists j w' l', net_send fd d w = (Z.of_nat j, w') /\ 0 < j <= length d /\ net_ok w' /\
    line w' fd c l' k /\ fed l' = fed l ++ take j d /\ sent_ l `prefix_of` sent_ l' /\
    (exists ss, srv w =[ exec | ss ]=> srv w' /\ Forall (feeds c) ss) /\ others_kept fd w w'.
Proof.
  intros Hnt Hok [Hs Hl Hst Hth] Hd Hp. unfold net_send. rewrite Hs, Hl.
  set (j := length d `min` S (cut (turn w)) `min` readFd_capacity (inputBuffer_ (tcp l))).
  assert (Hj : 0 < j <= length d).
  { pose proof (capacity_pos (inputBuffer_ (tcp l))). destruct d; [done|]. unfold j. cbn [length]. lia. }
  assert (Hp' : (parse_frames (fed l ++ take j d)).1.2 = None).
  { apply (parse_prefix _ (drop j d)). by rewrite <- app_assoc, take_drop. }
  assert (Hd' : take j d <> []) by (intros Hn%(f_equal length); rewrite length_take in Hn; cbn in Hn; lia).
  destruct (feed_spec (turn w) (srv w) c l (take j d) Hnt (ok_work _ Hok) (ok_rest _ Hok) (ok_flush _ Hok)
              Hl Hst Hth Hd' Hp') as (s1 & l' & Hs1 & Hrun & Hw' & Hr' & Hf' & Hl' & Hfd & Hst' & Hth' & Hpre & Hothers).
  rewrite Hs1. set (s' := run_sched (turn w) s1) in *. set (ss := PRead c _ :: sched (turn w) s1) in *.
  assert (Hss : Forall (feeds c) ss).
  { constructor; [right; by eexists|]. eapply list.Forall_impl; [apply sched_calm|]. intros st Hst0. by left. }
  destruct (feeds_run c ss (srv w) s' Hss Hrun) as (Hgrow & _ & Hroom).
  exists j, (set_srv w s'), l'. split; [done|]. split; [done|]. split.
  { destruct Hok as [K1 K2 K3 K4 [h Hg] K6 K7 K8]. split; cbn [srv set_srv]; try done.
    - by rewrite Hroom.
    - eexists. exact (run_ledger h ss (srv w) s' (proj1 K1) Hg Hrun).
    - intros fd2 c2 k2 Hs2. destruct (K7 _ _ _ Hs2) as [l2 Hl2].
      destruct (Hgrow c2 l2 Hl2) as (l3 & Hl3 & _). by exists l3. }
  split; [by split|]. split; [done|]. split; [done|]. split; [by exists ss|].
  intros fd2 old2 Hne (c2 & l2 & [Hs2 Hl2 Hst2 Hth2] & Hf2 & Hold2).
  assert (Hc : c2 <> c) by (intros ->; by destruct Hne; eapply (ok_inj _ Hok)).
  destruct (Hothers c2 l2 Hc Hl2) as (l2' & Hl2' & (E1 & E2 & E3 & E4) & Hwr).
  { split; [done|]. rewrite Hf2. by apply parse_wires. }
  { done. }
  exists c2, l2'. split; [|by rewrite E1]. rewrite Hwr. split; [done|done|congruence|congruence].
Qed.

Lemma send_all_spec fuel fd data sent w c l k :
  never_throws host the_registry -> net_ok w -> line w fd c l k ->
  (parse_frames (fed l ++ drop sent data)).1.2 = None -> length data - sent < fuel ->
  exists w' l', sendAll fuel fd data sent w = Some (true, w') /\ net_ok w' /\ line w' fd c l' k /\
    fed l' = fed l ++ drop sent data /\ sent_ l `prefix_of` sent_ l' /\
    (exists ss, srv w =[ exec | ss ]=> srv w' /\ Forall (feeds c) ss) /\ others_kept fd w w'.
Proof.
  intros Hnt. revert sent w l. induction fuel as [|fuel IH]; intros sent w l Hok Hln Hp Hf; [lia|].
  cbn [sendAll]. destruct (Nat.ltb_spec sent (length data)) as [Hlt|Hge].
  2: { exists w, l. rewrite drop_ge, app_nil_r by done. do 5 (split; [done|]). split; [by exists []|done]. }
  assert (Hd : drop sent data <> []) by (intros Hn%(f_equal length); rewrite length_drop in Hn; cbn in Hn; lia).
  destruct (net_send_spec fd (drop sent data) w c l k Hnt Hok Hln Hd Hp)
    as (j & w1 & l1 & Hs & Hj & Hok1 & Hln1 & Hf1 & Hp1 & (ss1 & Hr1 & Hss1) & Ho1).
  cbn [sys_send Net_kernel]. rewrite Hs, length_drop in *.
  destruct (Z.ltb_spec (Z.of_nat j) 0); [lia|]. destruct (Z.eqb_spec (Z.of_nat j) 0); [lia|].
  rewrite Nat2Z.id. assert (Hrest : fed l1 ++ drop (sent + j) data = fed l ++ drop sent data).
  { by rewrite Hf1, <- app_assoc, <- (drop_drop data), take_drop. }
  destruct (IH (sent + j) w1 l1) as (w' & l' & He & Hok' & Hln' & Hf' & Hp' & (ss2 & Hr2 & Hss2) & Ho');
    [done|done|by rewrite Hrest|lia|].
  exists w', l'. split; [done|]. split; [done|]. split; [done|]. split; [by rewrite Hf'|].
  split; [by etrans|]. split; [|by etrans]. exists (ss1 ++ ss2).
  split; [apply steps_app; by exists (srv w1)|by apply Forall_app].
Qed.

Lemma wires_snoc old req : concat (map wire old) ++ wire req = concat (map wire (old ++ [req])).
Proof. rewrite map_app, concat_app. cbn. by rewrite app_nil_r. Qed.

(** A whole request sent: the services have handled it, and the reply is there to be read. *)
Lemma request_sent ss w w' fd c l l' old req :
  never_throws host the_registry -> net_ok w -> net_ok w' ->
  srv w =[ exec | ss ]=> srv w' -> Forall (feeds c) ss ->
  line w fd c l (length (written (tcp l))) -> line w' fd c l' (length (written (tcp l))) ->
  fed l = concat (map wire old) -> Forall sendable old -> sendable req -> is_request (received req) = true ->
  fed l' = fed l ++ wire req -> sent_ l `prefix_of` sent_ l' ->
  exists r, reply_for the_registry (service (srv w)) (body req) (service (srv w')) r /\
    written (tcp l') = written (tcp l) ++ wire (reply_message (seq (header req)) r) /\
    inbox w' fd = wire (reply_message (seq (header req)) r).
Proof.
  intros Hnt Hok Hok' Hrun Hss [Hs Hl Hst Hth] [Hs' Hl' Hst' Hth'] Hf Hold Hreq Hr Hf' Hpre.
  destruct (ok_ledger _ Hok) as [h Hg].
  destruct (one_reply h c (received req) ss (srv w) (srv w') l l') as (r & Hrep & Hsent & _);
    try done; try apply Hok; try apply Hok'.
  { rewrite Hf', Hf, wires_snoc, !parse_frames_wires by (try apply Forall_app; rewrite ?Forall_singleton; done).
    cbn [fst]. rewrite map_app, List.filter_app. cbn [map List.filter]. by rewrite Hr. }
  exists r. split; [done|].
  assert (Hw' : written (tcp l') = written (tcp l) ++ wire (reply_message (seq (header req)) r)).
  { rewrite (flushed_written _ c l' (ok_work _ Hok') (ok_flush _ Hok') Hl' Hst'), Hsent, map_app, concat_app.
    rewrite (flushed_written _ c l (ok_work _ Hok) (ok_flush _ Hok) Hl Hst). cbn. by rewrite app_nil_r. }
  split; [done|]. unfold inbox. by rewrite Hs', Hl', Hw', drop_app_length.
Qed.

(** ** A wait *)

Context {Msg : Type} (ParseFromString : bytes -> bool * Msg).
Context (pace : Z) (paced : forall t, (Z.of_N (tick t) <= pace)%Z).
Abbreviation state := (CallState (W := Net) (Msg := Msg)).

Lemma inbox_line w fd c l k : line w fd c l k -> inbox w fd = drop k (written (tcp l)).
Proof. intros [Hs Hl _ _]. unfold inbox. by rewrite Hs, Hl. Qed.

(** A descriptor read from. *)
Lemma net_readv_spec fd cap w c l k :
  net_ok w -> line w fd c l k -> inbox w fd <> [] -> 0 < cap ->
  exists j w', net_readv fd cap w = (ReadOk (take j (inbox w fd)), w') /\
    0 < j <= length (inbox w fd) /\ net_ok w' /\ line w' fd c l (k + j) /\
    inbox w' fd = drop j (inbox w fd) /\ time_ w' = time_ w /\ srv w' = srv w /\ others_kept fd w w'.
Proof.
  intros Hok Hln Hne Hcap. pose proof (inbox_line _ _ _ _ _ Hln) as Hin. unfold net_readv.
  pose proof Hln as [Hs Hl Hst Hth]. rewrite Hs. destruct (inbox w fd) as [|a d] eqn:Hd; [done|].
  set (j := length (a :: d) `min` S (cut (turn w)) `min` cap).
  assert (Hln' : line (set_sock w fd (Some (c, k + j))) fd c l (k + j))
    by (split; [apply lookup_insert_eq|done..]).
  exists j, (set_sock w fd (Some (c, k + j))). split; [done|].
  split; [unfold j; cbn [length]; lia|]. split; [|split; [done|]].
  - destruct Hok as [H1 H2 H3 H3' H3'' H4 H5 H6]. split; try done; cbn [socks set_sock srv next_fd].
    + intros fd' k' [[<- _]|[_ Hk]]%lookup_insert_Some; [by eapply H4|by eapply H4].
    + intros fd' c' k' [[<- [= <- _]]|[_ Hk]]%lookup_insert_Some; [by eexists|by eapply H5].
    + intros fd1 fd2 c' k1 k2 [[<- [= <- _]]|[Hn1 Hk1]]%lookup_insert_Some
        [[<- He]|[Hn2 Hk2]]%lookup_insert_Some; [done|by eapply H6| |by eapply H6].
      injection He as <- _. by eapply H6.
  - rewrite (inbox_line _ _ _ _ _ Hln'), Hin, drop_drop. do 3 (split; [done|]).
    intros fd2 old2 Hne2 Hq. eapply quiet_line_world; [exact Hq|done|]. by apply lookup_insert_ne.
Qed.

(** A turn of the wait when there is something to read. *)
Lemma wait_turn fuel sq dl ch ct rs w c l k :
  let fd := fd_ ch in
  net_ok w -> line w fd c l k -> wf (RpcChannel.inputBuffer_ ch) -> inbox w fd <> [] ->
  (time_ w + pace < dl)%Z ->
  exists j b w2, 0 < j <= length (inbox w fd) /\
    wf b /\ contents b = contents (RpcChannel.inputBuffer_ ch) ++ take j (inbox w fd) /\
    net_ok w2 /\ line w2 fd c l (k + j) /\ inbox w2 fd = drop j (inbox w fd) /\
    (time_ w2 <= time_ w + pace)%Z /\ srv w2 = srv w /\ others_kept fd w w2 /\
    forall e rs' ct' b',
      while_decode client (S (readableBytes b)) (response_body ParseFromString sq) (rs, ct) b
      = Some (e, (rs', ct'), b') ->
      wait_loop client ParseFromString (S fuel) sq dl (mkCall ch ct rs w) =
      match e with
      | LoopReturn r => Some (r, mkCall (RpcChannel.set_input ch b') ct' rs' w2)
      | LoopDone =>
          wait_loop client ParseFromString fuel sq dl (mkCall (RpcChannel.set_input ch b') ct' rs' w2)
      | LoopThrow x =>
          Some (CallSystem, mkCall (RpcChannel.set_input ch b') (failController ct' kUnknown (what x)) rs' w2)
      end.
Proof.
  cbn zeta. intros Hok Hln Hw Hne Ht. set (fd := fd_ ch) in *. pose proof (paced (turn w)) as Hpace.
  set (t1 := (time_ w + Z.of_N (tick (turn w)))%Z).
  set (w1 := mkNet (srv w) (socks w) (next_fd w) t1 (S (turn w))).
  assert (Hln1 : line w1 fd c l k) by (by eapply line_world).
  assert (Hin1 : inbox w1 fd = inbox w fd) by done.
  destruct (net_readv_spec fd (readFd_capacity (RpcChannel.inputBuffer_ ch)) w1 c l k)
    as (j & w2 & Hrd & Hj & Hok2 & Hln2 & Hin2 & Ht2 & Hs2 & Ho2);
    [by eapply net_ok_world|done|by rewrite Hin1|apply capacity_pos|].
  rewrite Hin1 in Hrd, Hj, Hin2. destruct (readFd_Ok_spec (RpcChannel.inputBuffer_ ch) (take j (inbox w fd)) Hw)
    as [Hwb Hcb].
  exists j, (readFd (RpcChannel.inputBuffer_ ch) (ReadOk (take j (inbox w fd)))).2, w2.
  do 6 (split; [done|]). split; [rewrite Ht2; cbn [time_ w1]; unfold t1; lia|]. split; [done|].
  split; [intros fd2 o2 Hne2 Hq; apply Ho2; [done|by eapply quiet_line_world]|].
  intros e rs' ct' b'. cbn [wait_loop]. cbn [chan ctrl resp world steady_now Net_kernel].
  fold t1 w1. destruct (Z.leb_spec dl t1) as [Hle|Hgt]; [unfold t1 in Hle; lia|].
  cbn [sys_poll Net_kernel chan ctrl resp world]. fold fd. unfold net_poll at 1. rewrite Hin1.
  destruct (inbox w fd) as [|a0 d0] eqn:Hd; [done|]. rewrite <- Hd in *.
  cbn [Z.eqb Z.ltb Z.compare chan ctrl resp world].
  change (negb (Z.land POLLIN (Z.lor (Z.lor POLLERR POLLHUP) POLLNVAL) =? 0)%Z) with false.
  change (Z.land POLLIN POLLIN =? 0)%Z with false. cbn [sys_readv Net_kernel chan ctrl resp world]. fold fd.
  rewrite Hrd.
  assert (Hn : (readFd (RpcChannel.inputBuffer_ ch) (ReadOk (take j (inbox w fd)))).1.1 = Z.of_nat j).
  { cbn. rewrite length_take. lia. }
  destruct (readFd _ _) as [[n0 en] b]. cbn [fst snd] in *. subst n0.
  destruct (Z.leb_spec (Z.of_nat j) 0); [lia|]. cbn [chan ctrl resp world]. intros ->. by destruct e.
Qed.

(** The frame awaited is on its way: the wait reads it, piece by piece, and returns what it says. *)
Lemma wait_delivered fuel sq dl (s : state) c l k m :
  let fd := fd_ (chan s) in
  net_ok (world s) -> line (world s) fd c l k -> wf (RpcChannel.inputBuffer_ (chan s)) ->
  decoded m -> answers sq m -> contents (RpcChannel.inputBuffer_ (chan s)) ++ inbox (world s) fd = wire m ->
  inbox (world s) fd <> [] ->
  (time_ (world s) + pace * Z.of_nat (length (inbox (world s) fd)) < dl)%Z ->
  length (inbox (world s) fd) <= fuel ->
  exists r s' b, wait_loop client ParseFromString fuel sq dl s = Some (r, s') /\
    answered ParseFromString m (ctrl s) (resp s) r (ctrl s') (resp s') /\
    chan s' = RpcChannel.set_input (chan s) b /\ wf b /\ contents b = [] /\
    net_ok (world s') /\ line (world s') fd c l (k + length (inbox (world s) fd)) /\
    srv (world s') = srv (world s) /\ others_kept fd (world s) (world s').
Proof.
  cbn zeta. revert s k. induction fuel as [|fuel IH]; intros [ch ct rs w] k Hok Hln Hw Hm Ha Hb Hne Ht Hf;
    cbn [chan ctrl resp world] in *; [destruct (inbox w (fd_ ch)); [done|cbn in Hf; lia]|].
  assert (Hlen : 0 < length (inbox w (fd_ ch))) by (destruct (inbox w (fd_ ch)); [done|cbn; lia]).
  assert (Hp0 : (0 <= pace)%Z) by (pose proof (paced 0); lia).
  destruct (wait_turn fuel sq dl ch ct rs w c l k Hok Hln Hw Hne) as
    (j & b & w2 & Hj & Hwb & Hcb & Hok2 & Hln2 & Hin2 & Ht2 & Hs2 & Ho2 & Hgo); [nia|].
  assert (Hsplit : wire m = contents b ++ drop j (inbox w (fd_ ch)))
    by (by rewrite Hcb, <- app_assoc, take_drop).
  destruct (decide (drop j (inbox w (fd_ ch)) = [])) as [Hall|Hmore].
  - rewrite Hall, app_nil_r in Hsplit.
    destruct (decode_whole client ParseFromString sq b rs ct m Hwb (eq_sym Hsplit) Hm Ha)
      as (r & rs' & ct' & b' & He & Hwb' & Hcb' & Hans). apply Hgo in He.
    eexists r, _, b'. split; [exact He|]. cbn [chan ctrl resp world].
    assert (length (inbox w (fd_ ch)) = j) as -> by (apply (f_equal length) in Hall; rewrite length_drop in Hall; cbn in Hall; lia).
    by repeat (split; [done|]).
  - specialize (Hgo _ _ _ _ (decode_part client ParseFromString sq b rs ct m _ Hwb Hsplit Hmore Hm)).
    destruct (IH (mkCall (RpcChannel.set_input ch b) ct rs w2) (k + j))
      as (r & s' & b' & He & Hans & Hch & Hrest);
      cbn [chan ctrl resp world RpcChannel.set_input fd_ RpcChannel.inputBuffer_]; rewrite ?Hin2, ?length_drop;
      try done; [nia|lia|].
    exists r, s', b'. split; [by rewrite Hgo|]. split; [done|]. split; [done|].
    destruct Hrest as (R1 & R2 & R3 & R4 & R5 & R6). cbn [world chan] in *.
    change (fd_ (RpcChannel.set_input ch b)) with (fd_ ch) in R4. rewrite Hin2, length_drop in R4.
    replace (k + j + (length (inbox w (fd_ ch)) - j)) with (k + length (inbox w (fd_ ch))) in R4 by lia.
    do 4 (split; [done|]). split; [by rewrite R5|by etrans].
Qed.

(** ** A call *)

(** The client's channel between calls: to the server's address, with nothing buffered, and not
    connected yet or over a line whose replies have all been read. *)
Definition at_ease (ch : RpcChannel) (w : Net) : Prop :=
  net_ok w /\ wf (RpcChannel.inputBuffer_ ch) /\ contents (RpcChannel.inputBuffer_ ch) = [] /\
  fits 64 (nextSeq_ ch) /\ serverAddr_ ch = listen /\
  ((fd_ ch < 0)%Z \/ (0 <= fd_ ch)%Z /\ exists old, quiet_line w (fd_ ch) old).
Definition ready (s : state) : Prop := at_ease (chan s) (world s).

(** ... with its settings. *)
Definition good_channel (ms retries : Z) (ch : RpcChannel) (w : Net) : Prop :=
  at_ease ch w /\ timeoutMs_ ch = ms /\ maxRetries_ ch = retries.

Lemma new_channel ms retries w : net_ok w -> good_channel ms retries (RpcChannel_new listen ms retries) w.
Proof.
  intros Hok. split; [|done]. split; [done|]. split; [apply wf_new|]. split; [apply contents_new|].
  split; [by vm_compute|]. split; [done|by left].
Qed.

(** A channel that another connection's call or closing leaves alone. *)
Lemma good_kept ms retries ch w w' fd :
  good_channel ms retries ch w -> net_ok w' -> fd_ ch <> fd -> others_kept fd w w' ->
  good_channel ms retries ch w'.
Proof.
  intros ((_ & H1 & H2 & H3 & H4 & H5) & Hs) Hok Hne Hk. split; [|done]. split; [done|].
  do 4 (split; [done|]). destruct H5 as [H5|(Hpos & old & Hq)]; [by left|right]. split; [done|].
  exists old. by apply Hk.
Qed.

(** The descriptor a new connection gets is nobody's. *)
Lemma good_fd ms retries ch w : good_channel ms retries ch w -> fd_ ch <> Z.of_nat (next_fd w).
Proof.
  intros ((Hok & _ & _ & _ & _ & [Hneg|(Hpos & old & c & l & [Hs _ _ _] & _)]) & _); [lia|].
  pose proof (ok_fd _ Hok _ _ Hs). lia.
Qed.

(** What a reply makes of the caller's controller and response. *)
Definition reply_outcome (c : Controller) (rsp : Msg) (r : RpcResponse) : Controller * Msg :=
  if (error_code r =? kOk)%Z then
    let '(ok, rsp') := ParseFromString (response r) in
    (if ok then c else failController c kUnknown (lit "bad response payload"), rsp')
  else
    (failController c (error_code r)
       (if decide (error_message r = []) then lit "rpc call failed" else error_message r), rsp).

Lemma answered_outcome m r c rsp res c' rsp' :
  parseResponse (body m) = Some r -> answered ParseFromString m c rsp res c' rsp' ->
  (c', rsp') = reply_outcome c rsp r /\ res <> CallTimeout.
Proof.
  intros Hp Ha. unfold reply_outcome.
  inversion Ha as [Hn|r1 text Hp1 Hc Ht|r1 x Hp1 Hc Hr|r1 x Hp1 Hc Hr]; simplify_eq; [..|].
  - destruct (Z.eqb_spec (error_code r) kOk); [done|]. done.
  - by rewrite (proj2 (Z.eqb_eq _ _) Hc), Hr.
  - by rewrite (proj2 (Z.eqb_eq _ _) Hc), Hr.
Qed.

(** A new connection: the other lines stay, and this one is quiet. *)
Definition dialed_srv (w : Net) : Server St :=
  mkServer (<[fresh (dom (links (srv w))) := Link_new (Z.of_nat (next_fd w))]> (links (srv w)))
    (pool (srv w)) (service (srv w)).
Definition dialed (w : Net) : Net :=
  let fd := Z.of_nat (next_fd w) in
  mkNet (dialed_srv w) (<[fd := Some (fresh (dom (links (srv w))), 0)]> (<[fd := None]> (socks w)))
    (S (next_fd w)) (time_ w) (S (S (S (turn w)))).

Lemma dialed_exec w : exec (srv w) (PAccept (fresh (dom (links (srv w)))) (Z.of_nat (next_fd w))) = Some (dialed_srv w).
Proof. cbn. by rewrite (not_elem_of_dom_1 (links (srv w)) _ (is_fresh _)). Qed.

Lemma dialed_sock w fd : fd <> Z.of_nat (next_fd w) -> socks (dialed w) !! fd = socks w !! fd.
Proof. intros Hne. cbn. by rewrite !lookup_insert_ne by done. Qed.

Lemma dialed_self w :
  socks (dialed w) !! Z.of_nat (next_fd w) = Some (Some (fresh (dom (links (srv w))), 0)).
Proof. apply lookup_insert_eq. Qed.

Lemma dialed_ok w : net_ok w -> net_ok (dialed w).
Proof.
  intros [K1 [K2 K2'] K3 K3' [h Hg] K4 K5 K6]. set (fd := Z.of_nat (next_fd w)). set (c := fresh (dom (links (srv w)))).
  assert (Hc : links (srv w) !! c = None) by apply not_elem_of_dom_1, is_fresh.
  assert (Hself : forall fd2 c2 k, socks (dialed w) !! fd2 = Some (Some (c2, k)) -> fd2 = fd /\ c2 = c \/
                    fd2 <> fd /\ socks w !! fd2 = Some (Some (c2, k))).
  { intros fd2 c2 k. destruct (decide (fd2 = fd)) as [->|Hne].
    - unfold fd. rewrite dialed_self. intros [= <- _]. by left.
    - rewrite dialed_sock by done. auto. }
  split; cbn [srv dialed dialed_srv links].
  - by refine (working_step _ _ _ K1 _ (dialed_exec w)).
  - split; [|done]. cbn. intros c2 l2 [[<- <-]|[_ Hl]]%lookup_insert_Some; [done|by eapply K2].
  - unfold flushed. cbn [dialed_srv links]. intros c2 l2 [[<- <-]|[_ Hl]]%lookup_insert_Some Hst; [apply contents_new|by eapply K3].
  - exact K3'.
  - exists h. by apply ledger_accept; [apply K1|..].
  - intros fd2 k2. cbn [next_fd dialed]. destruct (decide (fd2 = fd)) as [->|Hne]; [lia|].
    rewrite dialed_sock by done. intros Hk%K4. lia.
  - intros fd2 c2 k2 [[_ ->]|[_ Hk%K5]]%Hself; apply lookup_insert_is_Some'; [by left|by right].
  - intros fd1 fd2 c2 k1 k2 [[-> ->]|[N1 Hk1]]%Hself [[-> E2]|[N2 Hk2]]%Hself; [done| | |by eapply K6].
    + apply K5 in Hk2 as [l Hl]. congruence.
    + apply K5 in Hk1 as [l Hl]. congruence.
Qed.

Lemma dialed_lines w :
  quiet_line (dialed w) (Z.of_nat (next_fd w)) [] /\ others_kept (Z.of_nat (next_fd w)) w (dialed w).
Proof.
  assert (Hc : links (srv w) !! fresh (dom (links (srv w))) = None) by apply not_elem_of_dom_1, is_fresh.
  split.
  - exists (fresh (dom (links (srv w)))), (Link_new (Z.of_nat (next_fd w))). split; [|by split].
    split; [apply dialed_self|apply lookup_insert_eq|done|done].
  - intros fd2 old2 Hne (c2 & l2 & [Hs2 Hl2 Hst2 Hth2] & Hf2). exists c2, l2. split; [|done]. split; try done.
    + by rewrite dialed_sock.
    + cbn. rewrite lookup_insert_ne by congruence. done.
Qed.

Lemma net_connect_spec ch w :
  net_ok w -> serverAddr_ ch = listen ->
  ((fd_ ch < 0)%Z \/ (0 <= fd_ ch)%Z /\ exists old, quiet_line w (fd_ ch) old) ->
  exists fd w' old, connect ch w = (true, set_fd ch fd, w') /\ (0 <= fd)%Z /\ net_ok w' /\
    quiet_line w' fd old /\ service (srv w') = service (srv w) /\
    ((fd_ ch < 0)%Z -> fd = Z.of_nat (next_fd w)) /\ others_kept fd w w'.
Proof.
  intros Hok Ha [Hneg|(Hpos & old & Hq)]; unfold connect.
  2: { destruct (Z.leb_spec 0 (fd_ ch)); [|lia]. exists (fd_ ch), w, old. destruct ch.
       do 5 (split; [done|]). split; [cbn in *; lia|done]. }
  destruct (Z.leb_spec 0 (fd_ ch)); [lia|]. cbn [sys_socket Net_kernel].
  destruct (Z.ltb_spec (Z.of_nat (next_fd w)) 0); [lia|].
  cbn [sys_connect Net_kernel]. unfold net_connect. cbn [socks srv]. rewrite lookup_insert_eq, Ha.
  rewrite bool_decide_eq_true_2, dialed_exec by done. destruct (dialed_lines w) as [Hq Ho].
  exists (Z.of_nat (next_fd w)), (dialed w), []. split; [done|]. split; [lia|].
  by split; [apply dialed_ok|].
Qed.

(** A connection closed: the server reads the end of the stream. *)
Lemma closed_srv w c l :
  net_ok w -> links (srv w) !! c = Some l ->
  exists s' l', exec (srv w) (PRead c (ReadOk [])) = Some s' /\
    s' = mkServer (<[c := l']> (links (srv w))) (pool (srv w)) (service (srv w)) /\
    busy l' = false /\ functors l' = [] /\ state_ (tcp l') = kDisconnected.
Proof.
  intros Hok Hl. destruct (proj1 (ok_rest _ Hok) c l Hl) as [Hb Hf].
  eexists _, (read_link l (ReadOk [])). split; [cbn; unfold loop_step; by rewrite Hl, Hb|].
  split; [done|]. unfold read_link. cbn [set_tcp busy functors tcp]. split; [done|]. split; [done|].
  unfold handleRead. by destruct (readFd (inputBuffer_ (tcp l)) (ReadOk [])) as [[n0 en] b] eqn:Hr; injection Hr as <- <- <-.
Qed.

Lemma close_spec fd w :
  net_ok w -> net_ok (net_close fd w) /\ service (srv (net_close fd w)) = service (srv w) /\
    others_kept fd w (net_close fd w).
Proof.
  intros Hok. assert (Hdel : forall fd2, fd2 <> fd -> socks (net_close fd w) !! fd2 = socks w !! fd2)
    by (intros fd2 Hne; by apply lookup_delete_ne).
  assert (Hsub : forall fd2 k, socks (net_close fd w) !! fd2 = Some k -> fd2 <> fd /\ socks w !! fd2 = Some k)
    by (intros fd2 k Hk; change (delete fd (socks w) !! fd2 = Some k) in Hk; apply lookup_delete_Some in Hk as [? ?]; auto).
  assert (Hsrv : srv (net_close fd w) = srv w \/ exists c k l l', socks w !! fd = Some (Some (c, k)) /\
    links (srv w) !! c = Some l /\ exec (srv w) (PRead c (ReadOk [])) = Some (srv (net_close fd w)) /\
    srv (net_close fd w) = mkServer (<[c := l']> (links (srv w))) (pool (srv w)) (service (srv w)) /\
    busy l' = false /\ functors l' = [] /\ state_ (tcp l') = kDisconnected).
  { unfold net_close. cbn [srv]. destruct (socks w !! fd) as [[[c k]|]|] eqn:Hs; [|by left..].
    destruct (ok_link _ Hok fd c k Hs) as [l Hl]. destruct (closed_srv w c l Hok Hl) as (s' & l' & He & Hrest).
    right. exists c, k, l, l'. rewrite He. done. }
  destruct Hok as [K1 K2 K3 K4 K5 K6 K7 K8].
  destruct Hsrv as [Hs|(c & k & l & l' & Hs & Hl & He & Hsrv & Hb & Hf & Hst)].
  - split; [|split; [by rewrite Hs|]].
    + split; rewrite ?Hs; try done; [intros fd2 k2 [_ Hk]%Hsub; by eapply K6|intros fd2 c2 k2 [_ Hk]%Hsub; by eapply K7|].
      intros fd1 fd2 c2 k1 k2 [_ Hk1]%Hsub [_ Hk2]%Hsub. by eapply K8.
    + intros fd2 old2 Hne Hq. eapply quiet_line_world; [exact Hq|done|by apply Hdel].
  - split; [|split; [by rewrite Hsrv|]].
    + split.
      * by refine (working_step _ _ _ K1 _ He).
      * rewrite Hsrv. split; [|apply K2]. cbn. intros c2 l2 [[<- <-]|[_ Hl2]]%lookup_insert_Some; [done|by apply (proj1 K2 c2)].
      * rewrite Hsrv. unfold flushed. cbn. intros c2 l2 [[<- <-]|[_ Hl2]]%lookup_insert_Some Hc; [congruence|by eapply K3].
      * by rewrite Hsrv.
      * destruct K5 as [h Hg]. eexists. exact (ledger_exec host the_registry st0 h (srv w) _ _ (proj1 K1) Hg He).
      * intros fd2 k2 [_ Hk]%Hsub. by eapply K6.
      * intros fd2 c2 k2 [_ Hk]%Hsub. rewrite Hsrv. apply lookup_insert_is_Some'. right. by eapply K7.
      * intros fd1 fd2 c2 k1 k2 [_ Hk1]%Hsub [_ Hk2]%Hsub. by eapply K8.
    + intros fd2 old2 Hne (c2 & l2 & [Hs2 Hl2 Hst2 Hth2] & Hf2). exists c2, l2. split; [|done]. split; try done.
      * by rewrite Hdel.
      * rewrite Hsrv. cbn. rewrite lookup_insert_ne; [done|]. intros ->. by destruct Hne; eapply K8.
Qed.

(** A reply small enough, for the frame and for the time and the fuel of the call. *)
Definition timely (fuel : nat) (timeoutMs : Z) (r : RpcResponse) : Prop :=
  let len := kHeaderSize + length (serializeResponse r) in
  (Z.of_nat (length (serializeResponse r)) <= kMaxBodySize)%Z /\
  (pace * Z.of_nat len < timeoutMs * 1000000)%Z /\ len <= fuel.

(** The reply frame, as the client decodes it. *)
Lemma reply_decoded fuel ms sq r :
  fits 64 sq -> timely fuel ms r ->
  decoded (received (reply_message sq r)) /\ answers sq (received (reply_message sq r)) /\
  wire (received (reply_message sq r)) = wire (reply_message sq r) /\
  parseResponse (body (received (reply_message sq r))) = Some r.
Proof.
  intros Hq (Hl & _). assert (Hs : sendable (reply_message sq r)) by (by repeat split; try done; apply Hq).
  split; [by apply received_decoded|]. split; [done|]. split; [done|apply parse_serializeResponse].
Qed.

(** A request sent on a quiet line. *)
Lemma send_request fuel fd w old req :
  never_throws host the_registry -> net_ok w -> quiet_line w fd old -> sendable req ->
  is_request (received req) = true -> length (wire req) < fuel ->
  exists w1 c l1 k r, sendAll fuel fd (wire req) 0 w = Some (true, w1) /\ net_ok w1 /\
    line w1 fd c l1 k /\ fed l1 = concat (map wire (old ++ [req])) /\
    reply_for the_registry (service (srv w)) (body req) (service (srv w1)) r /\
    inbox w1 fd = wire (reply_message (seq (header req)) r) /\
    k + length (inbox w1 fd) = length (written (tcp l1)) /\ others_kept fd w w1.
Proof.
  intros Hnt Hok (c & l & Hln & Hfd & Hold) Hreq Hr Hfuel.
  assert (Hall : Forall sendable (old ++ [req])) by (apply Forall_app; by rewrite Forall_singleton).
  destruct (send_all_spec fuel fd (wire req) 0 w c l (length (written (tcp l))) Hnt Hok Hln)
    as (w1 & l1 & Hsend & Hok1 & Hln1 & Hf1 & Hp1 & (ss & Hrun & Hss) & Ho1).
  { rewrite drop_0, Hfd, wires_snoc. by apply parse_wires. }
  { lia. }
  rewrite drop_0 in Hf1.
  destruct (request_sent ss w w1 fd c l l1 old req Hnt Hok Hok1 Hrun Hss Hln Hln1 Hfd Hold Hreq Hr Hf1 Hp1)
    as (r & Hto & Hwr & Hin).
  exists w1, c, l1, (length (written (tcp l))), r. do 3 (split; [done|]).
  split; [by rewrite Hf1, Hfd, wires_snoc|]. split; [done|]. split; [done|]. split; [|done].
  by rewrite Hin, Hwr, length_app.
Qed.

(** The first attempt is answered. *)
Lemma attempt_delivered fuel att env (s : state) old :
  let fd := fd_ (chan s) in
  let req := request_message (nextSeq_ (chan s)) env in
  never_throws host the_registry -> net_ok (world s) -> wf (RpcChannel.inputBuffer_ (chan s)) ->
  contents (RpcChannel.inputBuffer_ (chan s)) = [] -> fits 64 (nextSeq_ (chan s)) ->
  quiet_line (world s) fd old -> (Z.of_nat (length env) <= kMaxBodySize)%Z ->
  kHeaderSize + length env < fuel ->
  (forall st' r, reply_for the_registry (service (srv (world s))) env st' r -> timely fuel (timeoutMs_ (chan s)) r) ->
  exists s' r b, attempt_loop client ParseFromString fuel (S att) env s = Some s' /\
    reply_for the_registry (service (srv (world s))) env (service (srv (world s'))) r /\
    (ctrl s', resp s') = reply_outcome (resetController (ctrl s)) (resp s) r /\
    chan s' = RpcChannel.set_input (set_nextSeq (chan s) (u64 (nextSeq_ (chan s) + 1))) b /\
    wf b /\ contents b = [] /\ net_ok (world s') /\ quiet_line (world s') fd (old ++ [req]) /\
    others_kept fd (world s) (world s').
Proof.
  cbn zeta. destruct s as [ch ct rs w]. cbn [chan ctrl resp world].
  set (fd := fd_ ch). set (sq := nextSeq_ ch). set (req := request_message sq env).
  intros Hnt Hok Hw Hb Hq Hquiet Hsize Hfuel Htime.
  assert (Hreq : sendable req) by (by repeat split; try done; apply Hq).
  assert (Hold : Forall sendable (old ++ [req])).
  { apply Forall_app. rewrite Forall_singleton. by destruct Hquiet as (? & ? & _ & _ & ?). }
  destruct (send_request fuel fd w old req) as (w1 & c & l1 & k & r & Hsend & Hok1 & Hln1 & Hfed & Hto & Hin & Hk & Ho1);
    try done.
  pose proof (Htime _ r Hto) as Hr.
  destruct (reply_decoded fuel _ sq r Hq Hr) as (Hm & Ha & Hwm & Hparse).
  set (m := received (reply_message sq r)) in *. change (seq (header req)) with sq in Hin. rewrite <- Hwm in Hin.
  assert (Hlen : length (wire m) = kHeaderSize + length (serializeResponse r)) by (by rewrite Hwm, length_wire).
  set (ch1 := set_nextSeq ch (u64 (sq + 1))). set (t2 := (time_ w1 + Z.of_N (tick (turn w1)))%Z).
  set (w2 := mkNet (srv w1) (socks w1) (next_fd w1) t2 (S (turn w1))). destruct Hr as (Hr1 & Hr2 & Hr3).
  destruct (wait_delivered fuel sq (t2 + timeoutMs_ ch * 1000000)
              (mkCall ch1 (resetController ct) rs w2) c l1 k m)
    as (res & s' & b & Hwait & Hans & Hch & Hwb & Hcb & Hok' & Hln' & Hs' & Ho');
    cbn [chan ctrl resp world]; try done; try (change (inbox w2 (fd_ ch1)) with (inbox w1 fd); rewrite Hin).
  { by eapply net_ok_world. } { by eapply line_world. }
  { by change (contents (RpcChannel.inputBuffer_ ch) ++ wire m = wire m); rewrite Hb. }
  { intros Hn. rewrite Hn in Hlen. cbn in Hlen. unfold kHeaderSize in Hlen. lia. }
  { rewrite Hlen. cbn [time_ w2]. lia. } { rewrite Hlen. lia. }
  destruct (answered_outcome m r _ _ _ _ _ Hparse Hans) as [Hout Hres]. exists s', r, b.
  split.
  { cbn [attempt_loop chan ctrl resp world fd_ set_nextSeq]. rewrite request_bytes.
    change (request_frame env (nextSeq_ ch)) with (wire req). fold fd. rewrite Hsend.
    unfold waitResponse. cbn [chan ctrl resp world steady_now Net_kernel]. fold sq t2 w2 ch1.
    change (timeoutMs_ ch1) with (timeoutMs_ ch). rewrite Hwait. by destruct res. }
  rewrite Hs'. do 6 (split; [done|]). split.
  - exists c, l1. split; [|done]. change (inbox (world _) _) with (inbox w1 fd) in Hln'. by rewrite <- Hk.
  - etrans; [exact Ho1|]. intros fd2 o2 Hne Hq2. apply Ho'; [done|]. by eapply quiet_line_world.
Qed.

(** The settings of a channel. *)
Definition same_settings (c c' : RpcChannel) : Prop :=
  serverAddr_ c' = serverAddr_ c /\ timeoutMs_ c' = timeoutMs_ c /\ maxRetries_ c' = maxRetries_ c.

Abbreviation envelope method_ req := (serializeRequest (mkRpcRequest method_ req)).

Lemma call_delivered fuel method_ req d (s : state) :
  never_throws host the_registry -> ready s -> (0 <= maxRetries_ (chan s))%Z ->
  (Z.of_nat (length (envelope method_ req)) <= kMaxBodySize)%Z ->
  kHeaderSize + length (envelope method_ req) < fuel ->
  (forall st' r, reply_for the_registry (service (srv (world s))) (envelope method_ req) st' r ->
     timely fuel (timeoutMs_ (chan s)) r) ->
  exists s' r,
    CallMethod client ParseFromString fuel method_ req d s = Some (done_list d, s') /\
    reply_for the_registry (service (srv (world s))) (envelope method_ req) (service (srv (world s'))) r /\
    (ctrl s', resp s') = reply_outcome (resetController (ctrl s)) (resp s) r /\
    ready s' /\ others_kept (fd_ (chan s')) (world s) (world s') /\ same_settings (chan s) (chan s') /\
    ((fd_ (chan s) < 0)%Z -> fd_ (chan s') = Z.of_nat (next_fd (world s))).
Proof.
  intros Hnt (Hok & Hw & Hb & Hq & Haddr & Hfd) Hretries Hsize Hfuel Htimely. unfold CallMethod.
  cbn [chan ctrl resp world]. destruct (net_connect_spec (chan s) (world s) Hok Haddr Hfd)
    as (fd & w1 & old & -> & Hpos & Hok1 & Hq1 & Hsv & Hnew & Ho1). rewrite <- Hsv in *.
  change (maxRetries_ (set_fd (chan s) fd)) with (maxRetries_ (chan s)).
  replace (Z.to_nat (maxRetries_ (chan s) + 1)) with (S (Z.to_nat (maxRetries_ (chan s)))) by lia.
  destruct (attempt_delivered fuel (Z.to_nat (maxRetries_ (chan s))) (envelope method_ req)
              (mkCall (set_fd (chan s) fd) (resetController (ctrl s)) (resp s) w1) old)
    as (s' & r & b & Hatt & Hto & Hout & Hch & Hwb & Hcb & Hok' & Hq' & Ho'); try done.
  rewrite Hatt. cbn [ctrl resp] in Hout. rewrite reset_reset in Hout.
  exists s', r. split; [by destruct d|]. split; [exact Hto|]. split; [exact Hout|].
  rewrite Hch. split; [|split; [cbn; by etrans|by split]].
  split; [done|]. rewrite Hch. split; [done|]. split; [done|]. split; [by apply wrap_fits|].
  split; [done|]. right. split; [done|]. eauto.
Qed.

(** The same of a channel with its settings. *)
Lemma good_call fuel method_ req d ms retries ch (c : Controller) (m : Msg) w :
  never_throws host the_registry -> good_channel ms retries ch w -> (0 <= retries)%Z ->
  (Z.of_nat (length (envelope method_ req)) <= kMaxBodySize)%Z ->
  kHeaderSize + length (envelope method_ req) < fuel ->
  (forall st' r, reply_for the_registry (service (srv w)) (envelope method_ req) st' r -> timely fuel ms r) ->
  exists s' r,
    CallMethod client ParseFromString fuel method_ req d (mkCall ch c m w) = Some (done_list d, s') /\
    reply_for the_registry (service (srv w)) (envelope method_ req) (service (srv (world s'))) r /\
    (ctrl s', resp s') = reply_outcome (resetController c) m r /\
    good_channel ms retries (chan s') (world s') /\ serverAddr_ (chan s') = serverAddr_ ch /\
    others_kept (fd_ (chan s')) w (world s') /\ ((fd_ ch < 0)%Z -> fd_ (chan s') = Z.of_nat (next_fd w)).
Proof.
  intros Hnt (Hready & <- & <-) Hret Hsize Hfuel Htime.
  destruct (call_delivered fuel method_ req d (mkCall ch c m w))
    as (s' & r & Hcall & Hr & Hout & Hready' & Hkept & (Haddr & Hms & Hre) & Hnew); try done.
  exists s', r. do 3 (split; [done|]). split; [by split|]. done.
Qed.

(** ** Theorems *)

(** C1. A call to the running server over a connection of the machine succeeds, and is executed
    exactly once. The services do not throw; the threads of the server, its loops and its pool of
    at least one worker, run between the client's system calls in any order that brings them to
    rest; the stream is cut into pieces of any size in both directions; the reply to this request
    fits in a frame, and the timeout covers the looks at the clock. Then the call returns, on the
    first attempt, and runs its closure; the services have gone from the state they were in to the
    one the specification gives for this method and request, and the caller has what the reply of
    the specification says; the channel is ready for the next call, and the other connections of
    the machine are as before. *)
Theorem loopback_call (fuel : nat) (method_ req : bytes) (d : option closure) (s : state)
  (Hnt : never_throws host the_registry)
  (Hready : ready s)
  (Hretries : (0 <= maxRetries_ (chan s))%Z)
  (Hsize : (Z.of_nat (length (envelope method_ req)) <= kMaxBodySize)%Z)
  (Hfuel : kHeaderSize + length (envelope method_ req) < fuel)
  (Htimely : forall st' r, reply_for the_registry (service (srv (world s))) (envelope method_ req) st' r ->
               timely fuel (timeoutMs_ (chan s)) r) :
  exists s' r,
    CallMethod client ParseFromString fuel method_ req d s = Some (done_list d, s') /\
    reply_for the_registry (service (srv (world s))) (envelope method_ req) (service (srv (world s'))) r /\
    (ctrl s', resp s') = reply_outcome (resetController (ctrl s)) (resp s) r /\
    ready s' /\ others_kept (fd_ (chan s')) (world s) (world s').
Proof.
  destruct (call_delivered fuel method_ req d s) as (s' & r & H1 & H2 & H3 & H4 & H5 & _); try done.
  by exists s', r.
Qed.
End Net.

(** A machine whose server has just started is in order. *)
Lemma booted_ok (host : endian) `{EnvelopeLaws} {SMsg St : Type} (loop : loop_id) (name : bytes)
    (ioThreads n : nat) (services : list (Service SMsg St)) (spawn : nat -> loop_id) (st0 : St) (fd : nat) (t : Z) :
  net_ok host loop name ioThreads n services st0
    (mkNet (Server_start (start spawn (configured loop name ioThreads n services)) st0) ∅ fd t 0).
Proof.
  assert (Hpool : pool_ (start spawn (configured loop name ioThreads n services))
                  = Start ThreadPool_new (mkConfig kFixed n n 4096)).
  { rewrite <- (configured_pool loop name ioThreads n services). unfold start. by destruct (ioPool_ _). }
  split; cbn [srv socks]; try done.
  - by apply (working_run host loop name ioThreads n services spawn st0 []).
  - unfold at_rest, Server_start. cbn [links pool]. rewrite Hpool. by split.
  - unfold Server_start. cbn [pool]. rewrite Hpool. apply Nat.ltb_lt. by vm_compute.
  - exists []. apply (booted_ledger host loop name ioThreads n services spawn st0).
Qed.

(** ** A schedule *)

Section Eager.
Context (host : endian) `{Henv : EnvelopeLaws} {SMsg St : Type}.
Context (loop : loop_id) (name : bytes) (ioThreads n : nat) (services : list (Service SMsg St)).
Context (st0 : St) (n_pos : 0 < n).
Abbreviation the_registry := (registry_ (configured loop name ioThreads n services)).
Abbreviation exec := (server_exec host the_registry).
Abbreviation working := (working host loop name ioThreads n services st0).

(** The sockets become writable, one after the other, and take all the output. *)
Definition drains (s : Server St) (c : nat) : server_step :=
  PWritable c (WriteOk (match links s !! c with
                        | Some l => length (contents (outputBuffer_ (tcp l)))
                        | None => 0
                        end)).
Fixpoint drain_all (cs : list nat) (s : Server St) : list server_step :=
  match cs with
  | [] => []
  | c :: cs => drains s c :: drain_all cs (default s (exec s (drains s c)))
  end.

(** The server's moves first, then its output. *)
Definition eager_sched (_ : nat) (s : Server St) : list server_step :=
  let ss := eager host loop name ioThreads n services (S (server_work s)) s in
  let s1 := default s (steps exec s ss) in
  ss ++ drain_all (map fst (map_to_list (links s1))) s1.

Lemma drains_step s c l :
  working s -> at_rest s -> links s !! c = Some l ->
  exists l', exec s (drains s c) = Some (mkServer (<[c := l']> (links s)) (pool s) (service s)) /\
    at_rest (mkServer (<[c := l']> (links s)) (pool s) (service s)) /\
    (state_ (tcp l') = kConnected -> contents (outputBuffer_ (tcp l')) = []).
Proof.
  intros Hw [Hr Ht] Hl. destruct (Hr c l Hl) as [Hb Hf].
  exists (set_tcp l (handleWrite (tcp l) (WriteOk (length (contents (outputBuffer_ (tcp l)))))) (busy l)).
  split; [cbn; unfold loop_step; by rewrite Hl, Hb|]. split.
  - split; [|done]. cbn. intros c2 l2 [[<- <-]|[_ Hl2]]%lookup_insert_Some; [by split|by eapply Hr].
  - pose proof (li_conn _ _ _ _ _ _ (si_link _ _ _ s (proj1 Hw) c l Hl)) as Hi.
    destruct (handleWrite_spec (tcp l) (WriteOk (length (contents (outputBuffer_ (tcp l))))) Hi)
      as (_ & Hst & _ & _ & Hc). cbn [tcp set_tcp]. intros Hcon. rewrite Hst in Hcon.
    destruct (isWriting (channel_ (tcp l))) eqn:Hwr.
    + rewrite Hc by done. cbn [taken]. by rewrite Nat.min_id, drop_all.
    + destruct Hi as (_ & Hwo & _ & Hwi & _). unfold handleWrite. rewrite Hwr. cbn [negb].
      rewrite Hwi in Hwr by congruence. apply negb_false_iff in Hwr. by apply readable_zero.
Qed.

Lemma drain_all_run cs s (done_ : list nat) :
  working s -> at_rest s -> (forall c, c ∈ cs -> is_Some (links s !! c)) ->
  (forall c l, c ∈ done_ -> links s !! c = Some l -> state_ (tcp l) = kConnected ->
     contents (outputBuffer_ (tcp l)) = []) ->
  exists s', s =[ exec | drain_all cs s ]=> s' /\ at_rest s' /\ dom (links s') = dom (links s) /\
    forall c l, c ∈ done_ \/ c ∈ cs -> links s' !! c = Some l -> state_ (tcp l) = kConnected ->
      contents (outputBuffer_ (tcp l)) = [].
Proof.
  revert s done_. induction cs as [|c cs IH]; intros s done_ Hw Hr Hcs Hdone; cbn [drain_all steps].
  { exists s. do 3 (split; [done|]). intros c l [Hc|?%elem_of_nil]; [|done]. by apply Hdone. }
  destruct (Hcs c) as [l Hl]; [apply elem_of_cons; by left|].
  destruct (drains_step s c l Hw Hr Hl) as (l1 & Hs & Hr1 & Hl1). rewrite Hs. cbn [default].
  set (s1 := mkServer _ _ _) in *. assert (Hdom : dom (links s1) = dom (links s)).
  { cbn. rewrite dom_insert_L. apply elem_of_dom_2 in Hl. set_solver. }
  destruct (IH s1 (c :: done_)) as (s' & Hrun & Hr' & Hd' & Hall).
  - by refine (working_step _ _ _ _ _ _ _ s _ s1 Hw _ Hs).
  - done.
  - intros c2 Hc2. apply elem_of_dom. rewrite Hdom. apply elem_of_dom, Hcs, elem_of_cons. by right.
  - cbn. intros c2 l2 Hc2 [[<- <-]|[Hne Hl2]]%lookup_insert_Some; [done|].
    apply elem_of_cons in Hc2 as [->|Hc2]; [done|]. by eapply Hdone.
  - exists s'. split; [done|]. split; [done|]. split; [congruence|]. intros c2 l2 Hc2.
    apply Hall. rewrite !elem_of_cons in *. tauto.
Qed.

Lemma drain_all_calm cs s : Forall (fun st => calm st = true) (drain_all cs s).
Proof. revert s. induction cs as [|c cs IH]; intros s; constructor; [done|apply IH]. Qed.

Lemma eager_calm fuel s :
  Forall (fun st => calm st = true) (eager host loop name ioThreads n services fuel s).
Proof.
  revert s. induction fuel as [|fuel IH]; intros s; cbn [eager]; [constructor|].
  pose proof (first_move_spec host loop name ioThreads n services id s (moves s)) as Hm.
  destruct (first_move _ _ _ _ _ _ s (moves s)) as [[st s1]|]; [|constructor]. constructor; [|apply IH].
  exact (proj2 (proj1 (list.Forall_forall _ _) (moves_productive s) st (proj1 Hm))).
Qed.

#[export] Program Instance eager_schedule : Schedule host loop name ioThreads n services st0 := {
  sched := eager_sched;
}.
Next Obligation.
  intros t s. apply Forall_app. split; [apply eager_calm|apply drain_all_calm].
Qed.
Next Obligation.
  intros t s Hw. unfold eager_sched.
  destruct (eager_rests host loop name ioThreads n services id st0 (S (server_work s)) s Hw n_pos)
    as (s1 & Hrun & Hr & _); [lia|].
  assert (Hw1 : working s1) by (by refine (calm_working _ _ _ _ _ _ _ _ s s1 (eager_calm _ _) Hw Hrun)).
  rewrite Hrun. cbn [default].
  destruct (drain_all_run (map fst (map_to_list (links s1))) s1 []) as (s' & Hrun' & Hr' & Hd & Hall);
    [done|done| |by intros c l ?%elem_of_nil|].
  { intros c ([c' l] & -> & Hin)%list_elem_of_fmap. apply elem_of_map_to_list in Hin. by exists l. }
  exists s'. split; [apply steps_app; by exists s1|]. split; [done|]. intros c l Hl Hst.
  apply (Hall c l); [right|done|done]. apply elem_of_dom_2 in Hl. rewrite Hd in Hl.
  apply elem_of_dom in Hl as [l1 Hl1]. apply list_elem_of_fmap. exists (c, l1). split; [done|].
  by apply elem_of_map_to_list.
Qed.
End Eager.

(** ** Witnesses *)

(** Services whose methods do not throw. *)
Lemma methods_never_throw (host : endian) `{Envelope} {SMsg St} (reg : ServiceRegistry SMsg St) :
  (forall svc service name meth st c req rsp, findService reg svc = Some service ->
     FindMethodByName service name = Some meth ->
     exists st' c' rsp', Service.CallMethod meth st c req rsp = (st', Ok (c', rsp'))) ->
  never_throws host reg.
Proof.
  intros Hm st m _. unfold handleRequest. repeat (case_match; try done).
  all: match goal with
       | Hs : findService _ _ = Some _, Hf : FindMethodByName _ _ = Some ?meth,
         Hc : Service.CallMethod ?meth ?st ?c ?req ?rsp = _ |- _ =>
           destruct (Hm _ _ _ meth st c req rsp Hs Hf) as (? & ? & ? & He); rewrite He in Hc; by simplify_eq
       end.
Qed.

Module LoopbackSamples.
Import SampleEnvelope RpcServer.Samples Pipeline.Loop.

Definition here : sockaddr_in := InetAddress_of_port LittleEndian 9000 true.
(** Pieces of one to seven bytes, and a nanosecond between two looks at the clock. *)
Definition cut7 (t : nat) : nat := t mod 7.
Definition tick1 (_ : nat) : N := 1.

Definition sample_world : Net := mkNet sample_booted ∅ 3 0 0.
Definition dialing : CallState (W := Net (St := nat)) (Msg := bytes) :=
  mkCall (RpcChannel_new here 1000 1) (Mini RpcController_new) [] sample_world.

#[local] Instance sample_schedule :
  Schedule BigEndian 0 (lit "echo") 0 1 [sample_service] 0 :=
  eager_schedule BigEndian 0 (lit "echo") 0 1 [sample_service] 0 Nat.lt_0_1.
Abbreviation kernel :=
  (Net_kernel BigEndian 0 (lit "echo") 0 1 [sample_service] 0 here cut7 tick1 (fun _ => [])).
Definition hello :=
  RpcChannel.CallMethod (H0 := kernel) LittleEndian RpcChannel.Script.raw 2000 (lit "pkg.Echo.Echo") (lit "hi") (Some 7) dialing.

(** The whole system, run. *)
Example hello_answered :
  match hello with
  | Some (ran, s) => ran = [7] /\ controllerFailed (ctrl s) = false /\ resp s = lit "hi" /\
                     service (srv (world s)) = 1
  | None => False
  end.
Proof. vm_compute. by repeat split. Qed.

Lemma sample_find svc service :
  findService (registry_ sample_server) svc = Some service -> service = sample_service.
Proof.
  change (registry_ sample_server)
    with (registry_ (addService_ (RpcServer_new 0 (lit "echo") 0) (Some sample_service)).2).
  rewrite registered_find by done. case_decide; [congruence|done].
Qed.

Lemma sample_total : never_throws BigEndian (registry_ sample_server).
Proof.
  apply methods_never_throw. intros svc service mname meth st c req rsp ->%sample_find Hm.
  cbn in Hm. destruct (decide _); [|done]. injection Hm as <-. cbn. destruct req; eauto.
Qed.

Lemma sample_world_ok : net_ok BigEndian 0 (lit "echo") 0 1 [sample_service] 0 sample_world.
Proof. apply (booted_ok BigEndian 0 (lit "echo") 0 1 [sample_service] (fun i => i) 0 3 0). Qed.

Lemma dialing_ready : ready BigEndian 0 (lit "echo") 0 1 [sample_service] 0 here dialing.
Proof.
  split; [exact sample_world_ok|]. split; [apply wf_new|]. split; [apply contents_new|].
  split; [by vm_compute|]. split; [done|by left].
Qed.

Lemma hello_reply st : reply_for (registry_ sample_server) st
  (serializeRequest (mkRpcRequest (lit "pkg.Echo.Echo") (lit "hi"))) (S st) (mkRpcResponse kOk [] (lit "hi")).
Proof.
  apply (reply_ok _ st _ (mkRpcRequest (lit "pkg.Echo.Echo") (lit "hi")) (lit "pkg.Echo") (lit "Echo")
           sample_service sample_method (lit "hi") (S st) RpcController_new (lit "hi")); try done.
  apply (bool_decide_eq_true_1 ("."%char ∉ lit "Echo")). by vm_compute.
Qed.

Lemma hello_timely st st' r :
  reply_for (registry_ sample_server) st
    (serializeRequest (mkRpcRequest (lit "pkg.Echo.Echo") (lit "hi"))) st' r ->
  timely 1 2000 1000 r.
Proof.
  intros Hr. destruct (reply_unique BigEndian _ _ _ _ _ _ _ Hr (hello_reply st)) as [_ ->].
  unfold timely. cbn zeta. assert (Hl : length (serializeResponse (mkRpcResponse kOk [] (lit "hi"))) <= 1000)
    by (apply Nat.leb_le; by vm_compute).
  unfold kMaxBodySize, kHeaderSize. lia.
Qed.

Lemma loopback_call_witness :
  exists s' r, hello = Some (done_list (Some 7), s') /\
    reply_for (registry_ sample_server) 0
      (serializeRequest (mkRpcRequest (lit "pkg.Echo.Echo") (lit "hi"))) (service (srv (world s'))) r /\
    (ctrl s', resp s') =
      reply_outcome RpcChannel.Script.raw (resetController (Mini RpcController_new)) [] r /\
    ready BigEndian 0 (lit "echo") 0 1 [sample_service] 0 here s'.
Proof.
  assert (Hsize : (Z.of_nat (length (serializeRequest (mkRpcRequest (lit "pkg.Echo.Echo") (lit "hi"))))
                   <= kMaxBodySize)%Z) by (vm_compute; discriminate).
  assert (Hfuel : kHeaderSize + length (serializeRequest (mkRpcRequest (lit "pkg.Echo.Echo") (lit "hi"))) < 2000)
    by (apply Nat.ltb_lt; vm_compute; reflexivity).
  destruct (loopback_call LittleEndian BigEndian 0 (lit "echo") 0 1 [sample_service] 0 here cut7 tick1
              (fun _ => []) RpcChannel.Script.raw 1 (fun _ => Z.le_refl 1) 2000 (lit "pkg.Echo.Echo")
              (lit "hi") (Some 7) dialing sample_total dialing_ready Z.le_0_1 Hsize Hfuel (hello_timely 0))
    as (s' & r & H1 & H2 & H3 & H4 & _).
  exists s', r. exact (conj H1 (conj H2 (conj H3 H4))).
Defined.

End LoopbackSamples.
