(* ===== verification/RegistryServer.v ===== *)
(** The registry as a program (registry/registry_server.cpp): its command line, and
    [RegistryServiceImpl] as the service the RPC server dispatches to, over the messages of
    proto/registry.proto. What the registry's clients see through RPC is what the sequence of its
    operations does. *)
From stdpp Require Import base list gmap strings numbers.
From Stdlib Require Import Ascii ZArith Lia.
From S2P Require Import Prelude Bytes Common Buffer Codec Controller Service RpcServer.
From S2P Require Import Registry ThreadPool TcpServer Pipeline.

(** ** Messages *)

(** [RegisterRequest], [UnregisterRequest] and [HeartbeatRequest] have the same fields. *)
Inductive RegistryMsg :=
| NodeRequest (service_name : bytes) (n : NodeInfo)
| DiscoverRequest (service_name : bytes)
| StatusMsg (r : StatusResponse)
| DiscoverMsg (r : DiscoverResponse).

(** The generated [SerializeToString] and [ParseFromString]. *)
Class RegistryMessages := {
  serialize_node : bytes * NodeInfo -> bytes;
  parse_node : bytes -> option (bytes * NodeInfo);
  serialize_query : bytes -> bytes;
  parse_query : bytes -> option bytes;
  serialize_status : StatusResponse -> bytes;
  parse_status : bytes -> option StatusResponse;
  serialize_found : DiscoverResponse -> bytes;
  parse_found : bytes -> option DiscoverResponse;
}.

(** Protobuf's contract; [port] is a [uint32]. *)
Class RegistryMessageLaws `{RegistryMessages} : Prop := {
  parse_node_typed b svc n : parse_node b = Some (svc, n) -> node_typed n;
  parse_serialize_node svc n : node_typed n -> parse_node (serialize_node (svc, n)) = Some (svc, n);
  parse_serialize_query svc : parse_query (serialize_query svc) = Some svc;
  parse_serialize_status r : parse_status (serialize_status r) = Some r;
  parse_serialize_found r : parse_found (serialize_found r) = Some r;
}.

Section RegistryServer.
Context (host : endian) `{Envelope} `{RegistryMessages}.
(** The steady clock (nanoseconds) at the registry's [k]-th turn, and the order in which the hash
    maps are iterated. *)
Context (clock : nat -> Z) (iterate : ServiceMap -> list (bytes * NodeEntry)).

(** The service's state: the registry and the number of turns so far. *)
Record RegState := mkRegState { reg_ : Registry; turns_ : nat }.

Definition now (st : RegState) : Z := clock (turns_ st).
Definition next (st : RegState) (r : Registry) : RegState := mkRegState r (S (turns_ st)).

(** ** The service *)

(** A method with the request fields [service_name] and [node]. *)
Definition node_method (op : Z -> bytes -> NodeInfo -> Registry -> StatusResponse * Registry) :
    Method RegistryMsg RegState := {|
  ParseRequest b := (fun p => NodeRequest p.1 p.2) <$> parse_node b;
  NewResponse := StatusMsg (mkStatus 0 []);
  CallMethod st c req resp :=
    match req with
    | NodeRequest svc n =>
        let '(r, reg) := op (now st) svc n (reg_ st) in (next st reg, Ok (c, StatusMsg r))
    | _ => (st, Ok (c, resp))
    end;
  SerializeResponse m := match m with StatusMsg r => serialize_status r | _ => [] end;
|}.

Definition register_method : Method RegistryMsg RegState :=
  node_method (fun t svc n r => let '(rsp, _, r') := Register t svc n None r in (rsp, r')).
Definition unregister_method : Method RegistryMsg RegState :=
  node_method (fun _ svc n r => let '(rsp, _, r') := Unregister svc n None r in (rsp, r')).
Definition heartbeat_method : Method RegistryMsg RegState :=
  node_method (fun t svc n r => let '(rsp, _, r') := Heartbeat t svc n None r in (rsp, r')).

Definition discover_method : Method RegistryMsg RegState := {|
  ParseRequest b := DiscoverRequest <$> parse_query b;
  NewResponse := DiscoverMsg (mkDiscover 0 [] []);
  CallMethod st c req resp :=
    match req with
    | DiscoverRequest svc =>
        let '(r, _, reg) := Discover iterate (now st) svc None (reg_ st) in
        (next st reg, Ok (c, DiscoverMsg r))
    | _ => (st, Ok (c, resp))
    end;
  SerializeResponse m := match m with DiscoverMsg r => serialize_found r | _ => [] end;
|}.

Definition registry_service : Service RegistryMsg RegState := {|
  full_name := lit "minirpc.registry.RegistryService";
  FindMethodByName n :=
    if decide (n = lit "Register") then Some register_method
    else if decide (n = lit "Unregister") then Some unregister_method
    else if decide (n = lit "Discover") then Some discover_method
    else if decide (n = lit "Heartbeat") then Some heartbeat_method
    else None;
|}.

(** ** main *)

(** The port and the heartbeat timeout (milliseconds) of the command line after the program's
    name. *)
Definition registry_options (args : list bytes) : Z * Z :=
  (match args !! 0 with Some a => u16 (atoi a) | None => 18800%Z end,
   match args !! 1 with Some a => atoi a | None => 6000%Z end).

(** The server [main] starts, and the state of its service. *)
Definition registry_main (args : list bytes) (loop : loop_id) (spawn : nat -> loop_id) :
    RpcServer RegistryMsg RegState * RegState :=
  let '(_, heartbeatTimeout) := registry_options args in
  let server := RpcServer_new loop (lit "registry") 0 in
  let server := (addService_ server (Some registry_service)).2 in
  (Pipeline.start spawn server, mkRegState (Registry_new heartbeatTimeout) 0).

Abbreviation server_registry args loop spawn := (registry_ (registry_main args loop spawn).1).

(** ** Requests as events *)

(** The method and the payload a client sends for an operation. *)
Definition event_name (e : event) : bytes :=
  match e with
  | EvRegister _ _ => lit "Register"
  | EvUnregister _ _ => lit "Unregister"
  | EvHeartbeat _ _ => lit "Heartbeat"
  | _ => lit "Discover"
  end.
Definition event_method (e : event) : bytes :=
  lit "minirpc.registry.RegistryService" ++ "."%char :: event_name e.

Definition event_payload (e : event) : bytes :=
  match e with
  | EvRegister svc n | EvUnregister svc n | EvHeartbeat svc n => serialize_node (svc, n)
  | EvDiscover svc => serialize_query svc
  | EvEvict => []
  end.

(** The request frame of an operation, as the server decodes it. *)
Definition event_request (sq : Z) (e : event) : ProtocolMessage :=
  mkMessage (mkHeader kMagic kProtocolVersion kRequest 0 sq 0 0)
            (serializeRequest (mkRpcRequest (event_method e) (event_payload e))).

(** The response payload the operation defines. *)
Definition event_reply (t : Z) (e : event) (r : Registry) : bytes :=
  match e with
  | EvRegister svc n => serialize_status (Register t svc n None r).1.1
  | EvUnregister svc n => serialize_status (Unregister svc n None r).1.1
  | EvHeartbeat svc n => serialize_status (Heartbeat t svc n None r).1.1
  | EvDiscover svc => serialize_found (Discover iterate t svc None r).1.1
  | EvEvict => []
  end.

(** What happens at the registry: a request frame is served, or its eviction thread takes a
    turn. *)
Definition registry_turn (sr : ServiceRegistry RegistryMsg RegState) (s : RegState * list bytes)
    (x : Z * event) : RegState * list bytes :=
  match x.2 with
  | EvEvict => (next s.1 (evictionLoop_turn (now s.1) (reg_ s.1)).2, s.2)
  | e => let '(st, conn, _) := handleRequest host sr s.1 s.2 (event_request x.1 e) in (st, conn)
  end.

(** The same events with the times of their turns, from turn [k] on. *)
Fixpoint timed (k : nat) (es : list event) : list (Z * event) :=
  match es with [] => [] | e :: es => (clock k, e) :: timed (S k) es end.

(** The replies of a sequence of operations, by the registry alone. *)
Fixpoint replies_of (k : nat) (r : Registry) (xs : list (Z * event)) : list bytes :=
  match xs with
  | [] => []
  | (sq, e) :: xs =>
      match e with
      | EvEvict => []
      | _ => [wire (reply_message sq (mkRpcResponse kOk [] (event_reply (clock k) e r)))]
      end ++ replies_of (S k) (Registry.step r (clock k, e)) xs
  end.

(** A client's messages hold a [uint32] port. *)
Definition sent_typed (e : event) : Prop :=
  match e with
  | EvRegister _ n | EvUnregister _ n | EvHeartbeat _ n => node_typed n
  | _ => True
  end.

(** ** Lemmas *)

Lemma server_registry_find args loop spawn n :
  findService (server_registry args loop spawn) n =
  if decide (n = lit "minirpc.registry.RegistryService") then Some registry_service else None.
Proof.
  unfold registry_main. destruct (registry_options args) as [p t]. cbn [fst].
  rewrite start_registry, registered_find; [|by apply lookup_empty].
  cbn [full_name registry_service]. case_decide; [done|]. by apply lookup_empty.
Qed.

Context `{!EnvelopeLaws} `{!RegistryMessageLaws}.

Lemma find_event_method e :
  FindMethodByName registry_service (event_name e) =
  Some (match e with
        | EvRegister _ _ => register_method
        | EvUnregister _ _ => unregister_method
        | EvHeartbeat _ _ => heartbeat_method
        | _ => discover_method
        end).
Proof. by destruct e. Qed.

Lemma event_name_no_dot e : "."%char ∉ event_name e /\ event_name e <> [].
Proof. split; [|by destruct e]. apply (bool_decide_unpack _). by destruct e. Qed.

(** One request, at any server that has the service. *)
Lemma handle_event_at sr st conn sq e :
  findService sr (lit "minirpc.registry.RegistryService") = Some registry_service ->
  e <> EvEvict -> sent_typed e ->
  handleRequest host sr st conn (event_request sq e)
  = (next st (Registry.step (reg_ st) (now st, e)),
     conn ++ [wire (reply_message sq (mkRpcResponse kOk [] (event_reply (now st) e (reg_ st))))],
     Ok tt).
Proof.
  intros Hsvc Hne Hty. destruct (event_name_no_dot e) as [Hdot Hnil].
  assert (Hgo : forall meth req c r st',
    FindMethodByName registry_service (event_name e) = Some meth ->
    ParseRequest meth (event_payload e) = Some req ->
    CallMethod meth st RpcController_new req (NewResponse meth) = (st', Ok (c, r)) -> Failed c = false ->
    handleRequest host sr st conn (event_request sq e)
    = (st', conn ++ [wire (reply_message sq (mkRpcResponse kOk [] (SerializeResponse meth r)))], Ok tt)).
  { intros meth req c r st' Hm Hp Hc Hf.
    rewrite (handleRequest_call host _ st conn (event_request sq e)
               (lit "minirpc.registry.RegistryService") (event_name e) (event_payload e)
               registry_service meth req st' c r); try done; [by rewrite Hf|].
    cbn [event_request body]. by rewrite parse_serializeRequest. }
  pose proof (find_event_method e) as Hm.
  destruct e as [svc n|svc n|svc n|svc|]; try done.
  - apply (Hgo register_method (NodeRequest svc n) RpcController_new
             (StatusMsg (Register (now st) svc n None (reg_ st)).1.1)); [exact Hm| |done|done].
    cbn. by rewrite parse_serialize_node.
  - apply (Hgo unregister_method (NodeRequest svc n) RpcController_new
             (StatusMsg (Unregister svc n None (reg_ st)).1.1)); [exact Hm| |done|done].
    cbn. by rewrite parse_serialize_node.
  - apply (Hgo heartbeat_method (NodeRequest svc n) RpcController_new
             (StatusMsg (Heartbeat (now st) svc n None (reg_ st)).1.1)); [exact Hm| | |done].
    + cbn. by rewrite parse_serialize_node.
    + cbn. by destruct (Heartbeat (now st) svc n None (reg_ st)) as [[rsp ran] r'].
  - apply (Hgo discover_method (DiscoverRequest svc) RpcController_new
             (DiscoverMsg (Discover iterate (now st) svc None (reg_ st)).1.1)); [exact Hm| |done|done].
    cbn. by rewrite parse_serialize_query.
Qed.

Lemma handle_event args loop spawn st conn sq e :
  e <> EvEvict -> sent_typed e ->
  handleRequest host (server_registry args loop spawn) st conn (event_request sq e)
  = (next st (Registry.step (reg_ st) (now st, e)),
     conn ++ [wire (reply_message sq (mkRpcResponse kOk [] (event_reply (now st) e (reg_ st))))],
     Ok tt).
Proof. apply handle_event_at. by rewrite server_registry_find, decide_True. Qed.

(** What the specification says of the request. *)
Lemma event_replied sr st e st' r :
  findService sr (lit "minirpc.registry.RegistryService") = Some registry_service ->
  e <> EvEvict -> sent_typed e ->
  reply_for sr st (serializeRequest (mkRpcRequest (event_method e) (event_payload e))) st' r ->
  st' = next st (Registry.step (reg_ st) (now st, e)) /\
  r = mkRpcResponse kOk [] (event_reply (now st) e (reg_ st)).
Proof.
  intros Hsvc Hne Hty Hr. refine (reply_sent host sr st (event_request 0 e) _ _ _ _ [] Hr _).
  by apply handle_event_at.
Qed.

(** Any sequence. *)
Lemma registry_turns args loop spawn xs st conn :
  Forall (fun x => sent_typed x.2) xs ->
  fold_left (registry_turn (server_registry args loop spawn)) xs (st, conn)
  = (mkRegState (run (reg_ st) (timed (turns_ st) (map snd xs))) (turns_ st + length xs),
     conn ++ replies_of (turns_ st) (reg_ st) xs).
Proof.
  intros Hty. revert st conn. induction Hty as [|[sq e] xs He _ IH]; intros st conn; cbn [fold_left].
  { cbn. rewrite Nat.add_0_r, app_nil_r. by destruct st. }
  assert (Hturn : registry_turn (server_registry args loop spawn) (st, conn) (sq, e)
    = (next st (Registry.step (reg_ st) (now st, e)),
       conn ++ match e with
               | EvEvict => []
               | _ => [wire (reply_message sq (mkRpcResponse kOk [] (event_reply (now st) e (reg_ st))))]
               end)).
  { unfold registry_turn. cbn [fst snd]. destruct e; try (by rewrite handle_event). by rewrite app_nil_r. }
  rewrite Hturn, IH. cbn [reg_ turns_ next map timed length replies_of].
  unfold now. rewrite <- app_assoc. f_equal. f_equal. lia.
Qed.

(** ** Theorems *)

(** C28. The registry over RPC is the registry: the server [registry_server] starts, fed any
    sequence of registration, heartbeat and discovery requests with turns of its eviction thread
    in between, answers each request with one frame that carries its number and the response of
    the operation, and is left in the state those operations reach when run in that order at the
    times of its turns. *)
Theorem registry_over_rpc (args : list bytes) (loop : loop_id) (spawn : nat -> loop_id)
  (xs : list (Z * event))
  (Htyped : Forall (fun x => sent_typed x.2) xs) :
  let '(server, st) := registry_main args loop spawn in
  fold_left (registry_turn (registry_ server)) xs (st, [])
  = (mkRegState (run (Registry_new (registry_options args).2) (timed 0 (map snd xs))) (length xs),
     replies_of 0 (Registry_new (registry_options args).2) xs).
Proof.
  pose proof (registry_turns args loop spawn xs
                (mkRegState (Registry_new (registry_options args).2) 0) [] Htyped) as Ht.
  unfold registry_main in *. by destruct (registry_options args) as [p t].
Qed.

(** A method with a node keeps the registry well formed, if its operation does. *)
Lemma node_method_inv op st c b req resp :
  (forall t svc n r, node_typed n -> inv r -> inv (op t svc n r).2) -> inv (reg_ st) ->
  ParseRequest (node_method op) b = Some req ->
  inv (reg_ (CallMethod (node_method op) st c req resp).1).
Proof.
  intros Hop Hi. cbn [ParseRequest node_method].
  destruct (parse_node b) as [[svc n]|] eqn:Hn; [|done]. intros [= <-]. cbn [CallMethod node_method].
  pose proof (Hop (now st) svc n (reg_ st) (parse_node_typed _ _ _ Hn) Hi) as Hinv2. cbn [fst snd].
  by destruct (op (now st) svc n (reg_ st)).
Qed.

Lemma registry_method_inv name meth st c b req :
  FindMethodByName registry_service name = Some meth -> inv (reg_ st) ->
  ParseRequest meth b = Some req ->
  inv (reg_ (CallMethod meth st c req (NewResponse meth)).1).
Proof.
  cbn [FindMethodByName registry_service]. intros Hm Hi Hp.
  repeat (case_decide; [injection Hm as <-|]); try done.
  - eapply node_method_inv; [|done|exact Hp]. intros t svc n r Ht Hr. exact (inv_register t svc n None r Ht Hr).
  - eapply node_method_inv; [|done|exact Hp]. intros t svc n r _ Hr.
    pose proof (inv_unregister svc n None r Hr) as Hinv2. by destruct (Unregister svc n None r) as [[? ?] ?].
  - cbn [ParseRequest discover_method] in Hp. destruct (parse_query b); [|done]. injection Hp as <-.
    cbn. by apply inv_purge.
  - eapply node_method_inv; [|done|exact Hp]. intros t svc n r _ Hr.
    pose proof (inv_heartbeat t svc n None r Hr) as Hinv2. by destruct (Heartbeat t svc n None r) as [[? ?] ?].
Qed.

Lemma handle_any args loop spawn st conn m :
  inv (reg_ st) ->
  inv (reg_ (handleRequest host (server_registry args loop spawn) st conn m).1.1).
Proof.
  intros Hi. unfold handleRequest. destruct (parseRequest (body m)) as [e|]; [|done].
  destruct (rfind "."%char (method e)) as [dot|]; [|done]. destruct (_ || _); [done|].
  rewrite server_registry_find. case_decide; [|done].
  destruct (FindMethodByName registry_service _) as [meth|] eqn:Hm; [|done].
  destruct (ParseRequest meth (request e)) as [req|] eqn:Hp; [|done].
  pose proof (registry_method_inv _ meth st RpcController_new _ req Hm Hi Hp) as Hc.
  by destruct (CallMethod meth st RpcController_new req (NewResponse meth)) as [st' [[c r]|ex]].
Qed.

(** C34. Whatever arrives, the registry stays well formed: after any sequence of request messages,
    with arbitrary bodies and method names, and turns of the eviction thread, every node is filed
    under its own service, host and port, with a port of 32 bits, and no service is left without
    nodes. *)
Theorem registry_well_formed (args : list bytes) (loop : loop_id) (spawn : nat -> loop_id)
  (xs : list (option ProtocolMessage)) :
  let '(server, st0) := registry_main args loop spawn in
  let st := fold_left (fun st x =>
    match x with
    | Some m => (handleRequest host (registry_ server) st [] m).1.1
    | None => next st (evictionLoop_turn (now st) (reg_ st)).2
    end) xs st0 in
  (forall svc ns, services_ (reg_ st) !! svc = Some ns -> ns <> ∅) /\
  (forall svc key e, entry (reg_ st) svc key = Some e ->
     key = nodeKey (node e) /\ node_typed (node e)).
Proof.
  pose proof (handle_any args loop spawn) as Hany.
  assert (Hinit : inv (reg_ (registry_main args loop spawn).2))
    by (unfold registry_main; destruct (registry_options args); apply inv_new).
  destruct (registry_main args loop spawn) as [server st0]. cbn [fst snd] in *. cbn zeta.
  change (inv (reg_ (fold_left (fun st x =>
    match x with
    | Some m => (handleRequest host (registry_ server) st [] m).1.1
    | None => next st (evictionLoop_turn (now st) (reg_ st)).2
    end) xs st0))).
  revert st0 Hinit. induction xs as [|[m|] xs IH]; intros st Hst; cbn [fold_left]; [done| |]; apply IH.
  - by apply Hany.
  - cbn. unfold evictionLoop_turn. destruct (stopEviction_ (reg_ st)); [done|]. by apply inv_purge.
Qed.

End RegistryServer.

(** ** Witnesses *)

Module RegistrySamples.
Import SampleEnvelope.

(** Messages serialized through an enumeration of their values. *)
Definition tuple_of (n : NodeInfo) : bytes * bytes * Z := (node_name n, node_host n, node_port n).
Definition of_tuple (t : bytes * bytes * Z) : NodeInfo := mkNode t.1.1 t.1.2 t.2.
Definition put {A} `{Countable A} (a : A) : bytes := put_pos (countable.encode a).
Definition get {A} `{Countable A} (b : bytes) : option A := countable.decode (get_pos b).

Lemma get_put {A} `{Countable A} (a : A) : get (put a) = Some a.
Proof. unfold get, put. by rewrite get_put_pos, decode_encode. Qed.

#[export] Instance sample_messages : RegistryMessages := {|
  serialize_node p := put (p.1, tuple_of p.2);
  parse_node b :=
    match get b : option (bytes * (bytes * bytes * Z)) with
    | Some (svc, t) => if decide (0 <= t.2 < 2 ^ 32)%Z then Some (svc, of_tuple t) else None
    | None => None
    end;
  serialize_query svc := put svc;
  parse_query b := get b;
  serialize_status r := put (st_error_code r, st_error_message r);
  parse_status b := (fun p : Z * bytes => mkStatus p.1 p.2) <$> get b;
  serialize_found r := put (ds_error_code r, ds_error_message r, map tuple_of (nodes r));
  parse_found b :=
    (fun p : Z * bytes * list (bytes * bytes * Z) => mkDiscover p.1.1 p.1.2 (map of_tuple p.2)) <$> get b;
|}.

#[export] Instance sample_message_laws : RegistryMessageLaws.
Proof.
  split.
  { intros b svc n. cbn [parse_node sample_messages]. destruct (get b) as [[svc' t]|]; [|done].
    case_decide as Ht; [|done]. by intros [= <- <-]. }
  all: intros; cbn [serialize_node parse_node serialize_query parse_query serialize_status parse_status
    serialize_found parse_found sample_messages]; rewrite get_put; cbn.
  - rewrite decide_True by done. by destruct n.
  - done.
  - by destruct r.
  - rewrite map_map. destruct r as [c m ns]. cbn. f_equal. f_equal.
    rewrite <- (map_id ns) at 2. apply map_ext. by intros [].
Qed.

(** One node registers and is discovered a millisecond later. *)
Definition sample_node : NodeInfo := mkNode (lit "a") (lit "10.0.0.1") 9001.
Definition sample_clock (k : nat) : Z := Z.of_nat k * 1000000.
Definition sample_events : list (Z * event) :=
  [(1%Z, EvRegister (lit "calc") sample_node); (0%Z, EvEvict); (2%Z, EvDiscover (lit "calc"))].

Lemma registry_over_rpc_witness :
  exists f1 f2,
    (fold_left (registry_turn BigEndian sample_clock
                  (registry_ (registry_main sample_clock map_to_list [] 0 (fun i => i)).1))
       sample_events ((registry_main sample_clock map_to_list [] 0 (fun i => i)).2, [])).2 = [f1; f2] /\
    (r ← parseResponse (drop kHeaderSize f2); parse_found (response r))
      = Some (mkDiscover 0 [] [sample_node]).
Proof.
  assert (Hty : Forall (fun x => sent_typed x.2) sample_events)
    by (repeat constructor; discriminate).
  pose proof (registry_over_rpc BigEndian sample_clock map_to_list [] 0 (fun i => i) sample_events Hty)
    as Ht.
  destruct (registry_main sample_clock map_to_list [] 0 (fun i => i)) as [server st]. cbn [fst snd].
  rewrite Ht. eexists _, _. split; vm_compute; reflexivity.
Defined.

(** A registration, a turn of the eviction thread, and a frame that is no envelope. *)
Definition sample_frames : list (option ProtocolMessage) :=
  [Some (event_request 1 (EvRegister (lit "calc") sample_node)); None;
   Some (mkMessage (mkHeader kMagic kProtocolVersion kRequest 0 2 0 0) (lit "junk"))].

Lemma registry_well_formed_witness :
  let '(server, st0) := registry_main sample_clock map_to_list [] 0 (fun i => i) in
  let st := fold_left (fun st x =>
    match x with
    | Some m => (handleRequest BigEndian (registry_ server) st [] m).1.1
    | None => next st (evictionLoop_turn (now sample_clock st) (reg_ st)).2
    end) sample_frames st0 in
  forall svc key e, entry (reg_ st) svc key = Some e -> key = nodeKey (node e) /\ node_typed (node e).
Proof.
  pose proof (registry_well_formed BigEndian sample_clock map_to_list [] 0 (fun i => i) sample_frames) as H.
  destruct (registry_main sample_clock map_to_list [] 0 (fun i => i)) as [server st0].
  exact (proj2 H).
Defined.

End RegistrySamples.
