(* ===== verification/NodeRpc.v ===== *)
(** The service node over the wire (src/rpc/RpcServiceNode.cpp): its calls of the registry's stub as
    calls of [RpcChannel], and a node, the machine's connections and a registry server together:
    what the node's threads do is what the registry shows. *)
From stdpp Require Import base list gmap strings numbers sorting.
From Stdlib Require Import Ascii ZArith Lia.
From S2P Require Import Prelude Bytes Common Buffer Codec Controller Service RpcServer Inet.
From S2P Require Import RpcChannel System Registry ServiceNode Heartbeat ThreadPool TcpServer Poller.
From S2P Require Import TcpConnection Pipeline Serial Progress Feed Loopback RegistryServer.

(** ** The calls *)

Section Stub.
Context (host : endian) `{Envelope} `{RegistryMessages} {W : Type} `{Kernel W} (fuel : nat).

(** The response messages: [Register], [Unregister] and [Heartbeat] have the same fields. *)
Definition parse_response (b : bytes) : bool * StatusResponse :=
  match parse_status b with Some r => (true, r) | None => (false, mkStatus 0 []) end.

(** The world of a node: the channel of [heartbeatLoop], once it has made its first call, and the
    rest. *)
Record NodeWorld := mkNodeWorld { beat_chan : option RpcChannel; net : W }.

(** A call of the stub on a channel, with a new controller and a new response. A call that does
    not return (fuel exhausted) leaves all as it is. *)
Definition call_on (ch : RpcChannel) (c : RegistryCall) (w : W) :
    (RpcController * StatusResponse) * RpcChannel * W :=
  let e := ServiceNode.event_of c in
  match RpcChannel.CallMethod host parse_response fuel (event_method e) (event_payload e) None
          (mkCall ch (Mini RpcController_new) (mkStatus 0 []) w) with
  | Some (_, s) =>
      ((match ctrl s with Mini k => k | _ => RpcController_new end, resp s), chan s, RpcChannel.world s)
  | None => ((RpcController_new, mkStatus 0 []), ch, w)
  end.

(** [heartbeatLoop] keeps its channel from call to call; the others have their own, closed by its
    destructor. *)
#[export] Instance node_stub : RegistryStub NodeWorld := fun addr timeoutMs maxRetries c w =>
  match c with
  | StubHeartbeat _ _ =>
      let ch := default (RpcChannel_new addr timeoutMs maxRetries) (beat_chan w) in
      let '(out, ch, w) := call_on ch c (net w) in (out, mkNodeWorld (Some ch) w)
  | _ =>
      let '(out, ch, v) := call_on (RpcChannel_new addr timeoutMs maxRetries) c (net w) in
      (out, mkNodeWorld (beat_chan w) (RpcChannel.close ch v).2)
  end.
End Stub.

(** ** A registry server at the other end *)

Section OverRpc.
Context (client host : endian) `{Henv : EnvelopeLaws} `{Hmsg : RegistryMessageLaws}.
Context (clock : nat -> Z) (iterate : ServiceMap -> list (bytes * NodeEntry)).
Hypothesis iterate_perm : forall m, iterate m ≡ₚ map_to_list m.

(** The server of registry_server.cpp, with a pool of [n] workers, on the machine of [Loopback]. *)
Context (loop : loop_id) (n : nat) (st0 : RegState).
Abbreviation services := [registry_service clock iterate].
Context (listen : sockaddr_in) (cut : nat -> nat) (tick : nat -> N) (error_text : Z -> bytes).
Context `{!Schedule host loop (lit "registry") 0 n services st0}.
Context (pace : Z) (paced : forall t, (Z.of_N (tick t) <= pace)%Z) (fuel : nat).
Abbreviation kernel :=
  (Net_kernel host loop (lit "registry") 0 n services st0 listen cut tick error_text).
Abbreviation the_registry := (registry_ (configured loop (lit "registry") 0 n services)).
Abbreviation net_ok := (net_ok host loop (lit "registry") 0 n services st0).
Abbreviation stub := (node_stub client (H1 := kernel) fuel).
Abbreviation world_ := (NodeWorld (W := Net (St := RegState))).

(** The registry, as the server's services hold it. *)
Definition held (w : world_) : RegState := service (srv (net w)).

Lemma registry_found :
  findService the_registry (lit "minirpc.registry.RegistryService") = Some (registry_service clock iterate).
Proof.
  change the_registry
    with (registry_ (addService_ (RpcServer_new loop (lit "registry") 0) (Some (registry_service clock iterate))).2).
  rewrite registered_find by (by apply lookup_empty). by rewrite decide_True.
Qed.

Lemma registry_only svc service_ :
  findService the_registry svc = Some service_ -> service_ = registry_service clock iterate.
Proof.
  change the_registry
    with (registry_ (addService_ (RpcServer_new loop (lit "registry") 0) (Some (registry_service clock iterate))).2).
  rewrite registered_find by (by apply lookup_empty). case_decide; [congruence|].
  intros Hf. change (findService (registry_ (RpcServer_new loop (lit "registry") 0)) svc)
    with ((∅ : gmap bytes (Service RegistryMsg RegState)) !! svc) in Hf. by rewrite lookup_empty in Hf.
Qed.

(** No method of the registry throws. *)
Lemma registry_never_throws : never_throws host the_registry.
Proof.
  apply methods_never_throw. intros svc service_ mname meth st c req rsp ->%registry_only Hm.
  cbn [FindMethodByName registry_service] in Hm. repeat (case_decide; [injection Hm as <-|]); try done.
  all: cbn; destruct req; eauto. all: repeat case_match; eauto.
Qed.

Abbreviation new_channel := (new_channel host loop (lit "registry") 0 n services st0 listen).

(** A channel between calls, with a timeout and one retry. *)
Abbreviation good_channel ms := (good_channel host loop (lit "registry") 0 n services st0 listen ms 1).

(** A call whose request and answers fit in frames, in the time and in the fuel. *)
Definition within (ms : Z) (c : RegistryCall) : Prop :=
  let e := ServiceNode.event_of c in
  let env := serializeRequest (mkRpcRequest (event_method e) (event_payload e)) in
  (Z.of_nat (length env) <= kMaxBodySize)%Z /\ kHeaderSize + length env < fuel /\ sent_typed e /\
  forall t r, timely pace fuel ms (mkRpcResponse kOk [] (serialize_status (answer t c r))).

Lemma event_reply_answer t c r :
  event_reply iterate t (ServiceNode.event_of c) r = serialize_status (answer t c r).
Proof. by destruct c. Qed.

(** One call: the registry has done the operation, at the time of its turn, and the node has its
    answer. *)
Lemma call_on_spec ms ch c w :
  let st := service (srv w) in
  good_channel ms ch w -> within ms c ->
  exists k ch' w', call_on client (H1 := kernel) fuel ch c w = ((k, answer (now clock st) c (reg_ st)), ch', w') /\
    Failed k = false /\ good_channel ms ch' w' /\
    service (srv w') = next st (Registry.step (reg_ st) (now clock st, ServiceNode.event_of c)) /\
    others_kept (fd_ ch') w w' /\ ((fd_ ch < 0)%Z -> fd_ ch' = Z.of_nat (next_fd w)).
Proof.
  cbn zeta. intros Hgood (Hsize & Hfuel & Hty & Hans). set (e := ServiceNode.event_of c) in *.
  assert (Hne : e <> EvEvict) by (by destruct c).
  assert (Hrep : forall st' r, reply_for the_registry (service (srv w))
      (serializeRequest (mkRpcRequest (event_method e) (event_payload e))) st' r ->
    st' = next (service (srv w)) (Registry.step (reg_ (service (srv w))) (now clock (service (srv w)), e)) /\
    r = mkRpcResponse kOk [] (serialize_status (answer (now clock (service (srv w))) c (reg_ (service (srv w)))))).
  { intros st' r Hr. rewrite <- event_reply_answer.
    by apply (event_replied host clock iterate the_registry _ e st' r registry_found Hne Hty). }
  destruct (good_call client host loop (lit "registry") 0 n services st0 listen cut tick error_text
              parse_response pace paced fuel (event_method e) (event_payload e) None ms 1 ch
              (Mini RpcController_new) (mkStatus 0 []) w)
    as (s' & r & Hcall & Hr & Hout & Hgood' & _ & Hkept & Hnew); try done.
  { apply registry_never_throws. }
  { intros st' r Hr. destruct (Hrep st' r Hr) as [_ ->]. apply Hans. }
  destruct (Hrep _ _ Hr) as [Hst ->].
  unfold call_on. fold e. rewrite Hcall. unfold reply_outcome, parse_response in Hout.
  cbn [error_code kOk Z.eqb response] in Hout. rewrite parse_serialize_status in Hout.
  injection Hout as Hc Hs. rewrite Hc, Hs. eexists _, _, _. split; [reflexivity|]. by split.
Qed.

(** ** A node *)

Definition beat_ms (s : RpcServiceNode) : Z := (heartbeatTimeoutMs_ s ÷ 2 + 200)%Z.

(** The calls of a node, by what they do. *)
Definition act_call (s : RpcServiceNode) (a : act) : RegistryCall :=
  match a with
  | ARegister => StubRegister (serviceName_ s) (self client s)
  | ABeat => StubHeartbeat (serviceName_ s) (self client s)
  | AUnregister => StubUnregister (serviceName_ s) (self client s)
  end.
Definition act_ms (s : RpcServiceNode) (a : act) : Z := match a with ABeat => beat_ms s | _ => 1000 end.

(** The node is configured for this registry, and its calls fit. *)
Definition wired (s : RpcServiceNode) : Prop :=
  registryAddr_ s = listen /\ forall a, within (act_ms s a) (act_call s a).

(** The world between two calls. *)
Definition node_ok (s : RpcServiceNode) (w : world_) : Prop :=
  net_ok (net w) /\ forall ch, beat_chan w = Some ch -> good_channel (beat_ms s) ch (net w).

(** A call on a channel of its own. *)
Lemma own_call_spec s c w :
  let st := held w in
  node_ok s w -> within 1000 c ->
  let '(out, ch, v) := call_on client (H1 := kernel) fuel (RpcChannel_new listen 1000 1) c (net w) in
  let w' := mkNodeWorld (beat_chan w) (RpcChannel.close (H0 := kernel) ch v).2 in
  node_ok s w' /\ held w' = next st (Registry.step (reg_ st) (now clock st, ServiceNode.event_of c)) /\
  out.2 = answer (now clock st) c (reg_ st).
Proof.
  cbn zeta. intros [Hok Hb] Hin.
  destruct (call_on_spec 1000 (RpcChannel_new listen 1000 1) c (net w) (new_channel 1000 1 _ Hok) Hin)
    as (k & ch & v & -> & _ & Hgood & Hsv & Hkept & Hfd). specialize (Hfd eq_refl).
  destruct Hgood as ((Hokv & _) & _). cbn [RpcChannel.world] in Hokv.
  assert (Hclose : (RpcChannel.close (H0 := kernel) ch v).2 = net_close host loop (lit "registry") 0 n services (fd_ ch) v).
  { unfold RpcChannel.close. destruct (Z.leb_spec 0 (fd_ ch)); [done|lia]. }
  rewrite Hclose.
  destruct (close_spec host loop (lit "registry") 0 n services st0 (fd_ ch) v Hokv) as (Hok' & Hsv' & Hkept').
  split; [split; [done|]|].
  - cbn [beat_chan net]. intros hb Hhb. specialize (Hb hb Hhb). pose proof (good_fd _ _ _ _ _ _ _ _ _ _ _ _ Hb) as Hne.
    rewrite <- Hfd in Hne. eapply good_kept; [|done|done|exact Hkept']. by eapply good_kept.
  - unfold held. cbn [net]. by rewrite Hsv', Hsv.
Qed.

Lemma beat_call_spec s c w :
  let st := held w in
  node_ok s w -> within (beat_ms s) c ->
  let '(out, ch, v) := call_on client (H1 := kernel) fuel
                         (default (RpcChannel_new listen (beat_ms s) 1) (beat_chan w)) c (net w) in
  let w' := mkNodeWorld (Some ch) v in
  node_ok s w' /\ held w' = next st (Registry.step (reg_ st) (now clock st, ServiceNode.event_of c)) /\
  out.2 = answer (now clock st) c (reg_ st).
Proof.
  cbn zeta. intros [Hok Hb] Hin.
  assert (Hgood : good_channel (beat_ms s) (default (RpcChannel_new listen (beat_ms s) 1) (beat_chan w)) (net w)).
  { destruct (beat_chan w) as [ch|]; [by apply Hb|by apply new_channel]. }
  destruct (call_on_spec (beat_ms s) _ c (net w) Hgood Hin) as (k & ch & v & -> & _ & Hg & Hsv & _).
  split; [|done]. split; [apply Hg|]. by intros hb [= <-].
Qed.

(** Each of the node's calls. *)
Lemma act_spec s w a :
  let st := held w in
  wired s -> node_ok s w ->
  let w' := do_act client (H := stub) s w a in
  node_ok s w' /\
  held w' = next st (Registry.step (reg_ st) (now clock st, ServiceNode.event_of (act_call s a))).
Proof.
  cbn zeta. intros [Haddr Hin] Hok. specialize (Hin a). destruct a; cbn [do_act act_call act_ms] in *;
    unfold registerSelf, heartbeat_turn, unregisterSelf, stub_call, node_stub; rewrite Haddr.
  - pose proof (own_call_spec s _ w Hok Hin) as Hc. destruct (call_on _ _ _ _ _) as [[out ch] v]. cbn. by destruct Hc as (? & ? & _).
  - pose proof (beat_call_spec s _ w Hok Hin) as Hc. fold (beat_ms s).
    destruct (call_on _ _ _ _ _) as [[out ch] v]. cbn. by destruct Hc as (? & ? & _).
  - pose proof (own_call_spec s _ w Hok Hin) as Hc. destruct (call_on _ _ _ _ _) as [[out ch] v]. cbn. by destruct Hc as (? & ? & _).
Qed.

Lemma acts_spec s w l :
  wired s -> node_ok s w ->
  let w' := fold_left (do_act client (H := stub) s) l w in
  node_ok s w' /\
  held w' = mkRegState (run (reg_ (held w)) (timed clock (turns_ (held w))
                          (map (fun a => ServiceNode.event_of (act_call s a)) l))) (turns_ (held w) + length l).
Proof.
  cbn zeta. intros Hs. revert w. induction l as [|a l IH]; intros w Hok; cbn [fold_left map timed length].
  { split; [done|]. cbn. rewrite Nat.add_0_r. by destruct (held w). }
  destruct (act_spec s w a Hs Hok) as [Hok1 Hheld]. destruct (IH _ Hok1) as [Hok' Hh]. split; [done|].
  rewrite Hh, Hheld. cbn [next reg_ turns_]. f_equal. lia.
Qed.

Lemma timed_beats s k m :
  timed clock k (map (fun a => ServiceNode.event_of (act_call s a)) (replicate m ABeat))
  = beats client s (map clock (List.seq k m)).
Proof. revert k. induction m as [|m IH]; intros k; cbn; [done|]. f_equal. apply IH. Qed.

Lemma timed_app k xs ys : timed clock k (xs ++ ys) = timed clock k xs ++ timed clock (k + length xs) ys.
Proof.
  revert k. induction xs as [|x xs IH]; intros k; cbn [app timed length]; [by rewrite Nat.add_0_r|].
  f_equal. rewrite IH. do 2 f_equal. lia.
Qed.

Lemma acts_typed s l k :
  fits 16 (port client (listenAddr_ s)) ->
  Forall event_typed (timed clock k (map (fun a => ServiceNode.event_of (act_call s a)) l)).
Proof.
  intros Hp. revert k. induction l as [|a l IH]; intros k; constructor; [|apply IH].
  destruct a; try done. by apply self_typed.
Qed.

(** ** Theorems *)

(** C8. A node over the wire: in any interleaving of the node's heartbeat thread with the calls of
    its owner, over connections to a registry server whose own threads run in any order that
    brings them to rest, the registry is what the node's calls make of it, in their order, at the
    times of the registry's turns. So when the node has registered and sent heartbeats that reach
    the registry within its timeout of each other, a discovery within the timeout of the last one
    lists it, and none does once it has unregistered. *)
Theorem node_over_rpc (s : RpcServiceNode) (w : world_) (t0 : Z) (ls : list beat_step)
  (b : Beating (W := world_))
  (Hport : fits 16 (port client (listenAddr_ s)))
  (Hwired : wired s)
  (Hok : node_ok s w)
  (Hinv : inv (reg_ (held w)))
  (Hfresh : fresh_node s)
  (Hrun : Beating_new s t0 w =[ beat_exec client (H := stub) | ls ]=> b) :
  let at_registry := held (Heartbeat.world b) in
  let first := clock (turns_ (held w)) in
  let later := map clock (List.seq (S (turns_ (held w))) (length (calls b))) in
  at_registry = mkRegState (run (reg_ (held w)) (timed clock (turns_ (held w))
                   (map (fun a => ServiceNode.event_of (act_call s a)) (acts b))))
                  (turns_ (held w) + length (acts b)) /\
  (forall t, acts b = ARegister :: replicate (length (calls b)) ABeat ->
     regular (heartbeatTimeout_ (reg_ (held w))) first later = true ->
     (t - last_beat first later <= heartbeatTimeout_ (reg_ (held w)) * 1000000)%Z ->
     listed client iterate s t (reg_ at_registry)) /\
  (forall l t, acts b = l ++ [AUnregister] -> ~ listed client iterate s t (reg_ at_registry)).
Proof.
  cbn zeta. pose proof (beating_inv client s t0 w ls b Hfresh Hrun) as Hi.
  destruct (acts_spec s w (acts b) Hwired Hok) as [_ Hheld].
  rewrite <- (bi_world _ _ _ _ Hi) in Hheld. rewrite Hheld. split; [done|]. cbn [reg_]. split.
  - intros t Hacts Hreg Ht. rewrite Hacts. cbn [map timed]. rewrite timed_beats. cbn [act_call ServiceNode.event_of].
    by apply (life_listed client iterate iterate_perm s (reg_ (held w)) _ _ t Hport Hinv Hreg Ht).
  - intros l t Hacts. rewrite Hacts, map_app, timed_app. cbn [map timed act_call ServiceNode.event_of].
    unfold run. rewrite fold_left_app. cbn [fold_left]. apply life_unlisted; [done|].
    apply run_inv; [by apply acts_typed|done].
Qed.
End OverRpc.

(** ** Witnesses *)

Module NodeRpcSamples.
Import SampleEnvelope RegistryServer.RegistrySamples Registry.RegistrySamples NodeSamples.

(** A registry server with one worker, at the address the node has for it. *)
Abbreviation served_by := [registry_service sample_clock it].
Definition home : sockaddr_in := registryAddr_ sample_node.
Definition reg_start : RegState := mkRegState (Registry_new 6000) 0.
Definition booted_registry : Server RegState :=
  Server_start (Pipeline.start (fun i => i) (configured 0 (lit "registry") 0 1 served_by)) reg_start.
Definition first_world : NodeWorld (W := Net (St := RegState)) :=
  mkNodeWorld None (mkNet booted_registry ∅ 3 0 0).

#[local] Instance registry_schedule :
  Schedule BigEndian 0 (lit "registry") 0 1 served_by reg_start :=
  eager_schedule BigEndian 0 (lit "registry") 0 1 served_by reg_start Nat.lt_0_1.

(** Pieces of 60 to 66 bytes, and a nanosecond between two looks at the clock. *)
Definition cut60 (t : nat) : nat := 60 + t mod 7.
Definition tick1 (_ : nat) : N := 1.
Abbreviation kernel :=
  (Net_kernel BigEndian 0 (lit "registry") 0 1 served_by reg_start home cut60 tick1 (fun _ => [])).
Abbreviation stub := (node_stub LittleEndian (H1 := kernel) 4000).

(** The node starts, beats twice, and is shut down. *)
Definition life : list beat_step :=
  [OwnerStart; HeartGo; HeartGo; HeartGo; HeartGo; HeartGo; Tick (Z.to_N (ms 2000)); HeartGo; HeartGo;
   HeartGo; OwnerStop true; OwnerGo; HeartGo; HeartGo; HeartGo; OwnerGo; OwnerGo].
Definition beginning : Beating := Beating_new sample_node 0 first_world.
Definition lived (k : nat) : Beating :=
  default beginning (steps (beat_exec LittleEndian (H := stub)) beginning (take k life)).

Lemma answer_shape t c r :
  answer t c r = mkStatus 0 [] \/ answer t c r = mkStatus errCode (lit "node not registered").
Proof.
  destruct c as [svc m|svc m|svc m]; [by left|by left|].
  cbn [answer]. unfold Registry.Heartbeat. destruct (_ ≫= _); [by left|by right].
Qed.

Lemma answers_timely t c r ms :
  (1000 <= ms)%Z -> timely 1 4000 ms (mkRpcResponse kOk [] (serialize_status (answer t c r))).
Proof.
  intros Hms. unfold timely. cbn zeta.
  assert (Hl : length (serializeResponse (mkRpcResponse kOk [] (serialize_status (answer t c r)))) <= 2000)
    by (destruct (answer_shape t c r) as [-> | ->]; apply Nat.leb_le; by vm_compute).
  unfold kMaxBodySize, kHeaderSize. lia.
Qed.

Lemma sample_wired : wired LittleEndian home 1 4000 sample_node.
Proof.
  split; [done|]. intros a. split; [destruct a; vm_compute; discriminate|].
  split; [destruct a; apply Nat.ltb_lt; by vm_compute|].
  split; [destruct a; (split; [discriminate|reflexivity])|].
  intros t r. apply answers_timely. destruct a; vm_compute; discriminate.
Qed.

Lemma first_world_ok : node_ok BigEndian sample_clock it 0 1 reg_start home sample_node first_world.
Proof.
  split; [|done].
  apply (booted_ok BigEndian 0 (lit "registry") 0 1 served_by (fun i => i) reg_start 3 0).
Qed.

Lemma node_over_rpc_witness :
  acts (lived 10) = [ARegister; ABeat; ABeat] /\ acts (lived 17) = [ARegister; ABeat; ABeat; AUnregister] /\
  listed LittleEndian it sample_node 5000000000 (reg_ (held (Heartbeat.world (lived 10)))) /\
  forall t, ~ listed LittleEndian it sample_node t (reg_ (held (Heartbeat.world (lived 17)))).
Proof.
  assert (H10 : acts (lived 10) = [ARegister; ABeat; ABeat]) by (vm_compute; reflexivity).
  assert (H17 : acts (lived 17) = [ARegister; ABeat; ABeat] ++ [AUnregister]) by (vm_compute; reflexivity).
  assert (Hrun : forall k, (if steps (beat_exec LittleEndian (H := stub)) beginning (take k life) then true else false) = true ->
    beginning =[ beat_exec LittleEndian (H := stub) | take k life ]=> lived k) by (intros k; apply steps_default).
  pose proof (fun k Hk => node_over_rpc LittleEndian BigEndian sample_clock it it_perm 0 1 reg_start home cut60 tick1
    (fun _ => []) 1 (fun _ => Z.le_refl 1) 4000 sample_node first_world 0 (take k life) (lived k)
    sample_port sample_wired first_world_ok (inv_new 6000) HeartbeatSamples.sample_fresh (Hrun k Hk)) as Hnode.
  split; [exact H10|]. split; [exact H17|]. split.
  - destruct (Hnode 10 ltac:(vm_compute; reflexivity)) as (_ & Hl & _). apply Hl.
    + rewrite H10. vm_compute. reflexivity.
    + vm_compute. reflexivity.
    + vm_compute. discriminate.
  - intros t. destruct (Hnode 17 ltac:(vm_compute; reflexivity)) as (_ & _ & Hu). by apply (Hu _ t H17).
Defined.

End NodeRpcSamples.
