(* ===== verification/Programs.v ===== *)
(** The servers built on the library: the calculator and echo services with the programs that
    serve them (examples/rpc/calculator_server.cpp, rpc_node.cpp), and the echo server on the bare
    network layer (examples/echo/echo_server.cpp). *)
From stdpp Require Import base list gmap strings numbers sorting.
From Stdlib Require Import Ascii ZArith Lia.
From S2P Require Import Prelude Bytes Common Buffer Codec Controller Service RpcServer.
From S2P Require Import Inet Registry ServiceNode ThreadPool TcpServer Pipeline Feed Loopback RegistryServer.

(** The [i]-th argument of the command line after the program's name. *)
Definition arg {A} (args : list bytes) (i : nat) (f : bytes -> A) (d : A) : A :=
  match args !! i with Some a => f a | None => d end.
Definition port_arg (a : bytes) : Z := u16 (atoi a).
(** [static_cast<size_t>(std::atoi(a))] *)
Definition size_arg (a : bytes) : nat := Z.to_nat (u64 (atoi a)).

(** ** The calculator *)

(** [double]: the operations the services use. *)
Class Double (D : Type) := {
  d_add : D -> D -> D;
  d_sub : D -> D -> D;
  d_mul : D -> D -> D;
  d_div : D -> D -> D;
  d_is_zero : D -> bool;
  d_zero : D;
}.

Section Calculator.
Context {D : Type} `{Double D}.

Record CalcRequest := mkCalcRequest { cq_a : D; cq_b : D; cq_op : bytes }.
Record CalcResponse := mkCalcResponse { cs_result : D; cs_error : bytes; cs_server_id : bytes }.

(** The messages of the two services. *)
Inductive CalcMsg :=
| CalcReq (q : CalcRequest)
| CalcResp (r : CalcResponse)
| EchoMsg (message : bytes).

Class CalcMessages := {
  parse_calc : bytes -> option CalcRequest;
  serialize_result : CalcResponse -> bytes;
  parse_echo : bytes -> option bytes;
  serialize_echo : bytes -> bytes;
}.
Context `{CalcMessages}.

(** The lambda [fail]; the server's controller is a [minirpc::RpcController]. *)
Definition fail (c : RpcController) (msg : bytes) : RpcController :=
  SetFailedCode c kInvalidArgument msg.

Definition set_result (r : CalcResponse) (x : D) : CalcResponse :=
  mkCalcResponse x (cs_error r) (cs_server_id r).

(** [CalculatorServiceImpl::Calc] of calculator_server.cpp. *)
Definition Calc (c : RpcController) (q : CalcRequest) (r : CalcResponse) : RpcController * CalcResponse :=
  let a := cq_a q in
  let b := cq_b q in
  let op := cq_op q in
  if bool_decide (op = lit "+") then (c, set_result r (d_add a b))
  else if bool_decide (op = lit "-") then (c, set_result r (d_sub a b))
  else if bool_decide (op = lit "*") then (c, set_result r (d_mul a b))
  else if bool_decide (op = lit "/") then
    if d_is_zero b then (fail c (lit "division by zero"), r)
    else (c, set_result r (d_div a b))
  else (fail c (lit "unknown operator: " ++ op), r).

(** ... and that of rpc_node.cpp, which names its node in every response. *)
Definition node_Calc (nodeName : bytes) (c : RpcController) (q : CalcRequest) (r : CalcResponse) :
    RpcController * CalcResponse :=
  let '(c, r) := Calc c q r in (c, mkCalcResponse (cs_result r) (cs_error r) nodeName).

(** [EchoServiceImpl::Echo] *)
Definition Echo (message : bytes) : bytes := message.

Definition calc_method (call : RpcController -> CalcRequest -> CalcResponse ->
    RpcController * CalcResponse) : Method CalcMsg unit := {|
  ParseRequest b := CalcReq <$> parse_calc b;
  NewResponse := CalcResp (mkCalcResponse d_zero [] []);
  CallMethod st c req resp :=
    match req, resp with
    | CalcReq q, CalcResp r => let '(c, r) := call c q r in (st, Ok (c, CalcResp r))
    | _, _ => (st, Ok (c, resp))
    end;
  SerializeResponse m := match m with CalcResp r => serialize_result r | _ => [] end;
|}.
Definition calc_service (call : RpcController -> CalcRequest -> CalcResponse ->
    RpcController * CalcResponse) : Service CalcMsg unit := {|
  full_name := lit "minirpc.example.CalculatorService";
  FindMethodByName n := if decide (n = lit "Calc") then Some (calc_method call) else None;
|}.

Definition echo_service : Service CalcMsg unit := {|
  full_name := lit "minirpc.example.EchoService";
  FindMethodByName n :=
    if decide (n = lit "Echo") then Some {|
      ParseRequest b := EchoMsg <$> parse_echo b;
      NewResponse := EchoMsg [];
      CallMethod st c req _ :=
        match req with EchoMsg m => (st, Ok (c, EchoMsg (Echo m))) | _ => (st, Ok (c, req)) end;
      SerializeResponse m := match m with EchoMsg s => serialize_echo s | _ => [] end;
    |} else None;
|}.

(** [main] of calculator_server.cpp up to [loop.loop()]: the port and the started server. *)
Definition calculator_main (args : list bytes) (loop : loop_id) (spawn : nat -> loop_id) :
    Z * RpcServer CalcMsg unit :=
  let port := arg args 0 port_arg 8888%Z in
  let poolThreads := arg args 2 size_arg 4 in
  let ioThreads := arg args 3 size_arg 0 in
  let server := RpcServer_new loop (lit "rpc-server") ioThreads in
  let server := setThreadPoolSize server poolThreads in
  let server := (addService_ server (Some echo_service)).2 in
  let server := (addService_ server (Some (calc_service Calc))).2 in
  (port, Pipeline.start spawn server).

(** The options of rpc_node.cpp: port, name, the registry's port, and the heartbeat interval and
    timeout passed to [RpcServiceNode]. *)
Definition node_options (args : list bytes) : Z * bytes * Z * Z * Z :=
  let heartbeatMs := arg args 3 atoi 2000%Z in
  (arg args 0 port_arg 9001%Z, arg args 1 id (lit "node"), arg args 2 port_arg 18800%Z, heartbeatMs,
   i32 (heartbeatMs * 3)).

(** [main] of rpc_node.cpp up to [loop.loop()], over the calls to the registry: the node, its
    embedded server and the world. [RpcServiceNode]'s constructor leaves the server without I/O
    threads; [node.start()] starts the server before it registers the node. *)
Definition node_main (host : endian) (inet_pton : bytes -> option Z) {W : Type} `{RegistryStub W}
    (args : list bytes) (loop : loop_id) (spawn : nat -> loop_id) (w : W) :
    RpcServiceNode * RpcServer CalcMsg unit * W :=
  let '(port, name, registryPort, heartbeatMs, timeoutMs) := node_options args in
  let node := RpcServiceNode_new (InetAddress_of_port host port false) name
                (InetAddress_of_ip host inet_pton (lit "127.0.0.1") registryPort)
                (lit "minirpc.example.CalculatorService") heartbeatMs timeoutMs in
  let server := RpcServer_new loop name 0 in
  let server := (addService_ server (Some echo_service)).2 in
  let server := (addService_ server (Some (calc_service (node_Calc name)))).2 in
  let server := Pipeline.start spawn server in
  let '(node, w) := ServiceNode.start host node w in
  (node, server, w).

(** ** What the calculator answers *)

(** The result of an operation, or the text of its error. *)
Definition calc_spec (q : CalcRequest) : D + bytes :=
  if decide (cq_op q = lit "+") then inl (d_add (cq_a q) (cq_b q))
  else if decide (cq_op q = lit "-") then inl (d_sub (cq_a q) (cq_b q))
  else if decide (cq_op q = lit "*") then inl (d_mul (cq_a q) (cq_b q))
  else if decide (cq_op q = lit "/") then
    if d_is_zero (cq_b q) then inr (lit "division by zero") else inl (d_div (cq_a q) (cq_b q))
  else inr (lit "unknown operator: " ++ cq_op q).

(** The reply of a server that names itself [id] in its responses. *)
Definition calc_reply (id : bytes) (q : CalcRequest) : RpcResponse :=
  match calc_spec q with
  | inl x => mkRpcResponse kOk [] (serialize_result (mkCalcResponse x [] id))
  | inr msg => mkRpcResponse kInvalidArgument msg []
  end.

Lemma Calc_spec q :
  Calc RpcController_new q (mkCalcResponse d_zero [] []) =
  match calc_spec q with
  | inl x => (RpcController_new, mkCalcResponse x [] [])
  | inr msg => (fail RpcController_new msg, mkCalcResponse d_zero [] [])
  end.
Proof.
  unfold Calc, calc_spec. repeat case_bool_decide; repeat case_decide; try done; by destruct (d_is_zero _).
Qed.

(** The two services on a server that had none. *)
Lemma services_find (s0 : RpcServer CalcMsg unit) spawn svc n :
  registry_ s0 = ServiceRegistry_new -> full_name svc = lit "minirpc.example.CalculatorService" ->
  findService (registry_ (Pipeline.start spawn
    (addService_ (addService_ s0 (Some echo_service)).2 (Some svc)).2)) n =
  if decide (n = lit "minirpc.example.CalculatorService") then Some svc
  else if decide (n = lit "minirpc.example.EchoService") then Some echo_service else None.
Proof.
  intros Hs0 Hname. rewrite start_registry.
  assert (Hnone : forall n, findService (registry_ s0) n = None)
    by (intros; rewrite Hs0; apply lookup_empty).
  rewrite registered_find, Hname.
  - rewrite registered_find by apply Hnone. by rewrite Hnone.
  - rewrite registered_find, Hname by apply Hnone. rewrite decide_False by done. apply Hnone.
Qed.

(** A well-formed [Calc] request, on any server that has the service. *)
Lemma calc_answers `{Envelope} (host : endian) reg call id m p q conn :
  findService reg (lit "minirpc.example.CalculatorService") = Some (calc_service call) ->
  call RpcController_new q (mkCalcResponse d_zero [] []) =
    (match calc_spec q with
     | inl x => (RpcController_new, mkCalcResponse x [] id)
     | inr msg => (fail RpcController_new msg, mkCalcResponse d_zero [] id)
     end) ->
  parseRequest (body m) = Some (mkRpcRequest (lit "minirpc.example.CalculatorService.Calc") p) ->
  parse_calc p = Some q ->
  handleRequest host reg tt conn m
  = (tt, conn ++ [wire (reply_message (seq (header m)) (calc_reply id q))], Ok tt).
Proof.
  intros Hfind Hcall Hreq Hparse. set (cr := call RpcController_new q (mkCalcResponse d_zero [] [])) in *.
  rewrite (handleRequest_call host _ tt conn m (lit "minirpc.example.CalculatorService") (lit "Calc") p
             (calc_service call) (calc_method call) (CalcReq q) tt cr.1 (CalcResp cr.2)).
  - assert (Hr : (if Failed cr.1 then mkRpcResponse (errorCode cr.1) (ErrorText cr.1) []
                  else mkRpcResponse kOk [] (serialize_result cr.2)) = calc_reply id q)
      by (rewrite Hcall; unfold calc_reply; by destruct (calc_spec q)).
    cbn [SerializeResponse calc_method]. by rewrite Hr.
  - exact Hreq.
  - by apply (bool_decide_unpack _).
  - done.
  - done.
  - exact Hfind.
  - done.
  - cbn. by rewrite Hparse.
  - cbn [CallMethod calc_method NewResponse]. unfold cr. by destruct (call _ _ _).
Qed.

(** The reply to it, as specified. *)
Lemma calc_replied `{EnvelopeLaws} (host : endian) reg call id st st' p q r :
  findService reg (lit "minirpc.example.CalculatorService") = Some (calc_service call) ->
  call RpcController_new q (mkCalcResponse d_zero [] []) =
    (match calc_spec q with
     | inl x => (RpcController_new, mkCalcResponse x [] id)
     | inr msg => (fail RpcController_new msg, mkCalcResponse d_zero [] id)
     end) ->
  parse_calc p = Some q ->
  reply_for reg st (serializeRequest (mkRpcRequest (lit "minirpc.example.CalculatorService.Calc") p)) st' r ->
  r = calc_reply id q.
Proof.
  intros Hfind Hcall Hparse Hr. destruct st.
  set (m := mkMessage ProtocolHeader_default
              (serializeRequest (mkRpcRequest (lit "minirpc.example.CalculatorService.Calc") p))).
  refine (proj2 (reply_sent host reg tt m st' r tt _ [] Hr _)).
  apply (calc_answers host reg call id m p q); try done. apply parse_serializeRequest.
Qed.

(** No method of the two services throws. *)
Lemma calc_never_throws `{Envelope} (host : endian) (s0 : RpcServer CalcMsg unit) spawn call :
  registry_ s0 = ServiceRegistry_new ->
  never_throws host (registry_ (Pipeline.start spawn
    (addService_ (addService_ s0 (Some echo_service)).2 (Some (calc_service call))).2)).
Proof.
  intros Hs0. apply methods_never_throw. intros svc service mname meth st c req rsp Hf Hm.
  rewrite services_find in Hf by done. case_decide; [|case_decide; [|done]]; injection Hf as <-;
    cbn [FindMethodByName calc_service echo_service] in Hm; (case_decide; [|done]); injection Hm as <-; cbn.
  - destruct req, rsp; eauto. destruct (call c q r). eauto.
  - destruct req; eauto.
Qed.

(** ** Theorems *)

(** The calculator over RPC computes what its operator says: for every request to [Calc] that
    parses, whatever the server's options, the reply frame carries the request's number and
    either the result of the operation with code [kOk], or [kInvalidArgument] with the text for a
    division by zero or an unknown operator. *)
Theorem calculator_answers `{Envelope} (host : endian) (args : list bytes) (loop : loop_id)
  (spawn : nat -> loop_id) (m : ProtocolMessage) (p : bytes) (q : CalcRequest) (conn : list bytes)
  (Hreq : parseRequest (body m)
          = Some (mkRpcRequest (lit "minirpc.example.CalculatorService.Calc") p))
  (Hparse : parse_calc p = Some q) :
  handleRequest host (registry_ (calculator_main args loop spawn).2) tt conn m
  = (tt, conn ++ [wire (reply_message (seq (header m)) (calc_reply [] q))], Ok tt).
Proof.
  apply (calc_answers host _ Calc [] m p q); [|apply Calc_spec|done|done].
  unfold calculator_main. cbn zeta. cbn [snd]. by rewrite services_find, decide_True.
Qed.

(** A node of the cluster: after [main] of rpc_node.cpp, over a registry that is reached, a
    discovery of the calculator within the timeout lists a node at the port it was given, and
    the server behind it answers [Calc] with the result of the operation and the node's name. *)
Theorem node_main_serves `{Envelope} (host host' : endian) (inet_pton : bytes -> option Z)
  (iterate : ServiceMap -> list (bytes * NodeEntry)) (iterate_perm : forall m, iterate m ≡ₚ map_to_list m)
  (args : list bytes) (loop : loop_id) (spawn : nat -> loop_id) (r : Registry) (t0 t : Z)
  (m : ProtocolMessage) (p : bytes) (q : CalcRequest) (conn : list bytes)
  (Hinv : inv r) (Ht : (t - t0 <= heartbeatTimeout_ r * 1000000)%Z)
  (Hreq : parseRequest (body m)
          = Some (mkRpcRequest (lit "minirpc.example.CalculatorService.Calc") p))
  (Hparse : parse_calc p = Some q) :
  let '(node, server, w) := node_main host inet_pton args loop spawn (mkServed [t0] r []) in
  let '(port, name, _, _, _) := node_options args in
  (exists n, n ∈ nodes (Discover iterate t (lit "minirpc.example.CalculatorService") None (registry w)).1.1 /\
             nodeKey n = nodeKey (mkNode name (lit "127.0.0.1") port)) /\
  handleRequest host' (registry_ server) tt conn m
  = (tt, conn ++ [wire (reply_message (seq (header m)) (calc_reply name q))], Ok tt).
Proof.
  unfold node_main. assert (Hport : fits 16 (node_options args).1.1.1.1).
  { unfold node_options, arg. cbn. destruct (args !! 0); [apply wrap_fits; lia|by split]. }
  destruct (node_options args) as [[[[port_ name] rport] hb] tm]. cbn [fst] in Hport. cbn zeta.
  set (nd := RpcServiceNode_new _ _ _ _ _ _). split.
  - assert (Hself : self host nd = mkNode name (lit "127.0.0.1") port_).
    { unfold self, nd. cbn [nodeName_ listenAddr_ RpcServiceNode_new].
      by rewrite port_InetAddress_of_port. }
    destruct (life_listed host iterate iterate_perm nd r t0 [] t) as [_ Hl]; [|done|done|done|].
    { unfold nd. cbn [listenAddr_ RpcServiceNode_new]. by rewrite port_InetAddress_of_port. }
    unfold listed in Hl. rewrite Hself in Hl. unfold registerSelf. rewrite Hself. exact Hl.
  - apply (calc_answers host' _ (node_Calc name) name m p q); [by rewrite services_find, decide_True| |done|done].
    unfold node_Calc. rewrite Calc_spec. by destruct (calc_spec q).
Qed.

End Calculator.

(** ** The echo server *)

(** examples/echo/echo_server.cpp: the message callback hands each chunk read to the pool, whose
    threads send it back. *)
Section EchoServer.

(** The closure [[conn, msg] { ...; conn->send(msg); }]; [sent]: the functor is queued. *)
Record EchoJob := mkEchoJob { chunk : bytes; sent : bool }.

(** One connection, the functors [send] queued for its loop, the chunks read and those
    [sendInLoop] got. *)
Record EchoServer := mkEcho {
  e_conn : TcpConnection.TcpConnection;
  e_pool : ThreadPool EchoJob;
  e_functors : list bytes;
  e_read : list bytes;
  e_sent : list bytes;
}.

(** [pool.Start(4)], and an accepted connection. *)
Definition echo_main (fd : Z) : EchoServer :=
  mkEcho (TcpConnection.connectEstablished (TcpConnection.TcpConnection_new fd))
    (Start ThreadPool_new (mkConfig kFixed 4 (maxThreadCount_ (Task := EchoJob) ThreadPool_new)
                             (maxTaskQueueSize_ (Task := EchoJob) ThreadPool_new)))
    [] [] [].

Inductive echo_step :=
| ERead (d : bytes)
| EPool (ps : pool_step EchoJob)
| ESend (w : nat)
| EReturn (w : nat)
| EFunctor (o : TcpConnection.write_outcome)
| EWritable (o : TcpConnection.write_outcome).

(** [None]: not possible now; a full queue makes [submit] throw out of the callback, which ends
    the program. *)
Definition echo_exec (s : EchoServer) (st : echo_step) : option EchoServer :=
  match st with
  | ERead d =>
      match d, lock_ (e_pool s) with
      | _ :: _, None =>
          let c := TcpConnection.handleRead (e_conn s) (ReadOk d) id in
          let '(msg, b) := retrieveAllAsString (TcpConnection.inputBuffer_ c) in
          match enqueueTask (e_pool s) (mkTask kNormal (mkEchoJob msg false)) with
          | (true, p) =>
              Some (mkEcho (TcpConnection.set_input c b) p (e_functors s) (e_read s ++ [msg]) (e_sent s))
          | (false, _) => None
          end
      | _, _ => None
      end
  | EPool ps =>
      if internal ps then
        match step (e_pool s) ps with
        | Some p => Some (mkEcho (e_conn s) p (e_functors s) (e_read s) (e_sent s))
        | None => None
        end
      else None
  | ESend w =>
      match running_at (e_pool s) w with
      | Some t =>
          if sent (func t) then None
          else Some (mkEcho (e_conn s)
                       (set_worker (e_pool s) w (WRunning (mkTask (priority t) (mkEchoJob (chunk (func t)) true))))
                       (e_functors s ++ [chunk (func t)]) (e_read s) (e_sent s))
      | None => None
      end
  | EReturn w =>
      match running_at (e_pool s) w with
      | Some t =>
          if sent (func t) then
            match step (e_pool s) (WorkerFinish w) with
            | Some p => Some (mkEcho (e_conn s) p (e_functors s) (e_read s) (e_sent s))
            | None => None
            end
          else None
      | None => None
      end
  | EFunctor o =>
      match e_functors s with
      | f :: q =>
          Some (mkEcho (TcpConnection.sendInLoop (e_conn s) f o) (e_pool s) q (e_read s) (e_sent s ++ [f]))
      | [] => None
      end
  | EWritable o =>
      Some (mkEcho (TcpConnection.handleWrite (e_conn s) o) (e_pool s) (e_functors s) (e_read s) (e_sent s))
  end.

(** The chunks in the pool's hands. *)
Definition unsent (t : PrioritizedTask EchoJob) : list bytes :=
  if sent (func t) then [] else [chunk (func t)].

Record echo_inv (s : EchoServer) : Prop := {
  ei_conn : TcpConnection.conn_inv (e_conn s);
  ei_open : TcpConnection.state_ (e_conn s) = TcpConnection.kConnected;
  ei_empty : contents (TcpConnection.inputBuffer_ (e_conn s)) = [];
  ei_pool : pool_inv (e_pool s);
  ei_stream : TcpConnection.stream (e_conn s) = concat (e_sent s);
  ei_chunks : e_read s ≡ₚ e_sent s ++ e_functors s ++ (live_tasks (e_pool s) ≫= unsent);
}.

Lemma echo_pool_inv s p fs :
  echo_inv s -> pool_inv p ->
  e_sent s ++ e_functors s ++ (live_tasks (e_pool s) ≫= unsent) ≡ₚ
  e_sent s ++ fs ++ (live_tasks p ≫= unsent) ->
  echo_inv (mkEcho (e_conn s) p fs (e_read s) (e_sent s)).
Proof. intros [H1 H2 H3 H4 H5 H6] Hp Hc. split; try done. cbn. by rewrite H6. Qed.

(** The callback takes exactly the bytes read. *)
Lemma echo_read_chunk c d msg b :
  TcpConnection.conn_inv c -> TcpConnection.state_ c = TcpConnection.kConnected ->
  contents (TcpConnection.inputBuffer_ c) = [] -> d <> [] ->
  retrieveAllAsString (TcpConnection.inputBuffer_ (TcpConnection.handleRead c (ReadOk d) id)) = (msg, b) ->
  let c' := TcpConnection.set_input (TcpConnection.handleRead c (ReadOk d) id) b in
  msg = d /\ TcpConnection.conn_inv c' /\ TcpConnection.state_ c' = TcpConnection.kConnected /\
  contents b = [] /\ TcpConnection.stream c' = TcpConnection.stream c.
Proof.
  intros Hi Hst He Hd Hr. cbn zeta. destruct (TcpConnection.handleRead_spec c (ReadOk d) Hi) as (Hi1 & Hs1 & _).
  destruct (readFd_Ok_spec (TcpConnection.inputBuffer_ c) d (proj1 Hi)) as [Hw Hc].
  unfold TcpConnection.handleRead in *.
  destruct (readFd (TcpConnection.inputBuffer_ c) (ReadOk d)) as [[k en] b1] eqn:Hrd.
  assert (Hk : (0 <? k)%Z = true).
  { unfold readFd in Hrd. injection Hrd as <- _ _. destruct d; [done|]. apply Z.ltb_lt. cbn. lia. }
  rewrite Hk in *. cbn [snd] in Hw, Hc. cbn [TcpConnection.inputBuffer_ TcpConnection.set_input id] in Hr.
  unfold retrieveAllAsString in Hr.
  destruct (retrieveAsString_spec b1 (readableBytes b1) Hw) as (Hm & Hwb & Hcb).
  rewrite Hr in Hm, Hwb, Hcb. cbn [fst snd] in Hm, Hwb, Hcb.
  rewrite take_ge in Hm by (by rewrite length_contents). rewrite drop_ge in Hcb by (by rewrite length_contents).
  split; [by rewrite Hm, Hc, He|]. split; [|done].
  destruct Hi1 as (_ & Hi1). by split.
Qed.

Lemma echo_exec_inv s st s' : echo_inv s -> echo_exec s st = Some s' -> echo_inv s'.
Proof.
  intros Hi. pose proof Hi as [H1 H2 H3 H4 H5 H6].
  destruct st as [d|ps|w|w|o|o]; cbn [echo_exec].
  - destruct d as [|a d]; [done|]. destruct (lock_ (e_pool s)); [done|].
    destruct (retrieveAllAsString _) as [msg b] eqn:Hr.
    pose proof (enqueue_live (e_pool s) (mkTask kNormal (mkEchoJob msg false)) H4) as Hq.
    destruct (enqueueTask _ _) as [[] p]; [|done]. destruct Hq as [Hp Hl]. intros [= <-].
    destruct (echo_read_chunk (e_conn s) (a :: d) msg b H1 H2 H3 ltac:(done) Hr) as (-> & Hi1 & Hst & Hc & Hs).
    split; cbn [e_conn e_pool e_functors e_read e_sent]; try done.
    rewrite H6, Hl. cbn [mbind list_bind]. unfold unsent at 2. cbn [func sent chunk]. solve_Permutation.
  - destruct (internal ps) eqn:Hps; [|done]. destruct (step (e_pool s) ps) as [p|] eqn:Hst; [|done].
    intros [= <-]. destruct (step_internal _ _ _ H4 Hps Hst) as [Hp Hl]. apply echo_pool_inv; [done|done|].
    by rewrite Hl.
  - destruct (running_at (e_pool s) w) as [t|] eqn:Hw; [|done]. destruct (sent (func t)) eqn:Hsent; [done|].
    intros [= <-]. destruct (live_running _ _ _ Hw) as (rest & Hl & Hl' & _). apply echo_pool_inv; [done|done|].
    rewrite Hl, Hl'. cbn [mbind list_bind]. unfold unsent at 1 3. rewrite Hsent. cbn [func sent].
    solve_Permutation.
  - destruct (running_at (e_pool s) w) as [t|] eqn:Hw; [|done]. destruct (sent (func t)) eqn:Hsent; [|done].
    destruct (step (e_pool s) (WorkerFinish w)) as [p|] eqn:Hst; [|done]. intros [= <-].
    destruct (live_running _ _ _ Hw) as (rest & Hl & _ & Hf). destruct (step_spec _ _ _ H4 Hst) as [Hp _].
    apply echo_pool_inv; [done|done|]. rewrite Hl, (Hf p Hst). cbn [mbind list_bind]. unfold unsent at 1.
    by rewrite Hsent.
  - destruct (e_functors s) as [|f q] eqn:Hq; [done|]. intros [= <-].
    destruct (TcpConnection.sendInLoop_spec (e_conn s) f o H1) as (Hi1 & Hst & _ & Hs).
    rewrite bool_decide_eq_false_2 in Hs by congruence.
    split; cbn [e_conn e_pool e_functors e_read e_sent]; try done.
    + by rewrite Hst.
    + rewrite <- H3. f_equal. unfold TcpConnection.sendInLoop. repeat case_match; simplify_eq; done.
    + rewrite Hs, H5, concat_app. cbn. by rewrite app_nil_r.
    + rewrite H6. solve_Permutation.
  - intros [= <-]. destruct (TcpConnection.handleWrite_spec (e_conn s) o H1) as (Hi1 & Hst & _ & Hs & _).
    split; cbn [e_conn e_pool e_functors e_read e_sent]; try done.
    + by rewrite Hst.
    + rewrite <- H3. f_equal. unfold TcpConnection.handleWrite. repeat case_match; done.
    + by rewrite Hs.
Qed.

Lemma echo_main_inv fd : echo_inv (echo_main fd).
Proof.
  split; try done; [apply TcpConnection.conn_inv_new|]. split; [done|]. split; cbn; lia.
Qed.

(** The echo server loses and invents nothing: over any interleaving, what it has written and
    buffered are chunks it read, each at most once; and when nothing is left in the pool or
    queued, all of them. *)
Theorem echo_conserves (fd : Z) (ss : list echo_step) (s : EchoServer)
  (Hrun : echo_main fd =[ echo_exec | ss ]=> s) :
  TcpConnection.written (e_conn s) ++ contents (TcpConnection.outputBuffer_ (e_conn s)) = concat (e_sent s) /\
  e_sent s ⊆+ e_read s /\
  (e_functors s = [] -> live_tasks (e_pool s) = [] -> e_sent s ≡ₚ e_read s).
Proof.
  assert (Hi : echo_inv s) by (revert Hrun; apply steps_inv; [apply echo_exec_inv|apply echo_main_inv]).
  destruct Hi as [_ _ _ _ H5 H6]. split; [exact H5|]. split.
  - rewrite H6. by apply submseteq_inserts_r.
  - intros Hf Hl. rewrite H6, Hf, Hl. cbn. by rewrite app_nil_r.
Qed.

(** Two chunks of a stream, taken by two workers of which the second is faster. *)
Definition crossing : list echo_step :=
  [EPool (CreateWorker 0); EPool (RegisterWorker 0); EPool (CreateWorker 1); EPool (RegisterWorker 1);
   ERead (lit "one "); ERead (lit "two "); EPool (WorkerTop 0); EPool (WorkerTake 0 0);
   EPool (WorkerTop 1); EPool (WorkerTake 1 0); ESend 1; EReturn 1; ESend 0; EReturn 0;
   EFunctor (TcpConnection.WriteOk 4); EFunctor (TcpConnection.WriteOk 4)].

Definition crossed : EchoServer := default (echo_main 9) (steps echo_exec (echo_main 9) crossing).

(** The echo can come back reordered: there is a run in which the client's two chunks are
    written back in the other order, as each is sent by a worker of its own. *)
Theorem echo_reorders :
  exists s, echo_main 9 =[ echo_exec | crossing ]=> s /\
    concat (e_read s) = lit "one two " /\ TcpConnection.written (e_conn s) = lit "two one " /\
    live_tasks (e_pool s) = [] /\ e_functors s = [].
Proof.
  exists crossed. split; [apply steps_default; vm_compute; reflexivity|]. repeat split; vm_compute; reflexivity.
Qed.

Lemma echo_conserves_witness :
  e_sent crossed = [lit "two "; lit "one "] /\ e_sent crossed ≡ₚ e_read crossed.
Proof.
  split; [vm_compute; reflexivity|].
  apply (echo_conserves 9 crossing crossed); [apply steps_default|..]; vm_compute; reflexivity.
Defined.

End EchoServer.
