(* ===== verification/Tools.v ===== *)
(** The client programs: the line protocol of the echo clients (examples/echo/echo_client.cpp,
    echo_stress.cpp), the reports of the RPC clients (examples/rpc/calculator_client.cpp,
    lb_client.cpp) and the statistics of benchmark/benchmark.cpp. *)
From stdpp Require Import base list gmap strings numbers sorting.
From Stdlib Require Import Ascii ZArith Lia.
From S2P Require Import Prelude Bytes Common Codec Controller Service RpcServer Inet Pipeline.
From S2P Require Import Registry ServiceNode RegistryServer Programs.

(** ** Reading a line *)

Definition newline : ascii := Ascii.ascii_of_nat 10.

(** What [::recv] returned: bytes, the end of the stream, or an error. *)
Inductive recv_outcome :=
| Received (d : bytes)
| RecvEnd
| RecvError.

(** The loop [while (echoed.find('\n') == npos)]: the text, whether a call failed and the calls
    left; [None] when the calls given are used up. *)
Fixpoint recv_line (acc : bytes) (rs : list recv_outcome) : option (bytes * bool * list recv_outcome) :=
  if decide (newline ∈ acc) then Some (acc, false, rs)
  else match rs with
       | [] => None
       | Received d :: rs => recv_line (acc ++ d) rs
       | RecvEnd :: rs => Some (acc, false, rs)
       | RecvError :: rs => Some (acc, true, rs)
       end.

(** ** echo_client *)

(** [std::getline] until it fails: the lines, of which the last may lack its end. *)
Fixpoint getlines (acc : bytes) (l : bytes) : list bytes :=
  match l with
  | [] => if bool_decide (acc = []) then [] else [acc]
  | c :: l => if decide (c = newline) then acc :: getlines [] l else getlines (acc ++ [c]) l
  end.

(** What the program has written to [stdout] and, line by line, to [stderr]. *)
Record Output := mkOutput { cout : bytes; cerr : list bytes }.
Definition says (o : Output) (s : bytes) : Output := mkOutput (cout o) (cerr o ++ [s]).

(** One turn of the loop over the lines of [stdin], and whether it goes on. [send_ok]: whether
    [::send] of the line with its end succeeded. *)
Definition client_turn (o : Output) (send_ok : bool) (rs : list recv_outcome) :
    option (Output * bool * list recv_outcome) :=
  if negb send_ok then Some (says o (lit "send failed"), false, rs)
  else match recv_line [] rs with
       | None => None
       | Some (response, failed, rs) =>
           let o := if failed : bool then says o (lit "recv failed") else o in
           if bool_decide (response = []) then Some (o, false, rs)
           else Some (mkOutput (cout o ++ response) (cerr o), true, rs)
       end.

(** The loop: the lines given to [::send] and the output. *)
Fixpoint client_loop (lines : list bytes) (sends : list bool) (rs : list recv_outcome) (sent : list bytes)
    (o : Output) : option (list bytes * Output) :=
  match lines with
  | [] => Some (sent, o)
  | line :: lines =>
      match sends with
      | [] => None
      | send_ok :: sends =>
          match client_turn o send_ok rs with
          | None => None
          | Some (o, false, _) => Some (sent ++ [line ++ [newline]], o)
          | Some (o, true, rs) => client_loop lines sends rs (sent ++ [line ++ [newline]]) o
          end
      end
  end.

(** The address and port of the command line. *)
Definition echo_options (args : list bytes) : bytes * Z :=
  (arg args 0 id (lit "127.0.0.1"), arg args 1 port_arg 8888%Z).

(** [main], given what its system calls return: what it sends, what it prints and its exit code. *)
Definition echo_client_main (host : endian) (inet_pton : bytes -> option Z) (args : list bytes) (stdin : bytes)
    (socket_ok : bool) (connect_ok : sockaddr_in -> bool) (sends : list bool) (rs : list recv_outcome) :
    option (list bytes * Output * Z) :=
  let '(ip, port) := echo_options args in
  let o := mkOutput [] [] in
  if negb socket_ok then Some ([], says o (lit "socket failed"), 1%Z)
  else match inet_pton ip with
       | None => Some ([], says o (lit "invalid ip: " ++ ip), 1%Z)
       | Some a =>
           if negb (connect_ok (mkSockaddr AF_INET (hton host 2 port) a))
           then Some ([], says o (lit "connect failed"), 1%Z)
           else '(sent, o) ← client_loop (getlines [] stdin) sends rs [] o; Some (sent, o, 0%Z)
       end.

(** ** echo_stress *)

Definition stress_msg (id i : nat) : bytes :=
  lit "client-" ++ to_string (Z.of_nat id) ++ lit "-msg-" ++ to_string (Z.of_nat i) ++ [newline].

(** The messages [i] to [i + n - 1] of one client; the number of failures it reports. *)
Fixpoint stress_worker (id i n : nat) (sends : list bool) (rs : list recv_outcome) : option nat :=
  match n with
  | O => Some 0
  | S n =>
      match sends with
      | [] => None
      | false :: _ => Some 1
      | true :: sends =>
          match recv_line [] rs with
          | None => None
          | Some (echoed, _, rs) =>
              if bool_decide (echoed = stress_msg id i) then stress_worker id (S i) n sends rs
              else Some 1
          end
      end
  end.

(** How a client's opening of its connection went: [socket], [inet_pton], [connect]. *)
Inductive open_outcome := SocketFailed | AddressInvalid | ConnectFailed | Opened.

(** The lambda [worker]: what it adds to [failed]. *)
Definition stress_client (id messages : nat) (x : open_outcome * list bool * list recv_outcome) :
    option nat :=
  let '(o, sends, rs) := x in
  match o with Opened => stress_worker id 0 messages sends rs | _ => Some 1 end.

(** The clients and messages of the command line after address and port. *)
Definition stress_options (args : list bytes) : Z * Z := (arg args 2 atoi 8%Z, arg args 3 atoi 20%Z).

(** The threads from [id] on; [failed] is the same whatever the order in which they add to it. *)
Fixpoint stress_threads (id messages : nat) (xs : list (open_outcome * list bool * list recv_outcome)) :
    option nat :=
  match xs with
  | [] => Some 0
  | x :: xs =>
      match stress_client id messages x, stress_threads (S id) messages xs with
      | Some k, Some failed => Some (k + failed)
      | _, _ => None
      end
  end.

(** [main], given what each thread's system calls return: the number of requests and failures it
    prints, and its exit code. A negative number of clients makes [threads.reserve] throw. *)
Definition stress_main (args : list bytes) (xs : list (open_outcome * list bool * list recv_outcome)) :
    option (Z * nat * Z) :=
  let '(clients, messages) := stress_options args in
  if (clients <? 0)%Z then None
  else match stress_threads 0 (Z.to_nat messages) (take (Z.to_nat clients) xs) with
       | Some failed => Some ((clients * messages)%Z, failed, if failed =? 0 then 0%Z else 1%Z)
       | None => None
       end.

(** *** Lemmas *)

Lemma to_string_no_newline n : newline ∉ to_string (Z.of_nat n).
Proof.
  rewrite to_string_nonneg by lia. intros Hin.
  assert (Hd := digits_all (S (Z.to_nat (Z.log2 (Z.of_nat n)))) (Z.of_nat n) ltac:(lia)).
  rewrite Forall_forall in Hd. by specialize (Hd _ Hin).
Qed.

Lemma stress_msg_line id i :
  exists b, stress_msg id i = b ++ [newline] /\ newline ∉ b.
Proof.
  exists (lit "client-" ++ to_string (Z.of_nat id) ++ lit "-msg-" ++ to_string (Z.of_nat i)).
  split; [unfold stress_msg; by rewrite <- !app_assoc|]. rewrite !not_elem_of_app.
  split; [by apply (bool_decide_unpack _)|]. split; [apply to_string_no_newline|].
  split; [by apply (bool_decide_unpack _)|apply to_string_no_newline].
Qed.

(** A line that arrives in pieces is read to its end, and no further. *)
Lemma recv_line_pieces acc b chunks rs :
  newline ∉ b -> Forall (fun d => d <> []) chunks -> acc ++ concat chunks = b ++ [newline] ->
  recv_line acc (map Received chunks ++ rs) = Some (b ++ [newline], false, rs).
Proof.
  intros Hb Hne. revert acc. induction Hne as [|d chunks Hd Hne IH]; intros acc Heq; cbn [map app concat] in *.
  - rewrite app_nil_r in Heq. subst acc.
    assert (Hin : newline ∈ b ++ [newline]) by (apply elem_of_app; right; by apply list_elem_of_singleton).
    destruct rs; cbn [recv_line]; by rewrite decide_True.
  - cbn [recv_line]. rewrite decide_False.
    + apply IH. by rewrite <- app_assoc.
    + intros Hin. apply Hb.
      assert (Hle : length acc <= length b).
      { apply (f_equal length) in Heq. rewrite !length_app in Heq. destruct d; [done|]. cbn in Heq. lia. }
      apply (f_equal (take (length acc))) in Heq. rewrite take_app_length, take_app_le in Heq by done.
      rewrite Heq in Hin. apply elem_of_take in Hin as (k & Hk & _). by eapply list_elem_of_lookup_2.
Qed.

(** The lines of [stdin] have no end inside, and the text is theirs. *)
Lemma getlines_spec l acc :
  newline ∉ acc ->
  Forall (fun b => newline ∉ b) (getlines acc l) /\
  concat (map (fun b => b ++ [newline]) (getlines acc l)) =
    acc ++ l ++ (if decide (acc ++ l = [] \/ last (acc ++ l) = Some newline) then [] else [newline]).
Proof.
  revert acc. induction l as [|c l IH]; intros acc Hacc; cbn [getlines].
  { rewrite app_nil_r. case_bool_decide as Hn; [subst; by rewrite decide_True by (by left)|].
    split; [by repeat constructor|]. rewrite decide_False; [cbn; by rewrite app_nil_r|].
    intros [?|(l' & ->)%last_Some]; [done|]. apply Hacc, elem_of_app. right. by apply list_elem_of_singleton. }
  case_decide as Hc.
  - subst c. destruct (IH []) as [Hf Heq]; [by apply not_elem_of_nil|]. split; [by constructor|].
    cbn [map concat]. rewrite Heq. cbn [app]. rewrite <- !app_assoc. cbn [app]. do 3 f_equal.
    destruct l as [|x l]; [rewrite !decide_True; auto; right; by rewrite last_snoc|].
    rewrite last_app_cons, (last_cons_cons newline). apply decide_ext. split; intros [?|?]; auto; try done.
    by destruct acc.
  - destruct (IH (acc ++ [c])) as [Hf Heq].
    { rewrite not_elem_of_app, list_elem_of_singleton. by split. }
    split; [done|]. rewrite Heq, <- !app_assoc. done.
Qed.

(** ** Theorems *)

(** Against a server that sends each line back, in pieces, the loop prints the lines. *)
Lemma client_loop_echo lines pieces sent o :
  Forall (fun b => newline ∉ b) lines ->
  Forall2 (fun b ds => concat ds = b ++ [newline] /\ Forall (fun d => d <> []) ds) lines pieces ->
  client_loop lines (replicate (length lines) true) (map Received (concat pieces)) sent o =
    Some (sent ++ map (fun b => b ++ [newline]) lines,
          mkOutput (cout o ++ concat (map (fun b => b ++ [newline]) lines)) (cerr o)).
Proof.
  intros Hno Hecho. revert sent o. induction Hecho as [|b ds lines pieces [Hds Hne] _ IH]; intros sent o.
  { cbn. rewrite !app_nil_r. by destruct o. }
  apply list.Forall_cons in Hno as [Hb Hno].
  cbn [length replicate client_loop concat map]. rewrite map_app. unfold client_turn. cbn [negb].
  rewrite (recv_line_pieces [] b ds) by done. rewrite bool_decide_eq_false_2 by (by destruct b).
  rewrite IH by done. cbn [cout cerr]. by rewrite <- !app_assoc.
Qed.

(** The echo client echoes: when its connection opens and the server sends every line back, in
    non-empty pieces of any size, it sends the lines of its input, prints the input, with an end
    to its last line, prints no error and returns 0. *)
Theorem echo_client_echoes (host : endian) (inet_pton : bytes -> option Z) (args : list bytes) (stdin : bytes)
  (connect_ok : sockaddr_in -> bool) (pieces : list (list bytes)) (a : Z)
  (Haddr : inet_pton (echo_options args).1 = Some a)
  (Hconn : connect_ok (mkSockaddr AF_INET (hton host 2 (echo_options args).2) a) = true)
  (Hecho : Forall2 (fun b ds => concat ds = b ++ [newline] /\ Forall (fun d => d <> []) ds)
             (getlines [] stdin) pieces) :
  let shown := stdin ++ (if decide (stdin = [] \/ last stdin = Some newline) then [] else [newline]) in
  exists sent,
    echo_client_main host inet_pton args stdin true connect_ok (replicate (length pieces) true)
      (map Received (concat pieces)) = Some (sent, mkOutput shown [], 0%Z) /\
    concat sent = shown.
Proof.
  destruct (getlines_spec stdin [] (not_elem_of_nil _)) as [Hno Heq]. cbn [app] in Heq. cbn zeta.
  unfold echo_client_main. destruct (echo_options args) as [ip port_]. cbn [fst snd] in *.
  rewrite Haddr, Hconn. cbn [negb]. rewrite <- (Forall2_length _ _ _ Hecho).
  rewrite (client_loop_echo _ _ _ _ Hno Hecho). cbn [mbind option_bind cout cerr app]. rewrite Heq.
  by eexists.
Qed.

Lemma echo_client_echoes_witness :
  exists sent,
    echo_client_main LittleEndian (fun _ => Some 1%Z) [] (lit "ab") true (fun _ => true) [true]
      [Received (lit "a"); Received (lit "b" ++ [newline])]
    = Some (sent, mkOutput (lit "ab" ++ [newline]) [], 0%Z) /\ concat sent = lit "ab" ++ [newline].
Proof.
  apply (echo_client_echoes LittleEndian (fun _ => Some 1%Z) [] (lit "ab") (fun _ => true)
           [[lit "a"; lit "b" ++ [newline]]] 1 eq_refl eq_refl).
  repeat constructor; discriminate.
Defined.

(** A client whose messages all come back, in pieces, reports no failure. *)
Lemma stress_worker_passes id i pieces :
  Forall (Forall (fun d => d <> [])) pieces ->
  (forall k ds, pieces !! k = Some ds -> concat ds = stress_msg id (i + k)) ->
  stress_worker id i (length pieces) (replicate (length pieces) true)
    (map Received (concat pieces)) = Some 0.
Proof.
  intros Hne. revert i. induction Hne as [|ds pieces Hds _ IH]; intros i Hecho; [done|].
  cbn [length replicate stress_worker concat]. rewrite map_app.
  destruct (stress_msg_line id i) as (b & Hb & Hno).
  assert (Hd : concat ds = b ++ [newline]).
  { rewrite <- Hb. rewrite (Hecho 0 ds eq_refl). by rewrite Nat.add_0_r. }
  rewrite (recv_line_pieces [] b ds) by done. rewrite <- Hb, bool_decide_eq_true_2 by done.
  apply IH. intros k ds' Hk. rewrite (Hecho (S k) ds' Hk). by rewrite Nat.add_succ_r.
Qed.

(** What a thread's calls return from a faithful echo. *)
Definition echoed (pieces : list (list bytes)) : open_outcome * list bool * list recv_outcome :=
  (Opened, replicate (length pieces) true, map Received (concat pieces)).

Lemma stress_threads_pass id messages clients :
  Forall (fun pieces => length pieces = messages /\ Forall (Forall (fun d => d <> [])) pieces) clients ->
  (forall j pieces k ds, clients !! j = Some pieces -> pieces !! k = Some ds ->
     concat ds = stress_msg (id + j) k) ->
  stress_threads id messages (map echoed clients) = Some 0.
Proof.
  intros Hall. revert id. induction Hall as [|pieces clients [Hlen Hne] _ IH]; intros id Hecho; [done|].
  cbn [map stress_threads echoed stress_client]. subst messages.
  rewrite (stress_worker_passes id 0 pieces Hne).
  - rewrite IH; [done|]. intros j p k ds Hj Hk. rewrite (Hecho (S j) p k ds Hj Hk).
    by rewrite Nat.add_succ_r.
  - intros k ds Hk. rewrite (Hecho 0 pieces k ds eq_refl Hk). by rewrite Nat.add_0_r.
Qed.

(** The stress test passes on a faithful echo, whatever the segmentation: when every client
    connects, every send succeeds and the server's answer to each message is that message, in
    non-empty pieces of any size, the program reports no failure and returns 0. *)
Theorem stress_passes (args : list bytes) (clients : list (list (list bytes)))
  (Hclients : (stress_options args).1 = Z.of_nat (length clients))
  (Hne : Forall (fun pieces => length pieces = Z.to_nat (stress_options args).2 /\
                               Forall (Forall (fun d => d <> [])) pieces) clients)
  (Hecho : forall id pieces k ds, clients !! id = Some pieces -> pieces !! k = Some ds ->
           concat ds = stress_msg id k) :
  stress_main args (map echoed clients)
  = Some ((Z.of_nat (length clients) * (stress_options args).2)%Z, 0, 0%Z).
Proof.
  unfold stress_main. destruct (stress_options args) as [n messages]. cbn [fst snd] in *. subst n.
  destruct (Z.ltb_spec (Z.of_nat (length clients)) 0); [lia|].
  rewrite Nat2Z.id, <- (length_map echoed clients), firstn_all.
  by rewrite (stress_threads_pass 0 _ clients Hne Hecho), length_map.
Qed.

Lemma stress_passes_witness :
  stress_main [lit "127.0.0.1"; lit "8888"; lit "1"; lit "2"]
    [echoed [[lit "client-0-"; lit "msg-0" ++ [newline]]; [stress_msg 0 1]]] = Some (2%Z, 0, 0%Z).
Proof.
  apply (stress_passes [lit "127.0.0.1"; lit "8888"; lit "1"; lit "2"]
           [[[lit "client-0-"; lit "msg-0" ++ [newline]]; [stress_msg 0 1]]]).
  - reflexivity.
  - repeat constructor; discriminate.
  - intros id pieces k ds. destruct id as [|id]; [|by destruct id]. intros [= <-].
    destruct k as [|[|k]]; [intros [= <-]; reflexivity..|]. by destruct k.
Defined.

(** ** The reports of the RPC clients *)

Section Reports.
Context {D : Type} `{Double D} (print : D -> bytes).

(** The line [runCalc] prints. *)
Definition runCalc_line (a b : D) (op : bytes) (ctrl : RpcController) (result : D) : bytes :=
  print a ++ lit " " ++ op ++ lit " " ++ print b ++
  if Failed ctrl
  then lit " -> ERROR(" ++ errorCodeToString (errorCode ctrl) ++ lit "): " ++ ErrorText ctrl
  else lit " = " ++ print result.

(** The calls of [main]; [lits] gives the [double] of an integer literal. *)
Definition client_calls (lits : nat -> D) : list (D * D * bytes) :=
  [(lits 1, lits 2, lit "+"); (lits 7, lits 6, lit "*"); (lits 10, lits 4, lit "-");
   (lits 9, lits 3, lit "/"); (lits 1, lits 0, lit "/"); (lits 1, lits 2, lit "%")].

(** The line expected for an operation, and the report of all of them. *)
Definition calc_line (x : D * D * bytes) : bytes :=
  let '(a, b, op) := x in
  match calc_spec (mkCalcRequest a b op) with
  | inl r => runCalc_line a b op RpcController_new r
  | inr msg => runCalc_line a b op (fail RpcController_new msg) d_zero
  end.
Definition calculator_client (lits : nat -> D) : list bytes := map calc_line (client_calls lits).
End Reports.

(** Whole numbers as a sample of [double]. *)
#[export] Instance Z_double : Double Z := {|
  d_add := Z.add; d_sub := Z.sub; d_mul := Z.mul; d_div := Z.div;
  d_is_zero x := (x =? 0)%Z; d_zero := 0%Z;
|}.

(** What the client prints against the calculator. *)
Example calculator_client_output :
  calculator_client to_string Z.of_nat =
  [lit "1 + 2 = 3"; lit "7 * 6 = 42"; lit "10 - 4 = 6"; lit "9 / 3 = 3";
   lit "1 / 0 -> ERROR(INVALID_ARGUMENT): division by zero";
   lit "1 % 2 -> ERROR(INVALID_ARGUMENT): unknown operator: %"].
Proof. reflexivity. Qed.

(** lb_client.cpp: the node of each call that succeeded, [None] for a failed one. *)
Definition lb_turn (s : gmap bytes nat * nat) (r : option bytes) : gmap bytes nat * nat :=
  match r with
  | None => (s.1, S s.2)
  | Some id => (<[id := S (default 0 (s.1 !! id))]> s.1, s.2)
  end.
Definition lb_counts (rs : list (option bytes)) : gmap bytes nat * nat := fold_left lb_turn rs (∅, 0).
Definition lb_exit (rs : list (option bytes)) : Z := if (lb_counts rs).2 =? 0 then 0%Z else 1%Z.

Lemma lb_fold rs m k :
  let '(m', k') := fold_left lb_turn rs (m, k) in
  (forall id, default 0 (m' !! id) = default 0 (m !! id) + length (filter (fun r => r = Some id) rs)) /\
  k' = k + length (filter (fun r => r = None) rs).
Proof.
  revert m k. induction rs as [|r rs IH]; intros m k; cbn [fold_left].
  { split; [intros id|]; cbn; lia. }
  destruct r as [id0|]; cbn [lb_turn fst snd].
  - specialize (IH (<[id0 := S (default 0 (m !! id0))]> m) k).
    destruct (fold_left lb_turn rs _) as [m' k']. destruct IH as [Hm ->]. split.
    + intros id. rewrite Hm, lookup_insert. rewrite filter_cons. repeat case_decide; simplify_eq; cbn; lia.
    + rewrite filter_cons. by rewrite decide_False.
  - specialize (IH m (S k)). destruct (fold_left lb_turn rs _) as [m' k']. destruct IH as [Hm ->].
    split.
    + intros id. rewrite Hm, filter_cons. by rewrite decide_False.
    + rewrite filter_cons, decide_True by done. cbn [length]. lia.
Qed.

(** The report counts every call once. *)
Lemma lb_report rs id :
  default 0 ((lb_counts rs).1 !! id) = length (filter (fun r => r = Some id) rs) /\
  (lb_counts rs).2 = length (filter (fun r => r = None) rs).
Proof.
  pose proof (lb_fold rs ∅ 0) as Hf. unfold lb_counts. destruct (fold_left lb_turn rs _) as [m k].
  destruct Hf as [Hm ->]. split; [|done]. cbn [fst]. rewrite Hm. by rewrite lookup_empty.
Qed.

(** ** benchmark *)

(** [std::sort]. *)
Definition sort_longs (l : list Z) : list Z := merge_sort Z.le l.

Definition all_latencies (latencies : list (list Z)) : list Z := sort_longs (concat latencies).

(** [pct(p)]: [scaled] is [static_cast<size_t>(all.size() * p)]. *)
Definition pct (all : list Z) (scaled : nat) : Z :=
  match all with
  | [] => 0%Z
  | _ => default 0%Z (all !! Nat.min (length all - 1) scaled)
  end.

Definition sum_us (l : list Z) : Z := fold_left Z.add l 0%Z.
(** [sum / all.size()] is a [size_t]. *)
Definition avgUs (all : list Z) : Z :=
  match all with [] => 0%Z | _ => (u64 (sum_us all) / Z.of_nat (length all))%Z end.
Definition maxUs (all : list Z) : Z := match all with [] => 0%Z | _ => default 0%Z (last all) end.

(** One call of a worker: the clock before and after (nanoseconds), and whether it failed. *)
Definition bench_turn (s : list Z * nat) (x : Z * Z * bool) : list Z * nat :=
  let '(t0, t1, fails) := x in
  (s.1 ++ [Z.quot (t1 - t0) 1000], if fails : bool then S s.2 else s.2).

(** The workers' latencies and failures, and the exit code. *)
Definition bench_latencies (calls : list (list (Z * Z * bool))) : list (list Z) :=
  map (fun xs => (fold_left bench_turn xs ([], 0)).1) calls.
Definition bench_failed (calls : list (list (Z * Z * bool))) : nat :=
  list_sum (map (fun xs => (fold_left bench_turn xs ([], 0)).2) calls).
Definition bench_exit (calls : list (list (Z * Z * bool))) : Z :=
  if bench_failed calls =? 0 then 0%Z else 1%Z.

Lemma bench_fold xs l k :
  fold_left bench_turn xs (l, k)
  = (l ++ map (fun x => Z.quot (x.1.2 - x.1.1) 1000) xs, k + length (filter (fun x => x.2 = true) xs)).
Proof.
  revert l k. induction xs as [|[[t0 t1] f] xs IH]; intros l k; cbn [fold_left map bench_turn fst snd].
  { by rewrite app_nil_r, Nat.add_0_r. }
  rewrite IH, filter_cons, <- app_assoc. cbn [app snd]. f_equal. destruct f; case_decide; cbn; (done || lia).
Qed.

(** Every call is measured, also a failed one, and the program fails exactly when one has. *)
Lemma bench_report calls :
  length (concat (bench_latencies calls)) = length (concat calls) /\
  (bench_exit calls = 0%Z <-> Forall (fun x => x.2 = false) (concat calls)).
Proof.
  unfold bench_exit, bench_latencies, bench_failed.
  induction calls as [|xs calls [IHl IHe]]; cbn [map concat list_sum foldr]; [by split|].
  rewrite bench_fold. cbn [fst snd app]. rewrite !length_app, length_map, IHl. split; [done|].
  rewrite Forall_app, <- IHe. clear IHl IHe. rewrite Nat.add_0_l.
  assert (Hx : length (filter (fun x => x.2 = true) xs) = 0 <-> Forall (fun x => x.2 = false) xs).
  { induction xs as [|[p []] xs IH]; [by split; constructor| |]; rewrite filter_cons; cbn [snd].
    - rewrite decide_True by done. cbn. split; [done|]. intros Hf. by apply Forall_cons_1 in Hf as [? _].
    - rewrite decide_False by done. rewrite IH, Forall_cons. cbn. tauto. }
  rewrite <- Hx. change (foldr Nat.add 0 ?l) with (list_sum l).
  destruct (Nat.eqb_spec (length (filter (fun x => x.2 = true) xs) +
    list_sum (map (fun xs0 => (fold_left bench_turn xs0 ([], 0)).2) calls)) 0);
    destruct (Nat.eqb_spec (list_sum (map (fun xs0 => (fold_left bench_turn xs0 ([], 0)).2) calls)) 0);
    split; (done || lia || (intros [? ?]; (done || lia))).
Qed.

Lemma sort_longs_spec l : StronglySorted Z.le (sort_longs l) /\ sort_longs l ≡ₚ l.
Proof.
  split; [apply (StronglySorted_merge_sort Z.le)|apply merge_sort_Permutation].
Qed.

Lemma sorted_index l i j x y :
  StronglySorted Z.le l -> l !! i = Some x -> l !! j = Some y -> i <= j -> (x <= y)%Z.
Proof.
  intros Hs. revert i j. induction Hs as [|z l Hs IH Hz]; intros i j Hi Hj Hle; [done|].
  destruct i as [|i], j as [|j]; cbn in Hi, Hj; simplify_eq; [done| |lia|].
  - rewrite Forall_forall in Hz. apply Hz. by eapply list_elem_of_lookup_2.
  - apply (IH i j); [done|done|lia].
Qed.

(** A percentile is one of the measured values; a larger rank gives no smaller value. *)
Lemma pct_lookup all k : all <> [] -> all !! Nat.min (length all - 1) k = Some (pct all k).
Proof.
  intros Hne. unfold pct. destruct all as [|z all]; [done|].
  destruct (lookup_lt_is_Some_2 (z :: all) (Nat.min (length (z :: all) - 1) k)) as [x Hx].
  { cbn [length]. lia. }
  by rewrite Hx.
Qed.

Lemma maxUs_lookup all : all <> [] -> all !! (length all - 1) = Some (maxUs all).
Proof.
  intros Hne. unfold maxUs. destruct all as [|z all] using rev_ind; [done|].
  rewrite last_snoc, length_app. cbn [length]. rewrite lookup_app_r by lia.
  replace (length all + 1 - 1 - length all) with 0 by lia. by destruct all.
Qed.

Lemma sum_us_bound l m : Forall (fun x => 0 <= x <= m)%Z l -> (0 <= sum_us l <= m * Z.of_nat (length l))%Z.
Proof.
  intros Hl. unfold sum_us.
  assert (Hg : forall a, (a <= fold_left Z.add l a <= a + m * Z.of_nat (length l))%Z).
  { induction Hl as [|x l Hx _ IH]; intros a; cbn [fold_left length]; [lia|].
    specialize (IH (a + x)%Z). lia. }
  specialize (Hg 0%Z). lia.
Qed.

(** The report's numbers are consistent: for any measurements, the percentile's index is in
    range, so each percentile is a measured value; percentiles grow with their rank up to the
    maximum; and for non-negative latencies whose sum fits [size_t] the average does not exceed
    the maximum. *)
Theorem report_consistent (latencies : list (list Z)) (k k' : nat)
  (Hrank : k <= k') (Hsome : concat latencies <> []) :
  let all := all_latencies latencies in
  pct all k ∈ concat latencies /\ (pct all k <= pct all k' <= maxUs all)%Z /\
  (Forall (fun x => 0 <= x)%Z (concat latencies) -> (sum_us all < 2 ^ 64)%Z ->
   (0 <= avgUs all <= maxUs all)%Z).
Proof.
  cbn zeta. unfold all_latencies. destruct (sort_longs_spec (concat latencies)) as [Hs Hp].
  set (all := sort_longs (concat latencies)) in *.
  assert (Hne : all <> []) by (intros He; rewrite He in Hp; by apply Permutation_nil in Hp).
  pose proof (maxUs_lookup all Hne) as Hmax.
  split; [rewrite <- Hp; by eapply list_elem_of_lookup_2, pct_lookup|]. split.
  - split.
    + eapply (sorted_index all _ _ _ _ Hs); [by apply pct_lookup|by apply pct_lookup|lia].
    + eapply (sorted_index all _ _ _ _ Hs); [by apply pct_lookup|exact Hmax|lia].
  - intros Hpos Hfit.
    assert (Hb : Forall (fun x => 0 <= x <= maxUs all)%Z all).
    { apply Forall_forall. intros x Hx. split.
      - rewrite Forall_forall in Hpos. apply Hpos. by rewrite <- Hp.
      - apply list_elem_of_lookup_1 in Hx as [j Hj]. eapply (sorted_index all j (length all - 1)); try done.
        apply lookup_lt_Some in Hj. lia. }
    destruct (sum_us_bound all _ Hb) as [H0 Hsum]. unfold avgUs. destruct all as [|z l] eqn:Ha; [done|].
    rewrite <- Ha in *. unfold u64. rewrite wrap_small by (unfold fits; lia).
    assert (Hlen : (0 < Z.of_nat (length all))%Z) by (rewrite Ha; cbn; lia). split.
    + by apply Z.div_pos.
    + apply Z.div_le_upper_bound; lia.
Qed.

Lemma report_consistent_witness :
  let all := all_latencies [[30; 10]; [20]]%Z in
  all = [10; 20; 30]%Z /\ (pct all 1 <= pct all 2 <= maxUs all)%Z.
Proof.
  split; [vm_compute; reflexivity|].
  apply (report_consistent [[30; 10]; [20]]%Z 1 2); [lia|discriminate].
Defined.

(** ** The calculator, evaluated *)

Module CalcSamples.
Import SampleEnvelope RegistryServer.RegistrySamples.

#[export] Instance calc_messages : CalcMessages (D := Z) := {|
  parse_calc b := (fun p : Z * Z * bytes => mkCalcRequest p.1.1 p.1.2 p.2) <$> get b;
  serialize_result r := put (cs_result r, cs_error r, cs_server_id r);
  parse_echo b := get b;
  serialize_echo m := put m;
|}.

Definition calc_payload (a b : Z) (op : bytes) : bytes := put (a, b, op).
Definition calc_call (a b : Z) (op : bytes) : ProtocolMessage :=
  mkMessage (mkHeader kMagic kProtocolVersion kRequest 0 5 0 0)
    (serializeRequest (mkRpcRequest (lit "minirpc.example.CalculatorService.Calc") (calc_payload a b op))).

Lemma calculator_answers_witness :
  handleRequest BigEndian (registry_ (calculator_main [lit "9000"] 0 (fun i => i)).2) tt []
    (calc_call 1 0 (lit "/"))
  = (tt, [wire (reply_message 5 (mkRpcResponse kInvalidArgument (lit "division by zero") []))], Ok tt).
Proof.
  exact (calculator_answers BigEndian [lit "9000"] 0 (fun i => i) (calc_call 1 0 (lit "/"))
           (calc_payload 1 0 (lit "/")) (mkCalcRequest 1%Z 0%Z (lit "/")) [] eq_refl eq_refl).
Defined.

Lemma node_main_serves_witness :
  let '(_, server, w) := node_main LittleEndian (fun _ => None) [lit "9002"; lit "two"] 0 (fun i => i)
                           (mkServed [5%Z] Registry.RegistrySamples.reg []) in
  (exists n, n ∈ nodes (Discover map_to_list 7 (lit "minirpc.example.CalculatorService") None (registry w)).1.1 /\
             nodeKey n = nodeKey (mkNode (lit "two") (lit "127.0.0.1") 9002)) /\
  handleRequest BigEndian (registry_ server) tt [] (calc_call 6 7 (lit "*"))
  = (tt, [wire (reply_message 5 (mkRpcResponse kOk [] (serialize_result (mkCalcResponse 42%Z [] (lit "two")))))], Ok tt).
Proof.
  refine (node_main_serves LittleEndian BigEndian (fun _ => None) map_to_list (fun m => Permutation_refl _)
            [lit "9002"; lit "two"] 0 (fun i => i) Registry.RegistrySamples.reg 5 7 (calc_call 6 7 (lit "*"))
            (calc_payload 6 7 (lit "*")) (mkCalcRequest 6%Z 7%Z (lit "*")) [] Registry.RegistrySamples.reg_inv
            _ eq_refl eq_refl).
  vm_compute. discriminate.
Defined.

End CalcSamples.
