(* ===== verification/Clients.v ===== *)
(** The client programs over their channels: [main] of examples/rpc/calculator_client.cpp and of
    benchmark/benchmark.cpp on an [RpcChannel] and of examples/rpc/lb_client.cpp on a
    [LoadBalanceChannel], over any channels that make the calls (class [NodeChannel]). *)
From stdpp Require Import base list gmap strings numbers.
From Stdlib Require Import Ascii ZArith Lia.
From S2P Require Import Prelude Bytes Common Controller Inet RpcChannel LoadBalancer Registry.
From S2P Require Import LoadBalanceChannel RegistryServer Programs Tools.

Section CalculatorClient.
Context (host : endian) (inet_pton : bytes -> option Z).
Context {Ch W : Type} `{NodeChannel Ch W}.
(** [double], its text on a stream and its integer literals; the codecs of the messages. *)
Context {D : Type} `{Double D} (print : D -> bytes) (lits : nat -> D).
Context (serialize_calc : CalcRequest (D := D) -> bytes) (parse_result : bytes -> bool * CalcResponse (D := D)).
Context (serialize_msg : bytes -> bytes) (parse_msg : bytes -> bool * bytes).

(** The address and port of the command line after the program's name. *)
Definition client_options (args : list bytes) : bytes * Z :=
  (arg args 0 id (lit "127.0.0.1"), arg args 1 port_arg 8888%Z).

(** [errorCodeToString] and [ErrorText] of the program's own controller. *)
Definition echo_line (c : RpcController) (message : bytes) : bytes :=
  if Failed c
  then lit "echo -> ERROR(" ++ errorCodeToString (errorCode c) ++ lit "): " ++ ErrorText c
  else lit "echo -> " ++ message.

(** [runCalc]; the controller passed stays a [minirpc::RpcController]. [None]: the call does not
    return. *)
Definition runCalc (ch : Ch) (w : W) (x : D * D * bytes) : option (bytes * Ch * W) :=
  let '(a, b, op) := x in
  match channel_call parse_result ch (lit "minirpc.example.CalculatorService.Calc")
          (serialize_calc (mkCalcRequest a b op)) None (Mini RpcController_new)
          (mkCalcResponse d_zero [] []) w with
  | Some (_, ch, Mini c, rsp, w) => Some (runCalc_line print a b op c (cs_result rsp), ch, w)
  | _ => None
  end.

Fixpoint run_calcs (ch : Ch) (w : W) (xs : list (D * D * bytes)) : option (list bytes * Ch * W) :=
  match xs with
  | [] => Some ([], ch, w)
  | x :: xs =>
      match runCalc ch w x with
      | None => None
      | Some (line, ch, w) =>
          match run_calcs ch w xs with
          | None => None
          | Some (ls, ch, w) => Some (line :: ls, ch, w)
          end
      end
  end.

(** [main]: the lines printed and the exit code. *)
Definition client_main (args : list bytes) (w : W) : option (list bytes * Z) :=
  let '(ip, port) := client_options args in
  let channel := make_channel (InetAddress_of_ip host inet_pton ip port) 2000 2 in
  match run_calcs channel w (client_calls lits) with
  | None => None
  | Some (ls, channel, w) =>
      match channel_call parse_msg channel (lit "minirpc.example.EchoService.Echo")
              (serialize_msg (lit "hello rpc")) None (Mini RpcController_new) [] w with
      | Some (_, _, Mini c, message, _) =>
          Some (ls ++ [echo_line c message], if Failed c then 1%Z else 0%Z)
      | _ => None
      end
  end.

(** What the calls give when the calculator server is behind the channel: the result, or the
    failure with the server's code and text; and the echo gives its message back. *)
Class CalculatorBehind (serving : Ch -> Prop) : Prop := {
  calc_served ch w a b op :
    serving ch -> (a, b, op) ∈ client_calls lits ->
    exists ran ch' c rsp w',
      channel_call parse_result ch (lit "minirpc.example.CalculatorService.Calc")
        (serialize_calc (mkCalcRequest a b op)) None (Mini RpcController_new)
        (mkCalcResponse d_zero [] []) w = Some (ran, ch', Mini c, rsp, w') /\
      match calc_spec (mkCalcRequest a b op) with
      | inl x => Failed c = false /\ cs_result rsp = x
      | inr msg => Failed c = true /\ errorCode c = kInvalidArgument /\ ErrorText c = msg
      end /\ serving ch';
  echo_served ch w message :
    serving ch -> exists ran ch' c w',
      channel_call parse_msg ch (lit "minirpc.example.EchoService.Echo")
        (serialize_msg message) None (Mini RpcController_new) [] w
      = Some (ran, ch', Mini c, message, w') /\ Failed c = false /\ serving ch';
}.

(** A line depends on the controller only through its failure, code and text. *)
Lemma runCalc_served serving ch w a b op :
  CalculatorBehind serving -> serving ch -> (a, b, op) ∈ client_calls lits ->
  exists ch' w', serving ch' /\
    runCalc ch w (a, b, op)
    = Some (calc_line print (a, b, op), ch', w').
Proof.
  intros Hb Hs Hin. destruct (calc_served ch w a b op Hs Hin) as (ran & ch' & c & rsp & w' & Hc & Hr & Hs').
  exists ch', w'. split; [done|]. unfold runCalc. rewrite Hc. cbn [calc_line]. unfold runCalc_line.
  destruct (calc_spec _) as [x|msg]; [destruct Hr as [-> ->]|destruct Hr as (-> & -> & ->)]; done.
Qed.

Lemma run_calcs_served serving ch w xs :
  CalculatorBehind serving -> serving ch -> (forall x, x ∈ xs -> x ∈ client_calls lits) ->
  exists ch' w', serving ch' /\
    run_calcs ch w xs
    = Some (map (calc_line print) xs, ch', w').
Proof.
  intros Hb. revert ch w. induction xs as [|[[a b] op] xs IH]; intros ch w Hs Hin; [by exists ch, w|].
  cbn [run_calcs map]. destruct (runCalc_served serving ch w a b op) as (ch1 & w1 & Hs1 & ->);
    [done|done|apply Hin; by left|].
  destruct (IH ch1 w1 Hs1) as (ch2 & w2 & Hs2 & ->); [intros x Hx; apply Hin; by right|].
  by exists ch2, w2.
Qed.

(** The demonstration client prints what the services promise: against a calculator server it
    returns 0 after printing one line per operation, with the result, or with the server's error
    code and text for the division by zero and the unknown operator, and then its echo. *)
Theorem client_prints (serving : Ch -> Prop) (args : list bytes) (w : W)
  (Hserver : CalculatorBehind serving)
  (Hreach : let '(ip, port) := client_options args in
            serving (make_channel (InetAddress_of_ip host inet_pton ip port) 2000 2)) :
  client_main args w = Some (calculator_client print lits ++ [lit "echo -> hello rpc"], 0%Z).
Proof.
  unfold client_main. destruct (client_options args) as [ip port].
  destruct (run_calcs_served serving _ w (client_calls lits) Hserver Hreach) as (ch & w1 & Hs & ->);
    [done|].
  destruct (echo_served ch w1 (lit "hello rpc") Hs) as (ran & ch' & c & w2 & -> & Hf & _).
  unfold echo_line. by rewrite Hf.
Qed.

End CalculatorClient.

(** ** benchmark *)

Section Benchmark.
Context (host : endian) (inet_pton : bytes -> option Z).
Context {Ch W : Type} `{NodeChannel Ch W} (now : W -> Z * W).
Context (serialize_msg : bytes -> bytes) (parse_msg : bytes -> bool * bytes).

(** [clients] and [callsPerClient] of the command line. *)
Definition bench_options (args : list bytes) : Z * Z := (arg args 2 atoi 10%Z, arg args 3 atoi 1000%Z).

(** The lambda [worker], from its channel on: its latencies and failures. *)
Fixpoint bench_worker (n : nat) (ch : Ch) (w : W) (s : list Z * nat) : option (list Z * nat) :=
  match n with
  | O => Some s
  | S n =>
      let '(t0, w) := now w in
      match channel_call parse_msg ch (lit "minirpc.example.EchoService.Echo")
              (serialize_msg (lit "benchmark")) None (Mini RpcController_new) [] w with
      | Some (_, ch, Mini c, _, w) =>
          let '(t1, w) := now w in bench_worker n ch w (bench_turn s (t0, t1, Failed c))
      | _ => None
      end
  end.

(** The threads, each with the world as it sees it; [failed] is the same whatever the order in
    which they add to it. *)
Definition bench_threads (channel : Ch) (calls : nat) (ws : list W) : option (list (list Z) * nat) :=
  foldr (fun w acc =>
    match bench_worker calls channel w ([], 0), acc with
    | Some (l, k), Some (latencies, failed) => Some (l :: latencies, k + failed)
    | _, _ => None
    end) (Some ([], 0)) ws.

(** [main]: the sorted latencies its report is computed from, the failures, and the exit code. A
    negative number of clients makes the vector's constructor throw, a negative number of calls
    the workers' [reserve]. *)
Definition bench_main (args : list bytes) (ws : list W) : option (list Z * nat * Z) :=
  let '(ip, port) := client_options args in
  let '(clients, callsPerClient) := bench_options args in
  if (clients <? 0)%Z || ((0 <? clients)%Z && (callsPerClient <? 0)%Z) then None
  else match bench_threads (make_channel (InetAddress_of_ip host inet_pton ip port) 5000 0)
               (Z.to_nat callsPerClient) (take (Z.to_nat clients) ws) with
       | None => None
       | Some (latencies, failed) =>
           Some (all_latencies latencies, failed, if failed =? 0 then 0%Z else 1%Z)
       end.

(** A channel whose calls of the echo service succeed. *)
Class EchoBehind (serving : Ch -> Prop) : Prop :=
  bench_served ch w : serving ch -> exists ran ch' c rsp w',
    channel_call parse_msg ch (lit "minirpc.example.EchoService.Echo")
      (serialize_msg (lit "benchmark")) None (Mini RpcController_new) [] w
    = Some (ran, ch', Mini c, rsp, w') /\ Failed c = false /\ serving ch'.

Lemma bench_worker_served serving n ch w l k :
  EchoBehind serving -> serving ch ->
  exists l', bench_worker n ch w (l, k) = Some (l ++ l', k) /\ length l' = n.
Proof.
  intros Hb. revert ch w l. induction n as [|n IH]; intros ch w l Hs; cbn [bench_worker].
  { exists []. by rewrite app_nil_r. }
  destruct (now w) as [t0 w0]. destruct (bench_served ch w0 Hs) as (ran & ch' & c & rsp & w' & -> & -> & Hs').
  destruct (now w') as [t1 w1]. cbn [bench_turn fst snd].
  destruct (IH ch' w1 (l ++ [Z.quot (t1 - t0) 1000]) Hs') as (l' & -> & Hl).
  exists (Z.quot (t1 - t0) 1000 :: l'). split; [by rewrite <- app_assoc|]. cbn. by rewrite Hl.
Qed.

Lemma bench_threads_served serving n ch ws :
  EchoBehind serving -> serving ch ->
  exists ls, bench_threads ch n ws = Some (ls, 0) /\ length (concat ls) = length ws * n.
Proof.
  intros Hb Hs. induction ws as [|w ws (ls & Hls & Hlen)]; [by exists []|].
  cbn [bench_threads foldr]. fold (bench_threads ch n ws). rewrite Hls.
  destruct (bench_worker_served serving n ch w [] 0 Hb Hs) as (l & -> & Hl).
  exists (l :: ls). split; [done|]. cbn [concat length]. rewrite length_app, Hl, Hlen. done.
Qed.

(** The benchmark of a serving echo: it measures every call of every client once, reports no
    failure and returns 0. *)
Theorem bench_measures (serving : Ch -> Prop) (args : list bytes) (ws : list W)
  (Hserver : EchoBehind serving)
  (Hreach : let '(ip, port) := client_options args in
            serving (make_channel (InetAddress_of_ip host inet_pton ip port) 5000 0))
  (Hclients : (bench_options args).1 = Z.of_nat (length ws)) (Hcalls : (0 <= (bench_options args).2)%Z) :
  exists all, bench_main args ws = Some (all, 0, 0%Z) /\
    Z.of_nat (length all) = ((bench_options args).1 * (bench_options args).2)%Z.
Proof.
  unfold bench_main. destruct (client_options args) as [ip port].
  destruct (bench_options args) as [clients calls]. cbn [fst snd] in *. subst clients.
  destruct (Z.ltb_spec (Z.of_nat (length ws)) 0); [lia|]. destruct (Z.ltb_spec calls 0); [lia|].
  rewrite andb_false_r. cbn [orb]. rewrite Nat2Z.id, firstn_all.
  destruct (bench_threads_served serving (Z.to_nat calls) _ ws Hserver Hreach) as (ls & -> & Hlen).
  eexists. split; [reflexivity|]. unfold all_latencies.
  rewrite (Permutation_length (proj2 (sort_longs_spec _))), Hlen. lia.
Qed.

End Benchmark.

(** ** lb_client *)

Section LbClient.
Context (host : endian) (inet_pton : bytes -> option Z) (std_hash : bytes -> Z).
Context {Ch W : Type} `{NodeChannel Ch W} (now : W -> Z * W).
Context (serializeDiscover : bytes -> bytes) (parseDiscover : bytes -> bool * DiscoverResponse).
(** The calculator's messages: the request for [i + (i + 1)], the response and its [server_id]. *)
Context {Msg : Type} (ParseFromString : bytes -> bool * Msg) (new_response : Msg)
  (server_id : Msg -> bytes) (add_request : Z -> bytes).

Abbreviation LoadBalanceChannel := (LB.LoadBalanceChannel (Ch := Ch)).
Abbreviation CallMethod :=
  (LB.CallMethod host inet_pton std_hash now serializeDiscover parseDiscover ParseFromString).
Abbreviation node_address n := (LB.key_address host inet_pton (LB.nodeKeyOf n)).

(** The registry's port, the number of calls and the policy. *)
Definition lb_options (args : list bytes) : Z * Z * LB.BalanceType :=
  (arg args 0 port_arg 18800%Z, arg args 1 atoi 20%Z,
   if bool_decide (arg args 2 id (lit "rr") = lit "ch") then LB.kConsistentHash else LB.kRoundRobin).

(** The [for] loop from [i], [n] calls left; [None]: a call does not return. *)
Fixpoint lb_loop (n : nat) (i : Z) (s : gmap bytes nat * nat) (l : LoadBalanceChannel) (w : W) :
    option (gmap bytes nat * nat * LoadBalanceChannel * W) :=
  match n with
  | O => Some (s, l, w)
  | S n =>
      match CallMethod (lit "minirpc.example.CalculatorService.Calc") (add_request i) None
              (Mini RpcController_new) new_response l w with
      | None => None
      | Some o =>
          let r := if controllerFailed (LB.oc_ctrl o) then None else Some (server_id (LB.oc_resp o)) in
          lb_loop n (i + 1) (lb_turn s r) (LB.lb o) (LB.oc_world o)
      end
  end.

(** [main]: the number of nodes, the counts and failures it prints, and its exit code. *)
Definition lb_main (args : list bytes) (w : W) : option (nat * (gmap bytes nat * nat) * Z) :=
  let '(registryPort, calls, type) := lb_options args in
  let l := LB.LoadBalanceChannel_new (InetAddress_of_ip host inet_pton (lit "127.0.0.1") registryPort)
             (lit "minirpc.example.CalculatorService") type 1000 2000 1 in
  match lb_loop (Z.to_nat calls) 0 (∅, 0) l w with
  | None => None
  | Some (s, l, w) => Some (LB.nodeCount l, s, if s.2 =? 0 then 0%Z else 1%Z)
  end.

(** What a call at the address [x] leaves: a world in order, a channel that still leads there,
    and the channels to other addresses as they were. *)
Definition kept (ok : W -> Prop) (reaches : sockaddr_in -> Ch -> W -> Prop) (x : sockaddr_in) (ch' : Ch)
    (w w' : W) : Prop :=
  ok w' /\ reaches x ch' w' /\ forall y ch, y <> x -> reaches y ch w -> reaches y ch w'.

(** A healthy cluster: in a world in order the registry at [a] lists the nodes [ns] whenever it is
    asked, and every node, at an address of its own, answers under its own name. [reaches a ch w]:
    the channel [ch] leads to the address [a]. *)
Class Healthy (a : sockaddr_in) (ns : list NodeInfo) (ok : W -> Prop)
    (reaches : sockaddr_in -> Ch -> W -> Prop) : Prop := {
  node_apart n : n ∈ ns -> node_address n <> a;
  node_own n n' : n ∈ ns -> n' ∈ ns -> node_address n = node_address n' -> LB.nodeKeyOf n = LB.nodeKeyOf n';
  registry_new w : ok w -> reaches a (make_channel a 1500 1) w;
  node_new n w : n ∈ ns -> ok w -> reaches (node_address n) (make_channel (node_address n) 2000 1) w;
  clock_kept w : ok w -> ok (now w).2 /\ forall x ch, reaches x ch w -> reaches x ch (now w).2;
  registry_answers ch w :
    ok w -> reaches a ch w -> exists ran ch' c rsp w',
      channel_call parseDiscover ch (lit "minirpc.registry.RegistryService.Discover")
        (serializeDiscover (lit "minirpc.example.CalculatorService")) None (Mini RpcController_new)
        (mkDiscover 0 [] []) w = Some (ran, ch', c, rsp, w') /\
      controllerFailed c = false /\ nodes rsp = ns /\ kept ok reaches a ch' w w';
  node_answers n ch i w :
    n ∈ ns -> ok w -> reaches (node_address n) ch w -> exists ran ch' c rsp w',
      channel_call ParseFromString ch (lit "minirpc.example.CalculatorService.Calc") (add_request i)
        None (Mini RpcController_new) new_response w = Some (ran, ch', c, rsp, w') /\
      controllerFailed c = false /\ server_id rsp = node_name n /\
      kept ok reaches (node_address n) ch' w w';
}.

Section Balanced.
Context (a : sockaddr_in) (ns : list NodeInfo) (ok : W -> Prop) (reaches : sockaddr_in -> Ch -> W -> Prop).
Context `{Hh : !Healthy a ns ok reaches}.
Context (Hne : ns <> []).

(** The balanced channel of the program, and the world, after [i] calls. *)
Record balanced (i : nat) (l : LoadBalanceChannel) (w : W) : Prop := {
  bl_world : ok w;
  bl_service : LB.serviceName_ l = lit "minirpc.example.CalculatorService";
  bl_type : LB.balanceType_ l = LB.kRoundRobin;
  bl_timeout : LB.callTimeoutMs_ l = 2000%Z;
  bl_retries : LB.callRetries_ l = 1%Z;
  bl_nodes : LB.nodes_ l = [] \/
             LB.nodes_ l = ns /\ nodeCount_ (LB.roundRobin_ l) = length ns;
  bl_index : index_ (LB.roundRobin_ l) = Z.of_nat i;
  bl_registry : reaches a (LB.registryChannel_ l) w;
  bl_channels n ch : n ∈ ns -> LB.channels_ l !! LB.nodeKeyOf n = Some ch -> reaches (node_address n) ch w;
}.

(** A look at the clock. *)
Lemma clock_balanced i l w : balanced i l w -> balanced i l (now w).2.
Proof.
  intros [Ho Hs Ht Hto Hre Hn Hi Hr Hc]. destruct (clock_kept w Ho) as [Ho' Hk].
  split; try done; [by apply Hk|]. intros n ch Hin Hl. by apply Hk, Hc.
Qed.

(** A refreshed list. *)
Lemma refreshes i l w :
  balanced i l w -> exists okay l' w',
    LB.refreshNodes std_hash now serializeDiscover parseDiscover l w = Some (okay, l', w') /\
    balanced i l' w' /\ LB.nodes_ l' = ns.
Proof.
  intros [Ho Hs Ht Hto Hre Hn Hi Hr Hc]. unfold LB.refreshNodes. rewrite Hs.
  destruct (registry_answers (LB.registryChannel_ l) w Ho Hr)
    as (ran & ch & c & rsp & w2 & -> & -> & Hns & Ho' & Hr' & Hk).
  pose proof (clock_balanced i (LB.set_nodes (LB.set_registryChannel l ch) (nodes rsp)
    (setNodeCount (LB.roundRobin_ l) (length (nodes rsp)))
    (setNodes std_hash (LB.consistentHash_ l) (map LB.nodeKeyOf (nodes rsp))) (now w2).1) w2) as Hb.
  destruct (now w2) as [t w3]. eexists _, _, _. split; [reflexivity|]. split; [|exact Hns].
  apply Hb. split; try done.
  - right. cbn. by rewrite Hns.
  - cbn. intros n ch2 Hin Hl. apply Hk; [by apply node_apart|by apply Hc].
Qed.

(** After the test of [needRefresh], the node list is there. *)
Lemma refreshed i l w :
  balanced i l w ->
  let '(stale, w) := LB.needRefresh now l w in
  exists okay l' w', (if stale then LB.refreshNodes std_hash now serializeDiscover parseDiscover l w
                      else Some (true, l, w)) = Some (okay, l', w') /\
    balanced i l' w' /\ LB.nodes_ l' = ns.
Proof.
  intros Hb. unfold LB.needRefresh. destruct (LB.nodes_ l) as [|n0 l0] eqn:Hl; [by apply refreshes|].
  pose proof (clock_balanced i l w Hb) as Hb1. destruct (now w) as [t w1]. cbn [snd] in Hb1.
  destruct (_ <=? _)%Z; [by apply refreshes|].
  exists true, l, w1. split; [done|]. split; [done|]. destruct (bl_nodes i l w Hb) as [Hx|[Hx _]]; congruence.
Qed.

(** A call at a node, or a new channel to it. *)
Lemma called_balanced i l w n ch' w' :
  balanced i l w -> n ∈ ns -> kept ok reaches (node_address n) ch' w w' ->
  balanced i (LB.set_channel l (LB.nodeKeyOf n) ch') w'.
Proof.
  intros [Ho Hs Ht Hto Hre Hn Hi Hr Hc] Hin (Ho' & Hch & Hk). split; try done; cbn.
  - apply Hk; [|done]. by apply not_eq_sym, node_apart.
  - intros n' ch Hn' Hl. rewrite lookup_insert in Hl. case_decide as Hkey.
    + simplify_eq. by rewrite <- Hkey.
    + apply Hk; [|by apply Hc]. intros Ha. by apply Hkey, eq_sym, node_own.
Qed.

(** The node whose turn it is. *)
Lemma next_turn i l w :
  balanced i l w -> LB.nodes_ l = ns -> (Z.of_nat i < 2 ^ 64 - 1)%Z ->
  exists n l', LB.nextKey l = (LB.nodeKeyOf n, l') /\ ns !! (i mod length ns) = Some n /\
    balanced (S i) l' w /\ LB.nodes_ l' = ns.
Proof.
  intros [Ho Hs Ht Hto Hre Hn Hi Hr Hc] Hl Hw. destruct Hn as [Hx|[_ Hcnt]]; [congruence|].
  assert (Hlen : length ns <> 0) by (by destruct ns).
  destruct (lookup_lt_is_Some_2 ns (i mod length ns)) as [n Hturn]; [by apply Nat.mod_upper_bound|].
  unfold LB.nextKey, LoadBalancer.next. rewrite Hcnt, Hi, Hl. destruct (Nat.eqb_spec (length ns) 0); [done|].
  rewrite <- Nat2Z.inj_mod, Nat2Z.id, Nat.Div0.mod_mod.
  eexists n, _. split; [by rewrite (nth_lookup_Some _ _ _ _ Hturn)|]. split; [done|].
  split; [|exact Hl]. split; try done; cbn; [right; by rewrite Hl|].
  rewrite (wrap_small 64) by (unfold fits; lia). lia.
Qed.

(** The channel to a node leads to its address. *)
Lemma channelFor_reaches i l w n :
  balanced i l w -> n ∈ ns ->
  reaches (node_address n) (LB.channelFor host inet_pton l (LB.nodeKeyOf n)).1 w /\
  balanced i (LB.channelFor host inet_pton l (LB.nodeKeyOf n)).2 w /\
  LB.nodes_ (LB.channelFor host inet_pton l (LB.nodeKeyOf n)).2 = LB.nodes_ l.
Proof.
  intros Hb Hn. unfold LB.channelFor. destruct (LB.channels_ l !! LB.nodeKeyOf n) as [ch|] eqn:Hch.
  - split; [by apply (bl_channels i l w Hb)|done].
  - rewrite (bl_timeout i l w Hb), (bl_retries i l w Hb).
    pose proof (node_new n w Hn (bl_world i l w Hb)) as Hnew. split; [done|]. split; [|done].
    apply (called_balanced i l w n); [done|done|]. split; [apply (bl_world i l w Hb)|by split].
Qed.

(** The [i]-th call goes to the node whose turn it is. *)
Lemma balanced_turn i l w :
  balanced i l w -> (Z.of_nat i < 2 ^ 64 - 1)%Z ->
  exists o n, ns !! (i mod length ns) = Some n /\
    CallMethod (lit "minirpc.example.CalculatorService.Calc") (add_request (Z.of_nat i)) None
      (Mini RpcController_new) new_response l w = Some o /\
    controllerFailed (LB.oc_ctrl o) = false /\ server_id (LB.oc_resp o) = node_name n /\
    balanced (S i) (LB.lb o) (LB.oc_world o) /\ LB.nodes_ (LB.lb o) = ns.
Proof.
  intros Hb Hw. unfold LB.CallMethod. pose proof (refreshed i l w Hb) as Href.
  destruct (LB.needRefresh now l w) as [stale w1].
  destruct Href as (okay & l1 & w2 & -> & Hb1 & Hn1). destruct (LB.nodes_ l1) eqn:Hl1; [congruence|].
  rewrite (bl_type i l1 w2 Hb1), <- Hl1 in *. cbn [LB.attempts LB.lb Nat.eqb LB.called LB.ran LB.oc_ctrl].
  unfold LB.selectNodeKey. rewrite (bl_type i l1 w2 Hb1).
  destruct (next_turn i l1 w2 Hb1) as (nd & l2 & Hk & Hturn & Hb2 & Hn2); [congruence|done|].
  replace (match LB.nodes_ l1 with [] => ([], l1) | _ => LB.nextKey l1 end) with (LB.nextKey l1)
    by (by rewrite Hl1).
  rewrite Hk. assert (Hin : nd ∈ ns) by (by eapply list_elem_of_lookup_2).
  destruct (channelFor_reaches (S i) l2 w2 nd Hb2 Hin) as (Hch & Hb3 & Hn3).
  destruct (LB.channelFor _ _ l2 _) as [ch l3]. cbn [fst snd] in Hch, Hb3, Hn3.
  destruct (node_answers nd ch (Z.of_nat i) w2 Hin (bl_world _ _ _ Hb3) Hch)
    as (rn & ch' & c & rsp & w3 & Hc & Hf & Hid & Hkept).
  cbn [LB.oc_resp LB.oc_world resetController].
  change (Mini (Reset RpcController_new)) with (Mini RpcController_new). rewrite Hc, Hf.
  eexists _, nd. split; [done|]. split; [reflexivity|]. cbn [LB.oc_ctrl LB.oc_resp LB.lb LB.oc_world].
  split; [done|]. split; [done|]. split; [by eapply called_balanced|]. cbn. congruence.
Qed.

(** The calls, one by one, and what they report. *)
Definition turn_name (j : nat) : option bytes := node_name <$> ns !! (j mod length ns).

Lemma turn_name_at j n : ns !! (j mod length ns) = Some n -> turn_name j = Some (node_name n).
Proof. unfold turn_name. by intros ->. Qed.

Lemma turn_exists j : exists n, ns !! (j mod length ns) = Some n.
Proof. apply lookup_lt_is_Some_2, Nat.mod_upper_bound. by rewrite length_zero_iff_nil. Qed.

Lemma lb_loop_turns n i s l w :
  balanced i l w -> (Z.of_nat (i + n) < 2 ^ 64)%Z ->
  exists l' w', lb_loop n (Z.of_nat i) s l w
    = Some (fold_left lb_turn (map turn_name (List.seq i n)) s, l', w') /\
    (LB.nodes_ l = ns \/ 0 < n -> LB.nodes_ l' = ns).
Proof.
  revert i s l w. induction n as [|n IH]; intros i s l w Hb Hw; [exists l, w; split; [done|]; intros [?|?]; [done|lia]|].
  cbn [lb_loop List.seq map fold_left].
  destruct (balanced_turn i l w Hb) as (o & nd & Hturn & -> & -> & -> & Hb' & Hn'); [lia|].
  rewrite (turn_name_at i nd Hturn).
  replace (Z.of_nat i + 1)%Z with (Z.of_nat (S i)) by lia.
  destruct (IH (S i) (lb_turn s (Some (node_name nd))) (LB.lb o) (LB.oc_world o) Hb')
    as (l' & w' & -> & Hl'); [lia|].
  exists l', w'. split; [done|]. intros _. apply Hl'. by left.
Qed.

(** Each name comes up as often as its node's turn. *)
Lemma turn_name_picks x n (js : list nat) :
  NoDup (map node_name ns) -> ns !! x = Some n ->
  length (filter (fun r => r = Some (node_name n)) (map turn_name js))
  = picks x (map (fun j => j mod length ns) js).
Proof.
  intros Hnames Hx. induction js as [|j js IH]; [done|]. cbn [map]. rewrite picks_cons, filter_cons, <- IH.
  destruct (turn_exists j) as [n' Hn']. rewrite (turn_name_at j n' Hn').
  destruct (decide (x = j mod length ns)) as [Heq|Hneq].
  - rewrite decide_True by congruence. done.
  - rewrite decide_False; [done|]. intros [= Hname]. apply Hneq.
    apply (NoDup_lookup (map node_name ns) _ _ (node_name n) Hnames).
    + by rewrite list_lookup_fmap, Hx.
    + by rewrite list_lookup_fmap, Hn', <- Hname.
Qed.

Lemma turn_name_none js : filter (fun r => r = None) (map turn_name js) = [].
Proof.
  induction js as [|j js IH]; [done|]. cbn [map]. rewrite filter_cons.
  destruct (turn_exists j) as [n' Hn']. rewrite (turn_name_at j n' Hn'). by rewrite decide_False.
Qed.

Lemma new_balanced ri w :
  ok w ->
  balanced 0 (LB.LoadBalanceChannel_new a (lit "minirpc.example.CalculatorService") LB.kRoundRobin ri 2000 1) w.
Proof. intros Ho. split; try done; [by left|by apply registry_new]. Qed.
End Balanced.

(** Round robin spreads the calls evenly: in a healthy cluster of nodes with distinct
    names, [lb_client] with a number of calls that is a multiple of the number of nodes calls
    each node equally often, whatever refreshes of the node list fall between the calls, reports
    no failure and returns 0. *)
Theorem lb_client_even (args : list bytes) (w : W) (ns : list NodeInfo)
  (ok : W -> Prop) (reaches : sockaddr_in -> Ch -> W -> Prop) (rounds : nat)
  (Hrr : (lb_options args).2 = LB.kRoundRobin)
  (Hcalls : (lb_options args).1.2 = Z.of_nat (rounds * length ns)) (Hrounds : 0 < rounds)
  (Hsmall : (Z.of_nat (rounds * length ns) < 2 ^ 31)%Z)
  (Hhealthy : Healthy (InetAddress_of_ip host inet_pton (lit "127.0.0.1") (lb_options args).1.1) ns ok
                reaches)
  (Hok : ok w)
  (Hne : ns <> []) (Hnames : NoDup (map node_name ns)) :
  exists counts, lb_main args w = Some (length ns, (counts, 0), 0%Z) /\
    forall n, n ∈ ns -> counts !! node_name n = Some rounds.
Proof.
  unfold lb_main. destruct (lb_options args) as [[port calls] type]. cbn [fst snd] in *. subst type calls.
  rewrite Nat2Z.id.
  destruct (lb_loop_turns _ ns ok reaches Hne (rounds * length ns) 0 (∅, 0) _ w
              (new_balanced _ ns ok reaches 1000 w Hok)) as (l' & w' & Hloop & Hn); [lia|].
  change (Z.of_nat 0) with 0%Z in Hloop. rewrite Hloop.
  change (fold_left lb_turn ?l (∅, 0)) with (lb_counts l).
  set (rs := map (turn_name ns) _).
  assert (Hf : (lb_counts rs).2 = 0).
  { rewrite (proj2 (lb_report rs [])). unfold rs. by rewrite turn_name_none. }
  exists (lb_counts rs).1. split.
  - rewrite Hf. unfold LB.nodeCount. rewrite Hn by (right; destruct ns; [done|]; destruct rounds; [lia|]; cbn; lia).
    by destruct (lb_counts rs) as [c f]; cbn in *; subst f.
  - intros n Hin. apply list_elem_of_lookup_1 in Hin as [x Hx].
    pose proof (proj1 (lb_report rs (node_name n))) as Hr. unfold rs in Hr.
    rewrite (turn_name_picks ns Hne x n _ Hnames Hx), picks_blocks in Hr
      by (by apply lookup_lt_Some in Hx).
    fold rs in Hr. destruct ((lb_counts rs).1 !! node_name n); cbn in Hr; [by subst|lia].
Qed.
End LbClient.

(** ** Witnesses *)

Module ClientSamples.
Import LBSamples RegistrySamples.

(** A channel with a calculator server behind it. *)
#[export] Instance answering : NodeChannel unit unit := {
  make_channel _ _ _ := tt;
  channel_call Msg parse ch name req d c m w :=
    let reply b := Some (option_list d, ch, resetController c, (parse b).2, w) in
    if decide (name = lit "minirpc.example.EchoService.Echo") then reply req
    else match get (A := Z * Z * bytes) req with
         | None => None
         | Some (a, b, op) =>
             match calc_spec (mkCalcRequest a b op) with
             | inl x => reply (put x)
             | inr msg =>
                 Some (option_list d, ch, failController (resetController c) kInvalidArgument msg, m, w)
             end
         end;
}.

Definition put_calc (q : CalcRequest (D := Z)) : bytes := put (cq_a q, cq_b q, cq_op q).
Definition get_result (b : bytes) : bool * CalcResponse (D := Z) :=
  (true, mkCalcResponse (default 0%Z (get b)) [] []).

#[export] Instance answering_calculator :
  CalculatorBehind Z.of_nat put_calc get_result (fun b => b) raw (fun _ : unit => True).
Proof.
  split.
  - intros ch w a b op _ _. cbn [channel_call answering]. unfold put_calc. rewrite decide_False by done.
    cbn [cq_a cq_b cq_op]. rewrite get_put.
    destruct (calc_spec (mkCalcRequest a b op)) as [x|msg].
    + eexists _, _, _, _, _. split; [reflexivity|]. split; [|done]. split; [done|].
      cbn. by rewrite get_put.
    + eexists _, _, _, _, _. split; [reflexivity|]. done.
  - intros ch w message _. eexists _, _, _, _. split; [reflexivity|]. done.
Qed.

#[export] Instance answering_echo : EchoBehind (fun b => b) raw (fun _ : unit => True).
Proof. intros ch w _. by eexists _, _, _, _, _. Qed.

Lemma bench_measures_witness :
  exists all, bench_main LittleEndian no_pton (fun w : unit => (0%Z, w)) (fun b => b) raw
                [lit "127.0.0.1"; lit "8888"; lit "2"; lit "3"] [tt; tt] = Some (all, 0, 0%Z) /\
    Z.of_nat (length all) = 6%Z.
Proof.
  apply (bench_measures LittleEndian no_pton (fun w : unit => (0%Z, w)) (fun b => b) raw (fun _ => True)
           [lit "127.0.0.1"; lit "8888"; lit "2"; lit "3"] [tt; tt] answering_echo I eq_refl).
  vm_compute. discriminate.
Defined.

Lemma client_prints_witness :
  client_main LittleEndian no_pton (to_string) Z.of_nat put_calc get_result (fun b => b) raw [] tt
  = Some ([lit "1 + 2 = 3"; lit "7 * 6 = 42"; lit "10 - 4 = 6"; lit "9 / 3 = 3";
           lit "1 / 0 -> ERROR(INVALID_ARGUMENT): division by zero";
           lit "1 % 2 -> ERROR(INVALID_ARGUMENT): unknown operator: %";
           lit "echo -> hello rpc"], 0%Z).
Proof.
  exact (client_prints LittleEndian no_pton to_string Z.of_nat put_calc get_result (fun b => b) raw
           (fun _ => True) [] tt answering_calculator I).
Defined.

(** A cluster of two nodes: a channel is the address it leads to. *)
#[export] Instance cluster : NodeChannel sockaddr_in unit := {
  make_channel a _ _ := a;
  channel_call Msg parse ch name req d c m w :=
    let payload := if decide (name = lit "minirpc.registry.RegistryService.Discover")
                   then lit "both" else to_string (s_addr ch) in
    Some (option_list d, ch, resetController c, (parse payload).2, w);
}.

Definition cluster_pton (b : bytes) : option Z :=
  if decide (b = lit "10.0.0.1") then Some 1%Z
  else if decide (b = lit "10.0.0.2") then Some 2%Z else Some 7%Z.
Definition cluster_id (b : bytes) : bytes := if decide (b = lit "1") then lit "one" else lit "two".

Lemma cluster_healthy a :
  s_addr a = 7%Z ->
  Healthy LittleEndian cluster_pton (fun w => (0%Z, w)) (fun b => b) parse_nodes raw [] cluster_id to_string a
    [n1; n2] (fun _ => True) (fun x ch _ => ch = x).
Proof.
  intros Ha. split; try done.
  - intros n Hn <-. rewrite !elem_of_cons, elem_of_nil in Hn.
    destruct Hn as [->|[->|[]]]; vm_compute in Ha; discriminate.
  - intros n n' Hn Hn'. rewrite !elem_of_cons, elem_of_nil in Hn, Hn'.
    destruct Hn as [->|[->|[]]], Hn' as [->|[->|[]]]; try done; vm_compute; discriminate.
  - intros ch w _ ->. eexists _, _, _, _, _. split; [reflexivity|]. done.
  - intros n ch i w Hin _ ->. eexists _, _, _, _, _. split; [reflexivity|]. split; [done|]. split; [|done].
    repeat (apply elem_of_cons in Hin as [->|Hin]; [vm_compute; reflexivity|]).
    by apply elem_of_nil in Hin.
Qed.

Lemma lb_client_even_witness :
  exists counts, lb_main LittleEndian cluster_pton (fun _ => 0%Z) (fun w => (0%Z, w)) (fun b => b) parse_nodes
      raw [] cluster_id to_string [lit "18800"; lit "6"] tt = Some (2, (counts, 0), 0%Z) /\
    counts !! lit "one" = Some 3 /\ counts !! lit "two" = Some 3.
Proof.
  destruct (lb_client_even LittleEndian cluster_pton (fun _ => 0%Z) (fun w => (0%Z, w)) (fun b => b) parse_nodes
              raw [] cluster_id to_string [lit "18800"; lit "6"] tt [n1; n2] (fun _ => True)
              (fun x ch _ => ch = x) 3)
    as (counts & Hmain & Hall).
  - reflexivity.
  - reflexivity.
  - lia.
  - reflexivity.
  - apply cluster_healthy. reflexivity.
  - exact I.
  - discriminate.
  - apply (bool_decide_unpack _). reflexivity.
  - exists counts. split; [exact Hmain|].
    split; [apply (Hall n1); by left|apply (Hall n2); right; by left].
Defined.

End ClientSamples.
