(* ===== verification/Cluster.v ===== *)
(** A cluster: a registry server and the servers of a service, each on a machine of [Loopback], and
    the balanced channel (src/rpc/LoadBalanceChannel.cpp) that finds and calls them; with
    examples/rpc/rpc_node.cpp as the nodes, examples/rpc/lb_client.cpp as the client. *)
From stdpp Require Import base list gmap strings numbers.
From Stdlib Require Import Ascii ZArith Lia.
From S2P Require Import Prelude Bytes Common Buffer Codec Controller Service RpcServer Inet.
From S2P Require Import RpcChannel System LoadBalancer Registry LoadBalanceChannel ServiceNode ThreadPool TcpServer.
From S2P Require Import TcpConnection Pipeline Serial Progress Feed Loopback RegistryServer NodeRpc.
From S2P Require Import Programs Tools Clients.

(** ** The machines *)

Section Cluster.
Context (client host : endian) `{Henv : EnvelopeLaws} `{Hmsg : RegistryMessageLaws}.

(** The registry server, at [registry_at]. *)
Context (clock : nat -> Z) (iterate : ServiceMap -> list (bytes * NodeEntry)).
Hypothesis iterate_perm : forall m, iterate m ≡ₚ map_to_list m.
Context (rloop : loop_id) (rn : nat) (rst0 : RegState) (registry_at : sockaddr_in).
Abbreviation reg_services := [registry_service clock iterate].

(** The servers of the nodes, each with its services, at their addresses. *)
Context {SMsg St : Type} (loop : loop_id) (name : sockaddr_in -> bytes) (ioThreads n : nat).
Context (services : sockaddr_in -> list (Service SMsg St)) (st0 : St).

Context (cut : nat -> nat) (tick : nat -> N) (error_text : Z -> bytes).
Context `{Hrs : !Schedule host rloop (lit "registry") 0 rn reg_services rst0}.
Context `{Hns : forall a, Schedule host loop (name a) ioThreads n (services a) st0}.
Context (pace : Z) (paced : forall t, (Z.of_N (tick t) <= pace)%Z) (fuel : nat).

Abbreviation reg_kernel :=
  (Net_kernel host rloop (lit "registry") 0 rn reg_services rst0 registry_at cut tick error_text).
Abbreviation node_kernel a :=
  (Net_kernel host loop (name a) ioThreads n (services a) st0 a cut tick error_text).
Abbreviation reg_good := (good_channel host rloop (lit "registry") 0 rn reg_services rst0 registry_at).
Abbreviation node_good a := (good_channel host loop (name a) ioThreads n (services a) st0 a).
Abbreviation reg_net_ok := (net_ok host rloop (lit "registry") 0 rn reg_services rst0).
Abbreviation node_net_ok a := (net_ok host loop (name a) ioThreads n (services a) st0).
Abbreviation services_at a := (registry_ (configured loop (name a) ioThreads n (services a))).
Abbreviation envelope m req := (serializeRequest (mkRpcRequest m req)).

(** The registry's machine, and that of each address where a server runs. *)
Record Cluster := mkCluster {
  at_registry : Net (St := RegState);
  at_node : sockaddr_in -> option (Net (St := St));
}.
Definition set_registry (w : Cluster) (v : Net) : Cluster := mkCluster v (at_node w).
Definition set_node (w : Cluster) (a : sockaddr_in) (v : Net) : Cluster :=
  mkCluster (at_registry w) (fun b => if decide (b = a) then Some v else at_node w b).

(** [RpcChannel]s to all of them. A call to an address where no server runs is refused, as one of
    the registry's machine to another address is. *)
#[export] Instance cluster_channel : NodeChannel RpcChannel Cluster := {
  make_channel := RpcChannel_new;
  channel_call Msg parse ch mname req d c m w :=
    let a := serverAddr_ ch in
    match (if decide (a = registry_at) then None else at_node w a) with
    | Some v =>
        match RpcChannel.CallMethod (H0 := node_kernel a) client parse fuel mname req d (mkCall ch c m v) with
        | Some (ran, s) => Some (ran, chan s, ctrl s, resp s, set_node w a (world s))
        | None => None
        end
    | None =>
        match RpcChannel.CallMethod (H0 := reg_kernel) client parse fuel mname req d
                (mkCall ch c m (at_registry w)) with
        | Some (ran, s) => Some (ran, chan s, ctrl s, resp s, set_registry w (world s))
        | None => None
        end
    end;
}.

(** [ch] leads to the server at [a], with the settings of a channel of the balanced channel. *)
Definition leads (ms retries : Z) (a : sockaddr_in) (ch : RpcChannel) (w : Cluster) : Prop :=
  if decide (a = registry_at) then reg_good 1500 1 ch (at_registry w)
  else exists v, at_node w a = Some v /\ node_good a ms retries ch v.

Lemma good_address a ms retries ch v : node_good a ms retries ch v -> serverAddr_ ch = a.
Proof. by intros ((_ & _ & _ & _ & Ha & _) & _). Qed.

(** What is elsewhere stays. *)
Lemma leads_set_node ms retries a b ch w v :
  b <> a -> leads ms retries b ch w -> leads ms retries b ch (set_node w a v).
Proof. intros Hne. unfold leads. cbn. destruct (decide (b = registry_at)); [done|]. by rewrite decide_False. Qed.

Lemma leads_set_registry ms retries b ch w v :
  b <> registry_at -> leads ms retries b ch w -> leads ms retries b ch (set_registry w v).
Proof. intros Hne. unfold leads. cbn. by destruct (decide (b = registry_at)). Qed.

(** A request that fits, and whose replies do. *)
Definition fits_in (ms : Z) (mname req : bytes) (reply : RpcResponse -> Prop) : Prop :=
  (Z.of_nat (length (envelope mname req)) <= kMaxBodySize)%Z /\
  kHeaderSize + length (envelope mname req) < fuel /\ forall r, reply r -> timely pace fuel ms r.

(** A call of a node: its services have done the operation once, and the caller has the reply. *)
Lemma node_call {Msg} (parse : bytes -> bool * Msg) ms retries a ch mname req d c m w v :
  never_throws host (services_at a) -> a <> registry_at -> (0 <= retries)%Z ->
  at_node w a = Some v -> node_good a ms retries ch v ->
  fits_in ms mname req (fun r => exists st', reply_for (services_at a) (service (srv v)) (envelope mname req) st' r) ->
  exists ch' c' m' v' r,
    channel_call parse ch mname req d c m w = Some (option_list d, ch', c', m', set_node w a v') /\
    reply_for (services_at a) (service (srv v)) (envelope mname req) (service (srv v')) r /\
    (c', m') = reply_outcome parse (resetController c) m r /\ node_good a ms retries ch' v'.
Proof.
  intros Hnt Hne Hret Hv Hgood (Hsize & Hfuel & Htime).
  destruct (good_call client host loop (name a) ioThreads n (services a) st0 a cut tick error_text parse pace
              paced fuel mname req d ms retries ch c m v) as (s' & r & Hcall & Hr & Hout & Hg & _); try done.
  { intros st' r Hr. apply Htime. by exists st'. }
  exists (chan s'), (ctrl s'), (resp s'), (world s'), r. split; [|done].
  cbn [channel_call cluster_channel]. rewrite (good_address a ms retries ch v Hgood), decide_False, Hv, Hcall by done.
  done.
Qed.

(** ** Discovery *)

(** The codecs of the generated stub. *)
Definition parseDiscover (b : bytes) : bool * DiscoverResponse :=
  match parse_found b with Some r => (true, r) | None => (false, mkDiscover 0 [] []) end.

(** The registry, as its server holds it. *)
Definition registry_state (w : Cluster) : RegState := service (srv (at_registry w)).
(** The nodes it lists at its next turn. *)
Definition listing (svc : bytes) (st : RegState) : DiscoverResponse :=
  (Discover iterate (now clock st) svc None (reg_ st)).1.1.

Definition discover_fits (svc : bytes) (st : RegState) : Prop :=
  fits_in 1500 (event_method (EvDiscover svc)) (serialize_query svc)
    (fun r => r = mkRpcResponse kOk [] (serialize_found (listing svc st))).

Lemma discover_call svc ch w :
  reg_good 1500 1 ch (at_registry w) -> discover_fits svc (registry_state w) ->
  exists ch' c v,
    channel_call parseDiscover ch (lit "minirpc.registry.RegistryService.Discover") (serialize_query svc) None
      (Mini RpcController_new) (mkDiscover 0 [] []) w
    = Some ([], ch', c, listing svc (registry_state w), set_registry w v) /\
    controllerFailed c = false /\ reg_good 1500 1 ch' v /\
    service (srv v) = next (registry_state w) (purgeExpired (now clock (registry_state w)) (reg_ (registry_state w))).
Proof.
  intros Hgood (Hsize & Hfuel & Htime). pose proof Hgood as ((_ & _ & _ & _ & Ha & _) & _).
  set (e := EvDiscover svc) in *.
  assert (Hrep : forall st' r,
    reply_for (registry_ (configured rloop (lit "registry") 0 rn reg_services)) (registry_state w)
      (envelope (event_method e) (serialize_query svc)) st' r ->
    st' = next (registry_state w) (Registry.step (reg_ (registry_state w)) (now clock (registry_state w), e)) /\
    r = mkRpcResponse kOk [] (serialize_found (listing svc (registry_state w)))).
  { intros st' r Hr. by refine (event_replied host clock iterate _ _ e st' r _ _ _ Hr). }
  destruct (good_call client host rloop (lit "registry") 0 rn reg_services rst0 registry_at cut tick error_text
              parseDiscover pace paced fuel (event_method e) (serialize_query svc) None 1500 1 ch
              (Mini RpcController_new) (mkDiscover 0 [] []) (at_registry w))
    as (s' & r & Hcall & Hr & Hout & Hg & _); try done.
  { apply registry_never_throws. }
  { intros st' r Hr. apply Htime. by destruct (Hrep st' r Hr). }
  destruct (Hrep _ _ Hr) as [Hst ->]. unfold reply_outcome, parseDiscover in Hout.
  cbn [error_code kOk Z.eqb response] in Hout. rewrite parse_serialize_found in Hout.
  injection Hout as Hc Hm. exists (chan s'), (ctrl s'), (world s'). split.
  - cbn [channel_call cluster_channel]. rewrite Ha, decide_True by done.
    change (lit "minirpc.registry.RegistryService.Discover") with (event_method e). rewrite Hcall. by rewrite Hm.
  - rewrite Hc. split; [done|]. split; [done|]. by rewrite Hst.
Qed.

(** ** The balanced channel *)

Context (inet_pton : bytes -> option Z) (std_hash : bytes -> Z) (tnow : Cluster -> Z).
Context {Msg : Type} (parse : bytes -> bool * Msg).
Abbreviation now_ := (fun w => (tnow w, w)).
Abbreviation balanced_call_ :=
  (LB.CallMethod client inet_pton std_hash now_ serialize_query parseDiscover parse).
Abbreviation refreshNodes := (LB.refreshNodes std_hash now_ serialize_query parseDiscover).
Abbreviation node_address nd := (LB.key_address client inet_pton (LB.nodeKeyOf nd)).

(** The nodes that run: each at an address of its own, with services that do not throw. *)
Context (fleet : list NodeInfo).
Record fleet_ok : Prop := {
  fl_apart nd : nd ∈ fleet -> node_address nd <> registry_at;
  fl_own nd nd' : nd ∈ fleet -> nd' ∈ fleet -> node_address nd = node_address nd' ->
    LB.nodeKeyOf nd = LB.nodeKeyOf nd';
  fl_total nd : nd ∈ fleet -> never_throws host (services_at (node_address nd));
}.
Definition standing (w : Cluster) : Prop :=
  reg_net_ok (at_registry w) /\ inv (reg_ (registry_state w)) /\
  forall nd, nd ∈ fleet -> exists v, at_node w (node_address nd) = Some v /\ node_net_ok (node_address nd) v.

Hypothesis Hfleet : fleet_ok.

(** The balanced channel between calls: it knows only running nodes, and its channels lead to
    them. *)
Record wired (l : LB.LoadBalanceChannel (Ch := RpcChannel)) (w : Cluster) : Prop := {
  wd_standing : standing w;
  wd_ready : LB.ready std_hash l;
  wd_retries : (0 <= LB.callRetries_ l)%Z;
  wd_nodes nd : nd ∈ LB.nodes_ l -> nd ∈ fleet;
  wd_registry : reg_good 1500 1 (LB.registryChannel_ l) (at_registry w);
  wd_channels nd ch : nd ∈ fleet -> LB.channels_ l !! LB.nodeKeyOf nd = Some ch ->
    exists v, at_node w (node_address nd) = Some v /\
      node_good (node_address nd) (LB.callTimeoutMs_ l) (LB.callRetries_ l) ch v;
}.

Lemma standing_set_node w nd v :
  standing w -> nd ∈ fleet -> node_net_ok (node_address nd) v -> standing (set_node w (node_address nd) v).
Proof.
  intros (H1 & H2 & H3) Hin Hv. split; [done|]. split; [done|]. intros nd' Hin'. cbn.
  case_decide as Ha; [|by apply H3]. exists v. by rewrite Ha.
Qed.

(** A new channel, or a channel after a call. *)
Lemma wired_channel l w nd ch v :
  wired l w -> nd ∈ fleet -> node_good (node_address nd) (LB.callTimeoutMs_ l) (LB.callRetries_ l) ch v ->
  wired (LB.set_channel l (LB.nodeKeyOf nd) ch) (set_node w (node_address nd) v).
Proof.
  intros [W1 W2 W3 W4 W5 W6] Hin Hg. split; try done.
  - apply standing_set_node; [done|done|]. apply Hg.
  - cbn. intros nd' ch' Hin' Hl. rewrite lookup_insert in Hl. case_decide as Hk.
    + injection Hl as <-. rewrite <- Hk, decide_True by done. by exists v.
    + rewrite decide_False; [by apply W6|]. intros Ha. by apply Hk, eq_sym, (fl_own Hfleet).
Qed.

(** The list refreshed is the registry's. *)
Lemma refresh_wired l w :
  let st := registry_state w in
  wired l w -> discover_fits (LB.serviceName_ l) st ->
  (forall nd, nd ∈ nodes (listing (LB.serviceName_ l) st) -> nd ∈ fleet) ->
  exists l' w', refreshNodes l w = Some (true, l', w') /\ wired l' w' /\ at_node w' = at_node w /\
    registry_state w' = next st (purgeExpired (now clock st) (reg_ st)) /\
    LB.nodes_ l' = nodes (listing (LB.serviceName_ l) st) /\ LB.serviceName_ l' = LB.serviceName_ l /\
    LB.balanceType_ l' = LB.balanceType_ l /\ LB.callTimeoutMs_ l' = LB.callTimeoutMs_ l /\
    LB.callRetries_ l' = LB.callRetries_ l.
Proof.
  cbn zeta. intros [(W1 & Wi & Wn) [W2 Wv] W3 W4 W5 W6] Hfits Hin. unfold LB.refreshNodes.
  destruct (discover_call (LB.serviceName_ l) (LB.registryChannel_ l) w W5 Hfits)
    as (ch & c & v & -> & -> & Hg & Hst).
  eexists _, _. split; [reflexivity|]. split; [|done]. split; try done.
  - split; [apply Hg|]. split; [|exact Wn].
    change (registry_state (set_registry w v)) with (service (srv v)). rewrite Hst. by apply inv_purge.
  - split; [|exact Wv]. destruct W2 as (_ & _ & Hi & _). split; [|split; [done|split; [exact Hi|]]].
    + by apply (discover_keys iterate iterate_perm).
    + intros _. by eexists.
Qed.

(** The choice of a node. *)
Lemma select_shape (l : LB.LoadBalanceChannel (Ch := RpcChannel)) hk :
  (LB.selectNodeKey std_hash l hk).2 = l \/ exists rr, (LB.selectNodeKey std_hash l hk).2 = LB.set_rr l rr.
Proof.
  assert (Hnext : exists rr, (LB.nextKey l).2 = LB.set_rr l rr).
  { unfold LB.nextKey. destruct (LoadBalancer.next _) as [i rr]. by exists rr. }
  unfold LB.selectNodeKey. destruct (LB.nodes_ l); [by left|].
  destruct (LB.balanceType_ l), hk; try (by right). destruct (selectNode _ _ _); [by right|by left].
Qed.

Lemma select_wired l w hk :
  wired l w -> LB.nodes_ l <> [] ->
  exists nd l', LB.selectNodeKey std_hash l hk = (LB.nodeKeyOf nd, l') /\ nd ∈ LB.nodes_ l /\ wired l' w /\
    LB.nodes_ l' = LB.nodes_ l /\ LB.callTimeoutMs_ l' = LB.callTimeoutMs_ l /\
    LB.serviceName_ l' = LB.serviceName_ l.
Proof.
  intros Hw Hne. destruct (wd_ready _ _ Hw) as [Hi Hv].
  destruct (LB.selectNodeKey_in std_hash l hk Hi Hne) as [Hk Hi'].
  pose proof (select_shape l hk) as Hs. destruct (LB.selectNodeKey std_hash l hk) as [key l'].
  cbn [fst snd] in *. apply list_elem_of_fmap in Hk as (nd & -> & Hnd). exists nd, l'. split; [done|].
  split; [done|]. destruct Hs as [->|[rr ->]]; [done|]. split; [|done].
  destruct Hw as [W1 W2 W3 W4 W5 W6]. by split.
Qed.

Lemma channel_wired l w nd :
  wired l w -> nd ∈ fleet ->
  let '(ch, l') := LB.channelFor client inet_pton l (LB.nodeKeyOf nd) in
  (exists v, at_node w (node_address nd) = Some v /\
     node_good (node_address nd) (LB.callTimeoutMs_ l) (LB.callRetries_ l) ch v) /\
  LB.nodes_ l' = LB.nodes_ l /\ LB.callTimeoutMs_ l' = LB.callTimeoutMs_ l /\ LB.callRetries_ l' = LB.callRetries_ l /\
  forall ch' v', node_good (node_address nd) (LB.callTimeoutMs_ l) (LB.callRetries_ l) ch' v' ->
    wired (LB.set_channel l' (LB.nodeKeyOf nd) ch') (set_node w (node_address nd) v').
Proof.
  intros Hw Hin. unfold LB.channelFor. destruct (LB.channels_ l !! LB.nodeKeyOf nd) as [ch|] eqn:Hch.
  - split; [by apply (wd_channels _ _ Hw)|]. do 3 (split; [done|]). intros. by apply wired_channel.
  - destruct (proj2 (proj2 (wd_standing _ _ Hw)) nd Hin) as (v & Hv & Hok). split.
    { exists v. split; [done|]. by apply new_channel. }
    do 3 (split; [done|]). intros ch' v' Hg. pose proof (wired_channel l w nd ch' v' Hw Hin Hg) as [W1 W2 W3 W4 W5 W6].
    split; try done. cbn. intros nd' ch2 Hin' Hl. rewrite insert_insert_eq in Hl. by apply W6.
Qed.

(** A reply whose code is none of those of a broken connection does not lead to a retry. *)
Definition settled (r : RpcResponse) : Prop :=
  error_code r <> kClosed /\ error_code r <> kSystem /\ error_code r <> kTimeout.

Lemma settled_level c m r :
  settled r -> LB.connection_level (reply_outcome parse (resetController c) m r).1 = false.
Proof.
  intros (H1 & H2 & H3). apply Z.eqb_neq in H1, H2, H3. unfold reply_outcome.
  destruct (error_code r =? kOk)%Z.
  - destruct (parse (response r)) as [[] ?]; by destruct c.
  - destruct c; try done. cbn. by rewrite H1, H2, H3.
Qed.

(** What the call has done: it found no node, or one node served it. *)
Inductive cluster_post (mname req : bytes) (c : Controller) (m : Msg) (w : Cluster)
    (o : LB.Outcome (Ch := RpcChannel) (W := Cluster) (Msg := Msg)) : Prop :=
| post_nobody :
    LB.nodes_ (LB.lb o) = [] -> LB.called o = [] -> LB.oc_resp o = m ->
    LB.oc_ctrl o = failController (resetController c) kNoService
                     (lit "no available node for service: " ++ LB.serviceName_ (LB.lb o)) ->
    at_node (LB.oc_world o) = at_node w ->
    cluster_post mname req c m w o
| post_served nd v v' r :
    nd ∈ LB.nodes_ (LB.lb o) -> LB.called o = [LB.nodeKeyOf nd] ->
    at_node w (node_address nd) = Some v -> at_node (LB.oc_world o) (node_address nd) = Some v' ->
    reply_for (services_at (node_address nd)) (service (srv v)) (envelope mname req) (service (srv v')) r ->
    (LB.oc_ctrl o, LB.oc_resp o) = reply_outcome parse (resetController c) m r ->
    (forall b, b <> node_address nd -> at_node (LB.oc_world o) b = at_node w b) ->
    cluster_post mname req c m w o.

(** A call on a running node: its services have done the operation once, the caller has the reply,
    and the channel is ready for the next call. *)
Lemma served_once mname req d c m l w nd v :
  wired l w -> nd ∈ fleet -> at_node w (node_address nd) = Some v ->
  fits_in (LB.callTimeoutMs_ l) mname req (fun r => exists st',
    reply_for (services_at (node_address nd)) (service (srv v)) (envelope mname req) st' r) ->
  exists ch' c' m' v' r,
    channel_call parse (LB.channelFor client inet_pton l (LB.nodeKeyOf nd)).1 mname req d c m w
      = Some (option_list d, ch', c', m', set_node w (node_address nd) v') /\
    reply_for (services_at (node_address nd)) (service (srv v)) (envelope mname req) (service (srv v')) r /\
    (c', m') = reply_outcome parse (resetController c) m r /\
    LB.set_channel (LB.channelFor client inet_pton l (LB.nodeKeyOf nd)).2 (LB.nodeKeyOf nd) ch'
      = LB.set_channel l (LB.nodeKeyOf nd) ch' /\
    wired (LB.set_channel l (LB.nodeKeyOf nd) ch') (set_node w (node_address nd) v').
Proof.
  intros Hw Hin Hv Hfits. pose proof (LB.channelFor_node client inet_pton l (LB.nodeKeyOf nd)) as [_ Hset].
  pose proof (channel_wired l w nd Hw Hin) as Hch.
  destruct (LB.channelFor client inet_pton l (LB.nodeKeyOf nd)) as [ch l2]. cbn [fst snd] in *.
  destruct Hch as ((v0 & Hv0 & Hgood) & _ & _ & _ & Hback). rewrite Hv in Hv0. injection Hv0 as <-.
  destruct (node_call parse (LB.callTimeoutMs_ l) (LB.callRetries_ l) (node_address nd) ch mname req d c m w v)
    as (ch' & c' & m' & v' & r & Hcall & Hrep & Hout & Hgood'); try done.
  { by apply (fl_total Hfleet). } { by apply (fl_apart Hfleet). } { apply (wd_retries _ _ Hw). }
  exists ch', c', m', v', r. rewrite <- Hset. split; [done|]. split; [done|]. split; [done|]. split; [done|].
  by apply Hback.
Qed.

(** The first attempt is the last. *)
Lemma attempt_served k mname req hk d c m l w :
  wired l w -> LB.nodes_ l <> [] ->
  (forall nd v, nd ∈ LB.nodes_ l -> at_node w (node_address nd) = Some v ->
     fits_in (LB.callTimeoutMs_ l) mname req (fun r => exists st',
       reply_for (services_at (node_address nd)) (service (srv v)) (envelope mname req) st' r) /\
     forall st' r, reply_for (services_at (node_address nd)) (service (srv v)) (envelope mname req) st' r -> settled r) ->
  exists o,
    LB.attempts client inet_pton std_hash now_ serialize_query parseDiscover parse (S k) 0 mname req hk d
      (LB.mkOutcome [] [] l (resetController c) m w) = Some o /\
    LB.ran o = option_list d /\ wired (LB.lb o) (LB.oc_world o) /\ LB.nodes_ (LB.lb o) = LB.nodes_ l /\
    cluster_post mname req c m w o.
Proof.
  intros Hw Hne Hfit. cbn [LB.attempts Nat.eqb LB.lb LB.oc_ctrl LB.oc_resp LB.oc_world LB.ran LB.called].
  destruct (select_wired l w hk Hw Hne) as (nd & l1 & -> & Hnd & Hw1 & Hn1 & Ht1 & _).
  pose proof (wd_nodes _ _ Hw nd Hnd) as Hin. destruct (proj2 (proj2 (wd_standing _ _ Hw)) nd Hin) as (v & Hv & _).
  destruct (Hfit nd v Hnd Hv) as [Hfits Hset]. rewrite <- Ht1 in Hfits.
  destruct (served_once mname req d (resetController c) m l1 w nd v Hw1 Hin Hv Hfits)
    as (ch' & c' & m' & v' & r & Hcall & Hrep & Hout & Hsc & Hw2).
  destruct (LB.channelFor client inet_pton l1 (LB.nodeKeyOf nd)) as [ch l2]. cbn [fst snd] in *. rewrite Hcall, Hsc.
  rewrite reset_reset in Hout. pose proof (settled_level c m r (Hset _ _ Hrep)) as Hlevel.
  rewrite <- Hout in Hlevel. cbn [fst] in Hlevel. rewrite Hlevel. cbn [negb].
  exists (LB.mkOutcome (option_list d) [LB.nodeKeyOf nd] (LB.set_channel l1 (LB.nodeKeyOf nd) ch') c' m'
            (set_node w (node_address nd) v')).
  split; [by destruct (negb (controllerFailed c'))|]. split; [done|]. split; [done|]. split; [done|].
  apply (post_served mname req c m w _ nd v v' r); try done.
  - cbn. by rewrite Hn1.
  - cbn. by rewrite decide_True.
  - cbn. intros b Hb. by rewrite decide_False.
Qed.

(** *** Errors of a service that read as broken connections *)

(** A reply whose code is one of those of a broken connection. *)
Definition unsettled (r : RpcResponse) : Prop :=
  error_code r = kClosed \/ error_code r = kSystem \/ error_code r = kTimeout.

Lemma unsettled_level rc m r :
  unsettled r ->
  let c := (reply_outcome parse (Mini rc) m r).1 in
  controllerFailed c = true /\ LB.connection_level c = true /\ (reply_outcome parse (Mini rc) m r).2 = m /\
  resetController c = Mini RpcController_new.
Proof. intros Hr. unfold reply_outcome. by destruct Hr as [Hc|[Hc|Hc]]; rewrite Hc. Qed.

(** The registry after it has answered. *)
Definition turned (st : RegState) : RegState := next st (purgeExpired (now clock st) (reg_ st)).

(** It lists nodes of the fleet, two at least. *)
Definition lists_two (svc : bytes) (st : RegState) : Prop :=
  discover_fits svc st /\ (forall nd, nd ∈ nodes (listing svc st) -> nd ∈ fleet) /\
  2 <= length (nodes (listing svc st)).

(** A refresh that finds two nodes or more; nothing else changes. *)
Lemma refresh_two l w :
  wired l w -> lists_two (LB.serviceName_ l) (registry_state w) ->
  exists l' w', refreshNodes l w = Some (true, l', w') /\ wired l' w' /\ at_node w' = at_node w /\
    registry_state w' = turned (registry_state w) /\ 2 <= length (LB.nodes_ l') /\
    LB.serviceName_ l' = LB.serviceName_ l /\ LB.callTimeoutMs_ l' = LB.callTimeoutMs_ l /\
    LB.failedNodeKey_ l' = LB.failedNodeKey_ l.
Proof.
  intros Hw (Hfits & Hin & Hlen).
  destruct (refresh_wired l w Hw Hfits Hin) as (l' & w' & Href & Hw' & Hat & Hst & Hn & Hs & _ & Ht & _).
  exists l', w'. split; [done|]. split; [done|]. split; [done|]. split; [done|]. rewrite Hn.
  split; [done|]. split; [done|]. split; [done|]. revert Href. clear. unfold LB.refreshNodes.
  destruct (channel_call _ _ _ _ _ _ _ _) as [[[[[rn0 ch] c] rsp] w1]|]; [|done].
  destruct (controllerFailed c); by intros [= <- _].
Qed.

(** The list a call begins with: the one it knows, or a refreshed one. *)
Lemma known_two l w :
  wired l w -> LB.nodes_ l = [] \/ 2 <= length (LB.nodes_ l) ->
  lists_two (LB.serviceName_ l) (registry_state w) ->
  exists stale l1 w1, LB.needRefresh now_ l w = (stale, w) /\
    (if stale then refreshNodes l w else Some (true, l, w)) = Some (true, l1, w1) /\ wired l1 w1 /\
    at_node w1 = at_node w /\ LB.callTimeoutMs_ l1 = LB.callTimeoutMs_ l /\ LB.serviceName_ l1 = LB.serviceName_ l /\
    2 <= length (LB.nodes_ l1) /\ exists j, j <= 1 /\ registry_state w1 = Nat.iter j turned (registry_state w).
Proof.
  intros Hw Hknown Hlist.
  destruct (refresh_two l w Hw Hlist) as (l1 & w1 & Href & Hw1 & Hat & Hst & Hn & Hs & Ht & _).
  assert (Hneed : exists stale, LB.needRefresh now_ l w = (stale, w) /\ (LB.nodes_ l = [] -> stale = true))
    by (unfold LB.needRefresh; destruct (LB.nodes_ l); by eexists).
  destruct Hneed as (stale & -> & Hnil). exists stale. destruct stale.
  - exists l1, w1. do 7 (split; [done|]). by exists 1.
  - exists l, w. do 6 (split; [done|]). destruct Hknown as [Hx|Hlen]; [by apply Hnil in Hx|].
    split; [done|]. exists 0. split; [lia|done].
Qed.

(** The node of a retry. *)
Lemma retry_wired l f w :
  wired l w -> 2 <= length (LB.nodes_ l) ->
  exists nd rr, LB.selectNodeKeyForRetry l f = (LB.nodeKeyOf nd, LB.set_rr l rr) /\ nd ∈ fleet /\
    LB.nodeKeyOf nd <> f /\ wired (LB.set_rr l rr) w.
Proof.
  intros Hw Hlen. assert (Hne : LB.nodes_ l <> []) by (intros Hx; rewrite Hx in Hlen; cbn in Hlen; lia).
  pose proof (wd_ready _ _ Hw) as Hr. destruct (LB.retry_different std_hash l f (proj1 Hr) Hlen) as [Hdiff Hkey].
  destruct (LB.retry_rr l f) as [rr Hrr]. pose proof (LB.retry_ready std_hash l f Hr Hne) as Hr'.
  destruct (LB.selectNodeKeyForRetry l f) as [key l']. cbn [fst snd] in *. subst l'.
  apply list_elem_of_fmap in Hkey as (nd & -> & Hnd). exists nd, rr. split; [done|].
  split; [by apply (wd_nodes _ _ Hw)|]. split; [done|]. destruct Hw as [W1 W2 W3 W4 W5 W6]. by split.
Qed.

(** An attempt whose reply reads as a broken connection: the node has run the request, the list is
    refreshed, and what is left of the attempts goes on. *)
Lemma attempt_unsettled k a mname req hk rc m called l l1 w nd v :
  LB.target std_hash a l hk = (LB.nodeKeyOf nd, l1) -> wired l1 w -> nd ∈ fleet -> 2 <= length (LB.nodes_ l1) ->
  at_node w (node_address nd) = Some v ->
  fits_in (LB.callTimeoutMs_ l1) mname req (fun r => exists st',
    reply_for (services_at (node_address nd)) (service (srv v)) (envelope mname req) st' r) ->
  (forall st' r, reply_for (services_at (node_address nd)) (service (srv v)) (envelope mname req) st' r -> unsettled r) ->
  lists_two (LB.serviceName_ l1) (registry_state w) ->
  exists v' r l2 w2 c',
    LB.attempts client inet_pton std_hash now_ serialize_query parseDiscover parse (S k) a mname req hk None
      (LB.mkOutcome [] called l (Mini rc) m w)
    = LB.attempts client inet_pton std_hash now_ serialize_query parseDiscover parse k (S a) mname req hk None
        (LB.mkOutcome [] (called ++ [LB.nodeKeyOf nd]) l2 c' m w2) /\
    reply_for (services_at (node_address nd)) (service (srv v)) (envelope mname req) (service (srv v')) r /\
    (c', m) = reply_outcome parse (Mini RpcController_new) m r /\ (exists rc', c' = Mini rc') /\
    wired l2 w2 /\ 2 <= length (LB.nodes_ l2) /\ LB.failedNodeKey_ l2 = LB.nodeKeyOf nd /\
    LB.callTimeoutMs_ l2 = LB.callTimeoutMs_ l1 /\ LB.serviceName_ l2 = LB.serviceName_ l1 /\
    registry_state w2 = turned (registry_state w) /\
    (forall b, at_node w2 b = if decide (b = node_address nd) then Some v' else at_node w b).
Proof.
  intros Htarget Hw Hin Hlen Hv Hfits Hun Hlist.
  destruct (served_once mname req None (Mini rc) m l1 w nd v Hw Hin Hv Hfits)
    as (ch' & c' & m' & v' & r & Hcall & Hrep & Hout & Hsc & Hw2).
  change (resetController (Mini rc)) with (Mini RpcController_new) in Hout.
  destruct (unsettled_level RpcController_new m r (Hun _ _ Hrep)) as (Hfailed & Hlevel & Hm & Hreset).
  rewrite <- Hout in Hfailed, Hlevel, Hm, Hreset. cbn [fst snd] in *. subst m'.
  set (l2 := LB.set_failed (LB.set_channel l1 (LB.nodeKeyOf nd) ch') (LB.nodeKeyOf nd)) in *.
  assert (Hwf : wired l2 (set_node w (node_address nd) v')) by (destruct Hw2; by split).
  destruct (refresh_two l2 _ Hwf Hlist) as (l3 & w3 & Href & Hw3 & Hat & Hst & Hlen3 & Hs3 & Ht3 & Hf3).
  exists v', r, l3, w3, c'. split; [|split; [done|split; [done|split]]].
  - cbn [LB.attempts LB.lb LB.oc_ctrl LB.oc_resp LB.oc_world LB.ran LB.called]. fold (LB.target std_hash a l hk).
    rewrite Htarget. destruct (LB.channelFor client inet_pton l1 (LB.nodeKeyOf nd)) as [ch l0]. cbn [fst snd] in *.
    rewrite Hcall, Hsc, Hfailed, Hlevel. cbn [negb]. change (LB.nodes_ (LB.set_channel l1 _ _)) with (LB.nodes_ l1).
    destruct (Nat.leb_spec (length (LB.nodes_ l1)) 1); [lia|]. fold l2. rewrite Href.
    destruct (Nat.leb_spec (length (LB.nodes_ l3)) 1); [lia|]. done.
  - destruct c'; try done. by eexists.
  - split; [done|]. split; [done|]. split; [done|]. split; [done|]. split; [done|]. split; [exact Hst|].
    intros b. by rewrite Hat.
Qed.

(** ** Theorems *)

(** C9. A balanced call on a running cluster is served once, by one node: the balanced channel, its
    channels to the registry server and to the servers of the nodes, and the servers with all
    their threads and connections as one system. The registry lists running nodes only, their
    services do not throw, requests and replies fit, and no reply carries a code that stands for
    a broken connection. Then the call returns and has run its closure; it has found no node and
    failed with [kNoService], or exactly one node, one of those listed at the last refresh, has
    run the request exactly once and the caller has that node's reply, and no other node has
    changed; and the channel is ready for the next call. *)
Theorem cluster_call (mname req : bytes) (d : option closure) (c : Controller) (m : Msg)
  (l : LB.LoadBalanceChannel) (w : Cluster)
  (Hwired : wired l w)
  (Hdiscover : discover_fits (LB.serviceName_ l) (registry_state w))
  (Hlisted : forall nd, nd ∈ nodes (listing (LB.serviceName_ l) (registry_state w)) -> nd ∈ fleet)
  (Hfits : forall nd v, nd ∈ fleet -> at_node w (node_address nd) = Some v ->
     fits_in (LB.callTimeoutMs_ l) mname req (fun r => exists st',
       reply_for (services_at (node_address nd)) (service (srv v)) (envelope mname req) st' r) /\
     forall st' r, reply_for (services_at (node_address nd)) (service (srv v)) (envelope mname req) st' r ->
       settled r) :
  exists o, balanced_call_ mname req d c m l w = Some o /\ LB.ran o = option_list d /\
    wired (LB.lb o) (LB.oc_world o) /\
    (LB.nodes_ (LB.lb o) = LB.nodes_ l \/
     LB.nodes_ (LB.lb o) = nodes (listing (LB.serviceName_ l) (registry_state w))) /\
    cluster_post mname req c m w o.
Proof.
  unfold LB.CallMethod. assert (Hgo : exists stale w1 l1 w2,
    LB.needRefresh now_ l w = (stale, w1) /\
    (if stale then refreshNodes l w1 else Some (true, l, w1)) = Some (true, l1, w2) /\ wired l1 w2 /\
    at_node w2 = at_node w /\ LB.callTimeoutMs_ l1 = LB.callTimeoutMs_ l /\
    (LB.nodes_ l1 = LB.nodes_ l \/ LB.nodes_ l1 = nodes (listing (LB.serviceName_ l) (registry_state w)))).
  { destruct (refresh_wired l w Hwired Hdiscover Hlisted)
      as (l1 & w2 & Href & Hw1 & Hat & _ & Hn & _ & _ & Ht & _).
    destruct (LB.needRefresh now_ l w) as [stale w1] eqn:Hneed.
    assert (w1 = w) as -> by (unfold LB.needRefresh in Hneed; destruct (LB.nodes_ l); by injection Hneed).
    destruct stale; [exists true, w, l1, w2|exists false, w, l, w]; auto 10. }
  destruct Hgo as (stale & w1 & l1 & w2 & -> & -> & Hw1 & Hat & Ht & Hn).
  destruct (LB.nodes_ l1) as [|nd0 nds] eqn:Hl1.
  - eexists. split; [reflexivity|]. cbn [LB.ran LB.lb LB.oc_world]. split; [done|]. split; [done|].
    split; [by rewrite Hl1|]. by apply post_nobody.
  - set (hk := match LB.balanceType_ l1 with LB.kRoundRobin => _ | LB.kConsistentHash => _ end).
    assert (Hk : exists k, match d with Some _ => 1 | None => 2 end = S k) by (destruct d; eauto).
    destruct Hk as [k ->].
    destruct (attempt_served k mname req hk d c m l1 w2 Hw1) as (o & Ho & Hran & Hwo & Hno & Hpost); [by rewrite Hl1| |].
    { intros nd v Hnd Hv. rewrite Ht. apply Hfits; [|by rewrite <- Hat]. by apply (wd_nodes _ _ Hw1). }
    exists o. split; [exact Ho|]. split; [done|]. split; [done|]. split; [by rewrite Hno, Hl1|].
    destruct Hpost as [H1 H2 H3 H4 H5|nd v v' r H1 H2 H3 H4 H5 H6 H7].
    + apply post_nobody; try done. by rewrite H5.
    + apply (post_served mname req c m w o nd v v' r); try done; [by rewrite <- Hat|].
      intros b Hb. by rewrite H7, Hat.
Qed.

(** The node has run the request exactly once between two states of the cluster, with this reply. *)
Definition ran_once (mname req : bytes) (w w' : Cluster) (nd : NodeInfo) (r : RpcResponse) : Prop :=
  exists v v', at_node w (node_address nd) = Some v /\ at_node w' (node_address nd) = Some v' /\
    reply_for (services_at (node_address nd)) (service (srv v)) (envelope mname req) (service (srv v')) r.

(** C18. An error that a service itself reports with [kSystem], [kTimeout] or [kClosed] is taken for
    a broken connection and the request is run again: although the code's comment excludes errors
    of the service from the retry, and although the first node has answered. The registry lists
    two running nodes or more, whose services do not throw, and every reply to the request carries
    one of the three codes; the balanced channel knows no node yet or two at least, and has either
    policy. Then a call without a closure returns, two nodes at different addresses have each run
    the request exactly once, no other node has changed, and the caller has the error of the
    second one. *)
Theorem service_error_runs_twice (mname req : bytes) (rc : RpcController) (m : Msg)
  (l : LB.LoadBalanceChannel) (w : Cluster)
  (Hwired : wired l w)
  (Hknown : LB.nodes_ l = [] \/ 2 <= length (LB.nodes_ l))
  (Hlists : forall k, k <= 2 -> lists_two (LB.serviceName_ l) (Nat.iter k turned (registry_state w)))
  (Hreplies : forall nd v, nd ∈ fleet -> at_node w (node_address nd) = Some v ->
     fits_in (LB.callTimeoutMs_ l) mname req (fun r => exists st',
       reply_for (services_at (node_address nd)) (service (srv v)) (envelope mname req) st' r) /\
     forall st' r, reply_for (services_at (node_address nd)) (service (srv v)) (envelope mname req) st' r ->
       unsettled r) :
  exists o nd1 nd2 r1 r2, balanced_call_ mname req None (Mini rc) m l w = Some o /\
    LB.ran o = [] /\ LB.called o = [LB.nodeKeyOf nd1; LB.nodeKeyOf nd2] /\
    nd1 ∈ fleet /\ nd2 ∈ fleet /\ node_address nd1 <> node_address nd2 /\
    ran_once mname req w (LB.oc_world o) nd1 r1 /\ ran_once mname req w (LB.oc_world o) nd2 r2 /\
    (LB.oc_ctrl o, LB.oc_resp o) = reply_outcome parse (Mini RpcController_new) m r2 /\
    (forall b, b <> node_address nd1 -> b <> node_address nd2 -> at_node (LB.oc_world o) b = at_node w b) /\
    wired (LB.lb o) (LB.oc_world o).
Proof.
  destruct (known_two l w Hwired Hknown (Hlists 0 (Nat.le_0_l 2)))
    as (stale & l1 & w1 & Hneed & Hfirst & Hw1 & Hat & Ht & Hs & Hlen & j & Hj & Hst).
  unfold LB.CallMethod. rewrite Hneed, Hfirst. change (resetController (Mini rc)) with (Mini RpcController_new).
  assert (Hne : LB.nodes_ l1 <> []) by (intros Hx; rewrite Hx in Hlen; cbn in Hlen; lia).
  set (hk := match LB.balanceType_ l1 with LB.kRoundRobin => _ | LB.kConsistentHash => _ end).
  destruct (select_wired l1 w1 hk Hw1 Hne) as (nd1 & l2 & Hsel & Hnd1 & Hw2 & Hn2 & Ht2 & Hs2).
  pose proof (wd_nodes _ _ Hw1 nd1 Hnd1) as Hin1.
  destruct (proj2 (proj2 (wd_standing _ _ Hw1)) nd1 Hin1) as (v1 & Hv1 & _).
  destruct (Hreplies nd1 v1 Hin1) as [Hfit1 Hun1]; [by rewrite <- Hat|]. rewrite <- Ht, <- Ht2 in Hfit1.
  destruct (attempt_unsettled 1 0 mname req hk RpcController_new m [] l1 l2 w1 nd1 v1)
    as (v1' & r1 & l3 & w3 & c1 & Hstep1 & Hrep1 & _ & [rc1 ->] & Hw3 & Hlen3 & Hf3 & Ht3 & Hs3 & Hst3 & Hat3);
    try done; [by rewrite Hn2|rewrite Hs2, Hs, Hst; apply Hlists; lia|].
  destruct (retry_wired l3 (LB.nodeKeyOf nd1) w3 Hw3 Hlen3) as (nd2 & rr & Hretry & Hin2 & Hdiff & Hw4).
  assert (Haddr : node_address nd1 <> node_address nd2)
    by (intros Ha; by apply Hdiff, (fl_own Hfleet nd2 nd1)).
  destruct (proj2 (proj2 (wd_standing _ _ Hw3)) nd2 Hin2) as (v2 & Hv2 & _).
  assert (Hv2' : at_node w (node_address nd2) = Some v2) by (by rewrite <- Hat, <- Hv2, Hat3, decide_False).
  destruct (Hreplies nd2 v2 Hin2 Hv2') as [Hfit2 Hun2]. rewrite <- Ht, <- Ht2, <- Ht3 in Hfit2.
  destruct (attempt_unsettled 0 1 mname req hk rc1 m [LB.nodeKeyOf nd1] l3 (LB.set_rr l3 rr) w3 nd2 v2)
    as (v2' & r2 & l5 & w5 & c2 & Hstep2 & Hrep2 & Hout2 & _ & Hw5 & _ & _ & _ & _ & _ & Hat5); try done.
  { unfold LB.target. by rewrite Hf3, Hretry. }
  { change (LB.serviceName_ (LB.set_rr l3 rr)) with (LB.serviceName_ l3). rewrite Hs3, Hs2, Hs, Hst3, Hst.
    change (turned (Nat.iter j turned (registry_state w))) with (Nat.iter (S j) turned (registry_state w)).
    apply Hlists. lia. }
  cbn [app] in Hstep1, Hstep2.
  exists (LB.mkOutcome [] [LB.nodeKeyOf nd1; LB.nodeKeyOf nd2] l5 c2 m w5), nd1, nd2, r1, r2.
  split; [destruct (LB.nodes_ l1); [done|]; by rewrite Hstep1, Hstep2|].
  cbn [LB.ran LB.called LB.lb LB.oc_ctrl LB.oc_resp LB.oc_world app]. do 5 (split; [done|]).
  split; [|split; [|split; [done|split; [|done]]]].
  - exists v1, v1'. rewrite Hat5, Hat3, decide_False, decide_True by done. by rewrite <- Hat.
  - exists v2, v2'. by rewrite Hat5, decide_True.
  - intros b Hb1 Hb2. by rewrite Hat5, Hat3, !decide_False, Hat.
Qed.

End Cluster.

(** ** The calculator's cluster *)

Section CalculatorCluster.
Context (client host : endian) `{Henv : EnvelopeLaws} `{Hmsg : RegistryMessageLaws}.
Context (clock : nat -> Z) (iterate : ServiceMap -> list (bytes * NodeEntry)).
Hypothesis iterate_perm : forall m, iterate m ≡ₚ map_to_list m.
Context (rloop : loop_id) (rn : nat) (rst0 : RegState) (registry_at : sockaddr_in).
Context (cut : nat -> nat) (tick : nat -> N) (error_text : Z -> bytes).
Context (pace : Z) (paced : forall t, (Z.of_N (tick t) <= pace)%Z) (fuel : nat).
Context (inet_pton : bytes -> option Z) (std_hash : bytes -> Z).

(** [double] and the calculator's messages; what is serialised is parsed again. *)
Context {D : Type} `{Double D} `{!CalcMessages (D := D)} (lits : Z -> D).
Context (serialize_calc : CalcRequest (D := D) -> bytes) (parse_result : bytes -> bool * CalcResponse (D := D)).
Hypothesis calc_roundtrip : forall q, parse_calc (serialize_calc q) = Some q.
Hypothesis result_roundtrip : forall r, parse_result (serialize_result r) = (true, r).

(** The server of rpc_node.cpp under the name [name a], at the address [a]. *)
Context (loop : loop_id) (name : sockaddr_in -> bytes).
Abbreviation node_services a := [echo_service; calc_service (node_Calc (name a))].
Abbreviation reg_services := [registry_service clock iterate].
Context `{Hrs : !Schedule host rloop (lit "registry") 0 rn reg_services rst0}.
Context `{Hns : forall a, Schedule host loop (name a) 0 4 (node_services a) tt}.
Abbreviation node_server a := (configured loop (name a) 0 4 (node_services a)).

(** It is the server [main] starts. *)
Lemma node_main_server {W} `{RegistryStub W} args spawn (w : W) a :
  name a = (node_options args).1.1.1.2 ->
  (node_main client inet_pton args loop spawn w).1.2 = Pipeline.start spawn (node_server a).
Proof.
  intros Hn. unfold node_main. destruct (node_options args) as [[[[p nm] rp] hb] tm]. cbn [fst snd] in Hn.
  subst nm. cbn zeta. by destruct (ServiceNode.start _ _ _).
Qed.

Lemma node_find a svc :
  findService (registry_ (node_server a)) svc =
  if decide (svc = lit "minirpc.example.CalculatorService") then Some (calc_service (node_Calc (name a)))
  else if decide (svc = lit "minirpc.example.EchoService") then Some echo_service else None.
Proof.
  exact (services_find (RpcServer_new loop (name a) 0) (fun i => i) (calc_service (node_Calc (name a))) svc
           eq_refl eq_refl).
Qed.

Lemma node_total a : never_throws host (registry_ (node_server a)).
Proof.
  exact (calc_never_throws host (RpcServer_new loop (name a) 0) (fun i => i) (node_Calc (name a)) eq_refl).
Qed.

Lemma node_reply a st st' q r :
  reply_for (registry_ (node_server a)) st
    (serializeRequest (mkRpcRequest (lit "minirpc.example.CalculatorService.Calc") (serialize_calc q))) st' r ->
  r = calc_reply (name a) q.
Proof.
  apply (calc_replied host _ (node_Calc (name a))); [by rewrite node_find, decide_True| |done].
  unfold node_Calc. rewrite Calc_spec. by destruct (calc_spec q).
Qed.

(** *** The client *)

Abbreviation calc := (lit "minirpc.example.CalculatorService").
Abbreviation world := (Cluster (St := unit)).
Context (tnow : world -> Z).
Abbreviation node_address nd := (LB.key_address client inet_pton (LB.nodeKeyOf nd)).

(** The table of the registry during the run, and the nodes it lists. *)
Context (table : Registry) (table_inv : inv table).
Hypothesis table_fresh : forall k svc key e, entry table svc key = Some e -> expired table (clock k) e = false.
Definition roster : list NodeInfo := std_sort (found iterate table calc).

(** Each at an address of its own, where its program runs. *)
Hypothesis addresses : NoDup (registry_at :: map (fun nd => node_address nd) roster).
Hypothesis names : forall nd, nd ∈ roster -> name (node_address nd) = node_name nd.

Definition add_request (i : Z) : bytes := serialize_calc (mkCalcRequest (lits i) (lits (i + 1)) (lit "+")).
Definition sum_reply (nd : NodeInfo) (i : Z) : RpcResponse :=
  mkRpcResponse kOk [] (serialize_result (mkCalcResponse (d_add (lits i) (lits (i + 1))) [] (node_name nd))).

(** The messages fit. *)
Hypothesis discover_small :
  fits_in pace fuel 1500 (event_method (EvDiscover calc)) (serialize_query calc)
    (fun r => r = mkRpcResponse kOk [] (serialize_found (mkDiscover okCode [] roster))).
Hypothesis calls_small : forall i,
  fits_in pace fuel 2000 (lit "minirpc.example.CalculatorService.Calc") (add_request i)
    (fun r => exists nd, nd ∈ roster /\ r = sum_reply nd i).

Abbreviation standing_ :=
  (standing client host clock iterate rloop rn rst0 loop name 0 4 (fun a => node_services a) tt inet_pton roster).
Abbreviation leads_ :=
  (leads host clock iterate rloop rn rst0 registry_at loop name 0 4 (fun a => node_services a) tt 2000 1).
Abbreviation channel_ :=
  (cluster_channel client host clock iterate rloop rn rst0 registry_at loop name 0 4 (fun a => node_services a) tt cut tick error_text fuel).
(** The cluster is up, and the registry has the table. *)
Definition up (w : world) : Prop := standing_ w /\ reg_ (registry_state w) = table.

Lemma listing_table st : reg_ st = table -> listing clock iterate calc st = mkDiscover okCode [] roster.
Proof.
  intros Hst. unfold listing, Discover. rewrite Hst. rewrite purge_fresh; [done|done|]. intros svc key e. apply table_fresh.
Qed.



Lemma roster_apart nd : nd ∈ roster -> node_address nd <> registry_at.
Proof.
  intros Hin Heq. apply list.NoDup_cons in addresses as [Hni _]. apply Hni, list_elem_of_fmap. by exists nd.
Qed.

Lemma roster_own nd nd' : nd ∈ roster -> nd' ∈ roster -> node_address nd = node_address nd' -> nd = nd'.
Proof.
  intros [i Hi]%list_elem_of_lookup_1 [j Hj]%list_elem_of_lookup_1 Heq.
  apply list.NoDup_cons in addresses as [_ Hnd].
  assert (i = j) as <-; [|congruence].
  apply (NoDup_lookup (map (fun nd => node_address nd) roster) i j (node_address nd) Hnd);
    rewrite list_lookup_fmap; [by rewrite Hi|by rewrite Hj, Heq].
Qed.

Lemma roster_call nd ch i w v :
  nd ∈ roster -> at_node w (node_address nd) = Some v ->
  good_channel host loop (name (node_address nd)) 0 4 (node_services (node_address nd)) tt (node_address nd) 2000 1 ch v ->
  exists ch' c v',
    channel_call (NodeChannel := channel_) parse_result ch (lit "minirpc.example.CalculatorService.Calc")
      (add_request i) None (Mini RpcController_new) (mkCalcResponse d_zero [] []) w
    = Some ([], ch', c, mkCalcResponse (d_add (lits i) (lits (i + 1))) [] (node_name nd), set_node w (node_address nd) v') /\
    controllerFailed c = false /\
    good_channel host loop (name (node_address nd)) 0 4 (node_services (node_address nd)) tt (node_address nd) 2000 1 ch' v'.
Proof.
  intros Hin Hv Hgood. set (a := node_address nd) in *. destruct (calls_small i) as (Hs & Hf & Ht).
  assert (Hrep : forall st st' r, reply_for (registry_ (node_server a)) st
    (serializeRequest (mkRpcRequest (lit "minirpc.example.CalculatorService.Calc") (add_request i))) st' r ->
    r = sum_reply nd i).
  { intros st st' r ->%node_reply. unfold a. by rewrite names. }
  destruct (node_call client host clock iterate rloop rn rst0 registry_at loop name 0 4 (fun a => node_services a) tt
              cut tick error_text pace paced fuel parse_result 2000 1 a ch
              (lit "minirpc.example.CalculatorService.Calc") (add_request i) None (Mini RpcController_new)
              (mkCalcResponse d_zero [] []) w v) as (ch' & c & m & v' & r & Hc & Hr & Hout & Hg); try done.
  { apply node_total. } { by apply roster_apart. }
  { split; [done|]. split; [done|]. intros r (st' & ->%Hrep). apply Ht. by exists nd. }
  apply Hrep in Hr as ->. unfold reply_outcome, sum_reply in Hout. cbn [error_code kOk Z.eqb response] in Hout.
  rewrite result_roundtrip in Hout. injection Hout as -> ->. exists ch', (Mini (Reset RpcController_new)), v'. split; [exact Hc|]. by split.
Qed.

(** What [lb_client] asks of a cluster. *)
Lemma roster_healthy :
  Healthy (H := channel_) client inet_pton (fun w => (tnow w, w)) serialize_query parseDiscover parse_result
    (mkCalcResponse d_zero [] []) cs_server_id add_request registry_at roster up leads_.
Proof.
  split.
  - apply roster_apart.
  - intros nd nd' H1' H2' Heq. by rewrite (roster_own nd nd').
  - intros w ((Hok & _) & _). unfold leads. rewrite decide_True by done. by apply new_channel.
  - intros nd w Hin ((_ & _ & Hrun) & _). destruct (Hrun nd Hin) as (v & Hv & Hok). unfold leads.
    rewrite decide_False by (by apply roster_apart). exists v. split; [done|]. by apply new_channel.
  - done.
  - intros ch w Hup Hch. destruct Hup as ((_ & Hi & Hrun) & Htab). unfold leads in Hch.
    rewrite decide_True in Hch by done.
    destruct (discover_call client host clock iterate rloop rn rst0 registry_at loop name 0 4 (fun a => node_services a) tt
                cut tick error_text pace paced fuel calc ch w Hch) as (ch' & c & v & Hc & Hf & Hg & Hst).
    { unfold discover_fits. by rewrite (listing_table _ Htab). }
    rewrite (listing_table _ Htab) in Hc. eexists _, _, _, _, _. split; [exact Hc|]. split; [done|]. split; [done|].
    assert (Htab' : reg_ (registry_state (set_registry w v)) = table).
    { change (registry_state (set_registry w v)) with (service (srv v)). rewrite Hst, Htab. cbn [next reg_].
      apply purge_fresh; [done|]. intros svc key e. apply table_fresh. }
    split; [|split].
    + split; [|done]. split; [apply Hg|]. split; [by rewrite Htab'|exact Hrun].
    + unfold leads. by rewrite decide_True.
    + intros y ch2 Hne. by apply leads_set_registry.
  - intros nd ch i w Hin Hup Hch. unfold leads in Hch. rewrite decide_False in Hch by (by apply roster_apart).
    destruct Hch as (v & Hv & Hgood). destruct (roster_call nd ch i w v Hin Hv Hgood) as (ch' & c & v' & Hc & Hf & Hg).
    eexists _, _, _, _, _. split; [exact Hc|]. split; [done|]. split; [done|]. destruct Hup as [Hst Htab].
    split; [|split].
    + split; [|done]. apply standing_set_node; [done|done|]. apply Hg.
    + unfold leads. rewrite decide_False by (by apply roster_apart). exists v'. cbn. by rewrite decide_True.
    + intros y ch2 Hne. by apply leads_set_node.
Qed.

(** C10. The demonstration, whole: [lb_client] with round robin, against a registry server and the
    programs of rpc_node.cpp at the addresses the registry lists, every call through sockets,
    frames, event loops, pools and services whose threads run in any order that brings them to
    rest; the registry's entries stay fresh during the run. The program returns 0 and reports no
    failure and the same number of calls for every node. *)
Theorem lb_client_on_cluster (args : list bytes) (w : world) (rounds : nat)
  (Hregistry : InetAddress_of_ip client inet_pton (lit "127.0.0.1") (lb_options args).1.1 = registry_at)
  (Hrr : (lb_options args).2 = LB.kRoundRobin)
  (Hcalls : (lb_options args).1.2 = Z.of_nat (rounds * length roster)) (Hrounds : 0 < rounds)
  (Hsmall : (Z.of_nat (rounds * length roster) < 2 ^ 31)%Z)
  (Hup : up w) (Hsome : roster <> []) (Hnames : NoDup (map node_name roster)) :
  exists counts,
    lb_main (H := channel_) client inet_pton std_hash (fun w => (tnow w, w)) serialize_query parseDiscover
      parse_result (mkCalcResponse d_zero [] []) cs_server_id add_request args w
    = Some (length roster, (counts, 0), 0%Z) /\
    forall nd, nd ∈ roster -> counts !! node_name nd = Some rounds.
Proof.
  apply (lb_client_even client inet_pton std_hash (fun w => (tnow w, w)) serialize_query parseDiscover parse_result
           (mkCalcResponse d_zero [] []) cs_server_id add_request args w roster up leads_ rounds); try done.
  rewrite Hregistry. apply roster_healthy.
Qed.

End CalculatorCluster.

(** ** Witnesses *)

Module ClusterSamples.
Import SampleEnvelope RegistryServer.RegistrySamples CalcSamples ClientSamples.

(** Two nodes, registered when the registry's clock began, which stops before its timeout. *)
Definition one : NodeInfo := mkNode (lit "1") (lit "a") 81.
Definition two : NodeInfo := mkNode (lit "2") (lit "b") 82.
Definition pton (b : bytes) : option Z :=
  if decide (b = lit "a") then Some 1%Z else if decide (b = lit "b") then Some 2%Z else Some 7%Z.
Abbreviation calc := (lit "minirpc.example.CalculatorService").
Definition rtable : Registry := (Register 3 calc two None (Register 0 calc one None (Registry_new 6000)).2).2.
Definition rclock (k : nat) : Z := Z.min (Z.of_nat k) 1000000.
Definition rstart : RegState := mkRegState rtable 0.

Definition registry_home : sockaddr_in := InetAddress_of_ip LittleEndian pton (lit "127.0.0.1") 18800.
Abbreviation home_of nd := (LB.key_address LittleEndian pton (LB.nodeKeyOf nd)).
Definition name_at (a : sockaddr_in) : bytes := if decide (a = home_of one) then lit "1" else lit "2".

Definition quarter (i : Z) : Z := (i mod 4)%Z.
Definition put_request (q : CalcRequest (D := Z)) : bytes := put (cq_a q, cq_b q, cq_op q).
Definition get_response (b : bytes) : bool * CalcResponse (D := Z) :=
  match get b : option (Z * bytes * bytes) with
  | Some (x, e, i) => (true, mkCalcResponse x e i)
  | None => (false, mkCalcResponse 0%Z [] [])
  end.

(** The machines, just started. *)
Abbreviation rservices := [registry_service rclock map_to_list].
Abbreviation nservices a := [echo_service; calc_service (node_Calc (D := Z) (name_at a))].
Definition registry_machine : Net :=
  mkNet (Server_start (Pipeline.start (fun i => i) (configured 0 (lit "registry") 0 1 rservices)) rstart) ∅ 3 0 0.
Definition node_machine (a : sockaddr_in) : Net :=
  mkNet (Server_start (Pipeline.start (fun i => i) (configured 0 (name_at a) 0 4 (nservices a))) tt) ∅ 3 0 0.
Definition two_nodes : Cluster (St := unit) :=
  mkCluster registry_machine
    (fun a => if decide (a = home_of one \/ a = home_of two) then Some (node_machine a) else None).

#[local] Instance registry_schedule : Schedule BigEndian 0 (lit "registry") 0 1 rservices rstart :=
  eager_schedule BigEndian 0 (lit "registry") 0 1 rservices rstart Nat.lt_0_1.
#[local] Instance node_schedule a : Schedule BigEndian 0 (name_at a) 0 4 (nservices a) tt :=
  eager_schedule BigEndian 0 (name_at a) 0 4 (nservices a) tt (Nat.lt_0_succ 3).

Definition cut100 (t : nat) : nat := 100 + t mod 7.
Definition tick1 (_ : nat) : N := 1.
Abbreviation channel :=
  (cluster_channel LittleEndian BigEndian rclock map_to_list 0 1 rstart registry_home 0 name_at 0 4
     (fun a => nservices a) tt cut100 tick1 (fun _ => []) 4900).

Lemma sample_roster : roster map_to_list rtable = [one; two].
Proof. vm_compute. reflexivity. Qed.

Lemma in_roster (P : NodeInfo -> Prop) : P one -> P two -> forall nd, nd ∈ roster map_to_list rtable -> P nd.
Proof.
  intros H1 H2 nd. rewrite sample_roster, !elem_of_cons, elem_of_nil. by intros [->|[->|[]]].
Qed.

Lemma rtable_inv : inv rtable.
Proof. by repeat apply inv_register; try (split; [discriminate|reflexivity]); apply inv_new. Qed.

Lemma rtable_fresh k svc key e : entry rtable svc key = Some e -> expired rtable (rclock k) e = false.
Proof.
  unfold rtable. rewrite !entry_register. intros He. apply Z.ltb_ge.
  assert (Hl : (0 <= lastHeartbeat e)%Z).
  { revert He. repeat case_decide; [intros [= <-]; done..|]. unfold entry. cbn. by rewrite lookup_empty. }
  cbn. unfold rclock. lia.
Qed.

Lemma sample_up :
  up LittleEndian BigEndian rclock map_to_list 0 1 rstart pton 0 name_at rtable two_nodes.
Proof.
  split; [|done]. split; [apply (booted_ok BigEndian 0 (lit "registry") 0 1 rservices (fun i => i) rstart 3 0)|].
  split; [exact rtable_inv|]. intros nd Hnd. exists (node_machine (home_of nd)). split.
  - revert nd Hnd. apply in_roster; cbn; rewrite decide_True; auto.
  - apply (booted_ok BigEndian 0 (name_at (home_of nd)) 0 4 (nservices (home_of nd)) (fun i => i) tt 3 0).
Qed.

(** A bound on the sizes is enough. *)
Lemma fits_bound ms mname req (reply : RpcResponse -> Prop) :
  (1 <= ms)%Z -> length (serializeRequest (mkRpcRequest mname req)) <= 4800 ->
  (forall r, reply r -> length (serializeResponse r) <= 4800) -> fits_in 1 4900 ms mname req reply.
Proof.
  intros Hms Hreq Hrep. unfold fits_in, timely, kMaxBodySize, kHeaderSize. split; [lia|]. split; [lia|].
  intros r Hr. specialize (Hrep r Hr). lia.
Qed.

Lemma sample_discover :
  fits_in 1 4900 1500 (event_method (EvDiscover calc)) (serialize_query calc)
    (fun r => r = mkRpcResponse kOk [] (serialize_found (mkDiscover okCode [] (roster map_to_list rtable)))).
Proof.
  apply fits_bound; [done|apply Nat.leb_le; by vm_compute|]. intros r ->. rewrite sample_roster.
  apply Nat.leb_le. by vm_compute.
Qed.

Lemma quarter_cases i : exists x y, quarter i = x /\ quarter (i + 1) = y /\
  (x, y) ∈ [(0, 1); (1, 2); (2, 3); (3, 0)]%Z.
Proof.
  exists (quarter i), (quarter (i + 1)). split; [done|]. split; [done|]. unfold quarter.
  assert (Hc : (i mod 4 = 0 /\ (i + 1) mod 4 = 1 \/ i mod 4 = 1 /\ (i + 1) mod 4 = 2 \/
                i mod 4 = 2 /\ (i + 1) mod 4 = 3 \/ i mod 4 = 3 /\ (i + 1) mod 4 = 0)%Z)
    by (Z.div_mod_to_equations; lia).
  rewrite !elem_of_cons, elem_of_nil. destruct Hc as [[-> ->]|[[-> ->]|[[-> ->]|[-> ->]]]]; tauto.
Qed.

Lemma sample_calls i :
  fits_in 1 4900 2000 (lit "minirpc.example.CalculatorService.Calc") (add_request quarter put_request i)
    (fun r => exists nd, nd ∈ roster map_to_list rtable /\ r = sum_reply quarter nd i).
Proof.
  unfold add_request, sum_reply. destruct (quarter_cases i) as (x & y & -> & -> & Hxy).
  rewrite !elem_of_cons, elem_of_nil in Hxy.
  apply fits_bound; [done| |].
  - destruct Hxy as [[= -> ->]|[[= -> ->]|[[= -> ->]|[[= -> ->]|[]]]]]; apply Nat.leb_le; by vm_compute.
  - intros r (nd & Hnd & ->). revert nd Hnd.
    apply in_roster; destruct Hxy as [[= -> ->]|[[= -> ->]|[[= -> ->]|[[= -> ->]|[]]]]]; apply Nat.leb_le; by vm_compute.
Qed.

Lemma request_roundtrip q : parse_calc (put_request q) = Some q.
Proof. cbn. unfold put_request. rewrite get_put. by destruct q. Qed.
Lemma response_roundtrip r : get_response (serialize_result r) = (true, r).
Proof. cbn. unfold get_response. rewrite get_put. by destruct r. Qed.

Lemma sample_addresses :
  NoDup (registry_home :: map (fun nd => home_of nd) (roster map_to_list rtable)).
Proof. rewrite sample_roster. apply (bool_decide_unpack _). vm_compute. reflexivity. Qed.

Lemma sample_names nd : nd ∈ roster map_to_list rtable -> name_at (home_of nd) = node_name nd.
Proof. revert nd. apply in_roster; vm_compute; reflexivity. Qed.

Definition run_client (args : list bytes) :=
  lb_main (H := channel) LittleEndian pton (fun _ => 0%Z) (fun w => (0%Z, w)) serialize_query parseDiscover
    get_response (mkCalcResponse 0%Z [] []) cs_server_id (add_request quarter put_request) args two_nodes.

Lemma lb_client_on_cluster_witness :
  exists counts, run_client [lit "18800"; lit "4"] = Some (2, (counts, 0), 0%Z) /\
    counts !! lit "1" = Some 2 /\ counts !! lit "2" = Some 2.
Proof.
  destruct (lb_client_on_cluster LittleEndian BigEndian rclock map_to_list 0 1 rstart registry_home
              cut100 tick1 (fun _ => []) 1 (fun _ => Z.le_refl 1) 4900 pton (fun _ => 0%Z) quarter put_request
              get_response request_roundtrip response_roundtrip 0 name_at (fun _ => 0%Z) rtable rtable_inv rtable_fresh
              sample_addresses sample_names sample_discover sample_calls [lit "18800"; lit "4"] two_nodes 2)
    as (counts & Hmain & Hall).
  - reflexivity.
  - reflexivity.
  - rewrite sample_roster. reflexivity.
  - lia.
  - rewrite sample_roster. reflexivity.
  - exact sample_up.
  - rewrite sample_roster. discriminate.
  - rewrite sample_roster. apply (bool_decide_unpack _). reflexivity.
  - exists counts. rewrite sample_roster in Hmain, Hall. split; [exact Hmain|].
    split; [apply (Hall one); by left|apply (Hall two); right; by left].
Defined.

(** The same cluster, called once through consistent hashing. *)
Definition hash7 (b : bytes) : Z := Z.of_nat (length b) * 7.
Definition fresh_lb : LB.LoadBalanceChannel :=
  LB.LoadBalanceChannel_new (H := channel) registry_home calc LB.kConsistentHash 1000 2000 1.

Lemma sample_fleet :
  fleet_ok LittleEndian BigEndian registry_home 0 name_at 0 4 (fun a => nservices a) pton (roster map_to_list rtable).
Proof.
  split.
  - apply (roster_apart LittleEndian map_to_list registry_home pton rtable sample_addresses).
  - intros nd nd' H1 H2 Ha.
    by rewrite (roster_own LittleEndian map_to_list registry_home pton rtable sample_addresses nd nd').
  - intros nd _. apply (node_total BigEndian 0 name_at).
Qed.

Lemma fresh_wired :
  wired LittleEndian BigEndian rclock map_to_list 0 1 rstart registry_home 0 name_at 0 4 (fun a => nservices a) tt pton
    hash7 (roster map_to_list rtable) fresh_lb two_nodes.
Proof.
  split; try done.
  - apply sample_up.
  - apply LB.new_ready.
  - cbn. intros nd Hnd. by apply elem_of_nil in Hnd.
  - apply new_channel, sample_up.
Qed.

Definition one_call :=
  LB.CallMethod (H := channel) LittleEndian pton hash7 (fun w => (0%Z, w)) serialize_query parseDiscover get_response
    (lit "minirpc.example.CalculatorService.Calc") (add_request quarter put_request 1) (Some 9)
    (Mini RpcController_new) (mkCalcResponse 0%Z [] []) fresh_lb two_nodes.

Lemma cluster_call_witness :
  exists o, one_call = Some o /\ LB.ran o = [9] /\ length (LB.called o) <= 1 /\
    wired LittleEndian BigEndian rclock map_to_list 0 1 rstart registry_home 0 name_at 0 4 (fun a => nservices a) tt
      pton hash7 (roster map_to_list rtable) (LB.lb o) (LB.oc_world o).
Proof.
  assert (Hlist : listing rclock map_to_list calc (registry_state two_nodes)
                  = mkDiscover okCode [] (roster map_to_list rtable)) by (vm_compute; reflexivity).
  destruct (cluster_call LittleEndian BigEndian rclock map_to_list (fun m => Permutation_refl _) 0 1 rstart
              registry_home 0 name_at 0 4 (fun a => nservices a) tt cut100 tick1 (fun _ => []) 1
              (fun _ => Z.le_refl 1) 4900 pton hash7 (fun _ => 0%Z) get_response (roster map_to_list rtable)
              sample_fleet (lit "minirpc.example.CalculatorService.Calc") (add_request quarter put_request 1)
              (Some 9) (Mini RpcController_new) (mkCalcResponse 0%Z [] []) fresh_lb two_nodes fresh_wired)
    as (o & Ho & Hran & Hw & _ & Hpost).
  - unfold discover_fits. change (LB.serviceName_ fresh_lb) with calc. rewrite Hlist. exact sample_discover.
  - change (LB.serviceName_ fresh_lb) with calc. by rewrite Hlist.
  - intros nd v Hnd _. assert (Hrep : forall st st' r,
      reply_for (registry_ (configured 0 (name_at (home_of nd)) 0 4 (nservices (home_of nd)))) st
        (serializeRequest (mkRpcRequest (lit "minirpc.example.CalculatorService.Calc")
                             (add_request quarter put_request 1))) st' r -> r = sum_reply quarter nd 1).
    { intros st st' r Hr. apply (node_reply BigEndian put_request request_roundtrip 0 name_at) in Hr as ->.
      by rewrite sample_names. }
    destruct (sample_calls 1) as (Hs & Hf & Ht). split; [split; [exact Hs|split; [exact Hf|]]|].
    + intros r (st' & Hr%Hrep). apply Ht. exists nd. exact (conj Hnd Hr).
    + intros st' r ->%Hrep. split; [discriminate|]. split; discriminate.
  - exists o. split; [exact Ho|]. split; [exact Hran|]. split; [|exact Hw].
    destruct Hpost as [_ Hc _ _ _|nd v v' r _ Hc _ _ _ _ _]; rewrite Hc; cbn; lia.
Defined.

(** *** A service that reports a failure of its own *)

(** It counts its calls, and fails with [code]. *)
Definition failing_service (code : ErrorCode) : Service bytes nat := {|
  full_name := calc;
  FindMethodByName mname :=
    if decide (mname = lit "Calc") then Some {|
      ParseRequest b := Some b;
      NewResponse := [];
      Service.CallMethod st c req rsp := (S st, Ok (SetFailedCode c code (lit "disk full"), rsp));
      SerializeResponse b := b;
    |} else None;
|}.
#[local] Instance failing_schedule code a : Schedule BigEndian 0 (name_at a) 0 4 [failing_service code] 0 :=
  eager_schedule BigEndian 0 (name_at a) 0 4 [failing_service code] 0 (Nat.lt_0_succ 3).
Abbreviation failing_channel code :=
  (cluster_channel LittleEndian BigEndian rclock map_to_list 0 1 rstart registry_home 0 name_at 0 4
     (fun _ => [failing_service code]) 0 cut100 tick1 (fun _ => []) 4900).
Abbreviation failing_server code a := (configured 0 (name_at a) 0 4 [failing_service code]).
Definition failing_machine (code : ErrorCode) (a : sockaddr_in) : Net :=
  mkNet (Server_start (Pipeline.start (fun i => i) (failing_server code a)) 0) ∅ 3 0 0.
Definition failing_nodes (code : ErrorCode) : Cluster (St := nat) :=
  mkCluster registry_machine
    (fun a => if decide (a = home_of one \/ a = home_of two) then Some (failing_machine code a) else None).
Definition runs_at (w : Cluster (St := nat)) (nd : NodeInfo) : option nat :=
  (fun v => service (srv v)) <$> at_node w (home_of nd).

Lemma failing_find code a svc :
  findService (registry_ (failing_server code a)) svc = if decide (svc = calc) then Some (failing_service code) else None.
Proof.
  transitivity (findService (registry_ (addService_ (RpcServer_new 0 (name_at a) 0)
                                          (Some (failing_service code))).2) svc); [done|].
  rewrite registered_find by apply lookup_empty. change (full_name (failing_service code)) with calc.
  case_decide; [done|apply lookup_empty].
Qed.

Lemma failing_total code a : never_throws BigEndian (registry_ (failing_server code a)).
Proof.
  apply methods_never_throw. intros svc service mname meth st c req rsp. rewrite failing_find.
  case_decide; [|done]. intros [= <-]. cbn. case_decide; [|done]. intros [= <-]. cbn. eauto.
Qed.

Lemma failing_reply code a st st' r :
  reply_for (registry_ (failing_server code a)) st (serializeRequest (mkRpcRequest (calc ++ lit ".Calc") (lit "x"))) st' r ->
  st' = S st /\ r = mkRpcResponse code (lit "disk full") [].
Proof.
  intros Hr. eapply (reply_unique BigEndian); [exact Hr|].
  refine (reply_service_failed _ _ _ (mkRpcRequest (calc ++ lit ".Calc") (lit "x")) calc (lit "Calc") (failing_service code)
            _ (lit "x") (S st) (SetFailedCode RpcController_new code (lit "disk full")) [] _ _ _ _ _ _ _ _ _ _).
  - apply parse_serializeRequest.
  - done.
  - apply (bool_decide_unpack _). by vm_compute.
  - done.
  - done.
  - by rewrite failing_find, decide_True.
  - cbn. by rewrite decide_True.
  - done.
  - done.
  - done.
Qed.

Definition failing_lb code (ty : LB.BalanceType) : LB.LoadBalanceChannel :=
  LB.LoadBalanceChannel_new (H := failing_channel code) registry_home calc ty 1000 2000 1.

Lemma failing_wired code ty :
  wired LittleEndian BigEndian rclock map_to_list 0 1 rstart registry_home 0 name_at 0 4
    (fun _ => [failing_service code]) 0 pton hash7 (roster map_to_list rtable) (failing_lb code ty) (failing_nodes code).
Proof.
  assert (Hst : standing LittleEndian BigEndian rclock map_to_list 0 1 rstart 0 name_at 0 4
                  (fun _ => [failing_service code]) 0 pton (roster map_to_list rtable) (failing_nodes code)).
  { split; [apply (booted_ok BigEndian 0 (lit "registry") 0 1 rservices (fun i => i) rstart 3 0)|].
    split; [exact rtable_inv|]. intros nd Hnd. exists (failing_machine code (home_of nd)). split.
    - revert nd Hnd. apply in_roster; cbn; rewrite decide_True; auto.
    - apply (booted_ok BigEndian 0 (name_at (home_of nd)) 0 4 [failing_service code] (fun i => i) 0 3 0). }
  split; try done.
  - apply LB.new_ready.
  - cbn. intros nd Hnd. by apply elem_of_nil in Hnd.
  - apply new_channel, Hst.
Qed.

Lemma failing_fleet code :
  fleet_ok LittleEndian BigEndian registry_home 0 name_at 0 4 (fun _ => [failing_service code]) pton
    (roster map_to_list rtable).
Proof. destruct sample_fleet as [H1 H2 _]. split; [exact H1|exact H2|]. intros nd _. apply failing_total. Qed.

Definition failing_call (code : ErrorCode) (ty : LB.BalanceType) :=
  LB.CallMethod (H := failing_channel code) LittleEndian pton hash7 (fun w => (0%Z, w)) serialize_query parseDiscover
    (fun b => (true, b)) (calc ++ lit ".Calc") (lit "x") None (Mini RpcController_new) [] (failing_lb code ty)
    (failing_nodes code).

(** For each of the three codes and either policy. *)
Lemma service_error_runs_twice_witness :
  Forall (fun '(code, ty) => exists o nd1 nd2, failing_call code ty = Some o /\
      LB.called o = [LB.nodeKeyOf nd1; LB.nodeKeyOf nd2] /\ home_of nd1 <> home_of nd2 /\
      runs_at (LB.oc_world o) nd1 = Some 1 /\ runs_at (LB.oc_world o) nd2 = Some 1 /\
      LB.oc_ctrl o = Mini (SetFailedCode RpcController_new code (lit "disk full")))
    [(kClosed, LB.kRoundRobin); (kSystem, LB.kConsistentHash); (kTimeout, LB.kRoundRobin)].
Proof.
  assert (Hlist : forall k, k <= 2 ->
    listing rclock map_to_list calc (Nat.iter k (turned rclock) rstart) = mkDiscover okCode [] (roster map_to_list rtable)).
  { intros k Hk. destruct k as [|[|[|k]]]; [vm_compute; reflexivity..|lia]. }
  apply list.Forall_forall. intros [code ty] Hin.
  assert (Hcode : unsettled (mkRpcResponse code (lit "disk full") []) /\
                  length (serializeResponse (mkRpcResponse code (lit "disk full") [])) <= 4800 /\
                  (code =? kOk)%Z = false).
  { rewrite !elem_of_cons, elem_of_nil in Hin. unfold unsettled.
    destruct Hin as [[= -> ->]|[[= -> ->]|[[= -> ->]|[]]]]; split; auto; split; try done; apply Nat.leb_le; by vm_compute. }
  destruct Hcode as (Hcode & Hsmall & Hok).
  destruct (service_error_runs_twice LittleEndian BigEndian rclock map_to_list (fun m => Permutation_refl _) 0 1 rstart
              registry_home 0 name_at 0 4 (fun _ => [failing_service code]) 0 cut100 tick1 (fun _ => []) 1
              (fun _ => Z.le_refl 1) 4900 pton hash7 (fun _ => 0%Z) (fun b => (true, b)) (roster map_to_list rtable)
              (failing_fleet code) (calc ++ lit ".Calc") (lit "x") RpcController_new [] (failing_lb code ty)
              (failing_nodes code) (failing_wired code ty))
    as (o & nd1 & nd2 & r1 & r2 & Ho & _ & Hcalled & _ & _ & Hdiff & H1 & H2 & Hout & _).
  - by left.
  - intros k Hk. change (registry_state (failing_nodes code)) with rstart. unfold lists_two, discover_fits.
    change (LB.serviceName_ (failing_lb code ty)) with calc. rewrite (Hlist k Hk). split; [exact sample_discover|].
    split; [done|]. cbn [nodes]. rewrite sample_roster. cbn. lia.
  - intros nd v _ _. split; [|by intros st' r [_ ->]%failing_reply].
    apply fits_bound; [done|apply Nat.leb_le; by vm_compute|]. by intros r (st' & [_ ->]%failing_reply).
  - exists o, nd1, nd2. split; [exact Ho|]. split; [exact Hcalled|]. split; [exact Hdiff|].
    assert (Hruns : forall nd r, ran_once LittleEndian 0 name_at 0 4 (fun _ => [failing_service code]) pton
                (calc ++ lit ".Calc") (lit "x") (failing_nodes code) (LB.oc_world o) nd r ->
              runs_at (LB.oc_world o) nd = Some 1 /\ r = mkRpcResponse code (lit "disk full") []).
    { intros nd r (v & v' & Hv & Hv' & [Hst ->]%failing_reply). unfold runs_at. rewrite Hv'. cbn. rewrite Hst.
      split; [|done]. cbn in Hv. case_decide; [|done]. by injection Hv as <-. }
    apply Hruns in H1 as [H1 _], H2 as [H2 ->]. split; [exact H1|]. split; [exact H2|].
    unfold reply_outcome in Hout. cbn [error_code error_message response] in Hout. rewrite Hok in Hout.
    by injection Hout.
Defined.

End ClusterSamples.
